(* ===== verification/_CoqProject ===== *)
-Q . S2P
Prelude.v
GoStrings.v
Bytes.v
Crc32c.v
RecordFmt.v
GoPath.v
GoURL.v
GoFlag.v
Disk.v
Index.v
Segment.v
CommitLog.v
LogRep.v
LogRead.v
LogOpen.v
Partitioner.v
Assignor.v
Cluster.v
Coordinator.v
GroupSafety.v
GroupOffsets.v
LogInterface.v
Store.v
Wire.v
BrokerState.v
Metadata.v
Client.v
Consumer.v
Replica.v
Produce.v
Handlers.v
Net.v
Follow.v
Background.v
Failover.v
Divergence.v
Routes.v
OffsetsTopic.v
CommandLine.v
ErrorText.v
Commands.v
Consuming.v
Bench.v
ReplicationSafety.v
Survival.v
Gaps.v
BrokerSafety.v
Elections.v
