(* ===== verification/Prelude.v ===== *)
(** * logship: a verification development

    logship is a small Kafka-like broker in Go. Producers append records to
    topic partitions; every partition is a segmented, checksummed commit log on
    disk with a high watermark; a static set of brokers replicates partitions
    and elects a controller by heartbeats; the controller coordinates consumer
    groups.  The development models the parts below as executable functions
    translated from the source and proves what makes them correct, and, where
    the code does not do what it means to, proves that, in general or on concrete
    inputs.

    ** Parts, files and correspondence

    - [Prelude] (this file): errors, the result type [res] ([Ok], [Err],
      [Panicked], [Diverged]), the state monad [M] with [attempt] (test an
      [error]), [zoom] (work on a component) and [local]; generic list lemmas.
    - [GoStrings], [Bytes], [Crc32c]: what the code uses of Go's standard
      library: [strconv], [strings], [sort.Strings], [encoding/binary], CRC-32C.
    - [RecordFmt]: [internal/record/record.go].  [Encode], [Decode], [DecodeAt],
      [decode], [readFull] over an arbitrary reader; [reader_spec] is the
      [io.Reader] contract, [decode_bytes] the specification of the decoder on a
      byte string and [decode_refines] the refinement.
    - [Disk]: package [os] under one partition directory: file contents,
      descriptor offsets, and a list of faults for the next system calls ([Fail
      k] lets [k] bytes through first).  [quiet] is the fault-free disk.
    - [Index], [Segment]: [internal/log/index.go] and [segment.go]; methods act
      on the segment and the disk.  [seg_data] says a segment holds a list of
      records and is ready for reading, [seg_tail] what appending needs besides.
    - [CommitLog]: [internal/log/log.go], every method; [active] is the index of
      the segment [l.active] points to.  [LogRep] says what a log holds
      ([log_rep], [holds]) and proves appending; [LogRead] proves reading and
      [WaitHighWatermark]; [LogOpen] proves recovery after a crash, which keeps the
      first bytes of the active data file and leaves its index in any state
      ([crash]); [stored] says what the data files hold then.
    - [Partitioner]: [internal/routing/partitioner.go].
    - [Assignor]: [internal/assignor/range.go]; the class [PartitionAssignor] is
      what the coordinator relies on, [RangeAssign_assignor] discharges it.
    - [Cluster]: [internal/cluster/cluster.go].
    - [Coordinator]: [internal/group/coordinator.go]; [GroupSafety] makes it a
      step relation with reachability and proves its invariants through the
      class [PartitionAssignor] only; [GroupOffsets] relates the table of
      committed offsets to the map it stands for.

    - [GoPath]: [strings.Split], [strings.Cut] and [path/filepath].  [GoURL]: what
      the code uses of [net/url].  [GoFlag]: package [flag].
    - [LogInterface]: what the broker uses of a log: [LogOps] (the calls) and
      [LogLaws] (what they promise, in terms of the records a log holds).
      [CommitLog] on its disk is an instance; the broker's theorems use the
      class only.
    - [Store]: [internal/store/store.go] over any log.
    - [Wire]: the messages of [internal/protocol/types.go], and the coercion of
      strings to UTF-8 by [encoding/json].
    - [BrokerState]: [internal/broker/config.go], the [Broker] of [broker.go] and
      access to its parts.  [Metadata]: [metadata.go], [controllerTick],
      [createTopicLocked] and [New].  [Replica]: [replica.go].  [Produce]:
      [produceLocal] and [serveFetch] of [handlers.go] and [replicateOffset].
      ([produce_append] is the handling of a record up to the answer,
      [answer_record] the answer, with the wait of acks=all).
      [Handlers]: the other handlers and [tick], which [tick_with] describes for
      one broker or for a broker on a net.
    - [Client]: [internal/client/client.go] over a transport.  [Net]: several
      brokers by address, and the requests they pass on to one another.
    - [Follow]: [followLoop] of [replica.go] on a net, round by round.
      [Background]: [Start] and [Close] of [broker.go], heartbeats, metadata pushes
      and the tick on a net.  [Failover]: a tick of the controller after leaders
      died.
    - [Routes]: the routes [Start] registers, [net/http]'s matching of paths, the
      path and query of every call of [client.go], the parameters the handlers
      read, and the request [forwardGroup] sends on.
    - [Consumer]: [consumeCmd] of [cmd/logship-cli/main.go] over the calls of the
      client, its trace of events, and the cursors it implements; [Consuming]
      runs it against a broker.  [CommandLine]: environment, lists of peers and
      brokers, the configuration of a broker.  [Commands]: every command of
      [cmd/logship-cli/main.go] from its arguments to the calls it makes, and
      [main] of [cmd/logship/main.go] from the flags to the shutdown.  [Bench]:
      [cmd/bench/main.go] from its flags to its report: the shares of its workers,
      the workers taking turns ([schedule]), and its scan.
    - [ErrorText]: the texts of the broker's errors, and what [handleProduce] reads
      off a text.
    - [OffsetsTopic]: a commit at the controller, through coordinator, hook and
      the topic [__consumer_offsets].
    - [ReplicationSafety]: one partition, a leader, its followers and their
      messages as a step relation with the broker's operations as steps; messages
      may be late, repeated or lost.  [steady] is a step under one leader (an
      append, the shortcut of a sole replica, a fetch, an answer, an ack, a
      recomputation, news of other brokers), [step] adds a change of leader to a
      follower no other one is ahead of.  The wait of an acks=all request is a
      sequence of such steps.  [Survival]: a member of the ISR takes over.
    - [BrokerSafety]: the brokers over their lives, every request, message, follower
      round and tick being a step ([handled]); [kept] is the principle by which a
      predicate is shown to be kept by all of them.  [lives]: the states a broker
      can be in, through starts, restarts and steps in which the metadata pushes it
      receives are those that brokers in such states make ([made]).
    - [Elections]: the partition when the leader changes at any time: brokers append,
      fetch, follow, restart and handle everything else in any order ([moves]), two
      may lead at once, logs may diverge.  [Gaps]: what a replica that is behind or
      ahead of its leader does to committed records when it comes to lead.
      [Divergence]: a run of three brokers in which that happens.

    ** What the theorems show

    - Records: round trip; nothing but an encoding is accepted; torn and flipped
      records are reported; the two gaps of the size checks.
    - Log: appends number records consecutively and survive rotation; segments
      stay within their size; reads return records in range, in order, make
      progress, are complete within the budget and contiguous in the last two
      segments, and skip records otherwise; recovery keeps exactly the whole
      records, and the log is ready for use unless a stale index is left without
      data; high watermark and waiting; what stale index entries and failed
      writes lose.
    - Groups: partition ownership is exclusive in every reachable state and
      between members that synced in one generation; coverage of subscriptions;
      generations; heartbeats; a tick bounds a rebalance; committed offsets are
      a map as long as group names have no slash; a commit reaches the table and
      its file, and the offsets topic where the controller leads it.
    - Assignor, partitioner, cluster: balanced contiguous shares covering every
      partition once; range and fairness of partition choice; the controller is
      the lowest live broker.
    - Metadata: placement of new topics; a tick repairs leadership and never
      panics; pushes propagate; the topics file reloads; failover ignores the
      ISR.
    - Replication: follower logs are prefixes of the leader's in every reachable
      state; what the high watermark covers when it rises is on every member of
      the ISR, and is served by any of them that takes over.  While only members of
      that ISR come to lead, committed records, and records acknowledged with
      acks=all, stay where they are on all of them and on every leader, through any
      number of changes of leader.  A later ISR can hold a replica that lacks them:
      any live replica counts as in sync once it acks, one that is ahead of the
      leader or below an earlier high watermark too, and when it leads its records
      stand in for the committed ones, or nothing does.  A follower left in peace
      catches up, and with it the high watermark; what it gets are the records as
      JSON transmits them, equal to the leader's exactly where those are UTF-8.
    - Producing and fetching: without acks=all, every record of a request to the
      leader is appended in order to the partition it is routed to; acks=all waits for the high
      watermark; consumers see committed records only; batches across leaders
      can be half appended.
    - Several brokers: a keyed record reaches the leader from whichever broker is
      asked; group requests stop at a controller; a push makes brokers that have
      heard from the controller agree with it, and one tick of the controller
      after the death of a leader leaves all of them with the same live leaders;
      produce requests can bounce between brokers whose views cross, and a leader
      that restarts with its own topics file hides records acknowledged
      meanwhile.
    - Requests: every call of the client reaches its handler, with the group and
      the query as they were given; a group request sent on keeps plain names and
      decodes those that look escaped.
    - Commands: arguments parse as they are written; a produce command without
      acks=all against brokers that agree ends in the leader's log; the other commands make the
      calls they name; the benchmark ends and reports what happened, counting no
      record twice.
    - Client and consumer: the first good answer counts, at most five requests
      follow redirects; the consumer is a set of cursors, commits only what it
      printed and prints nothing twice between rebalances; a failed fetch of the
      committed offsets makes it skip records.

    ** Modelling choices

    - A mutex-protected method is one atomic step on the state.  Clock readings
      and random identifiers are arguments.
    - Integers are [Z].  Fixed-width wrap-around is written out where the source
      converts or computes in uint32/uint64 ([u32], [u64], [i64]); byte counters
      of a segment and the generation number are not wrapped at 64 bits.
    - Go maps are [gmap]; an iteration whose order could matter is modelled by
      an order-independent function or by sorting, as the code does.
    - Loops that are not structural take fuel: [readFull] one unit per missing
      byte, the recovery scans one per byte of the file, [readFrom] one per byte
      of the segment, [sort.Search] one per index entry.  Running out is
      [Diverged]; the theorems give [Ok] results, so the fuel suffices.
    - The theorems about a log assume a fault-free disk ([quiet]); the faulty
      ones are concrete runs.  The segment size limit is below 2^32, above which
      index positions wrap.

    - A handler reads the clock once ([now]); a produce request carries the
      clocks and, for acks=all, what other calls do to the broker between the
      looks at the high watermark ([call_env]).  Handlers run to completion one
      at a time otherwise, where the code takes locks per component.
    - A handler is given the decoded request and returns its answer; a request
      to another broker is an argument, or in [Net] a call on that broker whose
      nesting [hops] bounds.  In [group_requests_stop_at_a_controller] the id of
      the broker asked is enough; [produce_can_bounce_between_brokers] says that
      for produce requests no number is.
    - The consumer's loops take fuel for the rounds; its theorems hold of the
      trace whatever the fuel, also of a run cut short, since it runs for ever.
    - A message is the value its receiver decodes; strings that hold keys and
      values are bytes and go through the coercion to UTF-8 ([json_string]).

    ** Not modelled

    Goroutines as such (concurrent work is a sequence of atomic steps, and a loop
    is given what others do between its rounds), the sockets under [Listen],
    [Serve] and [Shutdown], HTTP and JSON framing ([doJSON], [writeJSON]; a failed
    decoding of a body is a 400), usage texts, log messages and the layout of what
    commands print, measured times, the random bytes of member ids (an argument), and
    the JSON of the offsets and topics files (their content is the table they
    hold).  [Addr], [Dir] and the [String]
    of the coordinator only serve messages and tests.  Consumers of one group side
    by side are not composed: one consumer is, over a client whose brokers may do
    anything else in between, and what members share is settled by the
    coordinator's theorems. *)

From Stdlib Require Export ZArith Lia.
From stdpp Require Export base decidable list gmap strings sorting.

(** ** Notation scope and option settings *)

Declare Scope go_scope.
Delimit Scope go_scope with go.

(** [len] normalises list lengths; [fs] runs the file-system operations of a
    fault-free world (filled in Disk.v). *)
Create Rewrite HintDb len.
Create Rewrite HintDb fs.

#[export] Hint Rewrite @length_app @length_take @length_drop @length_replicate
  @length_fmap @length_nil : len.

Ltac len := autorewrite with len in *; simpl length in *; try lia.

(** ** Errors, results and the state monad of the stateful code

    Go's [error] values are compared with [errors.Is]; [%w]-wrapping keeps
    the sentinel, so a wrapped [record.ErrCorrupt] is the same constructor
    carrying what the wrapper says. *)

Inductive corruption :=
  | Bare                        (* return ErrCorrupt *)
  | ImplausibleSize (n : Z)     (* "%w: implausible size %d" *)
  | BadCrc.                     (* "%w: crc" *)

Inductive goerr :=
  | EOF                                (* io.EOF *)
  | ErrUnexpectedEOF                   (* io.ErrUnexpectedEOF *)
  | ErrCorrupt (why : corruption)      (* record.ErrCorrupt *)
  | ErrBadMagic                        (* record.ErrBadMagic *)
  | ErrIO                              (* an operating-system failure *)
  | ErrExist                           (* open with O_EXCL on an existing file *)
  | ErrNotExist                        (* open without O_CREATE, no such file *)
  | ErrSegmentOffset (want got : Z)    (* "segment: offset mismatch want %d got %d" *)
  | ErrLogOffset (want got : Z)        (* "log: unexpected offset want %d got %d" *)
  | ErrHwTimeout                       (* "log: hw wait timeout" *)
  | ErrOpenSegment (base : Z) (e : goerr) (* "open segment %d: %w" *)
  | ErrUnknownTopic (name : string)    (* "unknown topic: %s" *)
  | ErrNotLeader (leader : Z).         (* "not_leader:%d" *)

#[global] Instance corruption_eq_dec : EqDecision corruption.
Proof. solve_decision. Defined.
#[global] Instance goerr_eq_dec : EqDecision goerr.
Proof. solve_decision. Defined.

(** [Panicked] is a run-time panic (slice bounds, division by zero);
    [Diverged] is a loop that ran out of the fuel the model gives it, and is
    proved unreachable wherever a loop is modelled. *)
Inductive res (A : Type) :=
  | Ok (a : A)
  | Err (e : goerr)
  | Panicked
  | Diverged.
Arguments Ok {A} a.
Arguments Err {A} e.
Arguments Panicked {A}.
Arguments Diverged {A}.

Definition M (S A : Type) : Type := S → res A * S.

#[global] Instance M_ret {S} : MRet (M S) := λ A a s, (Ok a, s).
#[global] Instance M_bind {S} : MBind (M S) := λ A B f m s,
  match m s with
  | (Ok a, s') => f a s'
  | (Err e, s') => (Err e, s')
  | (Panicked, s') => (Panicked, s')
  | (Diverged, s') => (Diverged, s')
  end.
#[global] Instance M_fmap {S} : FMap (M S) := λ A B f m, m ≫= λ a, mret (f a).

(** A primitive action, from its effect on the state. *)
Definition act {S A} (f : S → res A * S) : M S A := f.
Definition throw {S A} (e : goerr) : M S A := λ s, (Err e, s).
Definition panic {S A} : M S A := λ s, (Panicked, s).
Definition diverge {S A} : M S A := λ s, (Diverged, s).
Definition gets {S A} (f : S → A) : M S A := λ s, (Ok (f s), s).
Definition modify {S} (f : S → S) : M S unit := λ s, (Ok tt, f s).

(** [attempt m] is [v, err := m()] followed by a test of [err]: an error
    becomes a value, a panic still propagates. *)
Definition attempt {S A} (m : M S A) : M S (A + goerr) := λ s,
  match m s with
  | (Ok a, s') => (Ok (inl a), s')
  | (Err e, s') => (Ok (inr e), s')
  | (Panicked, s') => (Panicked, s')
  | (Diverged, s') => (Diverged, s')
  end.

(** [zoom get put m] runs [m] on a component of the state. *)
Definition zoom {S T A} (get : S → T) (put : T → S → S) (m : M T A) : M S A :=
  λ s, let '(r, t) := m (get s) in (r, put t s).

(** [local t m] runs [m] on a fresh variable [t] beside the state [w] and
    returns the error, if any, together with the variable's last value. *)
Definition local {T W A} (t : T) (m : M (T * W) A) : M W ((A + goerr) * T) := λ w,
  match m (t, w) with
  | (Ok a, (t', w')) => (Ok (inl a, t'), w')
  | (Err e, (t', w')) => (Ok (inr e, t'), w')
  | (Panicked, (_, w')) => (Panicked, w')
  | (Diverged, (_, w')) => (Diverged, w')
  end.

(** *** Runs *)

Lemma bind_Ok {St A B} (m : M St A) (f : A → M St B) s a s' :
  m s = (Ok a, s') → (m ≫= f) s = f a s'.
Proof. intros H. unfold mbind, M_bind. by rewrite H. Qed.

Lemma bind_Err {St A B} (m : M St A) (f : A → M St B) s e s' :
  m s = (Err e, s') → (m ≫= f) s = (Err e, s').
Proof. intros H. unfold mbind, M_bind. by rewrite H. Qed.

(** A run from its result. *)
Lemma run_result {St A} (m : M St A) s r : fst (m s) = r → m s = (r, snd (m s)).
Proof. intros <-. by destruct (m s). Qed.

Lemma bind_bind {St A B C} (m : M St A) (f : A → M St B) (g : B → M St C) s :
  ((m ≫= f) ≫= g) s = (m ≫= λ a, f a ≫= g) s.
Proof. unfold mbind, M_bind. by destruct (m s) as [[]?]. Qed.

Lemma bind_ext {St A B} (m : M St A) (f g : A → M St B) s :
  (∀ a s, f a s = g a s) → (m ≫= f) s = (m ≫= g) s.
Proof. intros Hfg. unfold mbind, M_bind. destruct (m s) as [[]?]; auto. Qed.

Lemma attempt_Ok {St A} (m : M St A) s a s' : m s = (Ok a, s') → attempt m s = (Ok (inl a), s').
Proof. intros E. unfold attempt. by rewrite E. Qed.

Lemma attempt_Err {St A} (m : M St A) s e s' : m s = (Err e, s') → attempt m s = (Ok (inr e), s').
Proof. intros E. unfold attempt. by rewrite E. Qed.

(** ** Generic list lemmas *)

Lemma StronglySorted_lookup_lt {A} (R : relation A) l i j a b :
  StronglySorted R l → i < j → l !! i = Some a → l !! j = Some b → R a b.
Proof.
  intros Hs. revert i j. induction Hs as [|x l Hs IH Hx]; intros i j Hij Ha Hb; [done|].
  destruct i as [|i], j as [|j]; [lia| |lia|].
  - injection Ha as <-. simpl in Hb. rewrite Forall_forall in Hx.
    by apply Hx, list_elem_of_lookup_2 with j.
  - apply (IH i j); [lia|done..].
Qed.

Lemma concat_snoc {A} (ls : list (list A)) l : concat (ls ++ [l]) = concat ls ++ l.
Proof. rewrite concat_app. simpl. by rewrite app_nil_r. Qed.

Lemma prefix_sublist {A} (l k : list A) : l `prefix_of` k → l `sublist_of` k.
Proof. intros [x ->]. apply sublist_inserts_r. done. Qed.

Lemma concat_sublist {A} (l : list A) (ls : list (list A)) : l ∈ ls → l `sublist_of` concat ls.
Proof.
  induction 1 as [l ls|l l' ls _ IH]; simpl; [by apply sublist_inserts_r|].
  by apply sublist_inserts_l.
Qed.

Lemma filter_ext_in {A} (P Q : A → Prop) `{!∀ x, Decision (P x), !∀ x, Decision (Q x)} (l : list A) :
  (∀ x, x ∈ l → P x ↔ Q x) → filter P l = filter Q l.
Proof.
  induction l as [|x l IH]; intros Hin; [done|]. rewrite !filter_cons.
  rewrite IH by (intros; apply Hin; by right). pose proof (Hin x (list_elem_of_here _ _)).
  by destruct (decide (P x)), (decide (Q x)); [tauto..|].
Qed.

Lemma filter_none {A} (P : A → Prop) `{!∀ x, Decision (P x)} (l : list A) :
  (∀ x, x ∈ l → ¬ P x) → filter P l = [].
Proof.
  induction l as [|x l IH]; intros Hin; [done|].
  rewrite filter_cons_False by (apply Hin; by left). apply IH. intros. apply Hin. by right.
Qed.

Lemma filter_all {A} (P : A → Prop) `{!∀ x, Decision (P x)} (l : list A) :
  (∀ x, x ∈ l → P x) → filter P l = l.
Proof.
  induction l as [|x l IH]; intros Hin; [done|].
  rewrite filter_cons_True by (apply Hin; by left). f_equal. apply IH. intros. apply Hin. by right.
Qed.

Lemma NoDup_omap_inj {A B} (f : A → option B) (l : list A) :
  (∀ x y z, x ∈ l → y ∈ l → f x = Some z → f y = Some z → x = y) → NoDup l → NoDup (omap f l).
Proof.
  intros Hinj Hl. induction Hl as [|x l Hx Hl IH]; [constructor|]. cbn.
  assert (NoDup (omap f l)) as IH' by (apply IH; intros a b z ??; apply Hinj; by right).
  destruct (f x) as [z|] eqn:E; [|done]. constructor; [|done].
  rewrite list_elem_of_omap. intros (y & Hy & Ey). apply Hx.
  rewrite (Hinj x y z); [done|by left|by right|done..].
Qed.

Lemma StronglySorted_impl {A} (R S : relation A) (l : list A) :
  (∀ x y, R x y → S x y) → StronglySorted R l → StronglySorted S l.
Proof.
  intros H. induction 1 as [|x l _ IH Hx]; constructor; [done|].
  eapply Forall_impl; [exact Hx|]. intros y. apply H.
Qed.

Lemma StronglySorted_lt_NoDup (l : list Z) : StronglySorted Z.lt l → NoDup l.
Proof.
  induction 1 as [|x l _ IH Hx]; constructor; [|done]. rewrite Forall_forall in Hx.
  intros ?%Hx. lia.
Qed.

Lemma NoDup_concat_lookup {A} (ls : list (list A)) i j a b x :
  NoDup (concat ls) → ls !! i = Some a → ls !! j = Some b → x ∈ a → x ∈ b → i = j.
Proof.
  revert i j. induction ls as [|l ls IH]; intros i j Hnd Hi Hj Ha Hb; [done|].
  cbn in Hnd. apply NoDup_app in Hnd as (_ & Hdis & Hnd).
  assert (∀ k c, ls !! k = Some c → x ∈ c → x ∈ concat ls) as Hin.
  { intros k c Hk Hc. eapply elem_of_sublist; [exact Hc|].
    by apply concat_sublist, list_elem_of_lookup_2 with k. }
  destruct i as [|i], j as [|j]; cbn in Hi, Hj; [done| | |f_equal; by eapply IH].
  - injection Hi as ->. destruct (Hdis x Ha). by eapply Hin.
  - injection Hj as ->. destruct (Hdis x Hb). by eapply Hin.
Qed.

Lemma elem_of_concat {A} (x : A) ls : x ∈ concat ls ↔ ∃ l, x ∈ l ∧ l ∈ ls.
Proof.
  induction ls as [|l ls IH]; cbn.
  - split; [by intros ?%not_elem_of_nil|]. by intros (? & _ & ?%not_elem_of_nil).
  - rewrite elem_of_app, IH. split.
    + intros [H|(k & H & Hk)]; [exists l; split; [done|by left]|exists k; split; [done|by right]].
    + intros (k & H & [->|Hk]%elem_of_cons); [by left|right; by exists k].
Qed.

(** Folding an update of one key per element into a map. *)
Section upserts.
Context {K V T : Type} `{Countable K} (k : T → K) (v : option V → T → V).
Let step (m : gmap K V) (t : T) : gmap K V := <[k t := v (m !! k t) t]> m.

Lemma foldl_upsert_other l m n : n ∉ k <$> l → foldl step m l !! n = m !! n.
Proof.
  revert m. induction l as [|t l IH]; intros m Hn; [done|]. cbn in *.
  rewrite not_elem_of_cons in Hn. destruct Hn as [Hne Hn]. rewrite IH by done.
  unfold step. by rewrite lookup_insert_ne.
Qed.

Lemma foldl_upsert_at l m t :
  NoDup (k <$> l) → t ∈ l → foldl step m l !! k t = Some (v (m !! k t) t).
Proof.
  revert m. induction l as [|u l IH]; intros m Hnd Ht; [by apply elem_of_nil in Ht|].
  cbn in *. apply NoDup_cons in Hnd as [Hu Hnd]. apply elem_of_cons in Ht as [->|Ht].
  - rewrite foldl_upsert_other by done. unfold step. by rewrite lookup_insert_eq.
  - rewrite IH by done. unfold step. rewrite lookup_insert_ne; [done|].
    intros E. apply Hu. rewrite E. by apply list_elem_of_fmap_2.
Qed.
End upserts.
