(* ===== verification/GoStrings.v ===== *)
(** The parts of [strconv], [fmt] and [strings] the program uses: decimal
    printing and parsing, suffixes and the last separator of a key. *)
From Stdlib Require Export Strings.Ascii.
From S2P Require Import Prelude.
Open Scope Z_scope.

Abbreviation chars := (list ascii).

Definition to_chars (s : string) : chars := String.list_ascii_of_string s.
Definition of_chars (l : chars) : string := String.string_of_list_ascii l.

(** ** Decimal printing *)

Definition digit (d : Z) : ascii := ascii_of_N (48 + Z.to_N d).

(** [n] written with [w] digits, most significant first *)
Fixpoint fixed_digits (w : nat) (n : Z) : chars :=
  match w with
  | O => []
  | S w => digit (n / 10 ^ Z.of_nat w mod 10) :: fixed_digits w n
  end.

Fixpoint ndigits_fuel (fuel : nat) (n : Z) : nat :=
  match fuel with
  | O => 1
  | S fuel => if n <? 10 then 1 else S (ndigits_fuel fuel (n / 10))
  end.

(** 20 digits cover every uint64, hence every Go integer. *)
Definition ndigits (n : Z) : nat := ndigits_fuel 19 n.

(** [strconv.Itoa], [strconv.FormatInt(n, 10)], [fmt.Sprintf("%d", n)] *)
Definition Itoa (n : Z) : string :=
  of_chars (if n <? 0 then "-"%char :: fixed_digits (ndigits (- n)) (- n)
            else fixed_digits (ndigits n) n).

(** [fmt.Sprintf("%020d", n)]: zero padding to 20 columns, sign included *)
Definition Sprintf020d (n : Z) : string :=
  of_chars (if n <? 0 then "-"%char :: fixed_digits (Nat.max 19 (ndigits (- n))) (- n)
            else fixed_digits (Nat.max 20 (ndigits n)) n).

(** ** Decimal parsing *)

Definition digit_value (c : ascii) : option Z :=
  let n := Z.of_N (N_of_ascii c) in
  if (48 <=? n) && (n <=? 57) then Some (n - 48) else None.

Fixpoint parse_digits (acc : Z) (l : chars) : option Z :=
  match l with
  | [] => Some acc
  | c :: l => match digit_value c with
              | Some d => parse_digits (acc * 10 + d) l
              | None => None
              end
  end.

Definition parse_unsigned (l : chars) : option Z :=
  match l with [] => None | _ => parse_digits 0 l end.

(** [strconv.ParseInt(s, 10, 64)] and, on 64-bit platforms, [strconv.Atoi]:
    an optional sign, at least one digit, a value in range. *)
Definition ParseInt (s : string) : option Z :=
  let in_range n := if (- 2 ^ 63 <=? n) && (n <? 2 ^ 63) then Some n else None in
  match to_chars s with
  | c :: l =>
    if Ascii.eqb c "-"%char then n ← parse_unsigned l; in_range (- n)
    else if Ascii.eqb c "+"%char then n ← parse_unsigned l; in_range n
    else n ← parse_unsigned (c :: l); in_range n
  | [] => None
  end.

Definition Atoi (s : string) : option Z := ParseInt s.

(** ** Suffixes and separators *)

Definition HasSuffix (s suffix : string) : bool :=
  let l := to_chars s in let t := to_chars suffix in
  bool_decide (length t ≤ length l)%nat && bool_decide (drop (length l - length t) l = t).

Definition TrimSuffix (s suffix : string) : string :=
  if HasSuffix s suffix
  then of_chars (take (length (to_chars s) - length (to_chars suffix)) (to_chars s))
  else s.

Definition HasPrefix (s prefix : string) : bool :=
  bool_decide (take (length (to_chars prefix)) (to_chars s) = to_chars prefix).

(** Split at the last occurrence of a character: [Some (before, after)]. *)
Fixpoint split_last (c : ascii) (l : chars) : option (chars * chars) :=
  match l with
  | [] => None
  | x :: l =>
    match split_last c l with
    | Some (a, b) => Some (x :: a, b)
    | None => if Ascii.eqb x c then Some ([], l) else None
    end
  end.

(** ** Lemmas *)

Lemma to_of_chars l : to_chars (of_chars l) = l.
Proof. apply String.list_ascii_of_string_of_list_ascii. Qed.
Lemma of_to_chars s : of_chars (to_chars s) = s.
Proof. apply String.string_of_list_ascii_of_string. Qed.
Lemma to_chars_app a b : to_chars (a +:+ b) = to_chars a ++ to_chars b.
Proof. induction a as [|c a IH]; [done|]. simpl. f_equal. apply IH. Qed.
Lemma to_chars_inj a b : to_chars a = to_chars b → a = b.
Proof. intros H. by rewrite <- (of_to_chars a), H, of_to_chars. Qed.
Lemma of_chars_inj a b : of_chars a = of_chars b → a = b.
Proof. intros H. by rewrite <- (to_of_chars a), H, to_of_chars. Qed.

Lemma digit_value_digit d : 0 ≤ d < 10 → digit_value (digit d) = Some d.
Proof.
  intros H. unfold digit_value, digit. rewrite N_ascii_embedding by lia.
  rewrite (proj2 (Z.leb_le _ _)), (proj2 (Z.leb_le _ _)) by lia. simpl. f_equal. lia.
Qed.

Lemma digit_not_sign d c : 0 ≤ d < 10 → (Z.of_N (N_of_ascii c) < 48) → Ascii.eqb (digit d) c = false.
Proof.
  intros H Hc. apply Ascii.eqb_neq. intros <-. unfold digit in Hc.
  rewrite N_ascii_embedding in Hc by lia. lia.
Qed.

Lemma length_fixed_digits w n : length (fixed_digits w n) = w.
Proof. induction w; simpl; auto. Qed.

Lemma parse_fixed_digits_acc w n acc :
  0 ≤ n → parse_digits acc (fixed_digits w n) = Some (acc * 10 ^ Z.of_nat w + n mod 10 ^ Z.of_nat w).
Proof.
  intros Hn. revert acc. induction w as [|w IH]; intros acc; cbn [fixed_digits parse_digits].
  - rewrite Z.mod_1_r. f_equal. lia.
  - rewrite digit_value_digit by (apply Z.mod_pos_bound; lia). rewrite IH.
    rewrite Nat2Z.inj_succ, Z.pow_succ_r, (Z.mul_comm 10 (10 ^ _)), (Z.rem_mul_r n) by lia.
    f_equal. ring.
Qed.

Lemma parse_unsigned_fixed w n :
  (0 < w)%nat → 0 ≤ n < 10 ^ Z.of_nat w → parse_unsigned (fixed_digits w n) = Some n.
Proof.
  intros Hw Hn. unfold parse_unsigned. destruct (fixed_digits w n) eqn:E.
  - apply (f_equal length) in E. rewrite length_fixed_digits in E. simpl in E. lia.
  - rewrite <- E, parse_fixed_digits_acc, Z.mod_small by lia. done.
Qed.

Lemma ndigits_fuel_spec f n :
  0 ≤ n < 10 ^ Z.of_nat (S f) → (0 < ndigits_fuel f n)%nat ∧ n < 10 ^ Z.of_nat (ndigits_fuel f n).
Proof.
  revert n. induction f as [|f IH]; intros n Hn; cbn [ndigits_fuel].
  - split; [lia|]. apply Hn.
  - destruct (Z.ltb_spec n 10); [split; [lia|]; change (10 ^ Z.of_nat 1) with 10; lia|].
    destruct (IH (n / 10)) as [_ H2].
    { rewrite Nat2Z.inj_succ, Z.pow_succ_r in Hn by lia.
      split; [apply Z.div_pos; lia|apply Z.div_lt_upper_bound; lia]. }
    split; [lia|]. rewrite Nat2Z.inj_succ, Z.pow_succ_r by lia.
    pose proof (Z.div_mod n 10). pose proof (Z.mod_pos_bound n 10). lia.
Qed.

Lemma ndigits_spec n : 0 ≤ n < 10 ^ 20 → (0 < ndigits n)%nat ∧ n < 10 ^ Z.of_nat (ndigits n).
Proof. apply (ndigits_fuel_spec 19). Qed.

Lemma ParseInt_fixed w n :
  (0 < w)%nat → 0 ≤ n < 10 ^ Z.of_nat w → n < 2 ^ 63 →
  ParseInt (of_chars (fixed_digits w n)) = Some n.
Proof.
  intros Hw Hn Hlt. unfold ParseInt. rewrite to_of_chars.
  pose proof (parse_unsigned_fixed w n Hw Hn) as Hp.
  destruct w as [|w]; [lia|]. cbn [fixed_digits] in *.
  rewrite !digit_not_sign by (done || (apply Z.mod_pos_bound; lia)).
  rewrite Hp. simpl. by rewrite (proj2 (Z.leb_le _ _)), (proj2 (Z.ltb_lt _ _)) by lia.
Qed.

Lemma Atoi_Itoa n : - 2 ^ 63 ≤ n < 2 ^ 63 → Atoi (Itoa n) = Some n.
Proof.
  intros Hn. unfold Atoi, Itoa. destruct (Z.ltb_spec n 0).
  - destruct (ndigits_spec (- n)) as [H1 H2]; [lia|].
    unfold ParseInt. rewrite to_of_chars. simpl.
    rewrite parse_unsigned_fixed by lia. simpl.
    by rewrite Z.opp_involutive, (proj2 (Z.leb_le _ _)), (proj2 (Z.ltb_lt _ _)) by lia.
  - destruct (ndigits_spec n) as [H1 H2]; [lia|]. by apply ParseInt_fixed; try lia.
Qed.

Lemma Itoa_inj n m : - 2 ^ 63 ≤ n < 2 ^ 63 → - 2 ^ 63 ≤ m < 2 ^ 63 → Itoa n = Itoa m → n = m.
Proof. intros Hn Hm H. apply (f_equal Atoi) in H. rewrite !Atoi_Itoa in H by done. congruence. Qed.

Lemma ParseInt_Sprintf020d n : 0 ≤ n < 2 ^ 63 → ParseInt (Sprintf020d n) = Some n.
Proof.
  intros Hn. unfold Sprintf020d. rewrite (proj2 (Z.ltb_ge _ _)) by lia.
  destruct (ndigits_spec n) as [H1 H2]; [lia|].
  apply ParseInt_fixed; [lia| |lia]. split; [lia|].
  eapply Z.lt_le_trans; [done|]. apply Z.pow_le_mono_r; lia.
Qed.

Lemma HasSuffix_app a b : HasSuffix (a +:+ b) b = true.
Proof.
  unfold HasSuffix. rewrite to_chars_app, length_app.
  replace (length (to_chars a) + length (to_chars b) - length (to_chars b))%nat
    with (length (to_chars a)) by lia.
  rewrite drop_app_length. rewrite !bool_decide_eq_true_2; [done|done|lia].
Qed.

Lemma TrimSuffix_app a b : TrimSuffix (a +:+ b) b = a.
Proof.
  unfold TrimSuffix. rewrite HasSuffix_app, to_chars_app, length_app.
  replace (length (to_chars a) + length (to_chars b) - length (to_chars b))%nat
    with (length (to_chars a)) by lia.
  rewrite take_app_length. apply of_to_chars.
Qed.

Lemma HasSuffix_split s t : HasSuffix s t = true → ∃ l, to_chars s = l ++ to_chars t.
Proof.
  unfold HasSuffix. rewrite andb_true_iff, !bool_decide_eq_true. intros [_ H].
  exists (take (length (to_chars s) - length (to_chars t)) (to_chars s)).
  rewrite <- H at 2. by rewrite take_drop.
Qed.

Lemma split_last_app c a b : c ∉ b → split_last c (a ++ c :: b) = Some (a, b).
Proof.
  intros Hb. assert (split_last c b = None) as Hn.
  { induction b as [|x b IH]; [done|]. simpl. rewrite IH by set_solver.
    destruct (Ascii.eqb_spec x c); [set_solver|done]. }
  induction a as [|x a IH]; simpl.
  - by rewrite Hn, Ascii.eqb_refl.
  - by rewrite IH.
Qed.

Lemma split_last_Some c l a b : split_last c l = Some (a, b) → l = a ++ c :: b.
Proof.
  revert a b. induction l as [|x l IH]; intros a b; simpl; [done|].
  destruct (split_last c l) as [[a' b']|].
  - intros [= <- <-]. by rewrite (IH a' b').
  - destruct (Ascii.eqb_spec x c); [|done]. by intros [= <- <-]; subst.
Qed.

Lemma fixed_digits_no c w n : Z.of_N (N_of_ascii c) < 48 → c ∉ fixed_digits w n.
Proof.
  intros Hc. induction w as [|w IH]; simpl; [set_solver|].
  rewrite elem_of_cons. intros [->|]; [|done].
  unfold digit in Hc. pose proof (Z.mod_pos_bound (n / 10 ^ Z.of_nat w) 10).
  rewrite N_ascii_embedding in Hc; lia.
Qed.

Lemma Itoa_no_slash n : "/"%char ∉ to_chars (Itoa n).
Proof.
  unfold Itoa. rewrite to_of_chars.
  assert (∀ w m, "/"%char ∉ fixed_digits w m) as H by (intros; apply fixed_digits_no; done).
  destruct (n <? 0); [|apply H]. rewrite elem_of_cons. intros [?|?%H]; done.
Qed.

(** ** The order of [sort.Strings]: bytewise, lexicographic *)

Fixpoint chars_leb (a b : chars) : bool :=
  match a, b with
  | [], _ => true
  | _ :: _, [] => false
  | x :: a, y :: b =>
    match (N_of_ascii x ?= N_of_ascii y)%N with
    | Lt => true
    | Gt => false
    | Eq => chars_leb a b
    end
  end.

Definition str_le (s t : string) : Prop := chars_leb (to_chars s) (to_chars t) = true.

#[global] Instance str_le_dec s t : Decision (str_le s t).
Proof. unfold str_le. apply _. Defined.

Lemma N_of_ascii_inj x y : N_of_ascii x = N_of_ascii y → x = y.
Proof. intros H. by rewrite <- (ascii_N_embedding x), H, ascii_N_embedding. Qed.

Lemma chars_leb_antisym a b : chars_leb a b = true → chars_leb b a = true → a = b.
Proof.
  revert b. induction a as [|x a IH]; intros [|y b]; simpl; try done.
  rewrite (N.compare_antisym (N_of_ascii x)).
  destruct (N.compare_spec (N_of_ascii x) (N_of_ascii y)) as [E|E|E]; simpl; try done.
  intros H1 H2. by rewrite (N_of_ascii_inj _ _ E), (IH b).
Qed.

Lemma chars_leb_trans a b c : chars_leb a b = true → chars_leb b c = true → chars_leb a c = true.
Proof.
  revert b c. induction a as [|x a IH]; intros [|y b] [|z c]; simpl; try done.
  destruct (N.compare_spec (N_of_ascii x) (N_of_ascii y)) as [E1|E1|E1]; try done;
  destruct (N.compare_spec (N_of_ascii y) (N_of_ascii z)) as [E2|E2|E2]; try done;
  destruct (N.compare_spec (N_of_ascii x) (N_of_ascii z)) as [E3|E3|E3]; try done; try lia.
  apply IH.
Qed.

Lemma chars_leb_total a b : chars_leb a b = true ∨ chars_leb b a = true.
Proof.
  revert b. induction a as [|x a IH]; intros [|y b]; simpl; try by auto.
  rewrite (N.compare_antisym (N_of_ascii x)).
  destruct (N.compare_spec (N_of_ascii x) (N_of_ascii y)); simpl; auto.
Qed.

#[global] Instance str_le_trans : Transitive str_le.
Proof. intros a b c. apply chars_leb_trans. Qed.
#[global] Instance str_le_total : Total str_le.
Proof. intros a b. apply chars_leb_total. Qed.
#[global] Instance str_le_antisym : AntiSymm (=) str_le.
Proof. intros a b H1 H2. by apply to_chars_inj, chars_leb_antisym. Qed.

(** [sort.Strings] *)
Definition sort_strings (l : list string) : list string := merge_sort str_le l.
(** [sort.Ints] *)
Definition sort_ints (l : list Z) : list Z := merge_sort Z.le l.

Lemma sort_strings_perm l : sort_strings l ≡ₚ l.
Proof. apply merge_sort_Permutation. Qed.
Lemma sort_ints_perm l : sort_ints l ≡ₚ l.
Proof. apply merge_sort_Permutation. Qed.
Lemma sort_strings_sorted l : StronglySorted str_le (sort_strings l).
Proof. apply StronglySorted_merge_sort; apply _. Qed.
Lemma sort_ints_sorted l : StronglySorted Z.le (sort_ints l).
Proof. apply StronglySorted_merge_sort; apply _. Qed.

(** Sorting forgets the order: equal as multisets is equal once sorted. *)
#[global] Instance sort_strings_proper : Proper (Permutation ==> eq) sort_strings.
Proof.
  intros l l' H. apply (StronglySorted_unique str_le); [apply sort_strings_sorted..|].
  by rewrite !sort_strings_perm.
Qed.
#[global] Instance sort_ints_proper : Proper (Permutation ==> eq) sort_ints.
Proof.
  intros l l' H. apply (StronglySorted_unique Z.le); [apply sort_ints_sorted..|].
  by rewrite !sort_ints_perm.
Qed.
