(* ===== verification/Bytes.v ===== *)
(** Bytes, machine widths and [encoding/binary]'s big-endian codecs.

    A byte is [Byte.byte]; Go's fixed-width integer conversions are the
    functions [u8], [u32], [u64] and [i64] on [Z]. *)
From Stdlib Require Export Strings.Byte.
From S2P Require Import Prelude.
Open Scope Z_scope.

#[global] Instance byte_eq_dec : EqDecision byte := Byte.byte_eq_dec.

Abbreviation bytes := (list byte).

(** ** Machine widths *)

Definition u8 (z : Z) : Z := z mod 2 ^ 8.
Definition u32 (z : Z) : Z := z mod 2 ^ 32.
Definition u64 (z : Z) : Z := z mod 2 ^ 64.
Definition i64 (z : Z) : Z := (z + 2 ^ 63) mod 2 ^ 64 - 2 ^ 63.

Definition is_u32 (z : Z) : Prop := 0 ≤ z < 2 ^ 32.
Definition is_i64 (z : Z) : Prop := - 2 ^ 63 ≤ z < 2 ^ 63.

(** ** Bytes as numbers *)

Definition Z_of_byte (b : byte) : Z := Z.of_N (Byte.to_N b).
Definition byte_of_Z (z : Z) : byte :=
  match Byte.of_N (Z.to_N (u8 z)) with Some b => b | None => x00 end.

(** [binary.BigEndian.PutUint32/64] and [Uint32/64]: [n] bytes, most
    significant first. *)
Fixpoint be_put (n : nat) (z : Z) : bytes :=
  match n with
  | O => []
  | S n' => byte_of_Z (Z.shiftr z (8 * Z.of_nat n')) :: be_put n' z
  end.

Definition be_get (bs : bytes) : Z := foldl (λ acc b, acc * 256 + Z_of_byte b) 0 bs.

(** [s[lo:hi]] of a slice whose capacity is its length *)
Definition slice {A} (lo hi : nat) (l : list A) : list A := take (hi - lo) (drop lo l).

Definition Zlength {A} (l : list A) : Z := Z.of_nat (length l).

(** ** Lemmas *)

Lemma u32_small z : is_u32 z → u32 z = z.
Proof. unfold is_u32, u32. intros. by apply Z.mod_small. Qed.
Lemma u32_range z : is_u32 (u32 z).
Proof. unfold is_u32, u32. by apply Z.mod_pos_bound. Qed.
Lemma i64_small z : is_i64 z → i64 z = z.
Proof. unfold is_i64, i64. intros. rewrite Z.mod_small; lia. Qed.
Lemma i64_range z : is_i64 (i64 z).
Proof. unfold is_i64, i64. pose proof (Z.mod_pos_bound (z + 2 ^ 63) (2 ^ 64)). lia. Qed.
Lemma i64_u64 z : i64 (u64 z) = i64 z.
Proof. unfold i64, u64. rewrite Zplus_mod_idemp_l. done. Qed.
Lemma u64_i64 z : u64 (i64 z) = u64 z.
Proof.
  unfold i64, u64. rewrite Zminus_mod_idemp_l. f_equal. lia.
Qed.

Lemma Z_of_byte_range b : 0 ≤ Z_of_byte b < 256.
Proof. unfold Z_of_byte. pose proof (Byte.to_N_bounded b). lia. Qed.

Lemma Z_of_byte_of_Z z : Z_of_byte (byte_of_Z z) = u8 z.
Proof.
  unfold byte_of_Z, Z_of_byte.
  pose proof (Z.mod_pos_bound z (2 ^ 8) eq_refl) as Hb. fold (u8 z) in Hb.
  destruct (Byte.of_N (Z.to_N (u8 z))) as [b|] eqn:E.
  - apply Byte.to_of_N in E. rewrite E. lia.
  - apply Byte.of_N_None_iff in E. lia.
Qed.

Lemma Z_of_byte_inj b1 b2 : Z_of_byte b1 = Z_of_byte b2 → b1 = b2.
Proof.
  unfold Z_of_byte. intros H%N2Z.inj.
  pose proof (Byte.of_to_N b1). pose proof (Byte.of_to_N b2). congruence.
Qed.

Lemma byte_of_Z_of_byte b : byte_of_Z (Z_of_byte b) = b.
Proof.
  apply Z_of_byte_inj. rewrite Z_of_byte_of_Z. unfold u8.
  apply Z.mod_small, Z_of_byte_range.
Qed.

Lemma length_be_put n z : length (be_put n z) = n.
Proof. induction n; simpl; auto. Qed.
#[export] Hint Rewrite length_be_put : len.

Lemma be_get_acc bs acc :
  foldl (λ acc b, acc * 256 + Z_of_byte b) acc bs = acc * 256 ^ Zlength bs + be_get bs.
Proof.
  unfold be_get, Zlength. revert acc. induction bs as [|b bs IH]; intros acc; cbn [foldl length].
  - rewrite Z.pow_0_r. lia.
  - rewrite IH, (IH (0 * 256 + _)), Nat2Z.inj_succ, Z.pow_succ_r by lia. lia.
Qed.

Lemma be_get_cons b bs : be_get (b :: bs) = Z_of_byte b * 256 ^ Zlength bs + be_get bs.
Proof. unfold be_get at 1. cbn [foldl]. rewrite be_get_acc. lia. Qed.

Lemma be_get_app a b : be_get (a ++ b) = be_get a * 256 ^ Zlength b + be_get b.
Proof. unfold be_get at 1. rewrite foldl_app, be_get_acc. done. Qed.

Lemma be_get_range bs : 0 ≤ be_get bs < 256 ^ Zlength bs.
Proof.
  induction bs as [|b bs IH]; [unfold be_get, Zlength; simpl; lia|].
  rewrite be_get_cons. unfold Zlength in *. cbn [length].
  rewrite Nat2Z.inj_succ, Z.pow_succ_r by lia.
  pose proof (Z_of_byte_range b). nia.
Qed.

Lemma be_get_put n z : be_get (be_put n z) = z mod 256 ^ Z.of_nat n.
Proof.
  induction n as [|n IH]; cbn [be_put].
  - rewrite Z.pow_0_r, Z.mod_1_r. done.
  - rewrite be_get_cons, IH, Z_of_byte_of_Z. unfold Zlength, u8. rewrite length_be_put.
    rewrite Z.shiftr_div_pow2 by lia. rewrite Z.pow_mul_r by lia.
    change (2 ^ 8) with 256. rewrite Nat2Z.inj_succ, Z.pow_succ_r by lia.
    rewrite (Z.mul_comm 256), Z.rem_mul_r by lia. lia.
Qed.

Lemma be_put_get bs : be_put (length bs) (be_get bs) = bs.
Proof.
  assert (Hgen : ∀ bs k, 0 ≤ k →
    be_put (length bs) (k * 256 ^ Zlength bs + be_get bs) = bs).
  { clear. induction bs as [|b bs IH]; intros k Hk; [done|]. cbn [length be_put].
    rewrite be_get_cons. f_equal.
    - apply Z_of_byte_inj. rewrite Z_of_byte_of_Z. unfold u8.
      rewrite Z.shiftr_div_pow2, Z.pow_mul_r by lia. change (2 ^ 8) with 256.
      unfold Zlength. cbn [length]. rewrite Nat2Z.inj_succ, Z.pow_succ_r by lia.
      pose proof (be_get_range bs) as Hr. unfold Zlength in Hr.
      replace (k * (256 * 256 ^ Z.of_nat (length bs)) +
        (Z_of_byte b * 256 ^ Z.of_nat (length bs) + be_get bs))
        with (be_get bs + (k * 256 + Z_of_byte b) * 256 ^ Z.of_nat (length bs)) by lia.
      rewrite Z.div_add by lia. rewrite (Z.div_small (be_get bs)) by lia.
      rewrite Z.add_0_l, Z.add_comm, Z.mod_add by lia.
      apply Z.mod_small, Z_of_byte_range.
    - unfold Zlength. cbn [length]. rewrite Nat2Z.inj_succ, Z.pow_succ_r by lia.
      replace (k * (256 * 256 ^ Z.of_nat (length bs)) +
        (Z_of_byte b * 256 ^ Z.of_nat (length bs) + be_get bs))
        with ((k * 256 + Z_of_byte b) * 256 ^ Z.of_nat (length bs) + be_get bs) by lia.
      apply IH. pose proof (Z_of_byte_range b). lia. }
  specialize (Hgen bs 0). rewrite Z.mul_0_l, Z.add_0_l in Hgen. by apply Hgen.
Qed.

Lemma be_get_inj a b : length a = length b → be_get a = be_get b → a = b.
Proof. intros Hl Hg. rewrite <- (be_put_get a), <- (be_put_get b), Hl, Hg. done. Qed.

Lemma length_slice {A} lo hi (l : list A) :
  (hi ≤ length l)%nat → length (slice lo hi l) = (hi - lo)%nat.
Proof. intros. unfold slice. rewrite length_take, length_drop. lia. Qed.

Lemma slice_mid {A} (a b c : list A) lo hi :
  length a = lo → (lo + length b)%nat = hi → slice lo hi (a ++ b ++ c) = b.
Proof.
  intros <- <-. unfold slice. rewrite drop_app_length.
  replace (_ + _ - _)%nat with (length b) by lia. by rewrite take_app_length.
Qed.

Lemma slice_app_skip {A} lo hi (a b : list A) :
  (length a ≤ lo)%nat → slice lo hi (a ++ b) = slice (lo - length a) (hi - length a) b.
Proof.
  intros H. unfold slice. rewrite drop_app_ge by done. f_equal. lia.
Qed.

Lemma slice_app_hit {A} lo hi (a b : list A) :
  lo = 0%nat → hi = length a → slice lo hi (a ++ b) = a.
Proof. intros -> ->. unfold slice. rewrite Nat.sub_0_r. apply take_app_length. Qed.

Lemma slice_all {A} lo hi (l : list A) : lo = 0%nat → hi = length l → slice lo hi l = l.
Proof. intros -> ->. unfold slice. rewrite Nat.sub_0_r. apply firstn_all. Qed.

Lemma slice_split {A} lo mid hi (l : list A) :
  (lo ≤ mid ≤ hi)%nat → slice lo hi l = slice lo mid l ++ slice mid hi l.
Proof.
  intros H. unfold slice. replace (hi - lo)%nat with ((mid - lo) + (hi - mid))%nat by lia.
  rewrite <- take_take_drop, drop_drop. do 3 f_equal. lia.
Qed.

(** Read a field of a concatenation of known-length parts. *)
Ltac field_at :=
  repeat (rewrite slice_app_skip by (rewrite ?length_be_put; unfold Zlength in *; simpl; lia));
  first [ apply slice_app_hit | apply slice_all ];
  rewrite ?length_be_put; unfold Zlength in *; simpl; lia.
