(* ===== verification/Crc32c.v ===== *)
(** CRC-32C as [hash/crc32] computes it with [crc32.MakeTable(crc32.Castagnoli)]:
    the reflected table-driven update.  The last lemmas show that the checksum
    tells apart any two inputs that differ in exactly one byte. *)
From S2P Require Import Prelude Bytes.
Open Scope Z_scope.

(** ** The table and the update *)

(** crc32.Castagnoli, the reversed polynomial *)
Definition castagnoli : Z := 0x82f63b78.

Definition crc_bit (c : Z) : Z :=
  if Z.odd c then Z.lxor (Z.shiftr c 1) castagnoli else Z.shiftr c 1.

Definition crc_entry (i : Z) : Z := Nat.iter 8 crc_bit i.

Definition crcTable : list Z := Eval vm_compute in crc_entry <$> seqZ 0 256.

Definition table_at (i : Z) : Z := nth (Z.to_nat i) crcTable 0.

(** [crc = tab[byte(crc)^v] ^ (crc >> 8)] *)
Definition crc_step (crc : Z) (v : byte) : Z :=
  Z.lxor (table_at (Z.lxor (u8 crc) (Z_of_byte v))) (Z.shiftr crc 8).

Definition crc_run (crc : Z) (p : bytes) : Z := foldl crc_step crc p.

(** [^crc] on a uint32 *)
Definition not32 (c : Z) : Z := Z.lxor c 0xffffffff.

Definition checksum (p : bytes) : Z := not32 (crc_run (not32 0) p).

(** ** Lemmas *)

Lemma crcTable_computed : crcTable = crc_entry <$> seqZ 0 256.
Proof. vm_compute. reflexivity. Qed.

Lemma lxor_range n a b : 0 ≤ n → 0 ≤ a < 2 ^ n → 0 ≤ b < 2 ^ n → 0 ≤ Z.lxor a b < 2 ^ n.
Proof.
  intros Hn Ha Hb.
  assert (Z.lxor a b = Z.lxor a b mod 2 ^ n) as ->; [|apply Z.mod_pos_bound; lia].
  apply Z.bits_inj'. intros i Hi. destruct (decide (i < n)).
  - by rewrite Z.mod_pow2_bits_low by lia.
  - rewrite Z.mod_pow2_bits_high by lia. rewrite Z.lxor_spec.
    rewrite <- (Z.mod_small a (2 ^ n)), <- (Z.mod_small b (2 ^ n)) by lia.
    by rewrite !Z.mod_pow2_bits_high by lia.
Qed.

Lemma lxor_cancel_l a b c : Z.lxor a b = Z.lxor a c → b = c.
Proof.
  intros H. apply (f_equal (Z.lxor a)) in H.
  by rewrite <- !Z.lxor_assoc, Z.lxor_nilpotent, !Z.lxor_0_l in H.
Qed.

Lemma table_facts i : 0 ≤ i < 256 → is_u32 (table_at i).
Proof.
  intros Hi.
  assert (forallb (λ k, (0 <=? table_at k) && (table_at k <? 2 ^ 32)) (seqZ 0 256) = true)
    as Hc by (vm_compute; reflexivity).
  rewrite forallb_forall in Hc. specialize (Hc i).
  unfold is_u32. rewrite andb_true_iff, Z.leb_le, Z.ltb_lt in Hc. apply Hc.
  apply list_elem_of_In, elem_of_seqZ. lia.
Qed.

(** The top byte of a table entry determines its index. *)
Definition top_index : list Z := Eval vm_compute in
  (λ t, match list_find (λ i, Z.shiftr (table_at i) 24 = t) (seqZ 0 256) with
        | Some (_, i) => i | None => -1 end) <$> seqZ 0 256.

Definition index_of_top (t : Z) : Z := nth (Z.to_nat t) top_index (-1).

Lemma index_of_top_correct i :
  0 ≤ i < 256 → index_of_top (Z.shiftr (table_at i) 24) = i.
Proof.
  intros Hi.
  assert (forallb (λ k, index_of_top (Z.shiftr (table_at k) 24) =? k) (seqZ 0 256) = true)
    as Hc by (vm_compute; reflexivity).
  rewrite forallb_forall in Hc. apply Z.eqb_eq, Hc, list_elem_of_In, elem_of_seqZ. lia.
Qed.

Lemma u8_range z : 0 ≤ u8 z < 256.
Proof. unfold u8. by apply Z.mod_pos_bound. Qed.

Lemma crc_index_range crc v : 0 ≤ Z.lxor (u8 crc) (Z_of_byte v) < 256.
Proof.
  change 256 with (2 ^ 8).
  apply lxor_range; [lia| apply u8_range | apply Z_of_byte_range].
Qed.

Lemma crc_step_range crc v : is_u32 crc → is_u32 (crc_step crc v).
Proof.
  intros Hc. unfold is_u32, crc_step. apply lxor_range; [lia| |].
  - apply table_facts, crc_index_range.
  - unfold is_u32 in Hc. rewrite Z.shiftr_div_pow2 by lia.
    pose proof (Z.div_le_upper_bound crc (2 ^ 8) crc ltac:(lia) ltac:(lia)).
    pose proof (Z.div_pos crc (2 ^ 8) ltac:(lia) ltac:(lia)). lia.
Qed.

Lemma crc_run_range crc p : is_u32 crc → is_u32 (crc_run crc p).
Proof.
  revert crc. induction p as [|v p IH]; intros crc H; [done|].
  apply IH, crc_step_range, H.
Qed.

Lemma checksum_range p : is_u32 (checksum p).
Proof.
  unfold checksum, not32, is_u32. apply lxor_range; [lia| |lia].
  apply crc_run_range. done.
Qed.

Lemma crc_step_top crc v :
  is_u32 crc →
  Z.shiftr (crc_step crc v) 24 = Z.shiftr (table_at (Z.lxor (u8 crc) (Z_of_byte v))) 24.
Proof.
  intros Hc. unfold crc_step. rewrite Z.shiftr_lxor, Z.shiftr_shiftr by lia.
  rewrite (Z.shiftr_div_pow2 crc) by lia. change (2 ^ (8 + 24)) with (2 ^ 32).
  rewrite (Z.div_small crc) by apply Hc. apply Z.lxor_0_r.
Qed.

(** One step determines the index it used, hence both the byte (for a known
    state) and the state (for a known byte). *)
Lemma crc_step_index c1 c2 v1 v2 :
  is_u32 c1 → is_u32 c2 → crc_step c1 v1 = crc_step c2 v2 →
  Z.lxor (u8 c1) (Z_of_byte v1) = Z.lxor (u8 c2) (Z_of_byte v2).
Proof.
  intros H1 H2 Heq.
  rewrite <- (index_of_top_correct _ (crc_index_range c1 v1)),
    <- (index_of_top_correct _ (crc_index_range c2 v2)).
  rewrite <- !crc_step_top by done. by rewrite Heq.
Qed.

Lemma crc_step_inj_byte c v1 v2 :
  is_u32 c → crc_step c v1 = crc_step c v2 → v1 = v2.
Proof.
  intros Hc H%crc_step_index; [|done..].
  by apply Z_of_byte_inj, (lxor_cancel_l (u8 c)).
Qed.

Lemma crc_step_inj_state c1 c2 v :
  is_u32 c1 → is_u32 c2 → crc_step c1 v = crc_step c2 v → c1 = c2.
Proof.
  intros H1 H2 Heq. pose proof (crc_step_index _ _ _ _ H1 H2 Heq) as Hi.
  unfold crc_step in Heq. rewrite Hi in Heq. apply lxor_cancel_l in Heq.
  rewrite (Z.lxor_comm (u8 c1)), (Z.lxor_comm (u8 c2)) in Hi. apply lxor_cancel_l in Hi.
  rewrite !Z.shiftr_div_pow2 in Heq by lia. unfold u8 in Hi.
  rewrite (Z.div_mod c1 (2 ^ 8)), (Z.div_mod c2 (2 ^ 8)) by lia. congruence.
Qed.

Lemma crc_run_inj_state c1 c2 p :
  is_u32 c1 → is_u32 c2 → crc_run c1 p = crc_run c2 p → c1 = c2.
Proof.
  revert c1 c2. induction p as [|v p IH]; intros c1 c2 H1 H2 Heq; [done|].
  eapply crc_step_inj_state, IH; eauto using crc_step_range.
Qed.

Lemma checksum_one_byte pre v1 v2 post :
  checksum (pre ++ v1 :: post) = checksum (pre ++ v2 :: post) → v1 = v2.
Proof.
  unfold checksum, not32. rewrite !(Z.lxor_comm (crc_run _ _)).
  intros H%lxor_cancel_l. unfold crc_run in H. rewrite !foldl_app in H. simpl in H.
  apply crc_run_inj_state in H; try (apply crc_step_range, crc_run_range; done).
  eapply crc_step_inj_byte, H. apply crc_run_range. done.
Qed.
