(* ===== verification/RecordFmt.v ===== *)
(** The on-disk record of [internal/record/record.go]: [Encode], [Decode],
    [DecodeAt], [EncodedSize], [CRCOf].

    The decoder is modelled over an abstract reader, as in the source
    ([decode(read func([]byte) (int, error))]).  [decode_bytes] is its
    specification on a byte string; [decode_refines] shows that any reader that
    meets [reader_spec] makes [decode] compute it. *)
From S2P Require Import Prelude Bytes Crc32c.
Open Scope Z_scope.

(** ** Data *)

Definition Magic : byte := x01.

Record record := Rec {
  Offset : Z;       (* int64 *)
  Timestamp : Z;    (* int64, unix milliseconds *)
  Key : bytes;
  Value : bytes
}.

#[global] Instance record_eq_dec : EqDecision record.
Proof. solve_decision. Defined.

(** ** Encoding *)

(** [if r.Timestamp == 0 { r.Timestamp = now }] *)
Definition stamp (now : Z) (r : record) : record :=
  if Timestamp r =? 0 then Rec (Offset r) now (Key r) (Value r) else r.

(** the bytes after the crc field: [buf[4:]] *)
Definition encode_tail (r : record) : bytes :=
  let keyLen := Zlength (Key r) in
  let valLen := Zlength (Value r) in
  let size := 1 + 8 + 8 + 4 + keyLen + 4 + valLen in
  be_put 4 (u32 size) ++ [Magic] ++ be_put 8 (u64 (Offset r)) ++
  be_put 8 (u64 (Timestamp r)) ++ be_put 4 (u32 keyLen) ++ Key r ++
  be_put 4 (u32 valLen) ++ Value r.

Definition encode_stamped (r : record) : bytes :=
  be_put 4 (checksum (encode_tail r)) ++ encode_tail r.

Definition Encode (now : Z) (r : record) : bytes := encode_stamped (stamp now r).

Definition EncodedSize (r : record) : Z :=
  8 + 1 + 8 + 8 + 4 + Zlength (Key r) + 4 + Zlength (Value r).

Definition CRCOf (now : Z) (r : record) : Z := be_get (take 4 (Encode now r)).

(** ** Decoding *)

Definition is_EOF (e : goerr) : bool := bool_decide (e = EOF).
Definition is_UnexpectedEOF (e : goerr) : bool := bool_decide (e = ErrUnexpectedEOF).

(** What a call [read(p)] returns: the bytes put in [p] and the error. *)
Abbreviation read_result := (bytes * option goerr)%type.

Section decode.
Context {W : Type} (read : nat → M W read_result).

(** The loop of [readFull]; [need] is [len(p) - n], [got] is [p[:n]]. *)
Fixpoint readFull_loop (fuel need : nat) (got : bytes) : M W read_result :=
  match need with
  | O => mret (got, None)
  | _ =>
    match fuel with
    | O => diverge
    | S fuel =>
      '(c, err) ← read need;
      let got := got ++ c in
      match err with
      | Some e =>
        if bool_decide (got ≠ []) && is_EOF e
        then mret (got, Some ErrUnexpectedEOF)
        else mret (got, Some e)
      | None => readFull_loop fuel (need - length c) got
      end
    end
  end.

Definition readFull (n : nat) : M W read_result := readFull_loop n n [].

(** The part of [decode] after the checksum is verified. *)
Definition decode_payload (payload : bytes) : res record :=
  let len := Zlength payload in
  if bool_decide (head payload = Some Magic) then
    let keyLen := be_get (slice 17 21 payload) in
    if len <? u32 (u32 (21 + keyLen) + 4) then Err (ErrCorrupt Bare) else
    let hi := u32 (21 + keyLen) in
    if (hi <? 21) || (len <? hi) then Panicked else    (* payload[21 : 21+keyLen] *)
    let key := slice 21 (Z.to_nat hi) payload in
    let valOff := 21 + keyLen in
    if len <? valOff + 4 then Panicked else            (* payload[valOff : valOff+4] *)
    let valLen := be_get (slice (Z.to_nat valOff) (Z.to_nat (valOff + 4)) payload) in
    if negb (valOff + 4 + valLen =? len) then Err (ErrCorrupt Bare) else
    Ok (Rec (i64 (be_get (slice 1 9 payload))) (i64 (be_get (slice 9 17 payload))) key
          (slice (Z.to_nat (valOff + 4)) (Z.to_nat (valOff + 4 + valLen)) payload))
  else Err ErrBadMagic.

Definition lift_res {A} (r : res A) : M W A := λ s, (r, s).

Definition decode : M W (record * Z) :=
  '(hdr, err) ← readFull 8;
  match err with Some e => throw e | None =>
  let wantCRC := be_get (slice 0 4 hdr) in
  let size := be_get (slice 4 8 hdr) in
  if (size <? 1 + 8 + 8 + 4 + 4) || (Z.shiftl 64 20 <? size)
  then throw (ErrCorrupt (ImplausibleSize size)) else
  '(payload, err) ← readFull (Z.to_nat size);
  match err with
  | Some e => if is_EOF e || is_UnexpectedEOF e then throw (ErrCorrupt Bare) else throw e
  | None =>
    let crcInput := slice 4 8 hdr ++ payload in
    let got := checksum crcInput in
    if negb (got =? wantCRC) then throw (ErrCorrupt BadCrc) else
    rec ← lift_res (decode_payload payload);
    mret (rec, 8 + size)
  end
  end.
End decode.

(** [Decode(r io.Reader)]: [ReadFull] is [io.ReadFull(r, p)]. *)
Definition Decode {W} (ReadFull : nat → M W read_result) : M W record :=
  '(rec, _) ← decode ReadFull;
  mret rec.

(** [DecodeAt(r io.ReaderAt, off)]: the closure advances the captured [off]. *)
Definition DecodeAt {W} (ReadAt : nat → Z → M W read_result) (off : Z) : M W (record * Z) :=
  λ s, let '(r, (s', _)) :=
    decode (λ n, '(_, off) ← gets (S := W * Z) id;
                 '(bs, err) ← zoom fst (λ s so, (s, snd so)) (ReadAt n off);
                 modify (λ so, (fst so, off + Zlength bs));;
                 match err with
                 | Some e => if is_EOF e && (length bs =? n)%nat then mret (bs, None)
                             else mret (bs, Some e)
                 | None => mret (bs, None)
                 end) (s, off) in
  (r, s').

(** [io.ReadFull] and [ReadAt] over an in-memory byte sequence (bytes.Reader). *)
Definition bytes_ReadFull (n : nat) : M bytes read_result := λ s,
  let c := take n s in
  (Ok (c, if (length c =? n)%nat then None
          else if (length c =? 0)%nat then Some EOF else Some ErrUnexpectedEOF),
   drop n s).

Definition bytes_ReadAt (data : bytes) (n : nat) (off : Z) : M unit read_result := λ s,
  let c := take n (drop (Z.to_nat off) data) in
  (Ok (c, if (length c =? n)%nat then None else Some EOF), s).

(** ** Specification of the decoder on a byte string *)

Definition short_error (bs : bytes) : goerr := if bs is [] then EOF else ErrUnexpectedEOF.

Definition decode_bytes (bs : bytes) : res (record * Z) :=
  if bool_decide (length bs < 8)%nat then Err (short_error bs) else
  let size := be_get (slice 4 8 bs) in
  if (size <? 25) || (Z.shiftl 64 20 <? size) then Err (ErrCorrupt (ImplausibleSize size)) else
  if Zlength bs <? 8 + size then Err (ErrCorrupt Bare) else
  let payload := slice 8 (8 + Z.to_nat size) bs in
  if negb (checksum (slice 4 8 bs ++ payload) =? be_get (slice 0 4 bs))
  then Err (ErrCorrupt BadCrc) else
  match decode_payload payload with
  | Ok r => Ok (r, 8 + size)
  | Err e => Err e
  | Panicked => Panicked
  | Diverged => Diverged
  end.

(** A reader positioned in a byte sequence: [view] is what is left to read,
    [adv k] is the state after [k] more bytes. *)
Record reader_spec {W} (read : nat → M W read_result) (good : W → Prop)
    (view : W → bytes) (adv : nat → W → W) : Prop := {
  rs_adv_add : ∀ a b s, adv a (adv b s) = adv (b + a)%nat s;
  rs_adv_view : ∀ n s, good s → view (adv n s) = drop n (view s);
  rs_adv_good : ∀ n s, good s → good (adv n s);
  rs_read : ∀ n s, (0 < n)%nat → good s →
    ∃ err, read n s = (Ok (take n (view s), err), adv (length (take n (view s))) s) ∧
      (n ≤ length (view s) → err = None)%nat ∧
      (length (view s) < n → view s ≠ [] → err = Some EOF ∨ err = Some ErrUnexpectedEOF)%nat ∧
      (view s = [] → err = Some EOF)
}.
Arguments rs_read {W read good view adv}.
Arguments rs_adv_add {W read good view adv}.
Arguments rs_adv_view {W read good view adv}.
Arguments rs_adv_good {W read good view adv}.

(** ** The decoder meets its specification on every such reader *)

Section refinement.
Context {W : Type} (read : nat → M W read_result) (good : W → Prop)
  (view : W → bytes) (adv : nat → W → W) (RS : reader_spec read good view adv).

Lemma readFull_spec n s :
  (0 < n)%nat → good s →
  readFull read n s =
    (Ok (take n (view s),
         if bool_decide (n ≤ length (view s))%nat then None else Some (short_error (view s))),
     adv (length (take n (view s))) s).
Proof.
  intros Hn Hg. unfold readFull. destruct n as [|n]; [lia|]. simpl readFull_loop.
  unfold mbind, M_bind. destruct (rs_read RS (S n) s Hn Hg) as (err & -> & Hok & Hshort & Hnil).
  cbn [app]. rewrite ?app_nil_l.
  destruct (decide (S n ≤ length (view s))%nat) as [Hle|Hlt].
  - rewrite Hok, bool_decide_eq_true_2 by done.
    replace (S n - _)%nat with 0%nat by (rewrite length_take; lia). destruct n; reflexivity.
  - rewrite (bool_decide_eq_false_2 (S n ≤ length (view s))%nat) by done. unfold short_error.
    destruct (view s) as [|b v] eqn:Hv.
    + rewrite Hnil by done. done.
    + rewrite take_ge by (simpl in *; lia).
      destruct (Hshort ltac:(simpl in *; lia) ltac:(done)) as [-> | ->]; done.
Qed.

Lemma decode_refines s :
  good s →
  ∃ k, decode read s = (decode_bytes (view s), adv k s) ∧
    (∀ r n, decode_bytes (view s) = Ok (r, n) → k = Z.to_nat n ∧ 0 < n).
Proof.
  intros Hg. unfold decode, decode_bytes, mbind, M_bind.
  rewrite (readFull_spec 8) by (done || lia). cbn [fst snd].
  destruct (decide (length (view s) < 8)%nat) as [Hlt|Hge].
  { rewrite bool_decide_eq_false_2, bool_decide_eq_true_2 by lia. eexists. done. }
  rewrite bool_decide_eq_true_2, bool_decide_eq_false_2 by lia.
  assert (∀ lo hi : nat, (hi ≤ 8)%nat → slice lo hi (take 8 (view s)) = slice lo hi (view s))
    as Hsl.
  { intros lo hi H. unfold slice. rewrite skipn_firstn_comm, take_take. f_equal. lia. }
  rewrite !Hsl by lia.
  set (size := be_get (slice 4 8 (view s))).
  destruct ((size <? _) || _) eqn:Esz; [eexists; split; [done|naive_solver]|].
  apply orb_false_iff in Esz as [Es1%Z.ltb_ge Es2%Z.ltb_ge].
  rewrite readFull_spec by (try apply (rs_adv_good RS); done || lia). cbn [fst snd].
  rewrite (rs_adv_view RS), (rs_adv_add RS) by done.
  rewrite length_take_le by lia.
  destruct (Z.ltb_spec (Zlength (view s)) (8 + size)) as [Hs|Hs]; unfold Zlength in Hs.
  { rewrite bool_decide_eq_false_2 by (rewrite length_drop; lia).
    unfold short_error. destruct (drop 8 (view s)); eexists; split; done || naive_solver. }
  rewrite bool_decide_eq_true_2 by (rewrite length_drop; lia).
  replace (slice 8 (8 + Z.to_nat size) (view s))
    with (take (Z.to_nat size) (drop 8 (view s))) by (unfold slice; f_equal; lia).
  destruct (negb _); [eexists; split; [done|naive_solver]|].
  unfold lift_res. destruct (decode_payload _) as [r|e| |] eqn:Ed;
    eexists; (split; [done|try naive_solver]).
  intros r' n [= -> <-]. rewrite length_take, length_drop. lia.
Qed.
End refinement.

(** ** Framing lemmas *)

Lemma length_encode_tail r : Zlength (encode_tail r) = EncodedSize r - 4.
Proof.
  unfold encode_tail, EncodedSize, Zlength. rewrite !length_app, !length_be_put.
  simpl length. lia.
Qed.

Lemma Zlength_encode_stamped r : Zlength (encode_stamped r) = EncodedSize r.
Proof.
  unfold encode_stamped. unfold Zlength at 1. rewrite length_app, length_be_put.
  pose proof (length_encode_tail r). unfold Zlength in *. lia.
Qed.

Lemma EncodedSize_stamp now r : EncodedSize (stamp now r) = EncodedSize r.
Proof. unfold stamp. by destruct (_ =? _). Qed.

Lemma Zlength_Encode now r : Zlength (Encode now r) = EncodedSize r.
Proof. unfold Encode. by rewrite Zlength_encode_stamped, EncodedSize_stamp. Qed.

(** What [Encode] can represent and [decode] accepts. *)
Definition wf_record (r : record) : Prop :=
  is_i64 (Offset r) ∧ is_i64 (Timestamp r) ∧ EncodedSize r ≤ 8 + Z.shiftl 64 20.

#[global] Instance wf_record_dec r : Decision (wf_record r).
Proof. unfold wf_record, is_i64. apply _. Defined.

Lemma EncodedSize_lb r : 33 ≤ EncodedSize r.
Proof. unfold EncodedSize, Zlength. lia. Qed.

(** ** Round trip: [decode] inverts [Encode] *)

Definition payload_of (r : record) : bytes :=
  [Magic] ++ be_put 8 (u64 (Offset r)) ++ be_put 8 (u64 (Timestamp r)) ++
  be_put 4 (u32 (Zlength (Key r))) ++ Key r ++
  be_put 4 (u32 (Zlength (Value r))) ++ Value r.

Definition size_of (r : record) : Z := 25 + Zlength (Key r) + Zlength (Value r).

Lemma encode_tail_split r : encode_tail r = be_put 4 (u32 (size_of r)) ++ payload_of r.
Proof. unfold encode_tail, payload_of, size_of. do 3 f_equal. lia. Qed.

Lemma EncodedSize_size r : EncodedSize r = 8 + size_of r.
Proof. unfold EncodedSize, size_of. lia. Qed.

Lemma Zlength_payload r : Zlength (payload_of r) = size_of r.
Proof.
  pose proof (length_encode_tail r) as H. rewrite encode_tail_split in H.
  rewrite EncodedSize_size in H. unfold Zlength in *. rewrite length_app, length_be_put in H. lia.
Qed.

Lemma be_get_put_u32 z : is_u32 z → be_get (be_put 4 (u32 z)) = z.
Proof.
  intros H. rewrite be_get_put, (u32_small z H). apply Z.mod_small, H.
Qed.

Lemma be_get_put_4 z : is_u32 z → be_get (be_put 4 z) = z.
Proof. intros H. rewrite be_get_put. apply Z.mod_small, H. Qed.

Lemma be_get_put_i64 z : is_i64 z → i64 (be_get (be_put 8 (u64 z))) = z.
Proof.
  intros H. rewrite be_get_put. change (256 ^ Z.of_nat 8) with (2 ^ 64).
  fold (u64 (u64 z)). rewrite !i64_u64. by apply i64_small.
Qed.

Lemma decode_payload_of r : wf_record r → decode_payload (payload_of r) = Ok r.
Proof.
  intros (Ho & Ht & Hs). rewrite EncodedSize_size in Hs.
  change (Z.shiftl 64 20) with 67108864 in Hs.
  pose proof (Zlength_payload r) as Hlen. unfold size_of in *.
  pose proof (Nat2Z.is_nonneg (length (Key r))). pose proof (Nat2Z.is_nonneg (length (Value r))).
  fold (Zlength (Key r)) in *. fold (Zlength (Value r)) in *.
  unfold decode_payload. rewrite bool_decide_eq_true_2 by done. rewrite Hlen.

  assert (slice 17 21 (payload_of r) = be_put 4 (u32 (Zlength (Key r)))) as -> by (unfold payload_of; field_at).
  rewrite be_get_put_u32 by (unfold is_u32; lia).
  rewrite !(u32_small (21 + _)) by (unfold is_u32; lia).
  rewrite !(u32_small (_ + 4)) by (unfold is_u32; lia).
  rewrite (proj2 (Z.ltb_ge _ _)) by lia.
  rewrite (proj2 (Z.ltb_ge _ 21)), (proj2 (Z.ltb_ge _ (21 + _))) by lia. cbn [orb].
  assert (slice 21 (Z.to_nat (21 + Zlength (Key r))) (payload_of r) = Key r) as -> by (unfold payload_of; field_at).
  assert (slice (Z.to_nat (21 + Zlength (Key r))) (Z.to_nat (21 + Zlength (Key r) + 4))
    (payload_of r) = be_put 4 (u32 (Zlength (Value r)))) as -> by (unfold payload_of; field_at).
  rewrite be_get_put_u32 by (unfold is_u32; lia).
  rewrite (proj2 (Z.eqb_eq _ _)) by lia. cbn [negb].
  assert (slice (Z.to_nat (21 + Zlength (Key r) + 4))
    (Z.to_nat (21 + Zlength (Key r) + 4 + Zlength (Value r))) (payload_of r) = Value r) as -> by (unfold payload_of; field_at).
  assert (slice 1 9 (payload_of r) = be_put 8 (u64 (Offset r))) as -> by (unfold payload_of; field_at).
  assert (slice 9 17 (payload_of r) = be_put 8 (u64 (Timestamp r))) as -> by (unfold payload_of; field_at).
  rewrite !be_get_put_i64 by done. by destruct r.
Qed.

Lemma slice_encode_head r :
  slice 0 4 (encode_stamped r) = be_put 4 (checksum (encode_tail r)).
Proof. unfold encode_stamped. field_at. Qed.

Lemma decode_bytes_encode r rest :
  wf_record r → decode_bytes (encode_stamped r ++ rest) = Ok (r, EncodedSize r).
Proof.
  intros Hwf. pose proof Hwf as (_ & _ & Hs). rewrite EncodedSize_size in *.
  change (Z.shiftl 64 20) with 67108864 in Hs.
  pose proof (Zlength_payload r) as Hpl.
  assert (25 ≤ size_of r) by (unfold size_of, Zlength; lia).
  unfold decode_bytes, encode_stamped. rewrite encode_tail_split, <- !app_assoc.
  rewrite bool_decide_eq_false_2 by (rewrite !length_app, !length_be_put; lia).
  rewrite (slice_app_skip 4) by (rewrite length_be_put; lia). rewrite length_be_put.
  rewrite (slice_app_hit (4 - 4)) by (rewrite ?length_be_put; lia).
  rewrite be_get_put_u32 by (unfold is_u32; lia).
  rewrite (proj2 (Z.ltb_ge _ 25)), (proj2 (Z.ltb_ge _ (size_of r)))
    by (change (Z.shiftl 64 20) with 67108864; lia). cbn [orb].
  rewrite (proj2 (Z.ltb_ge _ _))
    by (unfold Zlength in *; rewrite !length_app, !length_be_put; lia).
  rewrite (slice_app_hit 0) by (rewrite ?length_be_put; lia).
  assert (∀ a b : bytes, length a = 4%nat → length b = 4%nat →
    slice 8 (8 + Z.to_nat (size_of r)) (a ++ b ++ payload_of r ++ rest) = payload_of r) as Hp.
  { intros a b Ha Hb. unfold Zlength in Hpl. rewrite !slice_app_skip by lia.
    apply slice_app_hit; lia. }
  rewrite Hp by apply length_be_put. rewrite <- encode_tail_split.
  rewrite be_get_put_4 by apply checksum_range. rewrite Z.eqb_refl. cbn [negb].
  by rewrite decode_payload_of.
Qed.

(** ** Soundness: whatever [decode] accepts is the encoding of its result *)

Lemma be_put_4_get s : length s = 4%nat → be_put 4 (u32 (be_get s)) = s.
Proof.
  intros H. rewrite <- (be_put_get s) at 2. rewrite H, u32_small; [done|].
  pose proof (be_get_range s). unfold Zlength in *. rewrite H in *. done.
Qed.

Lemma be_put_8_get s : length s = 8%nat → be_put 8 (u64 (i64 (be_get s))) = s.
Proof.
  intros H. rewrite u64_i64. rewrite <- (be_put_get s) at 2. rewrite H. f_equal.
  pose proof (be_get_range s). unfold Zlength in *. rewrite H in *. by apply Z.mod_small.
Qed.

Lemma be_get_4_range s : length s = 4%nat → is_u32 (be_get s).
Proof. intros H. pose proof (be_get_range s) as Hr. unfold Zlength in Hr. by rewrite H in Hr. Qed.

Lemma decode_payload_sound p r :
  25 ≤ Zlength p ≤ 67108864 → decode_payload p = Ok r →
  p = payload_of r ∧ Zlength p = size_of r ∧ is_i64 (Offset r) ∧ is_i64 (Timestamp r).
Proof.
  intros Hlen. unfold decode_payload. case_bool_decide as Hm; [|done].
  set (k := be_get (slice 17 21 p)).
  assert (is_u32 k) as Hk by (apply be_get_4_range; rewrite length_slice; unfold Zlength in *; lia).
  destruct (Z.ltb_spec (Zlength p) (u32 (u32 (21 + k) + 4))) as [|Hc1]; [done|].
  destruct ((u32 (21 + k) <? 21) || _) eqn:Ec2; [done|].
  apply orb_false_iff in Ec2 as [Ec2%Z.ltb_ge Ec3%Z.ltb_ge].
  assert (u32 (21 + k) = 21 + k) as Hu.
  { unfold is_u32 in Hk. destruct (decide (21 + k < 2 ^ 32)); [apply u32_small; unfold is_u32; lia|].
    exfalso. unfold u32 in Ec2.
    rewrite <- (Z_mod_plus_full (21 + k) (-1)) in Ec2. rewrite Z.mod_small in Ec2; lia. }
  rewrite Hu in *.
  destruct (Z.ltb_spec (Zlength p) (21 + k + 4)) as [|Hc4]; [done|].
  set (v := be_get (slice (Z.to_nat (21 + k)) (Z.to_nat (21 + k + 4)) p)).
  destruct (Z.eqb_spec (21 + k + 4 + v) (Zlength p)) as [Hc5|]; [|done]. cbn [negb].
  intros [= <-]. unfold is_u32, Zlength in *.
  assert (0 ≤ v) by (unfold v; apply be_get_range).
  set (r := Rec _ _ _ _).
  assert (Z.of_nat (length (Key r)) = k) as HK by (simpl; rewrite length_slice; lia).
  assert (Z.of_nat (length (Value r)) = v) as HV by (simpl; rewrite length_slice; lia).
  repeat split; try apply i64_range; [|unfold size_of, Zlength; rewrite HK, HV; lia].
  unfold payload_of, Zlength. rewrite HK, HV. simpl Offset; simpl Timestamp. unfold k at 1, v at 1.
  rewrite !be_put_8_get, !be_put_4_get by (rewrite length_slice; lia). simpl Key; simpl Value.
  assert (p = slice 0 (length p) p) as Hp by (by rewrite slice_all).
  destruct p as [|m p']; [done|]. injection Hm as ->. simpl app. f_equal.
  assert (p' = slice 1 (length (Magic :: p')) (Magic :: p')) as Hp'
    by (unfold slice; simpl; by rewrite Nat.sub_0_r, firstn_all).
  set (q := Magic :: p') in *. rewrite Hp'.
  rewrite (slice_split 1 9), (slice_split 9 17), (slice_split 17 21),
    (slice_split 21 (Z.to_nat (21 + k))), (slice_split (Z.to_nat (21 + k)) (Z.to_nat (21 + k + 4))) by lia.
  do 6 f_equal. lia.
Qed.

Lemma decode_bytes_sound bs r n :
  decode_bytes bs = Ok (r, n) →
  wf_record r ∧ n = EncodedSize r ∧ bs = encode_stamped r ++ drop (Z.to_nat n) bs.
Proof.
  unfold decode_bytes. case_bool_decide as H8; [done|].
  set (size := be_get (slice 4 8 bs)).
  change (Z.shiftl 64 20) with 67108864.
  destruct ((size <? 25) || _) eqn:Esz; [done|].
  apply orb_false_iff in Esz as [Es1%Z.ltb_ge Es2%Z.ltb_ge].
  destruct (Z.ltb_spec (Zlength bs) (8 + size)) as [|Hlen]; [done|].
  set (p := slice 8 (8 + Z.to_nat size) bs). unfold Zlength in *.
  destruct (Z.eqb_spec (checksum (slice 4 8 bs ++ p)) (be_get (slice 0 4 bs))) as [Hcrc|];
    [|done]. cbn [negb].
  assert (Zlength p = size) as Hp by (unfold p, Zlength; rewrite length_slice; lia).
  destruct (decode_payload p) as [r'|e| |] eqn:Ed; try done. intros [= -> <-].
  apply decode_payload_sound in Ed as (Hpay & Hsz & Ho & Ht); [|lia].
  rewrite EncodedSize_size. split_and!; [|lia|].
  { unfold wf_record. rewrite EncodedSize_size. change (Z.shiftl 64 20) with 67108864.
    split_and!; [done..|lia]. }
  unfold encode_stamped. rewrite encode_tail_split, <- Hpay.
  assert (be_put 4 (u32 (size_of r)) = slice 4 8 bs) as ->.
  { rewrite <- Hsz, Hp. unfold size. apply be_put_4_get. rewrite length_slice; lia. }
  rewrite Hcrc.
  assert (be_put 4 (be_get (slice 0 4 bs)) = slice 0 4 bs) as ->.
  { rewrite <- (u32_small (be_get _)) by (apply be_get_4_range; rewrite length_slice; lia).
    apply be_put_4_get. rewrite length_slice; lia. }
  unfold p. rewrite <- (slice_split 4 8) by lia. rewrite <- (slice_split 0 4) by lia.
  unfold slice. rewrite drop_0, Nat.sub_0_r.
  replace (Z.to_nat (8 + size)) with (8 + Z.to_nat size)%nat by lia. by rewrite take_drop.
Qed.

(** ** Damage: truncation and corruption are never accepted *)

Lemma decode_bytes_truncated r k :
  wf_record r → (0 < k)%nat → Z.of_nat k < EncodedSize r →
  decode_bytes (take k (encode_stamped r)) =
    Err (if (k <? 8)%nat then ErrUnexpectedEOF else ErrCorrupt Bare).
Proof.
  intros (_ & _ & Hs) Hk Hlt. pose proof (Zlength_encode_stamped r) as Hl.
  rewrite EncodedSize_size in *. change (Z.shiftl 64 20) with 67108864 in Hs.
  unfold Zlength in Hl. unfold decode_bytes.
  assert (25 ≤ size_of r) by (unfold size_of, Zlength; lia).
  rewrite length_take_le by lia. destruct (Nat.ltb_spec k 8).
  - rewrite bool_decide_eq_true_2 by done. destruct k; [lia|].
    destruct (encode_stamped r); [simpl in *; lia|done].
  - rewrite bool_decide_eq_false_2 by lia.
    assert (slice 4 8 (take k (encode_stamped r)) = be_put 4 (u32 (size_of r))) as ->.
    { transitivity (slice 4 8 (encode_stamped r)).
      - unfold slice. rewrite skipn_firstn_comm, take_take. f_equal. lia.
      - unfold encode_stamped. rewrite encode_tail_split. field_at. }
    rewrite be_get_put_u32 by (unfold is_u32; lia).
    rewrite (proj2 (Z.ltb_ge _ 25)), (proj2 (Z.ltb_ge _ (size_of r)))
      by (change (Z.shiftl 64 20) with 67108864; lia). cbn [orb].
    unfold Zlength. rewrite length_take_le by lia. rewrite (proj2 (Z.ltb_lt _ _)) by lia. done.
Qed.

(** Flipping one byte anywhere but in the size field is caught by the CRC. *)
Lemma decode_bytes_flip r rest i v :
  wf_record r → (i < 4 ∨ 8 ≤ i)%nat → Z.of_nat i < EncodedSize r →
  encode_stamped r !! i ≠ Some v →
  decode_bytes (<[i:=v]> (encode_stamped r) ++ rest) = Err (ErrCorrupt BadCrc).
Proof.
  intros (_ & _ & Hs) Hi Hlt Hv. pose proof (Zlength_encode_stamped r) as Hl.
  pose proof (Zlength_payload r) as Hpl.
  rewrite EncodedSize_size in *. change (Z.shiftl 64 20) with 67108864 in Hs.
  assert (25 ≤ size_of r) by (unfold size_of, Zlength; lia).
  unfold encode_stamped in *. rewrite encode_tail_split in *.
  set (c := checksum _) in *. set (sz := be_put 4 (u32 (size_of r))) in *.
  assert (length sz = 4%nat) as Hsz by apply length_be_put.
  assert (is_u32 c) as Hc by apply checksum_range.
  assert (length (be_put 4 c) = 4%nat) as Hcl by apply length_be_put.
  assert (∃ c' p', <[i:=v]> (be_put 4 c ++ sz ++ payload_of r) = c' ++ sz ++ p' ∧
    length c' = 4%nat ∧ length p' = length (payload_of r) ∧
    checksum (sz ++ p') ≠ be_get c') as (c' & p' & -> & Hc' & Hp' & Hne).
  { destruct (decide (i < 4)%nat).
    - exists (<[i:=v]> (be_put 4 c)), (payload_of r).
      rewrite insert_app_l, length_insert by lia. split_and!; [done..|].
      fold c. intros Heq. apply Hv. rewrite lookup_app_l by lia.
      assert (<[i:=v]> (be_put 4 c) = be_put 4 c) as <-.
      { apply be_get_inj; [by rewrite length_insert|]. by rewrite be_get_put_4, <- Heq. }
      apply list_lookup_insert_eq. lia.
    - exists (be_put 4 c), (<[(i - 8)%nat:=v]> (payload_of r)).
      rewrite insert_app_r_alt, insert_app_r_alt, length_insert by lia. rewrite Hcl, Hsz.
      replace (i - 4 - 4)%nat with (i - 8)%nat by lia. split_and!; [done..|].
      rewrite be_get_put_4 by done. rewrite !lookup_app_r, Hcl, Hsz in Hv by lia.
      replace (i - 4 - 4)%nat with (i - 8)%nat in Hv by lia.
      unfold Zlength in *.
      destruct (lookup_lt_is_Some_2 (payload_of r) (i - 8)%nat) as [w Hw]; [lia|].
      intros Heq. unfold c in Heq. rewrite <- (take_drop_middle _ _ _ Hw) in Heq at 2.
      rewrite insert_take_drop in Heq by lia.
      rewrite !app_assoc in Heq. apply checksum_one_byte in Heq. congruence. }
  unfold decode_bytes. rewrite <- !app_assoc. unfold Zlength in *.
  rewrite bool_decide_eq_false_2 by (rewrite !length_app; lia).
  assert (slice 4 8 (c' ++ sz ++ p' ++ rest) = sz) as ->.
  { rewrite slice_app_skip by lia. apply slice_app_hit; lia. }
  assert (be_get sz = size_of r) as -> by (apply be_get_put_u32; unfold is_u32; lia).
  rewrite (proj2 (Z.ltb_ge _ 25)), (proj2 (Z.ltb_ge _ (size_of r)))
    by (change (Z.shiftl 64 20) with 67108864; lia). cbn [orb].
  rewrite (proj2 (Z.ltb_ge _ _)) by (rewrite !length_app; lia).
  assert (slice 8 (8 + Z.to_nat (size_of r)) (c' ++ sz ++ p' ++ rest) = p') as ->.
  { rewrite !slice_app_skip by lia. apply slice_app_hit; lia. }
  rewrite (slice_app_hit 0) by lia. rewrite (proj2 (Z.eqb_neq _ _)) by done. done.
Qed.

(** The bounds check [int(21+keyLen+4) > len(payload)] is done in uint32
    arithmetic: a key length of at least 2^32 - 25 passes it and the slice
    expression below it panics; no other payload makes it panic. *)
Lemma decode_payload_panic p :
  25 ≤ Zlength p ≤ 67108864 →
  decode_payload p = Panicked ↔
    head p = Some Magic ∧ 2 ^ 32 - 25 ≤ be_get (slice 17 21 p).
Proof.
  intros Hlen. unfold decode_payload.
  case_bool_decide as Hm; [|by split; [|intros []]].
  set (k := be_get (slice 17 21 p)).
  assert (is_u32 k) as Hk by (apply be_get_4_range; rewrite length_slice; unfold Zlength in *; lia).
  unfold is_u32 in Hk. unfold u32. rewrite Zplus_mod_idemp_l.
  destruct (decide (2 ^ 32 - 25 ≤ k)) as [Hbig|Hsmall].
  - transitivity True; [|tauto]. split; [done|intros _].
    assert ((21 + k + 4) mod 2 ^ 32 = 25 + k - 2 ^ 32) as ->.
    { rewrite <- (Z_mod_plus_full _ (-1)), Z.mod_small; lia. }
    rewrite (proj2 (Z.ltb_ge _ _)) by lia.
    destruct ((_ <? 21) || _) eqn:E; [done|].
    apply orb_false_iff in E as [E1%Z.ltb_ge E2%Z.ltb_ge].
    destruct (decide (21 + k < 2 ^ 32)).
    + rewrite Z.mod_small in E2 by lia. lia.
    + rewrite <- (Z_mod_plus_full _ (-1)), Z.mod_small in E1; lia.
  - rewrite !Z.mod_small by lia. split; [|intros [_ ?]; lia].
    destruct (Z.ltb_spec (Zlength p) (21 + k + 4)); [done|].
    rewrite (proj2 (Z.ltb_ge _ 21)), (proj2 (Z.ltb_ge _ (21 + k))) by lia. cbn [orb].
    repeat case_match; done.
Qed.

Lemma decode_bytes_oversized r rest :
  8 + Z.shiftl 64 20 < EncodedSize r < 2 ^ 32 →
  decode_bytes (encode_stamped r ++ rest) = Err (ErrCorrupt (ImplausibleSize (EncodedSize r - 8))).
Proof.
  rewrite EncodedSize_size. intros [Hlo Hhi].
  assert (be_get (slice 4 8 (encode_stamped r ++ rest)) = size_of r) as Hsz.
  { unfold encode_stamped. rewrite encode_tail_split, <- !app_assoc.
    assert (∀ a b c : bytes, length a = 4%nat → length b = 4%nat → slice 4 8 (a ++ b ++ c) = b)
      as -> by (intros; rewrite slice_app_skip by lia; apply slice_app_hit; lia).
    - apply be_get_put_u32. unfold is_u32, size_of, Zlength in *. lia.
    - apply length_be_put.
    - apply length_be_put. }
  unfold decode_bytes. rewrite Hsz.
  pose proof (Zlength_encode_stamped r) as Hl. rewrite EncodedSize_size in Hl.
  change (Z.shiftl 64 20) with 67108864 in *. unfold Zlength in Hl.
  rewrite bool_decide_eq_false_2 by (rewrite length_app; lia).
  rewrite (proj2 (Z.ltb_lt 67108864 _)) by lia. rewrite orb_true_r. do 3 f_equal. lia.
Qed.

(** ** The concrete readers meet [reader_spec] *)

Lemma bytes_reader_spec : reader_spec bytes_ReadFull (λ _, True) id drop.
Proof.
  split; [|done|done|].
  - intros a b s. apply drop_drop.
  - intros n s Hn _. unfold bytes_ReadFull, id. eexists. split; [f_equal|].
    + destruct (decide (n ≤ length s)%nat).
      * by rewrite length_take_le.
      * rewrite take_ge, !drop_ge by lia. done.
    + rewrite length_take. split_and!.
      * intros. by rewrite (proj2 (Nat.eqb_eq _ _)) by lia.
      * intros Hlt Hs. rewrite (proj2 (Nat.eqb_neq _ n)) by lia. right.
        destruct s; [done|]. rewrite (proj2 (Nat.eqb_neq _ 0)); [done|simpl; lia].
      * intros ->. simpl. rewrite Nat.min_0_r. by destruct n; [lia|].
Qed.

Lemma Decode_bytes bs :
  ∃ k, Decode bytes_ReadFull bs =
    (match decode_bytes bs with
     | Ok (r, _) => Ok r | Err e => Err e | Panicked => Panicked | Diverged => Diverged end,
     drop k bs) ∧
    (∀ r n, decode_bytes bs = Ok (r, n) → k = Z.to_nat n).
Proof.
  unfold Decode, mbind, M_bind.
  destruct (decode_refines _ _ _ _ bytes_reader_spec bs I) as (k & -> & Hk).
  unfold id in *. exists k. split; [by destruct (decode_bytes bs) as [[]| | |]|].
  intros r n H. by apply (Hk r n).
Qed.

(** A [ReadAt] that returns what [data] holds at the offset makes [DecodeAt]
    decode [data] from there. *)
Definition readat_spec {W} (ReadAt : nat → Z → M W read_result) (s : W) (data : bytes) : Prop :=
  ∀ n off, 0 ≤ off →
    ReadAt n off s =
      (Ok (take n (drop (Z.to_nat off) data),
           if (length (take n (drop (Z.to_nat off) data)) =? n)%nat then None else Some EOF), s).

Lemma DecodeAt_refines {W} (ReadAt : nat → Z → M W read_result) s data off :
  readat_spec ReadAt s data → 0 ≤ off →
  DecodeAt ReadAt off s = (decode_bytes (drop (Z.to_nat off) data), s).
Proof.
  intros HR Hoff. unfold DecodeAt. set (read := λ n : nat, _).
  assert (reader_spec read (λ so, fst so = s ∧ 0 ≤ snd so)
    (λ so, drop (Z.to_nat (snd so)) data)
    (λ k so, (fst so, snd so + Z.of_nat k))) as RS.
  { split.
    - intros a b [w o]. simpl. f_equal. lia.
    - intros n [w o] [_ Ho]. simpl in *. rewrite drop_drop. f_equal. lia.
    - intros n [w o] [Hw Ho]. simpl in *. split; [done|lia].
    - intros n [w o] Hn [Hw Ho]. simpl in Hw, Ho. subst w. cbn [fst snd].
      unfold read, mbind, M_bind, zoom, gets, modify, id. cbn [fst snd]. rewrite HR by done.
      set (c := take n _). cbn [fst snd].
      assert (length c = n ∨ length c < n)%nat as [Hc|Hc]
        by (unfold c; rewrite length_take; lia).
      + rewrite (proj2 (Nat.eqb_eq _ _) Hc). eexists. split; [done|].
        unfold c in Hc. rewrite length_take in Hc. split_and!; [done|lia|].
        intros E. rewrite E in Hc. simpl in Hc. lia.
      + rewrite (proj2 (Nat.eqb_neq _ n)) by lia. rewrite andb_false_r.
        eexists. split; [done|]. unfold c in Hc. rewrite length_take in Hc.
        split_and!; [lia|auto..]. }
  destruct (decode_refines _ _ _ _ RS (s, off)) as (k & -> & _); [done|]. done.
Qed.

(** A 33-byte input with a correct checksum whose key length is 2^32 - 25. *)
Definition crafted_payload : bytes :=
  [Magic] ++ replicate 16 x00 ++ be_put 4 (2 ^ 32 - 25) ++ replicate 4 x00.
Definition crafted_input : bytes :=
  let tail := be_put 4 25 ++ crafted_payload in be_put 4 (checksum tail) ++ tail.

(** A record whose value alone is 64 MiB. *)
Definition oversized_record : record := Rec 0 1 [] (replicate (Z.to_nat 67108864) x00).

Lemma EncodedSize_zeros n : EncodedSize (Rec 0 1 [] (replicate n x00)) = 33 + Z.of_nat n.
Proof. unfold EncodedSize, Zlength. cbn [Key Value]. rewrite length_replicate. simpl length. lia. Qed.

(** ** Properties *)

(** C14: decoding the bytes [Encode] produces gives the (time-stamped) record
    back, leaves exactly what follows it in the stream, and the encoding has
    the length [EncodedSize] announces. *)
Theorem decode_encode_roundtrip now r rest (Hwf : wf_record (stamp now r)) :
  Decode bytes_ReadFull (Encode now r ++ rest) = (Ok (stamp now r), rest) ∧
  Zlength (Encode now r) = EncodedSize r.
Proof.
  split; [|apply Zlength_Encode]. unfold Encode.
  destruct (Decode_bytes (encode_stamped (stamp now r) ++ rest)) as (k & -> & Hk).
  pose proof (decode_bytes_encode _ rest Hwf) as Hd. rewrite Hd. f_equal.
  rewrite (Hk _ _ Hd). pose proof (Zlength_encode_stamped (stamp now r)) as Hl.
  rewrite <- Hl. unfold Zlength. rewrite Nat2Z.id. by rewrite drop_app_length.
Qed.

Lemma decode_encode_roundtrip_witness :
  Decode bytes_ReadFull
    (Encode 1700000000000 (Rec 42 0 [x61; x62] [x68; x69]) ++ [xff]) =
    (Ok (Rec 42 1700000000000 [x61; x62] [x68; x69]), [xff]) ∧
  Zlength (Encode 1700000000000 (Rec 42 0 [x61; x62] [x68; x69])) = 37.
Proof.
  apply (decode_encode_roundtrip 1700000000000 (Rec 42 0 [x61; x62] [x68; x69]) [xff]).
  apply (bool_decide_unpack _). vm_compute. exact I.
Defined.

(** Whatever [Decode] accepts is byte for byte the encoding of the record
    it returns, and that record is one the format can represent. *)
Theorem decode_accepts_only_encodings bs r rest
    (H : Decode bytes_ReadFull bs = (Ok r, rest)) :
  wf_record r ∧ bs = encode_stamped r ++ rest.
Proof.
  destruct (Decode_bytes bs) as (k & Heq & Hk). rewrite Heq in H.
  destruct (decode_bytes bs) as [[r' n]|e| |] eqn:Ed; try done.
  injection H as -> <-. rewrite (Hk _ _ eq_refl).
  by apply decode_bytes_sound in Ed as (Hwf & -> & Hbs).
Qed.

Lemma decode_accepts_only_encodings_witness :
  let bs := Encode 0 (Rec 7 9 [x6b] [x76]) ++ [x00; x01] in
  wf_record (Rec 7 9 [x6b] [x76]) ∧ bs = encode_stamped (Rec 7 9 [x6b] [x76]) ++ [x00; x01].
Proof.
  apply (decode_accepts_only_encodings _ (Rec 7 9 [x6b] [x76]) [x00; x01]).
  vm_compute. reflexivity.
Defined.

(** C26: changing any single byte of an encoded record outside its size field is
    reported as [ErrCorrupt] (checksum), whatever follows the record. *)
Theorem decode_detects_byte_flip now r rest i v
    (Hwf : wf_record (stamp now r))
    (Hi : (i < 4 ∨ 8 ≤ i)%nat) (Hlt : Z.of_nat i < EncodedSize r)
    (Hv : Encode now r !! i ≠ Some v) :
  fst (Decode bytes_ReadFull (<[i:=v]> (Encode now r) ++ rest)) = Err (ErrCorrupt BadCrc).
Proof.
  destruct (Decode_bytes (<[i:=v]> (Encode now r) ++ rest)) as (k & -> & _).
  unfold Encode. rewrite decode_bytes_flip; [done|done|done| |done].
  by rewrite EncodedSize_stamp.
Qed.

Lemma decode_detects_byte_flip_witness :
  fst (Decode bytes_ReadFull
    (<[40%nat:=xff]> (Encode 0 (Rec 7 9 [x6b] (replicate 8 x70))) ++ [])) =
  Err (ErrCorrupt BadCrc).
Proof.
  apply decode_detects_byte_flip.
  - apply (bool_decide_unpack _). vm_compute. exact I.
  - lia.
  - vm_compute. reflexivity.
  - vm_compute. discriminate.
Defined.

(** A record cut short anywhere is never accepted and never mistaken for
    the end of the stream: [io.ErrUnexpectedEOF] inside the 8-byte header,
    [ErrCorrupt] inside the payload. *)
Theorem decode_rejects_torn_record now r k
    (Hwf : wf_record (stamp now r)) (Hk : (0 < k)%nat) (Hlt : Z.of_nat k < EncodedSize r) :
  fst (Decode bytes_ReadFull (take k (Encode now r))) =
    Err (if (k <? 8)%nat then ErrUnexpectedEOF else ErrCorrupt Bare).
Proof.
  destruct (Decode_bytes (take k (Encode now r))) as (j & -> & _).
  unfold Encode. rewrite decode_bytes_truncated; [done|done|done|].
  by rewrite EncodedSize_stamp.
Qed.

Lemma decode_rejects_torn_record_witness :
  fst (Decode bytes_ReadFull (take 5 (Encode 0 (Rec 1 2 [x6b] [x76])))) = Err ErrUnexpectedEOF.
Proof.
  apply (decode_rejects_torn_record 0 (Rec 1 2 [x6b] [x76]) 5).
  - apply (bool_decide_unpack _). vm_compute. exact I.
  - lia.
  - vm_compute. reflexivity.
Defined.

(** The key-length check is computed in uint32, so a checksummed payload
    whose key length is at least 2^32 - 25 makes [decode] panic; these are the
    only payloads that do, and such an input exists. *)
Theorem decode_panics_on_wrapped_key_length :
  (∀ p, 25 ≤ Zlength p ≤ 67108864 →
     decode_payload p = Panicked ↔ head p = Some Magic ∧ 2 ^ 32 - 25 ≤ be_get (slice 17 21 p)) ∧
  fst (Decode bytes_ReadFull crafted_input) = Panicked.
Proof. split; [apply decode_payload_panic|vm_compute; reflexivity]. Qed.

(** [Encode] puts no bound on the size, [decode] does: a record of more
    than 64 MiB is written without complaint and can never be read back. *)
Theorem encode_oversized_unreadable now r rest
    (H : 8 + Z.shiftl 64 20 < EncodedSize r < 2 ^ 32) :
  fst (Decode bytes_ReadFull (Encode now r ++ rest)) =
    Err (ErrCorrupt (ImplausibleSize (EncodedSize r - 8))).
Proof.
  destruct (Decode_bytes (Encode now r ++ rest)) as (j & -> & _).
  unfold Encode. rewrite decode_bytes_oversized; rewrite EncodedSize_stamp; done.
Qed.

Lemma encode_oversized_unreadable_witness :
  fst (Decode bytes_ReadFull (Encode 1 oversized_record ++ [])) =
    Err (ErrCorrupt (ImplausibleSize (EncodedSize oversized_record - 8))).
Proof.
  apply encode_oversized_unreadable. unfold oversized_record.
  rewrite EncodedSize_zeros. change (Z.shiftl 64 20) with 67108864. lia.
Defined.
