(* ===== verification/GoPath.v ===== *)
(** [strings.Split], [strings.Join] and the lexical path functions of
    [path/filepath] on Unix. *)
From S2P Require Import Prelude GoStrings.
Open Scope nat_scope.

(** ** Splitting and joining at a character *)

Fixpoint split_at (c : ascii) (l : chars) : list chars :=
  match l with
  | [] => [[]]
  | x :: l =>
    if Ascii.eqb x c then [] :: split_at c l
    else match split_at c l with
         | [] => [[x]]
         | p :: ps => (x :: p) :: ps
         end
  end.

Fixpoint join_with (c : ascii) (ps : list chars) : chars :=
  match ps with
  | [] => []
  | [p] => p
  | p :: ps => p ++ c :: join_with c ps
  end.

(** [strings.Split] with a one-character separator. *)
Definition Split (s : string) (c : ascii) : list string := of_chars <$> split_at c (to_chars s).

(** [strings.Join] with a one-character separator. *)
Definition Join_strings (c : ascii) (ps : list string) : string :=
  of_chars (join_with c (to_chars <$> ps)).

(** [strings.Cut]: around the first occurrence. *)
Fixpoint cut_at (c : ascii) (l : chars) : option (chars * chars) :=
  match l with
  | [] => None
  | x :: l =>
    if Ascii.eqb x c then Some ([], l)
    else match cut_at c l with
         | None => None
         | Some (a, b) => Some (x :: a, b)
         end
  end.

Definition Cut (s : string) (c : ascii) : option (string * string) :=
  match cut_at c (to_chars s) with
  | None => None
  | Some (a, b) => Some (of_chars a, of_chars b)
  end.

(** ** [filepath.Clean] and [filepath.Join] *)

Definition slash : ascii := "/".
Definition dot : chars := ["."%char].
Definition dotdot : chars := ["."%char; "."%char].

(** One element, on the stack of elements kept so far (last one first). *)
Definition clean_step (rooted : bool) (stack : list chars) (p : chars) : list chars :=
  if bool_decide (p = []) || bool_decide (p = dot) then stack
  else if bool_decide (p = dotdot) then
    match stack with
    | q :: stack' => if bool_decide (q = dotdot) then p :: stack else stack'
    | [] => if rooted then [] else [p]
    end
  else p :: stack.

Definition is_rooted (l : chars) : bool := bool_decide (head l = Some slash).

Definition clean_elements (l : chars) : list chars :=
  rev (foldl (clean_step (is_rooted l)) [] (split_at slash l)).

Definition Clean (path : string) : string :=
  let l := to_chars path in
  let out := join_with slash (clean_elements l) in
  of_chars (if is_rooted l then slash :: out
            else match out with [] => dot | _ => out end).

Fixpoint path_Join (elems : list string) : string :=
  match elems with
  | [] => ""
  | e :: elems' =>
    if bool_decide (e = ""%string) then path_Join elems'
    else Clean (Join_strings slash elems)
  end.

(** ** Laws *)

Lemma split_at_nonempty c l : split_at c l ≠ [].
Proof. destruct l as [|x l]; [done|]. cbn. destruct (Ascii.eqb x c); [done|]. by destruct (split_at c l). Qed.

Lemma split_at_app c a b :
  c ∉ a → split_at c (a ++ c :: b) = a :: split_at c b.
Proof.
  induction a as [|x a IH]; intros Ha; cbn.
  - by rewrite Ascii.eqb_refl.
  - rewrite not_elem_of_cons in Ha. destruct Ha as [Hx Ha].
    destruct (Ascii.eqb_spec x c) as [->|]; [done|]. by rewrite IH.
Qed.

Lemma split_at_none c a : c ∉ a → split_at c a = [a].
Proof.
  induction a as [|x a IH]; intros Ha; cbn; [done|].
  rewrite not_elem_of_cons in Ha. destruct Ha as [Hx Ha].
  destruct (Ascii.eqb_spec x c) as [->|]; [done|]. by rewrite IH.
Qed.

Lemma split_join c ps : ps ≠ [] → Forall (λ p, c ∉ p) ps → split_at c (join_with c ps) = ps.
Proof.
  intros Hne Hps. induction Hps as [|p ps Hp Hps IH]; [done|].
  destruct ps as [|q ps]; [by apply split_at_none|].
  change (join_with c (p :: q :: ps)) with (p ++ c :: join_with c (q :: ps)).
  rewrite split_at_app by done. by rewrite IH.
Qed.

Lemma split_at_app_gen c a b : split_at c (a ++ c :: b) = split_at c a ++ split_at c b.
Proof.
  induction a as [|x a IH]; cbn; [by rewrite Ascii.eqb_refl|].
  destruct (Ascii.eqb_spec x c); [by rewrite IH|]. rewrite IH.
  pose proof (split_at_nonempty c a). by destruct (split_at c a).
Qed.

Lemma cut_at_app c a b : c ∉ a → cut_at c (a ++ c :: b) = Some (a, b).
Proof.
  induction a as [|x a IH]; intros Ha; cbn.
  - by rewrite Ascii.eqb_refl.
  - rewrite not_elem_of_cons in Ha. destruct Ha as [Hx Ha].
    destruct (Ascii.eqb_spec x c) as [->|]; [done|]. by rewrite IH.
Qed.

(** A path element that names a file: not empty, not "." or "..", no slash. *)
Definition simple_name (p : chars) : Prop := (slash ∉ p) ∧ p ≠ [] ∧ p ≠ dot ∧ p ≠ dotdot.

#[global] Instance simple_name_dec p : Decision (simple_name p).
Proof. unfold simple_name. apply _. Defined.

Lemma clean_step_simple rooted stack p : simple_name p → clean_step rooted stack p = p :: stack.
Proof. intros (_ & H1 & H2 & H3). unfold clean_step. by rewrite !bool_decide_false. Qed.

Lemma clean_fold_simple rooted stack ps :
  Forall simple_name ps → foldl (clean_step rooted) stack ps = rev ps ++ stack.
Proof.
  intros Hps. revert stack. induction Hps as [|p ps Hp _ IH]; intros stack; [done|].
  cbn [foldl rev]. rewrite clean_step_simple, IH by done. by rewrite <- app_assoc.
Qed.

(** The elements kept have no slash. *)
Lemma split_at_free c l : Forall (λ p, c ∉ p) (split_at c l).
Proof.
  induction l as [|x l IH]; cbn; [repeat constructor; by intros ?%not_elem_of_nil|].
  destruct (Ascii.eqb_spec x c) as [->|Hx]; [constructor; [by intros ?%not_elem_of_nil|done]|].
  destruct (split_at c l) as [|p ps]; [repeat constructor; by intros ->%list_elem_of_singleton|].
  apply Forall_cons in IH as [Hp Hps]. constructor; [|done].
  rewrite not_elem_of_cons. split; congruence.
Qed.

Lemma clean_fold_free rooted stack ps :
  Forall (λ p, slash ∉ p) stack → Forall (λ p, slash ∉ p) ps →
  Forall (λ p, slash ∉ p) (foldl (clean_step rooted) stack ps).
Proof.
  intros Hs Hps. revert stack Hs. induction Hps as [|p ps Hp _ IH]; intros stack Hs; [done|].
  cbn [foldl]. apply IH. unfold clean_step.
  destruct (_ || _); [done|]. case_bool_decide; [|by constructor].
  destruct stack as [|q stack]; [destruct rooted; repeat constructor; done|].
  apply Forall_cons in Hs as [Hq Hs]. case_bool_decide; [by repeat constructor|done].
Qed.

(** A directory joined with simple names keeps them as its last elements. *)
Lemma clean_elements_app root names :
  Forall simple_name names → names ≠ [] →
  clean_elements (root ++ slash :: join_with slash names) =
    rev (foldl (clean_step (is_rooted (root ++ [slash]))) [] (split_at slash root)) ++ names.
Proof.
  intros Hn Hne. unfold clean_elements. rewrite split_at_app_gen, foldl_app.
  rewrite split_join, clean_fold_simple; [|done|done|].
  2:{ eapply Forall_impl; [exact Hn|]. by intros p []. }
  rewrite rev_app_distr, rev_involutive. f_equal. f_equal. f_equal.
  unfold is_rooted. by destruct root.
Qed.

Lemma join_with_inj ps qs :
  ps ≠ [] → qs ≠ [] → Forall (λ p, slash ∉ p) ps → Forall (λ p, slash ∉ p) qs →
  join_with slash ps = join_with slash qs → ps = qs.
Proof.
  intros Hp Hq Fp Fq E. apply (f_equal (split_at slash)) in E. by rewrite !split_join in E.
Qed.

(** Different simple names under the same directory are different paths. *)
Lemma Clean_inj root ns ns' :
  Forall simple_name ns → Forall simple_name ns' → length ns = length ns' → ns ≠ [] →
  Clean (of_chars (root ++ slash :: join_with slash ns)) =
    Clean (of_chars (root ++ slash :: join_with slash ns')) → ns = ns'.
Proof.
  intros Hn Hn' Hlen Hne H. assert (ns' ≠ []) as Hne' by (by destruct ns, ns').
  unfold Clean in H. cbv zeta in H. rewrite !to_of_chars in H. apply of_chars_inj in H.
  assert (∀ b, is_rooted (root ++ slash :: b) = is_rooted (root ++ [slash])) as Hr
    by (intros b; unfold is_rooted; by destruct root).
  rewrite (Hr (join_with slash ns)), (Hr (join_with slash ns')), !clean_elements_app in H by done.
  set (stack := rev (foldl _ _ _)) in H.
  assert (Forall (λ p, slash ∉ p) stack) as Hst.
  { apply Forall_rev, clean_fold_free; [constructor|apply split_at_free]. }
  assert (∀ ms, Forall simple_name ms → Forall (λ p, slash ∉ p) (stack ++ ms)) as Hfree.
  { intros ms Hms. apply Forall_app_2; [done|]. eapply Forall_impl; [exact Hms|]. by intros p []. }
  assert (∀ ms, ms ≠ [] → Forall simple_name ms → join_with slash (stack ++ ms) ≠ []) as Hjne.
  { intros ms Hmne Hms E. apply (f_equal (split_at slash)) in E.
    assert (stack ++ ms ≠ []) by (by destruct stack, ms).
    rewrite split_join in E; [|done|by apply Hfree].
    destruct Hms as [|m ms Hm _]; [done|]. destruct stack as [|q st]; [|by destruct st].
    injection E as -> _. by destruct Hm as (_ & ? & _). }
  assert (join_with slash (stack ++ ns) = join_with slash (stack ++ ns')) as E.
  { clearbody stack. destruct (is_rooted (root ++ [slash])); [injection H; done|].
    pose proof (Hjne ns Hne Hn). pose proof (Hjne ns' Hne' Hn').
    by destruct (join_with slash (stack ++ ns)), (join_with slash (stack ++ ns')). }
  apply join_with_inj in E; [by apply app_inv_head in E|by destruct stack, ns|by destruct stack, ns'|
    by apply Hfree|by apply Hfree].
Qed.
