(* ===== verification/GoURL.v ===== *)
(** [net/url]: escaping, parsing of a URL's path and query, and the query values;
    and the numbers the handlers read from them. *)
From S2P Require Import Prelude GoStrings GoPath.
Open Scope Z_scope.

(** ** Escaping *)

Inductive encoding := encodePath | encodePathSegment | encodeQueryComponent.

Definition code (c : ascii) : Z := Z.of_N (N_of_ascii c).
Definition one_of (s : string) (c : ascii) : bool := existsb (Ascii.eqb c) (to_chars s).

Definition is_alnum (c : ascii) : bool :=
  let n := code c in
  ((48 <=? n) && (n <=? 57)) || ((65 <=? n) && (n <=? 90)) || ((97 <=? n) && (n <=? 122)).

Definition shouldEscape (m : encoding) (c : ascii) : bool :=
  if is_alnum c || one_of "-_.~" c then false
  else if one_of "$&+,/:;=?@" c then
    match m with
    | encodePath => Ascii.eqb c "?"
    | encodePathSegment => one_of "/;,?" c
    | encodeQueryComponent => true
    end
  else true.

Definition upperhex (n : Z) : ascii := ascii_of_N (Z.to_N (if n <? 10 then 48 + n else 55 + n)).

Definition escape_char (m : encoding) (c : ascii) : chars :=
  if shouldEscape m c then
    match m with
    | encodeQueryComponent => if Ascii.eqb c " " then ["+"%char] else ["%"%char; upperhex (code c / 16); upperhex (code c mod 16)]
    | _ => ["%"%char; upperhex (code c / 16); upperhex (code c mod 16)]
    end
  else [c].

Definition escape (m : encoding) (l : chars) : chars := l ≫= escape_char m.

Definition unhex (c : ascii) : option Z :=
  let n := code c in
  if (48 <=? n) && (n <=? 57) then Some (n - 48)
  else if (97 <=? n) && (n <=? 102) then Some (n - 87)
  else if (65 <=? n) && (n <=? 70) then Some (n - 55)
  else None.

Definition plus_char (m : encoding) (c : ascii) : ascii :=
  match m with encodeQueryComponent => if Ascii.eqb c "+" then " "%char else c | _ => c end.

(** [None] is the error. *)
Fixpoint unescape (m : encoding) (l : chars) : option chars :=
  match l with
  | [] => Some []
  | c :: l =>
    if Ascii.eqb c "%" then
      match l with
      | x :: y :: l =>
        match unhex x, unhex y with
        | Some a, Some b => cons (ascii_of_N (Z.to_N (16 * a + b))) <$> unescape m l
        | _, _ => None
        end
      | _ => None
      end
    else cons (plus_char m c) <$> unescape m l
  end.

Definition PathEscape (s : string) : chars := escape encodePathSegment (to_chars s).
Definition QueryEscape (s : string) : chars := escape encodeQueryComponent (to_chars s).

(** ** URLs, behind the host *)

Record URL := MkURL { u_Path : chars; u_RawPath : chars; u_RawQuery : chars }.

Definition is_ctl (c : ascii) : bool := (code c <? 32) || (code c =? 127).

(** [url.ParseRequestURI]; a single "?" at the end makes no difference here. *)
Definition ParseRequestURI (l : chars) : option URL :=
  if existsb is_ctl l then None else
  let '(path, query) := default (l, []) (cut_at "?" l) in
  p ← unescape encodePath path;
  Some (MkURL p (if bool_decide (path = escape encodePath p) then [] else path) query).

(** [url.Parse]: a fragment is cut off. *)
Definition Parse (l : chars) : option URL :=
  match cut_at "#" l with
  | None => ParseRequestURI l
  | Some (l, fragment) => _ ← unescape encodePath fragment; ParseRequestURI l
  end.

Definition valid_char (c : ascii) : bool := one_of "!$&'()*+,;=:@[]%" c || negb (shouldEscape encodePath c).
Definition validEncoded (l : chars) : bool := forallb valid_char l.

Definition EscapedPath (u : URL) : chars :=
  if negb (bool_decide (u_RawPath u = [])) && validEncoded (u_RawPath u)
     && bool_decide (unescape encodePath (u_RawPath u) = Some (u_Path u))
  then u_RawPath u
  else if bool_decide (u_Path u = ["*"%char]) then ["*"%char]
  else escape encodePath (u_Path u).

Definition with_query (path query : chars) : chars :=
  match query with [] => path | _ => path ++ "?"%char :: query end.

Definition RequestURI (u : URL) : chars :=
  with_query (match EscapedPath u with [] => [slash] | p => p end) (u_RawQuery u).

(** ** Query values *)

(** A pair that cannot be decoded is dropped. *)
Definition parse_pair (l : chars) : option (chars * chars) :=
  if existsb (Ascii.eqb ";") l || bool_decide (l = []) then None else
  let '(k, v) := default (l, []) (cut_at "=" l) in
  k ← unescape encodeQueryComponent k;
  v ← unescape encodeQueryComponent v;
  Some (k, v).

Definition ParseQuery (query : chars) : list (chars * chars) := omap parse_pair (split_at "&" query).

(** The first value, or the empty string. *)
Definition Get (key : string) (values : list (chars * chars)) : string :=
  match filter (λ kv, kv.1 = to_chars key) values with
  | (_, v) :: _ => of_chars v
  | [] => ""
  end.

(** [url.Values.Encode] of a map with one value per key, given in the order of
    the keys. *)
Definition encode_pair (kv : string * string) : chars := QueryEscape kv.1 ++ "="%char :: QueryEscape kv.2.
Definition Encode (values : list (string * string)) : chars := join_with "&" (encode_pair <$> values).

(** *** Numbers *)

(** The value [strconv.ParseInt(s, 10, 64)] returns along with an error that is
    not looked at: 0 for a syntax error, the nearest bound out of range. *)
Fixpoint scan_digits (acc : Z) (l : chars) : option Z :=
  match l with
  | [] => Some acc
  | c :: l =>
    match digit_value c with
    | None => None
    | Some d => if 2 ^ 64 <=? acc * 10 + d then Some (2 ^ 64 - 1) else scan_digits (acc * 10 + d) l
    end
  end.

Definition number (s : string) : Z :=
  let clamp (neg : bool) (l : chars) :=
    match l, scan_digits 0 l with
    | _ :: _, Some n => if neg then Z.max (- 2 ^ 63) (- n) else Z.min (2 ^ 63 - 1) n
    | _, _ => 0
    end in
  match to_chars s with
  | c :: l => if Ascii.eqb c "-" then clamp true l else if Ascii.eqb c "+" then clamp false l else clamp false (c :: l)
  | [] => 0
  end.

(** ** Laws *)

Ltac each_ascii c := destruct c as [[] [] [] [] [] [] [] []].

(** What is escaped in one mode and unescaped in another; only a query has the
    "+". *)
Definition same_plus (m m' : encoding) : bool :=
  match m, m' with
  | encodeQueryComponent, encodeQueryComponent => true
  | encodeQueryComponent, _ | _, encodeQueryComponent => false
  | _, _ => true
  end.

Lemma unescape_char m m' c l :
  same_plus m m' = true → unescape m' (escape_char m c ++ l) = cons c <$> unescape m' l.
Proof. intros Hm. destruct m, m'; try done; each_ascii c; reflexivity. Qed.

Lemma unescape_escape m m' l : same_plus m m' = true → unescape m' (escape m l) = Some l.
Proof.
  intros Hm. induction l as [|c l IH]; [done|]. cbn. rewrite unescape_char by done.
  fold (escape m l). by rewrite IH.
Qed.

Lemma escape_app m l l' : escape m (l ++ l') = escape m l ++ escape m l'.
Proof. unfold escape. by rewrite bind_app. Qed.

(** A property of the characters that escaping produces. *)
Lemma escape_Forall (P : ascii → Prop) m l : Forall (λ c, Forall P (escape_char m c)) l → Forall P (escape m l).
Proof. induction 1 as [|c l Hc _ IH]; cbn; [constructor|]. by apply Forall_app_2. Qed.

Lemma escape_nil m l : escape m l = [] → l = [].
Proof. destruct l as [|c l]; [done|]. destruct m; each_ascii c; done. Qed.

Lemma scan_parse l acc n : 0 ≤ acc → n < 2 ^ 64 → parse_digits acc l = Some n → acc ≤ n ∧ scan_digits acc l = Some n.
Proof.
  intros Hacc Hn. revert acc Hacc. induction l as [|c l IH]; intros acc Hacc; cbn [parse_digits scan_digits].
  { intros [= ->]. split; [lia|done]. }
  unfold digit_value. destruct (_ && _) eqn:E; [|done]. rewrite andb_true_iff, Z.leb_le, Z.leb_le in E.
  intros [Hle Hrun]%IH; [|lia]. rewrite (proj2 (Z.leb_gt _ _)) by lia. split; [lia|done].
Qed.

(** A number in range is read as such. *)
Lemma number_Itoa n : - 2 ^ 63 ≤ n < 2 ^ 63 → number (Itoa n) = n.
Proof.
  intros Hn. pose proof (Atoi_Itoa n Hn) as E. revert E. unfold Atoi, ParseInt, number, parse_unsigned. cbn zeta.
  destruct (to_chars (Itoa n)) as [|c l]; [done|]. destruct (Ascii.eqb c "-"); [|destruct (Ascii.eqb c "+")].
  - destruct l as [|c' l]; [done|]. destruct (parse_digits 0 (c' :: l)) as [k|] eqn:Hk; [|done]. cbn [mbind option_bind].
    destruct (_ && _) eqn:E; [|done]. rewrite andb_true_iff, Z.leb_le, Z.ltb_lt in E. intros [= <-].
    apply scan_parse in Hk as [_ ->]; lia.
  - destruct l as [|c' l]; [done|]. destruct (parse_digits 0 (c' :: l)) as [k|] eqn:Hk; [|done]. cbn [mbind option_bind].
    destruct (_ && _) eqn:E; [|done]. rewrite andb_true_iff, Z.leb_le, Z.ltb_lt in E. intros [= <-].
    apply scan_parse in Hk as [_ ->]; lia.
  - destruct (parse_digits 0 (c :: l)) as [k|] eqn:Hk; [|done]. cbn [mbind option_bind].
    destruct (_ && _) eqn:E; [|done]. rewrite andb_true_iff, Z.leb_le, Z.ltb_lt in E. intros [= <-].
    apply scan_parse in Hk as [_ ->]; lia.
Qed.

(** What is encoded is what is parsed back. *)
Lemma cut_at_none c l : c ∉ l → cut_at c l = None.
Proof.
  induction l as [|x l IH]; intros Hc; [done|]. rewrite not_elem_of_cons in Hc. destruct Hc as [Hx Hc]. cbn.
  destruct (Ascii.eqb_spec x c) as [->|]; [done|]. by rewrite IH.
Qed.

Lemma QueryEscape_free c s : one_of "&=;?#" c = true → c ∉ QueryEscape s.
Proof.
  intros Hc Hin. assert (Forall (λ x, one_of "&=;?#" x = false) (QueryEscape s)) as Hall.
  { apply escape_Forall, Forall_true. intros x. apply Forall_forall. intros y. each_ascii x; cbn; intros Hy;
      repeat (apply elem_of_cons in Hy as [->|Hy]; [reflexivity|]); by apply elem_of_nil in Hy. }
  rewrite Forall_forall in Hall. by rewrite (Hall _ Hin) in Hc.
Qed.

Lemma parse_encode_pair kv : kv.1 ≠ ""%string → parse_pair (encode_pair kv) = Some (to_chars kv.1, to_chars kv.2).
Proof.
  intros Hne. unfold parse_pair, encode_pair. destruct (existsb _ _) eqn:E; cbn [orb].
  { exfalso. apply existsb_exists in E as (c & Hin%list_elem_of_In & <-%Ascii.eqb_eq). revert Hin.
    rewrite elem_of_app, elem_of_cons. intros [H|[H|H]]; [by eapply QueryEscape_free in H|done|by eapply QueryEscape_free in H]. }
  rewrite bool_decide_false by (intros E'; by destruct (QueryEscape kv.1)).
  rewrite cut_at_app by (by apply QueryEscape_free). cbn -[unescape QueryEscape].
  unfold QueryEscape. by rewrite !unescape_escape by done.
Qed.

Lemma ParseQuery_Encode values :
  values ≠ [] → Forall (λ kv, kv.1 ≠ ""%string) values →
  ParseQuery (Encode values) = (λ kv, (to_chars kv.1, to_chars kv.2)) <$> values.
Proof.
  intros Hne Hkeys. unfold ParseQuery, Encode. rewrite split_join.
  - induction Hkeys as [|kv values Hkv _ IH]; [done|]. rewrite fmap_cons. cbn [omap list_omap].
    rewrite parse_encode_pair by done. rewrite fmap_cons. f_equal. destruct values; [done|by apply IH].
  - by destruct values.
  - apply Forall_fmap, Forall_forall. intros kv _. unfold compose, encode_pair. rewrite elem_of_app, elem_of_cons.
    intros [H|[H|H]]; [by eapply QueryEscape_free in H|done|by eapply QueryEscape_free in H].
Qed.
