(* ===== verification/GoFlag.v ===== *)
(** Go's [flag] package, as far as the programs use it: string, integer and
    boolean flags in a set that exits on an error, with [strconv]'s [ParseInt] in
    base 0 and [ParseBool]; and that arguments parse as they are written. *)
From S2P Require Import Prelude GoStrings GoPath GoURL.
Open Scope Z_scope.

(** ** Numbers and booleans *)

Definition lower (c : ascii) : ascii :=
  let n := Z.of_N (N_of_ascii c) in
  if (65 <=? n) && (n <=? 90) then ascii_of_N (Z.to_N (n + 32)) else c.

(** The value of a digit in a base up to 36. *)
Definition digit_of (c : ascii) : option Z :=
  let n := Z.of_N (N_of_ascii (lower c)) in
  if (48 <=? n) && (n <=? 57) then Some (n - 48)
  else if (97 <=? n) && (n <=? 122) then Some (n - 87) else None.

(** Base and digits; underscores are checked apart. *)
Definition base_prefix (l : chars) : Z * chars :=
  match l with
  | x :: y :: r =>
    if negb (Ascii.eqb x "0") then (10, l) else
    let long := negb (bool_decide (r = [])) in
    if long && Ascii.eqb (lower y) "b" then (2, r)
    else if long && Ascii.eqb (lower y) "o" then (8, r)
    else if long && Ascii.eqb (lower y) "x" then (16, r)
    else (8, y :: r)
  | [x] => if Ascii.eqb x "0" then (8, []) else (10, l)
  | [] => (10, l)
  end.

Fixpoint base_digits (base acc : Z) (l : chars) : option Z :=
  match l with
  | [] => Some acc
  | c :: l =>
    if Ascii.eqb c "_" then base_digits base acc l else
    d ← digit_of c;
    if base <=? d then None else base_digits base (acc * base + d) l
  end.

(** What was seen last: the beginning, a digit, an underscore or something else. *)
Inductive seen := Begin | Digit | Underscore | Other.

Fixpoint underscores_ok (hex : bool) (saw : seen) (l : chars) : bool :=
  match l with
  | [] => match saw with Underscore => false | _ => true end
  | c :: l =>
    let n := Z.of_N (N_of_ascii c) in
    let m := Z.of_N (N_of_ascii (lower c)) in
    if (48 <=? n) && (n <=? 57) || hex && (97 <=? m) && (m <=? 102) then underscores_ok hex Digit l
    else if Ascii.eqb c "_" then match saw with Digit => underscores_ok hex Underscore l | _ => false end
    else match saw with Underscore => false | _ => underscores_ok hex Other l end
  end.

Definition underscoreOK (l : chars) : bool :=
  let l := match l with c :: l' => if Ascii.eqb c "-" || Ascii.eqb c "+" then l' else l | [] => l end in
  match l with
  | x :: y :: r =>
    let b := lower y in
    if Ascii.eqb x "0" && (Ascii.eqb b "b" || Ascii.eqb b "o" || Ascii.eqb b "x")
    then underscores_ok (Ascii.eqb b "x") Digit r
    else underscores_ok false Begin l
  | _ => underscores_ok false Begin l
  end.

Definition ParseUint0 (l : chars) : option Z :=
  if bool_decide (l = []) then None else
  let '(base, digits) := base_prefix l in
  n ← base_digits base 0 digits;
  if existsb (Ascii.eqb "_") l && negb (underscoreOK l) then None else Some n.

(** [strconv.ParseInt(s, 0, 64)]. *)
Definition ParseInt0 (s : string) : option Z :=
  let in_range n := if (- 2 ^ 63 <=? n) && (n <? 2 ^ 63) then Some n else None in
  match to_chars s with
  | c :: l =>
    if Ascii.eqb c "-" then n ← ParseUint0 l; in_range (- n)
    else if Ascii.eqb c "+" then n ← ParseUint0 l; in_range n
    else n ← ParseUint0 (c :: l); in_range n
  | [] => None
  end.

Definition ParseBool (s : string) : option bool :=
  if existsb (String.eqb s) ["1"; "t"; "T"; "true"; "TRUE"; "True"]%string then Some true
  else if existsb (String.eqb s) ["0"; "f"; "F"; "false"; "FALSE"; "False"]%string then Some false
  else None.

(** ** Flag sets *)

(** A flag's value; its kind is that of the value. *)
Inductive value := VString (s : string) | VInt (n : Z) | VBool (b : bool).

Definition Set_ (v : value) (s : string) : option value :=
  match v with
  | VString _ => Some (VString s)
  | VInt _ => VInt <$> ParseInt0 s
  | VBool _ => VBool <$> ParseBool s
  end.

Abbreviation FlagSet := (gmap string value).

(** An argument: a flag with its name and the value after an equals sign, the
    terminator "--", or no flag. *)
Inductive argument := Flag (name : string) (value : option string) | BadFlag | Terminator | NoFlag.

Definition flag_name (l : chars) : argument :=
  match l with
  | [] => BadFlag
  | c :: _ =>
    if Ascii.eqb c "-" || Ascii.eqb c "=" then BadFlag else
    match cut_at "=" l with
    | Some (name, v) => Flag (of_chars name) (Some (of_chars v))
    | None => Flag (of_chars l) None
    end
  end.

Definition read_argument (s : string) : argument :=
  match to_chars s with
  | d :: c :: r =>
    if negb (Ascii.eqb d "-") then NoFlag
    else if Ascii.eqb c "-" then (if bool_decide (r = []) then Terminator else flag_name r)
    else flag_name (c :: r)
  | _ => NoFlag
  end.

(** The flags and the arguments left, or the code the program exits with. *)
Inductive parsed := Parsed (fs : FlagSet) (args : list string) | Exits (code : Z).

Fixpoint Parse (fs : FlagSet) (args : list string) : parsed :=
  match args with
  | [] => Parsed fs []
  | s :: args' =>
    match read_argument s with
    | NoFlag => Parsed fs args
    | Terminator => Parsed fs args'
    | BadFlag => Exits 2
    | Flag name v =>
      match fs !! name with
      | None => Exits (if String.eqb name "help" || String.eqb name "h" then 0 else 2)
      | Some old =>
        match old, v with
        | _, Some x => match Set_ old x with Some new => Parse (<[name := new]> fs) args' | None => Exits 2 end
        | VBool _, None => Parse (<[name := VBool true]> fs) args'
        | _, None =>
          match args' with
          | [] => Exits 2
          | x :: args'' => match Set_ old x with Some new => Parse (<[name := new]> fs) args'' | None => Exits 2 end
          end
        end
      end
    end
  end.

Definition string_flag (fs : FlagSet) (name : string) : string :=
  match fs !! name with Some (VString s) => s | _ => "" end.
Definition int_flag (fs : FlagSet) (name : string) : Z :=
  match fs !! name with Some (VInt n) => n | _ => 0 end.
Definition bool_flag (fs : FlagSet) (name : string) : bool :=
  match fs !! name with Some (VBool b) => b | _ => false end.

(** The first argument left, empty when there is none. *)
Definition Arg0 (args : list string) : string := default ""%string (head args).

(** ** Numbers are read as they are written *)

Lemma digit_of_digit d : 0 ≤ d < 10 → digit_of (digit d) = Some d ∧ Ascii.eqb (digit d) "_" = false.
Proof.
  intros Hd. assert (d = 0 ∨ d = 1 ∨ d = 2 ∨ d = 3 ∨ d = 4 ∨ d = 5 ∨ d = 6 ∨ d = 7 ∨ d = 8 ∨ d = 9) as H by lia.
  by repeat destruct H as [->|H]; try subst d.
Qed.

Lemma base_digits_fixed w n acc :
  0 ≤ n → base_digits 10 acc (fixed_digits w n) = Some (acc * 10 ^ Z.of_nat w + n mod 10 ^ Z.of_nat w).
Proof.
  intros Hn. revert acc. induction w as [|w IH]; intros acc; cbn [fixed_digits base_digits].
  - rewrite Z.mod_1_r. f_equal. lia.
  - assert (0 ≤ n / 10 ^ Z.of_nat w mod 10 < 10) as Hd by (apply Z.mod_pos_bound; lia).
    destruct (digit_of_digit _ Hd) as [-> ->]. cbn [mbind option_bind]. rewrite (proj2 (Z.leb_gt _ _)), IH by lia.
    rewrite Nat2Z.inj_succ, Z.pow_succ_r, (Z.mul_comm 10 (10 ^ _)), (Z.rem_mul_r n) by lia.
    f_equal. ring.
Qed.

Lemma fixed_no_underscore w n : existsb (Ascii.eqb "_") (fixed_digits w n) = false.
Proof.
  induction w as [|w IH]; [done|]. cbn [fixed_digits existsb]. rewrite IH, Ascii.eqb_sym.
  by rewrite (proj2 (digit_of_digit (n / 10 ^ Z.of_nat w mod 10) (Z.mod_pos_bound _ 10 eq_refl))).
Qed.

(** No number has more digits than it needs. *)
Lemma ndigits_fuel_least f n k : 0 < n → ndigits_fuel f n = S k → 10 ^ Z.of_nat k ≤ n.
Proof.
  revert n k. induction f as [|f IH]; intros n k Hn; cbn [ndigits_fuel].
  - intros [= <-]. cbn. lia.
  - destruct (Z.ltb_spec n 10); intros [= <-]; [cbn; lia|].
    destruct (ndigits_fuel f (n / 10)) as [|j] eqn:E; [cbn; lia|].
    assert (0 < n / 10) as Hpos by (apply Z.div_str_pos; lia). specialize (IH (n / 10) j Hpos E).
    rewrite Nat2Z.inj_succ, Z.pow_succ_r by lia. pose proof (Z.mul_div_le n 10). lia.
Qed.

Lemma ParseUint0_Itoa n : 0 ≤ n < 2 ^ 63 + 1 → ParseUint0 (fixed_digits (ndigits n) n) = Some n.
Proof.
  intros Hn. destruct (ndigits_spec n) as [Hpos Hlt]; [lia|]. unfold ParseUint0.
  destruct (ndigits n) as [|k] eqn:E; [lia|]. rewrite bool_decide_false by done.
  assert (base_prefix (fixed_digits (S k) n) = (10, fixed_digits (S k) n) ∨ n = 0 ∧ k = O) as Hbase.
  { destruct (decide (n = 0)) as [->|Hne]; [right; split; [done|]; by injection E as <-|left].
    pose proof (ndigits_fuel_least 19 n k ltac:(lia) E) as Hle. cbn [fixed_digits]. unfold base_prefix.
    assert (Ascii.eqb (digit (n / 10 ^ Z.of_nat k mod 10)) "0" = false) as Hz.
    { apply Ascii.eqb_neq. change "0"%char with (digit 0). intros Ed%(f_equal digit_of).
      rewrite Nat2Z.inj_succ, Z.pow_succ_r in Hlt by lia.
      assert (1 ≤ n / 10 ^ Z.of_nat k < 10) as Hq.
      { split; [apply Z.div_le_lower_bound; lia|apply Z.div_lt_upper_bound; lia]. }
      rewrite Z.mod_small in Ed by lia. destruct (digit_of_digit (n / 10 ^ Z.of_nat k)) as [E1 _]; [lia|].
      destruct (digit_of_digit 0) as [E2 _]; [lia|]. rewrite E1, E2 in Ed. injection Ed. lia. }
    by destruct (fixed_digits k n); rewrite Hz. }
  destruct Hbase as [->|[-> ->]]; [|done].
  rewrite base_digits_fixed, Z.mod_small, fixed_no_underscore by lia. done.
Qed.

Lemma ParseInt0_Itoa n : - 2 ^ 63 ≤ n < 2 ^ 63 → ParseInt0 (Itoa n) = Some n.
Proof.
  intros Hn. unfold ParseInt0, Itoa. rewrite to_of_chars. destruct (Z.ltb_spec n 0).
  - cbn [Ascii.eqb]. change (Ascii.eqb "-" "-") with true. cbv iota. rewrite ParseUint0_Itoa by lia.
    cbn [mbind option_bind]. rewrite Z.opp_involutive. by rewrite (proj2 (Z.leb_le _ _)), (proj2 (Z.ltb_lt _ _)) by lia.
  - pose proof (ParseUint0_Itoa n ltac:(lia)) as Hp. destruct (ndigits_spec n) as [Hpos _]; [lia|].
    destruct (ndigits n) as [|k]; [lia|]. cbn [fixed_digits] in *.
    rewrite !digit_not_sign by (done || (apply Z.mod_pos_bound; lia)). rewrite Hp. cbn [mbind option_bind].
    by rewrite (proj2 (Z.leb_le _ _)), (proj2 (Z.ltb_lt _ _)) by lia.
Qed.

(** ** Flags are read as they are written *)

(** A flag as a user may write it: with one dash or two, its value after an equals
    sign or, for a flag that is not a boolean, in the next argument. *)
Record setting := Setting { st_name : string; st_value : value; st_long : bool; st_equals : bool }.

Definition value_text (v : value) : string :=
  match v with VString s => s | VInt n => Itoa n | VBool b => if b then "true" else "false" end.

Definition render (s : setting) : list string :=
  let dashed := (if st_long s then "--" else "-") +:+ st_name s in
  if st_equals s then [dashed +:+ "=" +:+ value_text (st_value s)] else
  match st_value s with VBool _ => [dashed] | v => [dashed; value_text v] end.

Definition same_kind (v v' : value) : bool :=
  match v, v' with VString _, VString _ | VInt _, VInt _ | VBool _, VBool _ => true | _, _ => false end.

(** A name a flag can have. *)
Definition flag_like (name : string) : bool :=
  match to_chars name with c :: _ => negb (Ascii.eqb c "-") | [] => false end &&
  negb (existsb (Ascii.eqb "=") (to_chars name)).

(** The setting is one of the flag set, of the right kind; "false" needs the
    equals sign. *)
Record settable (fs : FlagSet) (s : setting) : Prop := {
  se_name : flag_like (st_name s) = true;
  se_kind : ∃ old, fs !! st_name s = Some old ∧ same_kind old (st_value s) = true;
  se_value : match st_value s with
             | VString _ => True
             | VInt n => - 2 ^ 63 ≤ n < 2 ^ 63
             | VBool b => b = true ∨ st_equals s = true
             end
}.

Definition apply_setting (fs : FlagSet) (s : setting) : FlagSet := <[st_name s := st_value s]> fs.

Lemma flag_like_spec name : flag_like name = true →
  ∃ c l, to_chars name = c :: l ∧ Ascii.eqb c "-" = false ∧ "="%char ∉ c :: l.
Proof.
  unfold flag_like. destruct (to_chars name) as [|c l]; [done|].
  rewrite andb_true_iff, !negb_true_iff. intros [Hc He]. exists c, l. split_and!; try done.
  intros Hin%list_elem_of_In. assert (existsb (Ascii.eqb "=") (c :: l) = true); [|congruence].
  apply existsb_exists. exists "="%char. by rewrite Ascii.eqb_refl.
Qed.

(** The two spellings of the name, with and without a value. *)
Lemma read_argument_flag (long : bool) name (v : option string) :
  flag_like name = true →
  read_argument ((if long then "--" else "-") +:+ name +:+ match v with Some x => "=" +:+ x | None => "" end) = Flag name v.
Proof.
  intros (c & l & Hname & Hc & He)%flag_like_spec.
  assert (flag_name (to_chars (name +:+ match v with Some x => "=" +:+ x | None => "" end)) = Flag name v) as Hf.
  { rewrite to_chars_app, Hname. cbn [app]. unfold flag_name.
    assert (Ascii.eqb c "=" = false) as Hc'.
    { apply Ascii.eqb_neq. intros ->. apply He. by left. }
    rewrite Hc, Hc'. cbn [orb]. destruct v as [x|].
    - rewrite to_chars_app. change (to_chars "=") with ["="%char]. cbn [app].
      rewrite (cut_at_app "=" (c :: l) (to_chars x) He : cut_at "=" (c :: l ++ "="%char :: to_chars x) = _).
      by rewrite <- Hname, !of_to_chars.
    - change (to_chars "") with (@nil ascii). rewrite app_nil_r, cut_at_none by done. by rewrite <- Hname, of_to_chars. }
  unfold read_argument. rewrite to_chars_app. destruct long.
  - change (to_chars "--") with ["-"; "-"]%char. cbn [app negb]. rewrite !Ascii.eqb_refl. cbn [negb].
    rewrite bool_decide_false; [exact Hf|]. rewrite to_chars_app, Hname. done.
  - change (to_chars "-") with ["-"]%char. cbn [app]. revert Hf. rewrite to_chars_app, Hname. cbn [app].
    rewrite !Ascii.eqb_refl, Hc. cbn [negb]. done.
Qed.

Lemma Set_text old v :
  same_kind old v = true → match v with VInt n => - 2 ^ 63 ≤ n < 2 ^ 63 | _ => True end →
  Set_ old (value_text v) = Some v.
Proof. destruct old, v; try done; cbn; [intros _ Hn; by rewrite ParseInt0_Itoa|]. by destruct b0. Qed.

Lemma apply_settable fs s s' : settable fs s → settable fs s' → settable (apply_setting fs s) s'.
Proof.
  intros [_ (old & Ho & Hk) _] [Hn (old' & Ho' & Hk') Hv]. split; [done| |done]. unfold apply_setting.
  destruct (decide (st_name s = st_name s')) as [E|E].
  - exists (st_value s). split; [rewrite E; apply lookup_insert_eq|]. rewrite E, Ho' in Ho. injection Ho as <-.
    by destruct old', (st_value s), (st_value s').
  - exists old'. split; [|done]. etrans; [by apply lookup_insert_ne|exact Ho'].
Qed.

Lemma append_nil_r s : s +:+ "" = s.
Proof. apply to_chars_inj. rewrite to_chars_app. apply app_nil_r. Qed.

Lemma append_app a b c : (a +:+ b) +:+ c = a +:+ b +:+ c.
Proof. apply to_chars_inj. by rewrite !to_chars_app, app_assoc. Qed.

Lemma Parse_setting fs s rest : settable fs s → Parse fs (render s ++ rest) = Parse (apply_setting fs s) rest.
Proof.
  intros [Hn (old & Ho & Hk) Hv]. unfold render, apply_setting.
  assert (Set_ old (value_text (st_value s)) = Some (st_value s)) as Hset.
  { apply Set_text; [done|]. by destruct (st_value s). }
  pose proof (read_argument_flag (st_long s) (st_name s) (Some (value_text (st_value s))) Hn) as Hwith.
  pose proof (read_argument_flag (st_long s) (st_name s) None Hn) as Hwithout. cbn beta iota in *.
  rewrite append_nil_r in Hwithout.
  destruct (st_equals s).
  - cbn [app Parse]. rewrite append_app, Hwith, Ho, Hset. by destruct old.
  - destruct (st_value s) as [x|n|b] eqn:Ev; destruct old; try done; cbn [app Parse]; rewrite Hwithout, Ho, ?Hset; try done.
    by destruct Hv as [->|?].
Qed.

Lemma Parse_settings fs ss rest :
  Forall (settable fs) ss → Parse fs (concat (render <$> ss) ++ rest) = Parse (foldl apply_setting fs ss) rest.
Proof.
  revert fs. induction ss as [|s ss IH]; intros fs Hss; [done|]. rewrite fmap_cons. cbn [concat foldl].
  rewrite <- app_assoc, Parse_setting by exact (Forall_inv Hss). apply IH.
  eapply Forall_impl; [exact (Forall_inv_tail Hss)|]. intros s' Hs'. apply apply_settable; [exact (Forall_inv Hss)|done].
Qed.

Lemma read_argument_plain a : HasPrefix a "-" = false → read_argument a = NoFlag.
Proof.
  unfold HasPrefix, read_argument. intros Ha%bool_decide_eq_false.
  destruct (to_chars a) as [|d [|c r]]; [done..|]. destruct (Ascii.eqb_spec d "-") as [->|]; [|done]. by destruct Ha.
Qed.

(** A command line is read as it is written: whatever flags of the set a user
    gives, in any order, with one dash or two, with the value after an equals sign
    or as an argument of its own, even one that starts with a dash, parsing ends
    with exactly these values, the last one where a flag is given twice, and with
    the arguments after the flags; a first argument that looks like a flag needs
    "--" before it. *)
Theorem flags_parse_as_written fs ss rest
    (Hss : Forall (settable fs) ss) :
  let fs' := foldl apply_setting fs ss in
  Parse fs (concat (render <$> ss) ++ "--"%string :: rest) = Parsed fs' rest ∧
  (head rest = None ∨ (∃ a, head rest = Some a ∧ HasPrefix a "-" = false) →
   Parse fs (concat (render <$> ss) ++ rest) = Parsed fs' rest).
Proof.
  intros fs'. rewrite !Parse_settings by done. split; [done|]. fold fs'. destruct rest as [|a rest]; [done|].
  intros [?|(a' & [= <-] & Ha)]; [done|]. cbn [Parse].
  by rewrite read_argument_plain.
Qed.

Definition sample_set : FlagSet := {["key"%string := VString ""; "partitions"%string := VInt 3; "from-beginning"%string := VBool false]}.

Lemma flags_parse_as_written_witness :
  Parse sample_set ["-key"; "-x"; "--partitions=12"; "-from-beginning"; "orders"; "-key"]%string =
    Parsed {["key"%string := VString "-x"; "partitions"%string := VInt 12; "from-beginning"%string := VBool true]}
      ["orders"; "-key"]%string.
Proof.
  apply (flags_parse_as_written sample_set [Setting "key" (VString "-x") false false; Setting "partitions" (VInt 12) true true;
    Setting "from-beginning" (VBool true) false false] ["orders"; "-key"]%string); [|right; by eexists].
  repeat (apply Forall_cons_2; [split; [done|by eexists|cbn; (done || lia || by left)]|]). apply Forall_nil_2.
Defined.
