(* ===== verification/Disk.v ===== *)
(** The file system under one partition directory, as the code sees it through
    package [os].

    A [disk] holds the files of the directory, the offset of the descriptor the
    process has open on each of them (every file is opened once), and a list of
    faults: what the next system calls do.  The empty list means every call
    succeeds.  [Fail k] makes a call fail; for a read or a write [k] bytes get
    through first. *)
From S2P Require Import Prelude GoStrings Bytes RecordFmt.
Open Scope Z_scope.

Inductive fault := Pass | Fail (k : nat).

Record disk := Disk {
  files : gmap string bytes;
  offsets : gmap string nat;
  faults : list fault
}.

Definition content (d : disk) (p : string) : bytes := default [] (files d !! p).
Definition offset (d : disk) (p : string) : nat := default 0%nat (offsets d !! p).

Definition put_file (p : string) (c : bytes) (d : disk) : disk :=
  Disk (<[p:=c]> (files d)) (offsets d) (faults d).
Definition put_offset (p : string) (o : nat) (d : disk) : disk :=
  Disk (files d) (<[p:=o]> (offsets d)) (faults d).

(** ** System calls *)

Definition next_fault : M disk fault := λ d,
  match faults d with
  | [] => (Ok Pass, d)
  | f :: fs => (Ok f, Disk (files d) (offsets d) fs)
  end.

(** A call that either happens as a whole or fails without effect. *)
Definition syscall {A} (m : M disk A) : M disk A :=
  f ← next_fault;
  match f with Pass => m | Fail _ => throw ErrIO end.

Definition MkdirAll : M disk unit := syscall (mret tt).

(** [os.OpenFile] with O_RDWR|O_CREATE|O_EXCL *)
Definition open_excl (p : string) : M disk unit :=
  syscall (act $ λ d, match files d !! p with
                | Some _ => (Err ErrExist, d)
                | None => (Ok tt, put_offset p 0 (put_file p [] d))
                end).
(** [os.OpenFile] with O_RDWR|O_CREATE *)
Definition open_create (p : string) : M disk unit :=
  syscall (act $ λ d, match files d !! p with
                | Some _ => (Ok tt, put_offset p 0 d)
                | None => (Ok tt, put_offset p 0 (put_file p [] d))
                end).
(** [os.OpenFile] with O_RDWR *)
Definition open_rdwr (p : string) : M disk unit :=
  syscall (act $ λ d, match files d !! p with
                | Some _ => (Ok tt, put_offset p 0 d)
                | None => (Err ErrNotExist, d)
                end).

Definition Stat_Size (p : string) : M disk Z := syscall (gets (λ d, Zlength (content d p))).
Definition Sync (p : string) : M disk unit := syscall (mret tt).
Definition Close (p : string) : M disk unit := syscall (mret tt).

Definition SeekStart (p : string) (n : Z) : M disk unit :=
  syscall (if n <? 0 then throw ErrIO else modify (put_offset p (Z.to_nat n))).
Definition SeekEnd (p : string) : M disk unit :=
  syscall (act $ λ d, (Ok tt, put_offset p (length (content d p)) d)).

(** Shortening drops the tail, lengthening appends zeros; the offset stays. *)
Definition Truncate (p : string) (n : Z) : M disk unit :=
  syscall (if n <? 0 then throw ErrIO else
           act $ λ d, let c := content d p in
                (Ok tt, put_file p (take (Z.to_nat n) (c ++ replicate (Z.to_nat n - length c) x00)) d)).

(** The bytes of [c] with [bs] written at [o] (a gap is filled with zeros). *)
Definition splice (o : nat) (bs c : bytes) : bytes :=
  take o (c ++ replicate (o - length c) x00) ++ bs ++ drop (o + length bs) c.

Definition Write (p : string) (bs : bytes) : M disk unit :=
  f ← next_fault;
  let put bs d := put_offset p (offset d p + length bs)
                    (put_file p (splice (offset d p) bs (content d p)) d) in
  match f with
  | Pass => act $ λ d, (Ok tt, put bs d)
  | Fail k => act $ λ d, (Err ErrIO, put (take k bs) d)
  end.

(** [io.ReadFull(f, p)] on an open file: reads at, and advances, its offset. *)
Definition ReadFull (p : string) (n : nat) : M disk read_result :=
  f ← next_fault;
  match f with
  | Pass => act $ λ d,
    let c := take n (drop (offset d p) (content d p)) in
    (Ok (c, if (length c =? n)%nat then None
            else if (length c =? 0)%nat then Some EOF else Some ErrUnexpectedEOF),
     put_offset p (offset d p + length c) d)
  | Fail k => act $ λ d,
    let c := take (Nat.min k (n - 1)) (drop (offset d p) (content d p)) in
    (Ok (c, Some ErrIO), put_offset p (offset d p + length c) d)
  end.

(** [f.ReadAt(p, off)]: does not use or move the offset. *)
Definition ReadAt (p : string) (n : nat) (off : Z) : M disk read_result :=
  f ← next_fault;
  let c d := take n (drop (Z.to_nat off) (content d p)) in
  match f with
  | Pass => act $ λ d, (Ok (c d, if (length (c d) =? n)%nat then None else Some EOF), d)
  | Fail k => act $ λ d, (Ok (take k (c d), Some ErrIO), d)
  end.

(** [os.ReadDir]: the names in the directory *)
Definition ReadDir : M disk (list string) :=
  syscall (gets (λ d, (map_to_list (files d)).*1)).

(** ** Laws of a fault-free disk *)

Definition quiet (d : disk) : Prop := faults d = [].

Lemma content_put_file d p c : content (put_file p c d) p = c.
Proof. unfold content, put_file. simpl. by rewrite lookup_insert_eq. Qed.
Lemma content_put_file_ne d p q c : p ≠ q → content (put_file p c d) q = content d q.
Proof. intros. unfold content, put_file. simpl. by rewrite lookup_insert_ne. Qed.
Lemma content_put_offset d p q o : content (put_offset p o d) q = content d q.
Proof. done. Qed.
Lemma offset_put_offset d p o : offset (put_offset p o d) p = o.
Proof. unfold offset, put_offset. simpl. by rewrite lookup_insert_eq. Qed.
Lemma offset_put_offset_ne d p q o : p ≠ q → offset (put_offset p o d) q = offset d q.
Proof. intros. unfold offset, put_offset. simpl. by rewrite lookup_insert_ne. Qed.
Lemma offset_put_file d p q c : offset (put_file p c d) q = offset d q.
Proof. done. Qed.
Lemma put_offset_twice p o o' d : put_offset p o (put_offset p o' d) = put_offset p o d.
Proof. unfold put_offset. simpl. by rewrite insert_insert_eq. Qed.

#[export] Hint Rewrite content_put_file content_put_offset offset_put_offset offset_put_file
  put_offset_twice : fs.
#[export] Hint Rewrite content_put_file_ne offset_put_offset_ne using done : fs.

Lemma quiet_put_file d p c : quiet d → quiet (put_file p c d).
Proof. done. Qed.
Lemma quiet_put_offset d p o : quiet d → quiet (put_offset p o d).
Proof. done. Qed.
#[export] Hint Resolve quiet_put_file quiet_put_offset : core.

Lemma next_fault_quiet d : quiet d → next_fault d = (Ok Pass, d).
Proof. unfold quiet, next_fault. by intros ->. Qed.

Lemma syscall_quiet {A} (m : M disk A) d : quiet d → syscall m d = m d.
Proof. intros H. unfold syscall. by rewrite (bind_Ok _ _ _ _ _ (next_fault_quiet d H)). Qed.

Lemma Write_quiet d p bs :
  quiet d →
  Write p bs d = (Ok tt, put_offset p (offset d p + length bs)
                           (put_file p (splice (offset d p) bs (content d p)) d)).
Proof. intros H. unfold Write. by rewrite (bind_Ok _ _ _ _ _ (next_fault_quiet d H)). Qed.

Lemma splice_end c bs : splice (length c) bs c = c ++ bs.
Proof.
  unfold splice. rewrite Nat.sub_diag. simpl. rewrite app_nil_r, firstn_all.
  rewrite drop_ge by lia. by rewrite app_nil_r.
Qed.

(** Appending at the end of a file. *)
Lemma Write_append d p bs :
  quiet d → offset d p = length (content d p) →
  Write p bs d = (Ok tt, put_offset p (length (content d p ++ bs)) (put_file p (content d p ++ bs) d)).
Proof. intros H Ho. by rewrite Write_quiet, Ho, splice_end, length_app. Qed.

Lemma Truncate_quiet d p n :
  quiet d → 0 ≤ n ≤ Zlength (content d p) →
  Truncate p n d = (Ok tt, put_file p (take (Z.to_nat n) (content d p)) d).
Proof.
  intros H Hn. unfold Truncate. rewrite syscall_quiet by done.
  rewrite (proj2 (Z.ltb_ge _ _)) by lia. unfold Zlength in Hn. unfold act. cbv zeta.
  replace (Z.to_nat n - length (content d p))%nat with 0%nat by lia.
  simpl. by rewrite app_nil_r.
Qed.

Lemma SeekStart_quiet d p n :
  quiet d → 0 ≤ n → SeekStart p n d = (Ok tt, put_offset p (Z.to_nat n) d).
Proof.
  intros H Hn. unfold SeekStart. rewrite syscall_quiet by done.
  by rewrite (proj2 (Z.ltb_ge _ _)) by lia.
Qed.
Lemma SeekEnd_quiet d p :
  quiet d → SeekEnd p d = (Ok tt, put_offset p (length (content d p)) d).
Proof. intros H. unfold SeekEnd. by rewrite syscall_quiet. Qed.

(** The open file and the positioned file are readers of its content. *)
Lemma file_reader_spec p :
  reader_spec (ReadFull p) quiet (λ d, drop (offset d p) (content d p))
    (λ k d, put_offset p (offset d p + k) d).
Proof.
  split.
  - intros a b d. autorewrite with fs. f_equal. lia.
  - intros n d _. autorewrite with fs. by rewrite drop_drop.
  - auto.
  - intros n d Hn Hq. unfold ReadFull. rewrite (bind_Ok _ _ _ _ _ (next_fault_quiet d Hq)).
    unfold act. set (v := drop _ _). eexists. split; [done|]. rewrite length_take. split_and!.
    + intros. by rewrite (proj2 (Nat.eqb_eq _ _)) by lia.
    + intros Hlt Hv. rewrite (proj2 (Nat.eqb_neq _ n)) by lia. right.
      destruct v; [done|]. rewrite (proj2 (Nat.eqb_neq _ 0)); [done|simpl; lia].
    + intros ->. simpl. rewrite Nat.min_0_r. by destruct n; [lia|].
Qed.

Lemma file_readat_spec p d :
  quiet d → readat_spec (ReadAt p) d (content d p).
Proof.
  intros Hq n off Hoff. unfold ReadAt. by rewrite (bind_Ok _ _ _ _ _ (next_fault_quiet d Hq)).
Qed.

(** [record.Decode] on an open file: the specification of the decoder applied
    to what is left of it; on success the offset moves past the record. *)
Lemma Decode_file p d :
  quiet d →
  ∃ k, Decode (ReadFull p) d =
    (match decode_bytes (drop (offset d p) (content d p)) with
     | Ok (r, _) => Ok r | Err e => Err e | Panicked => Panicked | Diverged => Diverged end,
     put_offset p (offset d p + k) d) ∧
    (∀ r n, decode_bytes (drop (offset d p) (content d p)) = Ok (r, n) → k = Z.to_nat n).
Proof.
  intros Hq. unfold Decode, mbind, M_bind.
  destruct (decode_refines _ _ _ _ (file_reader_spec p) d Hq) as (k & -> & Hk).
  exists k. split; [by destruct (decode_bytes _) as [[]| | |]|].
  intros r n H. by apply (Hk r n).
Qed.

Lemma DecodeAt_file p d off :
  quiet d → 0 ≤ off →
  DecodeAt (ReadAt p) off d = (decode_bytes (drop (Z.to_nat off) (content d p)), d).
Proof. intros Hq Ho. by apply DecodeAt_refines; [apply file_readat_spec|]. Qed.
