(* ===== verification/Index.v ===== *)
(** The sparse offset index of [internal/log/index.go]. *)
From S2P Require Import Prelude GoStrings Bytes RecordFmt Disk.
Open Scope Z_scope.

(** ** State and operations *)

Record indexEntry := Entry { RelOffset : Z; Position : Z }.   (* uint32, uint32 *)

(** [file] is the descriptor on [path]; its offset lives in the disk. *)
Record sparseIndex := Index { idx_path : string; entries : list indexEntry }.

#[global] Instance indexEntry_eq_dec : EqDecision indexEntry.
Proof. solve_decision. Defined.

Definition parse_entry (buf : bytes) (k : nat) : indexEntry :=
  Entry (be_get (slice (k * 8) (k * 8 + 4) buf)) (be_get (slice (k * 8 + 4) (k * 8 + 8) buf)).

Definition index_load (i : sparseIndex) : M disk sparseIndex :=
  st ← Stat_Size (idx_path i);
  let n := Z.to_nat (st / 8) in
  if (n =? 0)%nat then mret i else
  '(got, err) ← ReadAt (idx_path i) (n * 8) 0;
  let parsed :=
    let buf := got ++ replicate (n * 8 - length got) x00 in     (* make([]byte, n*8) *)
    mret (Index (idx_path i) (parse_entry buf <$> seq 0 n)) in
  match err with
  | Some e => if is_EOF e then parsed else throw e
  | None => parsed
  end.

Definition openIndex (path : string) : M disk sparseIndex :=
  open_create path;;
  r ← attempt (index_load (Index path []));
  match r with
  | inl idx => mret idx
  | inr e => attempt (Close path);; throw e
  end.

Definition encode_entry (e : indexEntry) : bytes := be_put 4 (RelOffset e) ++ be_put 4 (Position e).

Definition index_append (relOffset position : Z) : M (sparseIndex * disk) unit :=
  i ← gets fst;
  zoom snd (λ d s, (fst s, d)) (Write (idx_path i) (encode_entry (Entry relOffset position)));;
  modify (λ s, (Index (idx_path i) (entries i ++ [Entry relOffset position]), snd s)).

(** [sort.Search(n, f)]: binary search for the smallest index where [f] holds *)
Fixpoint search_loop (fuel : nat) (f : nat → bool) (i j : nat) : nat :=
  match fuel with
  | O => i
  | S fuel =>
    if (i <? j)%nat then
      let h := Nat.div2 (i + j) in
      if f h then search_loop fuel f i h else search_loop fuel f (h + 1) j
    else i
  end.
Definition Search (n : nat) (f : nat → bool) : nat := search_loop (n + 1) f 0 n.

Definition entry_at (i : sparseIndex) (j : nat) : indexEntry := nth j (entries i) (Entry 0 0).

Definition lookup_pos (i : sparseIndex) (relOffset : Z) : Z :=
  if (length (entries i) =? 0)%nat then 0 else
  let n := Search (length (entries i)) (λ j, relOffset <? RelOffset (entry_at i j)) in
  if (n =? 0)%nat then 0 else Position (entry_at i (n - 1)).

Definition index_close (i : sparseIndex) : M disk unit := Close (idx_path i).

(** ** What the index of a sequence of records is

    An entry is written for a record when nothing was written since the start
    of the segment, or at least [interval] bytes since the last entry. *)
Definition due (interval since : Z) : bool := (since =? 0) || (interval <=? since).

Fixpoint build_index (interval base pos since : Z) (recs : list record) : list indexEntry :=
  match recs with
  | [] => []
  | r :: recs =>
    let sz := EncodedSize r in
    if due interval since
    then Entry (u32 (Offset r - base)) (u32 pos) :: build_index interval base (pos + sz) sz recs
    else build_index interval base (pos + sz) (since + sz) recs
  end.

(** bytes written since the last entry, after [recs] *)
Fixpoint since_after (interval since : Z) (recs : list record) : Z :=
  match recs with
  | [] => since
  | r :: recs =>
    let sz := EncodedSize r in
    since_after interval (if due interval since then sz else since + sz) recs
  end.

Definition total_size (recs : list record) : Z := foldr (λ r n, EncodedSize r + n) 0 recs.

(** ** Binary search *)

Lemma search_loop_spec fuel f i j :
  (j - i < fuel)%nat → (i ≤ j)%nat →
  (∀ a b, a ≤ b < j → f a = true → f b = true)%nat →
  (∀ a, a < i → f a = false)%nat →
  let k := search_loop fuel f i j in
  (i ≤ k ≤ j ∧ (∀ a, a < k → f a = false) ∧ (∀ a, k ≤ a < j → f a = true))%nat.
Proof.
  revert i j. induction fuel as [|fuel IH]; intros i j Hf Hij Hmono Hlow; [lia|].
  cbn [search_loop]. destruct (Nat.ltb_spec i j) as [Hlt|Hge].
  2:{ split_and!; [lia..|done|lia]. }
  pose proof (Nat.div2_odd (i + j)) as Hd.
  assert (i ≤ Nat.div2 (i + j) < j)%nat as Hh.
  { destruct (Nat.odd (i + j)); simpl in Hd; lia. }
  set (h := Nat.div2 (i + j)) in *. destruct (f h) eqn:E.
  - destruct (IH i h) as (Hk & Hb & Ha); [lia|lia| |done|].
    { intros a b Hab. apply Hmono. lia. }
    split_and!; [lia..|done|]. intros a Ha'.
    destruct (decide (a < h)%nat); [apply Ha; lia|]. apply (Hmono h); [lia|done].
  - destruct (IH (h + 1)%nat j) as (Hk & Hb & Ha); [lia|lia|done| |].
    { intros a Ha. destruct (f a) eqn:Ea; [|done].
      rewrite <- E. symmetry. apply (Hmono a); [lia|done]. }
    split_and!; [lia..|done|done].
Qed.

Lemma Search_spec n f :
  (∀ a b, a ≤ b < n → f a = true → f b = true)%nat →
  (Search n f ≤ n ∧ (∀ a, a < Search n f → f a = false) ∧
   (∀ a, Search n f ≤ a < n → f a = true))%nat.
Proof.
  intros H. destruct (search_loop_spec (n + 1) f 0 n) as (?&?&?); [lia|lia|done|lia|].
  unfold Search. split_and!; [lia|done..].
Qed.

(** ** Lookup is the floor of the target among the indexed offsets *)

Definition rel_sorted (es : list indexEntry) : Prop :=
  ∀ i j e1 e2, (i < j)%nat → es !! i = Some e1 → es !! j = Some e2 → RelOffset e1 < RelOffset e2.

Definition floor_entry (es : list indexEntry) (rel : Z) : option indexEntry :=
  last (filter (λ e, RelOffset e ≤ rel) es).

Lemma entry_at_lookup i j e : entries i !! j = Some e → entry_at i j = e.
Proof. intros H. unfold entry_at. by apply nth_lookup_Some. Qed.

Lemma filter_take_prefix {A} (P : A → Prop) `{!∀ x, Decision (P x)} (l : list A) k :
  (∀ i x, (i < k)%nat → l !! i = Some x → P x) →
  (∀ i x, (k ≤ i)%nat → l !! i = Some x → ¬ P x) →
  filter P l = take k l.
Proof.
  revert k. induction l as [|x l IH]; intros k Hlo Hhi; [by destruct k|].
  destruct k as [|k].
  - rewrite filter_cons_False by (apply (Hhi 0%nat); done || lia).
    apply (IH 0%nat); [lia|]. intros i y _ Hy. apply (Hhi (S i)); [lia|done].
  - rewrite filter_cons_True by (apply (Hlo 0%nat); done || lia). simpl. f_equal.
    apply IH; intros i y Hi Hy.
    + apply (Hlo (S i)); [lia|done].
    + apply (Hhi (S i)); [lia|done].
Qed.

Lemma lookup_pos_floor i rel :
  rel_sorted (entries i) →
  lookup_pos i rel = match floor_entry (entries i) rel with Some e => Position e | None => 0 end.
Proof.
  intros Hs. unfold lookup_pos, floor_entry.
  destruct (entries i) as [|e0 es] eqn:E; [done|]. rewrite <- E in *.
  rewrite (proj2 (Nat.eqb_neq _ 0)) by (rewrite E; simpl; lia).
  set (f := λ j, _). set (n := length (entries i)).
  destruct (Search_spec n f) as (Hk & Hlo & Hhi).
  { intros a b Hab. unfold f.
    destruct (lookup_lt_is_Some_2 (entries i) a) as [ea Ha]; [lia|].
    destruct (lookup_lt_is_Some_2 (entries i) b) as [eb Hb]; [lia|].
    rewrite (entry_at_lookup i a ea), (entry_at_lookup i b eb) by done. rewrite !Z.ltb_lt.
    destruct (decide (a = b)) as [->|]; [congruence|].
    specialize (Hs a b ea eb ltac:(lia) Ha Hb). lia. }
  set (k := Search n f) in *.
  rewrite (filter_take_prefix _ (entries i) k).
  - destruct (Nat.eqb_spec k 0) as [->|Hk0]; [done|].
    destruct (lookup_lt_is_Some_2 (entries i) (k - 1)) as [e He]; [lia|].
    rewrite last_lookup, length_take_le by lia.
    replace (Init.Nat.pred k) with (k - 1)%nat by lia.
    rewrite lookup_take_lt by lia. rewrite He. by rewrite (entry_at_lookup _ _ _ He).
  - intros j e Hj He. specialize (Hlo j Hj). unfold f in Hlo.
    rewrite (entry_at_lookup _ _ _ He) in Hlo. by apply Z.ltb_ge in Hlo.
  - intros j e Hj He. apply lookup_lt_Some in He as Hlt. specialize (Hhi j ltac:(lia)).
    unfold f in Hhi. rewrite (entry_at_lookup _ _ _ He) in Hhi. apply Z.ltb_lt in Hhi. lia.
Qed.

(** ** The index [append] builds *)

(** Offsets count up from [base]. *)
Definition contiguous (base : Z) (recs : list record) : Prop :=
  ∀ i r, recs !! i = Some r → Offset r = base + Z.of_nat i.

Lemma contiguous_nil base : contiguous base [].
Proof. intros i r. by rewrite lookup_nil. Qed.

Lemma contiguous_snoc base recs r :
  contiguous base recs → Offset r = base + Zlength recs → contiguous base (recs ++ [r]).
Proof.
  intros Hc Hr i r' Hi. apply lookup_snoc_Some in Hi as [[_ Hi]|[-> ->]]; [by apply Hc|done].
Qed.

Lemma contiguous_app base recs1 recs2 :
  contiguous base (recs1 ++ recs2) ↔
  contiguous base recs1 ∧ contiguous (base + Zlength recs1) recs2.
Proof.
  unfold Zlength. split.
  - intros H. split.
    + intros i r Hi. by apply H, lookup_app_l_Some.
    + intros i r Hi. rewrite (H (length recs1 + i)%nat r); [lia|].
      rewrite lookup_app_r by lia. by replace (_ + i - _)%nat with i by lia.
  - intros [H1 H2] i r [Hi|[Hle Hi]]%lookup_app_Some; [by apply H1|].
    rewrite (H2 _ _ Hi). lia.
Qed.

Lemma contiguous_cons base r recs :
  contiguous base (r :: recs) ↔ Offset r = base ∧ contiguous (base + 1) recs.
Proof.
  change (r :: recs) with ([r] ++ recs). rewrite contiguous_app.
  change (base + Zlength [r]) with (base + 1). split; intros [H1 H2]; split; [|done| |done].
  - rewrite (H1 0%nat r); [simpl; lia|done].
  - intros [|i] r' Hi; [|done]. injection Hi as <-. simpl. lia.
Qed.

Lemma total_size_app a b : total_size (a ++ b) = total_size a + total_size b.
Proof. unfold total_size. induction a as [|r a IH]; simpl; [done|]. rewrite IH. lia. Qed.

Lemma total_size_nonneg recs : 33 * Zlength recs ≤ total_size recs.
Proof.
  unfold Zlength. induction recs as [|r recs IH]; simpl; [done|].
  pose proof (EncodedSize_lb r). lia.
Qed.

Lemma total_size_take_le i recs : total_size (take i recs) ≤ total_size recs.
Proof.
  rewrite <- (take_drop i recs) at 2. rewrite total_size_app.
  pose proof (total_size_nonneg (drop i recs)). unfold Zlength in *. lia.
Qed.

Lemma build_index_snoc iv base pos since recs r :
  build_index iv base pos since (recs ++ [r]) =
  build_index iv base pos since recs ++
    (if due iv (since_after iv since recs)
     then [Entry (u32 (Offset r - base)) (u32 (pos + total_size recs))] else []).
Proof.
  revert pos since. induction recs as [|x recs IH]; intros pos since; simpl.
  - rewrite Z.add_0_r. by destruct (due _ _).
  - destruct (due iv since); rewrite IH; simpl; rewrite <- Z.add_assoc; done.
Qed.

Lemma since_after_snoc iv since recs r :
  since_after iv since (recs ++ [r]) =
  let s := since_after iv since recs in
  if due iv s then EncodedSize r else s + EncodedSize r.
Proof. revert since. induction recs as [|x recs IH]; intros since; simpl; [done|]. apply IH. Qed.

Lemma since_after_nonneg iv since recs : 0 ≤ since → 0 ≤ since_after iv since recs.
Proof.
  revert since. induction recs as [|x recs IH]; intros since H; simpl; [done|].
  apply IH. pose proof (EncodedSize_lb x). destruct (due _ _); lia.
Qed.

(** The entries are those of an increasing selection of the records. *)
Lemma build_index_indices iv base pos since recs :
  ∃ ixs : list nat,
    StronglySorted lt ixs ∧ Forall (λ i, i < length recs)%nat ixs ∧
    Forall2 (λ i e, ∃ r, recs !! i = Some r ∧
               e = Entry (u32 (Offset r - base)) (u32 (pos + total_size (take i recs))))
      ixs (build_index iv base pos since recs).
Proof.
  revert pos since. induction recs as [|x recs IH]; intros pos since; simpl.
  { exists []. repeat constructor. }
  assert (∀ since', ∃ ixs, StronglySorted lt ixs ∧ Forall (λ i, 0 < i < S (length recs))%nat ixs ∧
    Forall2 (λ i e, ∃ r, (x :: recs) !! i = Some r ∧
      e = Entry (u32 (Offset r - base)) (u32 (pos + total_size (take i (x :: recs)))))
      ixs (build_index iv base (pos + EncodedSize x) since' recs)) as Hshift.
  { intros since'. destruct (IH (pos + EncodedSize x) since') as (ixs & Hs & Hlt & Hf).
    exists (S <$> ixs). split_and!.
    - clear -Hs. induction Hs as [|i ixs Hs IHs Hi]; simpl; constructor; [done|].
      rewrite Forall_fmap. eapply Forall_impl; [done|]. simpl. lia.
    - rewrite Forall_fmap. eapply Forall_impl; [done|]. simpl. lia.
    - rewrite Forall2_fmap_l. eapply Forall2_impl; [done|]. simpl.
      intros i e (r & Hr & ->). exists r. split; [done|]. simpl. by rewrite Z.add_assoc. }
  destruct (due iv since).
  - destruct (Hshift (EncodedSize x)) as (ixs & Hs & Hlt & Hf). exists (0%nat :: ixs). split_and!.
    + constructor; [done|]. eapply Forall_impl; [done|]. simpl. lia.
    + constructor; [lia|]. eapply Forall_impl; [done|]. simpl. lia.
    + constructor; [|done]. exists x. split; [done|]. by rewrite Z.add_0_r.
  - destruct (Hshift (since + EncodedSize x)) as (ixs & Hs & Hlt & Hf). exists ixs.
    split_and!; [done| |done]. eapply Forall_impl; [done|]. simpl. lia.
Qed.

Section built.
Context (iv base : Z) (recs : list record).
Context (Hc : contiguous base recs) (Hsz : total_size recs < 2 ^ 32).

Lemma built_length : Zlength recs < 2 ^ 32.
Proof using Hsz. pose proof (total_size_nonneg recs). unfold Zlength in *. lia. Qed.

Lemma build_index_entry j e :
  build_index iv base 0 0 recs !! j = Some e →
  ∃ i, (i < length recs)%nat ∧ RelOffset e = Z.of_nat i ∧ Position e = total_size (take i recs).
Proof using Hc Hsz.
  destruct (build_index_indices iv base 0 0 recs) as (ixs & _ & Hlt & Hf).
  intros He. eapply Forall2_lookup_r in Hf as (i & Hi & r & Hr & ->); [|done].
  exists i. apply lookup_lt_Some in Hr as Hil. split; [done|]. simpl.
  pose proof built_length. pose proof (total_size_take_le i recs).
  pose proof (total_size_nonneg (take i recs)).
  rewrite (Hc _ _ Hr). unfold Zlength in *.
  replace (base + Z.of_nat i - base) with (Z.of_nat i) by lia.
  rewrite !u32_small by (unfold is_u32; lia). done.
Qed.

Lemma build_index_sorted : rel_sorted (build_index iv base 0 0 recs).
Proof using Hc Hsz.
  destruct (build_index_indices iv base 0 0 recs) as (ixs & Hs & Hlt & Hf).
  pose proof built_length. unfold Zlength in *.
  intros i j e1 e2 Hij H1 H2.
  destruct (Forall2_lookup_r _ _ _ _ _ Hf H1) as (a & Ha & r1 & Hr1 & ->).
  destruct (Forall2_lookup_r _ _ _ _ _ Hf H2) as (b & Hb & r2 & Hr2 & ->). simpl.
  apply lookup_lt_Some in Hr1 as ?. apply lookup_lt_Some in Hr2 as ?.
  assert (a < b)%nat by exact (StronglySorted_lookup_lt _ _ _ _ _ _ Hs Hij Ha Hb).
  rewrite (Hc _ _ Hr1), (Hc _ _ Hr2).
  replace (base + Z.of_nat a - base) with (Z.of_nat a) by lia.
  replace (base + Z.of_nat b - base) with (Z.of_nat b) by lia.
  rewrite !u32_small by (unfold is_u32; lia). lia.
Qed.

(** Lookup in a built index gives the start of some record at or before the
    target. *)
Lemma lookup_pos_built path rel :
  0 ≤ rel → (0 < length recs)%nat →
  ∃ i, (i < length recs)%nat ∧ Z.of_nat i ≤ rel ∧
    lookup_pos (Index path (build_index iv base 0 0 recs)) rel = total_size (take i recs).
Proof using Hc Hsz.
  intros Hrel Hne. rewrite lookup_pos_floor by apply build_index_sorted.
  unfold floor_entry. cbn [entries]. destruct (last _) as [e|] eqn:E.
  - apply last_Some_elem_of, list_elem_of_filter in E as [Hle [j Hj]%list_elem_of_lookup].
    apply build_index_entry in Hj as (i & Hi & Hr & ->). exists i. split_and!; [done|lia|done].
  - exists 0%nat. split_and!; [done|lia|done].
Qed.
End built.

(** ** Running the index operations on a fault-free disk *)

Lemma length_encode_entry e : length (encode_entry e) = 8%nat.
Proof. unfold encode_entry. by rewrite length_app, !length_be_put. Qed.

Definition index_bytes (es : list indexEntry) : bytes := concat (encode_entry <$> es).

Lemma index_bytes_snoc es e : index_bytes (es ++ [e]) = index_bytes es ++ encode_entry e.
Proof. unfold index_bytes. rewrite fmap_app, concat_app.
  cbn [fmap list_fmap concat]. by rewrite app_nil_r. Qed.

Lemma length_index_bytes es : length (index_bytes es) = (length es * 8)%nat.
Proof.
  unfold index_bytes. induction es as [|e es IH]; [done|].
  cbn [fmap list_fmap concat]. rewrite length_app, IH, length_encode_entry. done.
Qed.

Lemma index_append_quiet i d rel pos :
  quiet d → offset d (idx_path i) = length (content d (idx_path i)) →
  let c := content d (idx_path i) ++ encode_entry (Entry rel pos) in
  index_append rel pos (i, d) =
    (Ok tt, (Index (idx_path i) (entries i ++ [Entry rel pos]),
             put_offset (idx_path i) (length c) (put_file (idx_path i) c d))).
Proof.
  intros Hq Ho c. unfold index_append, mbind, M_bind, gets, zoom, modify. cbn [fst snd].
  rewrite Write_append by done. done.
Qed.

Definition entry_ok (e : indexEntry) : Prop := is_u32 (RelOffset e) ∧ is_u32 (Position e).

Lemma parse_index_bytes es k e tl :
  Forall entry_ok es → es !! k = Some e → parse_entry (index_bytes es ++ tl) k = e.
Proof.
  intros Hok He. revert k He. induction Hok as [|x es [Hr Hp] _ IH]; intros k He; [done|].
  destruct k as [|k].
  - injection He as ->. unfold parse_entry, index_bytes, encode_entry. cbn [fmap list_fmap concat].
    rewrite <- !app_assoc.
    assert (∀ a b c : bytes, length a = 4%nat → length b = 4%nat →
      slice (0 * 8) (0 * 8 + 4) (a ++ b ++ c) = a ∧ slice (0 * 8 + 4) (0 * 8 + 8) (a ++ b ++ c) = b)
      as Hs.
    { intros a b c Ha Hb. split; [apply slice_app_hit; lia|].
      rewrite slice_app_skip by lia. apply slice_app_hit; lia. }
    destruct (Hs (be_put 4 (RelOffset e)) (be_put 4 (Position e))
      (concat (encode_entry <$> es) ++ tl)) as [E1 E2]; [apply length_be_put..|].
    unfold encode_entry in E1, E2. rewrite E1, E2, !be_get_put_4 by done. by destruct e.
  - simpl in He. rewrite <- (IH k He). unfold parse_entry, index_bytes.
    cbn [fmap list_fmap concat]. rewrite <- app_assoc.
    rewrite !(slice_app_skip _ _ (encode_entry x)) by (rewrite length_encode_entry; lia).
    rewrite length_encode_entry. do 3 f_equal; lia.
Qed.

Lemma build_index_entry_ok iv base pos since recs : Forall entry_ok (build_index iv base pos since recs).
Proof.
  revert pos since. induction recs as [|r recs IH]; intros pos since; simpl; [done|].
  destruct (due iv since); [|apply IH]. constructor; [|apply IH]. split; apply u32_range.
Qed.

(** Loading an index file gives back the entries that were appended; trailing
    bytes of an incomplete entry are ignored. *)
Lemma index_load_quiet d p es tl :
  quiet d → content d p = index_bytes es ++ tl → (length tl < 8)%nat → Forall entry_ok es →
  index_load (Index p []) d = (Ok (Index p es), d).
Proof.
  intros Hq Hcont Htl Hok. unfold index_load, Stat_Size, mbind, M_bind.
  rewrite syscall_quiet by done. unfold gets. cbn [idx_path]. rewrite Hcont.
  unfold Zlength. rewrite length_app, length_index_bytes.
  replace (Z.to_nat (_ / 8)) with (length es) by
    (rewrite Nat2Z.inj_add, Nat2Z.inj_mul, Z.add_comm, Z.div_add, Z.div_small; lia).
  destruct (Nat.eqb_spec (length es) 0) as [E|E].
  { by apply nil_length_inv in E as ->. }
  rewrite file_readat_spec by (done || lia). rewrite Hcont.
  change (Z.to_nat 0) with 0%nat. rewrite drop_0, length_take, length_app, length_index_bytes.
  rewrite (proj2 (Nat.eqb_eq _ _)) by lia. unfold mret, M_ret. do 3 f_equal.
  rewrite take_app_le by (rewrite length_index_bytes; lia).
  rewrite take_ge by (rewrite length_index_bytes; lia).
  apply list_eq. intros k. rewrite list_lookup_fmap.
  destruct (es !! k) as [e|] eqn:Ee.
  - apply lookup_lt_Some in Ee as Hk. rewrite lookup_seq_lt by done. simpl.
    f_equal. by apply parse_index_bytes.
  - apply lookup_ge_None in Ee. by rewrite lookup_seq_ge.
Qed.

(** [lookup] is the floor function of the index: for entries in increasing
    offset order the binary search returns the position of the greatest indexed
    offset at or below the target, and 0 (the start of the segment) when every
    indexed offset is above it. *)
Theorem index_lookup_is_floor i rel (Hs : rel_sorted (entries i)) :
  lookup_pos i rel =
    match last (filter (λ e, RelOffset e ≤ rel) (entries i)) with
    | Some e => Position e
    | None => 0
    end.
Proof. by apply lookup_pos_floor. Qed.

Definition sample_index : sparseIndex := Index "i" [Entry 2 100; Entry 5 250; Entry 9 470].

Lemma index_lookup_is_floor_witness :
  lookup_pos sample_index 7 = 250 ∧
  lookup_pos sample_index 7 =
    match last (filter (λ e, RelOffset e ≤ 7) (entries sample_index)) with
    | Some e => Position e | None => 0 end.
Proof.
  split; [reflexivity|]. apply index_lookup_is_floor.
  intros [|[|[|i]]] [|[|[|j]]] e1 e2 Hij H1 H2; simplify_eq/=; lia.
Defined.
