(* ===== verification/Segment.v ===== *)
(** One log segment, [internal/log/segment.go]: a data file of records and its
    sparse index. *)
From S2P Require Import Prelude GoStrings Bytes RecordFmt Disk Index.
Open Scope Z_scope.

(** ** State *)

(** [logFile] names the data file; its descriptor's offset is in the disk. *)
Record segment := Segment {
  baseOffset : Z;
  logFile : string;
  idx : sparseIndex;
  size : Z;
  nextOffset : Z;
  bytesSinceIndex : Z;
  indexInterval : Z
}.

Definition set_idx (i : sparseIndex) (s : segment) : segment :=
  Segment (baseOffset s) (logFile s) i (size s) (nextOffset s) (bytesSinceIndex s) (indexInterval s).
Definition set_size (n : Z) (s : segment) : segment :=
  Segment (baseOffset s) (logFile s) (idx s) n (nextOffset s) (bytesSinceIndex s) (indexInterval s).
Definition set_nextOffset (n : Z) (s : segment) : segment :=
  Segment (baseOffset s) (logFile s) (idx s) (size s) n (bytesSinceIndex s) (indexInterval s).
Definition set_bytesSinceIndex (n : Z) (s : segment) : segment :=
  Segment (baseOffset s) (logFile s) (idx s) (size s) (nextOffset s) n (indexInterval s).

(** A method of a segment acts on the segment and on the disk. *)
Abbreviation MS A := (M (segment * disk) A).

Definition on_disk {A} (m : M disk A) : MS A := zoom snd (λ d s, (fst s, d)) m.
Definition on_index {A} (m : M (sparseIndex * disk) A) : MS A :=
  zoom (λ s, (idx (fst s), snd s)) (λ t s, (set_idx (fst t) (fst s), snd t)) m.
Definition self : MS segment := gets fst.
Definition update (f : segment → segment) : MS unit := modify (λ s, (f (fst s), snd s)).

(** ** Opening and creating *)

Definition log_name (base : Z) : string := Sprintf020d base +:+ ".log".
Definition index_name (base : Z) : string := Sprintf020d base +:+ ".index".

Definition segmentPaths (base : Z) : string * string := (log_name base, index_name base).

Definition createSegment (base interval : Z) : M disk segment :=
  MkdirAll;;
  let '(logPath, indexPath) := segmentPaths base in
  open_excl logPath;;
  r ← attempt (openIndex indexPath);
  match r with
  | inr e => attempt (Close logPath);; throw e
  | inl i => mret (Segment base logPath i 0 base 0 interval)
  end.

Definition segment_close : MS unit :=
  s ← self;
  r1 ← attempt (on_disk (Close (logFile s)));
  r2 ← attempt (on_disk (index_close (idx s)));
  match r1, r2 with
  | inr e, _ => throw e
  | inl _, inr e => throw e
  | _, _ => mret tt
  end.

Definition flush : MS unit :=
  s ← self;
  on_disk (Sync (logFile s));;
  on_disk (Sync (idx_path (idx s))).

(** ** Recovery *)

(** What [record.Decode(s.logFile)] gives the two scan loops. *)
Definition decode_next : MS (record + goerr) :=
  s ← self; attempt (on_disk (Decode (ReadFull (logFile s)))).

(** The scan from the last index entry; returns [off, pos]. *)
Fixpoint scan_tail (fuel : nat) (off pos : Z) : MS (Z * Z) :=
  match fuel with
  | O => diverge
  | S fuel =>
    r ← decode_next;
    match r with
    | inr e =>
      if is_EOF e then mret (off, pos) else
      s ← self;
      on_disk (Truncate (logFile s) pos);;
      update (set_size pos);;
      mret (off, pos)
    | inl rec => scan_tail fuel (i64 (Offset rec + 1)) (pos + EncodedSize rec)
    end
  end.

(** The full scan, which rebuilds the index; returns [next, pos, since]. *)
Fixpoint scan_all (fuel : nat) (next pos since : Z) : MS (Z * Z * Z) :=
  match fuel with
  | O => diverge
  | S fuel =>
    r ← decode_next;
    match r with
    | inr e =>
      if is_EOF e then mret (next, pos, since) else
      s ← self;
      on_disk (Truncate (logFile s) pos);;
      mret (next, pos, since)
    | inl rec =>
      s ← self;
      since ← (if (since =? 0) || (indexInterval s <=? since)
               then on_index (index_append (u32 (Offset rec - baseOffset s)) (u32 pos));; mret 0
               else mret since);
      let sz := EncodedSize rec in
      scan_all fuel (i64 (Offset rec + 1)) (pos + sz) (since + sz)
    end
  end.

(** Every decoded record takes at least one byte of the file. *)
Definition scan_fuel : MS nat := gets (λ s, S (length (content (snd s) (logFile (fst s))))).

(** Scan from the last index entry to find the true end. *)
Definition recover_from (lst : indexEntry) : MS unit :=
  s ← self;
  on_disk (SeekStart (logFile s) (Position lst));;
  fuel ← scan_fuel;
  '(off, pos) ← scan_tail fuel (i64 (baseOffset s + RelOffset lst)) (Position lst);
  update (set_nextOffset off);;
  update (set_size pos);;
  on_disk (SeekEnd (logFile s)).

(** Scan the whole file and rebuild the index. *)
Definition recover_rebuild : MS unit :=
  s ← self;
  on_disk (SeekStart (logFile s) 0);;
  update (set_idx (Index (idx_path (idx s)) []));;
  on_disk (Truncate (idx_path (idx s)) 0);;
  on_disk (SeekStart (idx_path (idx s)) 0);;
  fuel ← scan_fuel;
  '(next, pos, since) ← scan_all fuel (baseOffset s) 0 0;
  update (set_nextOffset next);;
  update (set_size pos);;
  update (set_bytesSinceIndex since);;
  on_disk (SeekEnd (logFile s)).

Definition recover (scanAll : bool) : MS unit :=
  s ← self;
  if size s =? 0 then update (set_nextOffset (baseOffset s)) else
  match last (entries (idx s)) with
  | Some lst => if scanAll then recover_rebuild else recover_from lst
  | None => recover_rebuild
  end.

Definition openSegment (base interval : Z) (active : bool) : M disk segment :=
  let '(logPath, indexPath) := segmentPaths base in
  open_rdwr logPath;;
  st ← attempt (Stat_Size logPath);
  match st with
  | inr e => attempt (Close logPath);; throw e
  | inl st =>
    i ← attempt (openIndex indexPath);
    match i with
    | inr e => attempt (Close logPath);; throw e
    | inl i =>
      '(r, s) ← local (Segment base logPath i st 0 0 interval) (recover active);
      match r with
      | inr e => local s segment_close;; throw e
      | inl _ => mret s
      end
    end
  end.

(** ** Append and read *)

Definition segment_append (now : Z) (rec : record) : MS Z :=
  s ← self;
  if negb (Offset rec =? nextOffset s)
  then throw (ErrSegmentOffset (nextOffset s) (Offset rec)) else
  let pos := size s in
  let enc := Encode now rec in
  on_disk (Write (logFile s) enc);;
  (if (bytesSinceIndex s =? 0) || (indexInterval s <=? bytesSinceIndex s)
   then on_index (index_append (u32 (Offset rec - baseOffset s)) (u32 pos));;
        update (set_bytesSinceIndex 0)
   else mret tt);;
  update (λ s, set_bytesSinceIndex (bytesSinceIndex s + Zlength enc) s);;
  update (λ s, set_size (size s + Zlength enc) s);;
  update (λ s, set_nextOffset (i64 (nextOffset s + 1)) s);;
  mret (Offset rec).

Fixpoint read_loop (s : segment) (fuel : nat) (fromOffset maxBytes maxOffset pos n : Z)
    (out : list record) : M disk (list record) :=
  match fuel with
  | O => diverge
  | S fuel =>
    if pos <? size s then
      r ← attempt (DecodeAt (ReadAt (logFile s)) pos);
      match r with
      | inr e => if is_EOF e then mret out else throw e
      | inl (rec, sz) =>
        let pos := pos + sz in
        if Offset rec <? fromOffset
        then read_loop s fuel fromOffset maxBytes maxOffset pos n out
        else if maxOffset <=? Offset rec then mret out
        else if (0 <? n) && (maxBytes <? n + sz) then mret out
        else
          let out := out ++ [rec] in
          let n := n + sz in
          if maxBytes <=? n then mret out
          else read_loop s fuel fromOffset maxBytes maxOffset pos n out
      end
    else mret out
  end.

Definition readFrom (s : segment) (fromOffset maxBytes maxOffset : Z) : M disk (list record) :=
  if (fromOffset <? baseOffset s) || (nextOffset s <=? fromOffset) then mret [] else
  if maxOffset <=? fromOffset then mret [] else
  let rel := u32 (fromOffset - baseOffset s) in
  let pos := lookup_pos (idx s) rel in
  read_loop s (S (Z.to_nat (size s))) fromOffset maxBytes maxOffset pos 0 [].

Definition segment_contains (s : segment) (offset : Z) : bool :=
  (baseOffset s <=? offset) && (offset <? nextOffset s).

(** ** File names *)

Lemma log_index_name b b' : log_name b ≠ index_name b'.
Proof.
  intros H. apply (f_equal to_chars) in H. unfold log_name, index_name in H.
  rewrite !to_chars_app in H. apply (f_equal last) in H.
  rewrite !last_app in H. discriminate H.
Qed.

Lemma TrimSuffix_log_name b : TrimSuffix (log_name b) ".log" = Sprintf020d b.
Proof. apply TrimSuffix_app. Qed.

Lemma log_name_inj b b' : 0 ≤ b < 2 ^ 63 → 0 ≤ b' < 2 ^ 63 → log_name b = log_name b' → b = b'.
Proof.
  intros Hb Hb' H. apply (f_equal (λ s, TrimSuffix s ".log")) in H.
  rewrite !TrimSuffix_log_name in H. apply (f_equal ParseInt) in H.
  rewrite !ParseInt_Sprintf020d in H by done. congruence.
Qed.

Lemma index_name_inj b b' : 0 ≤ b < 2 ^ 63 → 0 ≤ b' < 2 ^ 63 → index_name b = index_name b' → b = b'.
Proof.
  intros Hb Hb' H. apply (f_equal (λ s, TrimSuffix s ".index")) in H.
  unfold index_name in H. rewrite !TrimSuffix_app in H. apply (f_equal ParseInt) in H.
  rewrite !ParseInt_Sprintf020d in H by done. congruence.
Qed.

(** ** Byte layout of a sequence of records *)

Definition encode_all (recs : list record) : bytes := concat (encode_stamped <$> recs).

Lemma encode_all_app a b : encode_all (a ++ b) = encode_all a ++ encode_all b.
Proof. unfold encode_all. by rewrite fmap_app, concat_app. Qed.

Lemma encode_all_snoc a r : encode_all (a ++ [r]) = encode_all a ++ encode_stamped r.
Proof.
  rewrite encode_all_app. f_equal. unfold encode_all. cbn [fmap list_fmap concat].
  apply app_nil_r.
Qed.

Lemma encode_all_cons r a : encode_all (r :: a) = encode_stamped r ++ encode_all a.
Proof. done. Qed.

Lemma Zlength_encode_all recs : Zlength (encode_all recs) = total_size recs.
Proof.
  unfold Zlength. induction recs as [|r recs IH]; [done|].
  rewrite encode_all_cons, length_app, Nat2Z.inj_add, IH. cbn [total_size foldr].
  fold (total_size recs). f_equal. apply Zlength_encode_stamped.
Qed.

Lemma length_encode_all recs : length (encode_all recs) = Z.to_nat (total_size recs).
Proof. pose proof (Zlength_encode_all recs). unfold Zlength in *. lia. Qed.

Lemma drop_encode_all i recs :
  drop (Z.to_nat (total_size (take i recs))) (encode_all recs) = encode_all (drop i recs).
Proof.
  rewrite <- (take_drop i recs) at 2. rewrite encode_all_app, <- length_encode_all.
  by rewrite drop_app_length.
Qed.

Lemma decode_at_record i r recs tl :
  Forall wf_record recs → recs !! i = Some r →
  decode_bytes (drop (Z.to_nat (total_size (take i recs))) (encode_all recs ++ tl)) =
    Ok (r, EncodedSize r).
Proof.
  intros Hwf Hi. rewrite drop_app_le.
  2:{ rewrite length_encode_all. pose proof (total_size_take_le i recs). lia. }
  rewrite drop_encode_all, (drop_S _ _ _ Hi), encode_all_cons, <- app_assoc.
  apply decode_bytes_encode. rewrite Forall_forall in Hwf. by apply Hwf, list_elem_of_lookup_2 with i.
Qed.

(** ** The representation invariant

    [seg_data d s recs]: the files of [s] in [d] and the fields of [s] that
    reading uses hold exactly the records [recs].  [seg_tail d s recs] adds what
    appending needs: the descriptors' offsets and the index counter. *)

Record seg_data (d : disk) (s : segment) (recs : list record) : Prop := {
  sd_log : files d !! logFile s = Some (encode_all recs);
  sd_idx : files d !! idx_path (idx s) = Some (index_bytes (entries (idx s)));
  sd_entries : entries (idx s) = build_index (indexInterval s) (baseOffset s) 0 0 recs;
  sd_size : size s = total_size recs;
  sd_next : nextOffset s = baseOffset s + Zlength recs;
  sd_contig : contiguous (baseOffset s) recs;
  sd_wf : Forall wf_record recs;
  sd_small : total_size recs < 2 ^ 32;
  sd_base : 0 ≤ baseOffset s;
  sd_max : baseOffset s + Zlength recs < 2 ^ 63;
  sd_logname : logFile s = log_name (baseOffset s);
  sd_idxname : idx_path (idx s) = index_name (baseOffset s)
}.

Record seg_tail (d : disk) (s : segment) (recs : list record) : Prop := {
  st_log_off : offset d (logFile s) = length (encode_all recs);
  st_idx_off : offset d (idx_path (idx s)) = length (index_bytes (entries (idx s)));
  st_since : bytesSinceIndex s = since_after (indexInterval s) 0 recs
}.

Lemma content_files d p c : files d !! p = Some c → content d p = c.
Proof. unfold content. by intros ->. Qed.

Lemma seg_paths_ne d s recs : seg_data d s recs → logFile s ≠ idx_path (idx s).
Proof. intros H. rewrite (sd_logname _ _ _ H), (sd_idxname _ _ _ H). apply log_index_name. Qed.

(** Disks that agree on everything but the two files of segment [b]. *)
Definition same_but (b : Z) (d d' : disk) : Prop :=
  ∀ p, p ≠ log_name b → p ≠ index_name b →
    files d' !! p = files d !! p ∧ offsets d' !! p = offsets d !! p.

Lemma same_but_refl b d : same_but b d d.
Proof. done. Qed.
Lemma same_but_trans b d1 d2 d3 : same_but b d1 d2 → same_but b d2 d3 → same_but b d1 d3.
Proof.
  intros H1 H2 p Hl Hi.
  destruct (H1 p Hl Hi), (H2 p Hl Hi). split; congruence.
Qed.
Lemma same_but_put_file b d p c :
  p = log_name b ∨ p = index_name b → same_but b d (put_file p c d).
Proof.
  intros Hp q Hl Hi. unfold put_file. simpl. split; [|done].
  apply lookup_insert_ne. destruct Hp; congruence.
Qed.
Lemma same_but_put_offset b d p o :
  p = log_name b ∨ p = index_name b → same_but b d (put_offset p o d).
Proof.
  intros Hp q Hl Hi. unfold put_offset. simpl. split; [done|].
  apply lookup_insert_ne. destruct Hp; congruence.
Qed.
#[export] Hint Resolve same_but_refl same_but_put_file same_but_put_offset : core.

Lemma seg_data_frame b d d' s recs :
  same_but b d d' → 0 ≤ b < 2 ^ 63 → b ≠ baseOffset s → seg_data d s recs → seg_data d' s recs.
Proof.
  intros Hs Hb Hne H. pose proof (sd_base _ _ _ H). pose proof (sd_max _ _ _ H).
  unfold Zlength in *.
  assert (∀ p, p = log_name (baseOffset s) ∨ p = index_name (baseOffset s) →
    files d' !! p = files d !! p) as Hf.
  { intros p Hp. apply Hs; destruct Hp as [-> | ->].
    - intros E%log_name_inj; lia.
    - intros E. symmetry in E. by apply log_index_name in E.
    - apply log_index_name.
    - intros E%index_name_inj; lia. }
  destruct H. constructor; try done.
  - rewrite Hf; [done|]. by left.
  - rewrite Hf; [done|]. by right.
Qed.

(** ** Append *)

Ltac munfold :=
  unfold mbind, M_bind, mret, M_ret, self, gets, update, modify, on_disk, on_index, zoom, throw;
  cbn [fst snd].

Ltac seg_cbn :=
  unfold set_bytesSinceIndex, set_size, set_nextOffset, set_idx;
  cbn [fst snd baseOffset logFile idx size nextOffset bytesSinceIndex indexInterval idx_path entries].

Lemma index_bytes_files d s recs :
  seg_data d s recs → content d (idx_path (idx s)) = index_bytes (entries (idx s)).
Proof. intros H. by apply content_files, sd_idx with recs. Qed.

Section append.
Context (now : Z) (rec : record) (s : segment) (d : disk) (recs : list record).
Context (Hq : quiet d) (Hd : seg_data d s recs) (Ht : seg_tail d s recs).
Context (Hoff : Offset rec = nextOffset s) (Hwf : wf_record (stamp now rec)).
Context (Hfit : total_size recs + EncodedSize rec < 2 ^ 32)
        (Hmax : nextOffset s + 1 < 2 ^ 63).

Let r := stamp now rec.
Let i := idx s.
Let e := Entry (u32 (Offset rec - baseOffset s)) (u32 (size s)).
Let written := encode_all (recs ++ [r]).
Let due_now := due (indexInterval s) (bytesSinceIndex s).
Let entries' := entries i ++ (if due_now then [e] else []).

(** The disk and the segment after a successful append. *)
Definition append_disk : disk :=
  let d1 := put_offset (logFile s) (length written) (put_file (logFile s) written d) in
  if due_now
  then put_offset (idx_path i) (length (index_bytes entries'))
         (put_file (idx_path i) (index_bytes entries') d1)
  else d1.
Definition append_segment : segment :=
  Segment (baseOffset s) (logFile s) (Index (idx_path i) entries')
    (size s + EncodedSize rec) (nextOffset s + 1)
    ((if due_now then 0 else bytesSinceIndex s) + EncodedSize rec) (indexInterval s).

Lemma segment_append_run :
  segment_append now rec (s, d) = (Ok (Offset rec), (append_segment, append_disk)).
Proof using Hq Hd Ht Hoff Hmax.
  pose proof (seg_paths_ne _ _ _ Hd) as Hne.
  pose proof (content_files _ _ _ (sd_log _ _ _ Hd)) as Hlog.
  pose proof (index_bytes_files _ _ _ Hd) as Hidx.
  unfold segment_append. munfold. rewrite Hoff, Z.eqb_refl. cbn [negb fst snd].
  rewrite Write_append; [|done|]. 2:{ rewrite Hlog; apply Ht. } rewrite Hlog.
  change (Encode now rec) with (encode_stamped r). rewrite <- encode_all_snoc. fold written.
  fold (due (indexInterval s) (bytesSinceIndex s)). fold due_now.
  unfold append_segment, append_disk, entries'.
  assert (i64 (nextOffset s + 1) = nextOffset s + 1) as Hi64.
  { apply i64_small. pose proof (sd_next _ _ _ Hd). pose proof (sd_base _ _ _ Hd).
    unfold is_i64, Zlength in *. lia. }
  assert (Zlength (encode_stamped r) = EncodedSize rec) as Henc
    by (unfold r; rewrite Zlength_encode_stamped; apply EncodedSize_stamp).
  destruct due_now; cbn [fst snd].
  - rewrite index_append_quiet; [|auto|].
    2:{ autorewrite with fs. rewrite Hidx. apply Ht. }
    autorewrite with fs.
    fold i. fold i in Hidx. rewrite Hidx, <- index_bytes_snoc, <- Hoff. fold e.
    seg_cbn. rewrite Hi64, Henc, Hoff. done.
  - rewrite app_nil_r.
    seg_cbn. rewrite Hi64, Henc, <- Hoff.
    unfold i. by destruct (idx s).
Qed.

Lemma append_quiet : quiet append_disk.
Proof using Hq. unfold append_disk. destruct due_now; auto. Qed.

Lemma append_same_but : same_but (baseOffset s) d append_disk.
Proof using Hd.
  pose proof (sd_logname _ _ _ Hd) as Hl. pose proof (sd_idxname _ _ _ Hd) as Hi.
  unfold append_disk. fold i in Hi.
  destruct due_now; repeat (first [eapply same_but_trans;
    [|first [apply same_but_put_offset|apply same_but_put_file]; auto] | apply same_but_refl]).
Qed.

Lemma append_files :
  files append_disk !! logFile s = Some written ∧
  files append_disk !! idx_path i = Some (index_bytes entries') ∧
  offset append_disk (logFile s) = length written ∧
  offset append_disk (idx_path i) = length (index_bytes entries').
Proof using Hd Ht.
  pose proof (seg_paths_ne _ _ _ Hd) as Hne. fold i in Hne.
  pose proof (sd_idx _ _ _ Hd) as Hidx. pose proof (st_idx_off _ _ _ Ht) as Hio.
  unfold append_disk, entries'. destruct due_now; cbn [files put_offset put_file].
  - rewrite lookup_insert_ne, lookup_insert_eq, lookup_insert_eq by done.
    by autorewrite with fs.
  - rewrite lookup_insert_eq, lookup_insert_ne, app_nil_r by done.
    autorewrite with fs. done.
Qed.

Lemma append_data : seg_data append_disk append_segment (recs ++ [r]).
Proof using Hd Ht Hoff Hwf Hfit Hmax.
  destruct append_files as (Hl & Hi & _ & _). destruct Hd.
  assert (EncodedSize r = EncodedSize rec) as Hsz by apply EncodedSize_stamp.
  assert (Offset r = Offset rec) as Hro by (unfold r, stamp; by destruct (_ =? _)).
  assert (total_size (recs ++ [r]) = total_size recs + EncodedSize rec) as Htot
    by (rewrite total_size_app; simpl; lia).
  constructor; unfold append_segment; seg_cbn; try done.
  - unfold entries', due_now, e. fold i in sd_entries0.
    rewrite build_index_snoc, sd_entries0, Hro, Z.add_0_l, sd_size0.
    by rewrite (st_since _ _ _ Ht).
  - rewrite Htot. lia.
  - unfold Zlength in *. rewrite length_app. simpl. lia.
  - apply contiguous_snoc; [done|]. rewrite Hro. lia.
  - by apply Forall_app_2; [|constructor].
  - lia.
  - unfold Zlength in *. rewrite length_app. simpl. lia.
Qed.

Lemma append_tail : seg_tail append_disk append_segment (recs ++ [r]).
Proof using Hd Ht.
  destruct append_files as (_ & _ & Hl & Hi).
  constructor; unfold append_segment; seg_cbn; [done..|].
  rewrite since_after_snoc, <- (st_since _ _ _ Ht). cbv zeta. fold due_now.
  assert (EncodedSize r = EncodedSize rec) as -> by apply EncodedSize_stamp.
  generalize due_now. by intros [].
Qed.
End append.

(** A record whose offset is not the next one is refused and changes nothing. *)
Lemma segment_append_mismatch now rec s d :
  Offset rec ≠ nextOffset s →
  segment_append now rec (s, d) = (Err (ErrSegmentOffset (nextOffset s) (Offset rec)), (s, d)).
Proof. intros H. unfold segment_append. munfold. by rewrite (proj2 (Z.eqb_neq _ _)). Qed.

(** ** Reading *)

(** The records [readFrom] returns: those below [maxOffset], the first one
    whatever its size, then as many as fit in [maxBytes]. *)
Fixpoint take_budget (maxBytes maxOffset n : Z) (recs : list record) : list record :=
  match recs with
  | [] => []
  | r :: recs =>
    let sz := EncodedSize r in
    if maxOffset <=? Offset r then []
    else if (0 <? n) && (maxBytes <? n + sz) then []
    else if maxBytes <=? n + sz then [r]
    else r :: take_budget maxBytes maxOffset (n + sz) recs
  end.

Section reading.
Context (s : segment) (d : disk) (recs : list record).
Context (Hq : quiet d) (Hd : seg_data d s recs).

Lemma read_one i r :
  recs !! i = Some r →
  DecodeAt (ReadAt (logFile s)) (total_size (take i recs)) d = (Ok (r, EncodedSize r), d).
Proof using Hq Hd.
  intros Hi. pose proof (total_size_nonneg (take i recs)). unfold Zlength in *.
  rewrite DecodeAt_file by (done || lia). f_equal.
  rewrite (content_files _ _ _ (sd_log _ _ _ Hd)), <- (app_nil_r (encode_all recs)).
  by apply decode_at_record; [apply Hd|].
Qed.

Lemma total_size_take_S i r :
  recs !! i = Some r → total_size (take (S i) recs) = total_size (take i recs) + EncodedSize r.
Proof.
  intros Hi. rewrite (take_S_r _ _ _ Hi), total_size_app. simpl. lia.
Qed.

Lemma total_size_take_lt i :
  (i < length recs)%nat → total_size (take i recs) < total_size recs.
Proof.
  intros Hi. destruct (lookup_lt_is_Some_2 recs i Hi) as [r Hr].
  pose proof (total_size_take_S i r Hr). pose proof (total_size_take_le (S i) recs).
  pose proof (EncodedSize_lb r). lia.
Qed.

Lemma read_loop_end fuel from maxBytes maxOffset n out :
  read_loop s (S fuel) from maxBytes maxOffset (total_size recs) n out d = (Ok out, d).
Proof using Hd.
  cbn [read_loop]. rewrite (sd_size _ _ _ Hd), Z.ltb_irrefl. done.
Qed.

(** From the position of record [i >= from - base], the loop collects the
    budgeted prefix of the remaining records. *)
Lemma read_loop_collect i fuel from maxBytes maxOffset n out :
  (length recs - i < fuel)%nat → from ≤ baseOffset s + Z.of_nat i → (i ≤ length recs)%nat →
  read_loop s fuel from maxBytes maxOffset (total_size (take i recs)) n out d =
    (Ok (out ++ take_budget maxBytes maxOffset n (drop i recs)), d).
Proof using Hq Hd.
  revert i n out. induction fuel as [|fuel IH]; intros i n out Hf Hfrom Hi; [lia|].
  destruct (decide (i = length recs)) as [->|].
  { rewrite firstn_all, drop_ge by lia. rewrite read_loop_end. by rewrite app_nil_r. }
  destruct (lookup_lt_is_Some_2 recs i) as [r Hr]; [lia|].
  cbn [read_loop]. rewrite (sd_size _ _ _ Hd).
  rewrite (proj2 (Z.ltb_lt _ _)) by (apply total_size_take_lt; lia).
  unfold mbind, M_bind, attempt. rewrite (read_one i r Hr).
  rewrite (drop_S _ _ _ Hr). cbn [take_budget].
  pose proof (sd_contig _ _ _ Hd i r Hr) as Hoff.
  rewrite (proj2 (Z.ltb_ge _ _)) by lia.
  destruct (maxOffset <=? Offset r); [by rewrite app_nil_r|].
  destruct ((0 <? n) && _); [by rewrite app_nil_r|].
  destruct (maxBytes <=? n + EncodedSize r); [done|].
  rewrite <- (total_size_take_S i r Hr), IH by lia. by rewrite <- app_assoc.
Qed.

(** Before [from], records are only skipped. *)
Lemma read_loop_skip i k fuel from maxBytes maxOffset n out :
  (length recs - i < fuel)%nat → (i ≤ k ≤ length recs)%nat →
  from = baseOffset s + Z.of_nat k →
  read_loop s fuel from maxBytes maxOffset (total_size (take i recs)) n out d =
    (Ok (out ++ take_budget maxBytes maxOffset n (drop k recs)), d).
Proof using Hq Hd.
  intros Hf Hik Hfrom. revert i Hf Hik.
  induction fuel as [|fuel IH]; intros i Hf Hik; [lia|].
  destruct (decide (i = k)) as [->|]; [apply read_loop_collect; lia|].
  destruct (lookup_lt_is_Some_2 recs i) as [r Hr]; [lia|].
  cbn [read_loop]. rewrite (sd_size _ _ _ Hd).
  rewrite (proj2 (Z.ltb_lt _ _)) by (apply total_size_take_lt; lia).
  unfold mbind, M_bind, attempt. rewrite (read_one i r Hr).
  pose proof (sd_contig _ _ _ Hd i r Hr) as Hoff.
  rewrite (proj2 (Z.ltb_lt _ _)) by lia.
  rewrite <- (total_size_take_S i r Hr). apply IH; lia.
Qed.

Lemma readFrom_run from maxBytes maxOffset :
  baseOffset s ≤ from < nextOffset s → from < maxOffset →
  readFrom s from maxBytes maxOffset d =
    (Ok (take_budget maxBytes maxOffset 0 (drop (Z.to_nat (from - baseOffset s)) recs)), d).
Proof using Hq Hd.
  intros Hfrom Hmax. pose proof Hd as []. pose proof (total_size_nonneg recs). unfold Zlength in *.
  unfold readFrom.
  rewrite (proj2 (Z.ltb_ge _ _)), (proj2 (Z.leb_gt _ _)) by lia. cbn [orb].
  rewrite (proj2 (Z.leb_gt _ _)) by lia.
  rewrite u32_small by (unfold is_u32; lia).
  destruct (lookup_pos_built (indexInterval s) (baseOffset s) recs sd_contig0 sd_small0
    (idx_path (idx s)) (from - baseOffset s)) as (i & Hi & Hle & Hpos); [lia|lia|].
  assert (idx s = Index (idx_path (idx s))
    (build_index (indexInterval s) (baseOffset s) 0 0 recs)) as Hidx
    by (rewrite <- sd_entries0; by destruct (idx s)).
  rewrite Hidx, Hpos. apply (read_loop_skip i (Z.to_nat (from - baseOffset s))); lia.
Qed.

Lemma readFrom_outside from maxBytes maxOffset :
  ¬ (baseOffset s ≤ from < nextOffset s ∧ from < maxOffset) →
  readFrom s from maxBytes maxOffset d = (Ok [], d).
Proof.
  intros H. unfold readFrom.
  destruct (Z.ltb_spec from (baseOffset s)), (Z.leb_spec (nextOffset s) from),
    (Z.leb_spec maxOffset from); try done. lia.
Qed.
End reading.

(** ** Recovery *)

(** What may follow the last whole record: bytes the decoder rejects. *)
Definition torn (tl : bytes) : Prop := ∃ e, decode_bytes tl = Err e.

Lemma torn_nil : torn [].
Proof. by exists EOF. Qed.

Lemma decode_payload_not_EOF p : decode_payload p ≠ Err EOF.
Proof. unfold decode_payload. repeat case_match; done. Qed.

Lemma decode_bytes_EOF bs : decode_bytes bs = Err EOF → bs = [].
Proof.
  unfold decode_bytes. case_bool_decide.
  { destruct bs; [done|]. done. }
  repeat (case_match; try done). intros [= ->]. by apply decode_payload_not_EOF in H3.
Qed.

Lemma torn_prefix r k :
  wf_record r → (k < length (encode_stamped r))%nat → torn (take k (encode_stamped r)).
Proof.
  intros Hwf Hk. destruct k as [|k]; [apply torn_nil|].
  pose proof (Zlength_encode_stamped r). unfold Zlength in *.
  eexists. apply decode_bytes_truncated; [done|lia|lia].
Qed.

Lemma decode_next_record s d r n :
  quiet d → decode_bytes (drop (offset d (logFile s)) (content d (logFile s))) = Ok (r, n) →
  decode_next (s, d) =
    (Ok (inl r), (s, put_offset (logFile s) (offset d (logFile s) + Z.to_nat n) d)).
Proof.
  intros Hq Hd. unfold decode_next, attempt. munfold.
  destruct (Decode_file (logFile s) d Hq) as (k & -> & Hk). rewrite (Hk _ _ Hd), Hd. done.
Qed.

Lemma decode_next_err s d e :
  quiet d → decode_bytes (drop (offset d (logFile s)) (content d (logFile s))) = Err e →
  ∃ k, decode_next (s, d) =
    (Ok (inr e), (s, put_offset (logFile s) (offset d (logFile s) + k) d)).
Proof.
  intros Hq Hd. unfold decode_next, attempt. munfold.
  destruct (Decode_file (logFile s) d Hq) as (k & -> & Hk). rewrite Hd. by exists k.
Qed.

(** The end of both scans: at a torn tail the file is cut at [pos], at the end
    of the file nothing happens; either way exactly the whole records stay. *)
Lemma drop_all_records recs tl :
  drop (length (encode_all recs)) (encode_all recs ++ tl) = tl.
Proof. by rewrite drop_app_length. Qed.

Section recovery.
Context (base iv : Z) (lf ip : string) (Hne : lf ≠ ip).
Context (Hlf : lf = log_name base) (Hip : ip = index_name base).

(** Progress of the full scan: the records [pre] have been passed. *)
Record scanning (d : disk) (pre : list record) (c : bytes) : Prop := {
  sc_quiet : quiet d;
  sc_log : files d !! lf = Some c;
  sc_off : offset d lf = length (encode_all pre);
  sc_idx : files d !! ip = Some (index_bytes (build_index iv base 0 0 pre));
  sc_idx_off : offset d ip = length (index_bytes (build_index iv base 0 0 pre))
}.

Definition scan_seg (sz nx bs : Z) (pre : list record) : segment :=
  Segment base lf (Index ip (build_index iv base 0 0 pre)) sz nx bs iv.

(** The state a scan leaves behind. *)
Record scanned (d d' : disk) (recs : list record) : Prop := {
  sn_quiet : quiet d';
  sn_log : files d' !! lf = Some (encode_all recs);
  sn_same : same_but base d d'
}.

Lemma scan_end d d1 pre tl e :
  quiet d1 → files d1 !! lf = Some (encode_all pre ++ tl) → same_but base d d1 →
  decode_bytes tl = Err e →
  (is_EOF e = true ∧ scanned d d1 pre) ∨
  (is_EOF e = false ∧
    ∃ d2, Truncate lf (total_size pre) d1 = (Ok tt, d2) ∧ scanned d d2 pre ∧
      files d2 !! ip = files d1 !! ip ∧ offsets d2 = offsets d1).
Proof using Hne Hlf.
  intros Hq Hl Hsame He. unfold is_EOF. case_bool_decide as HE; [left|right]; (split; [done|]).
  - subst e. apply decode_bytes_EOF in He as ->. rewrite app_nil_r in Hl. by constructor.
  - eexists. pose proof (content_files _ _ _ Hl) as Hc.
    pose proof (total_size_nonneg pre). pose proof (Zlength_encode_all pre).
    rewrite Truncate_quiet; [|done|rewrite Hc; unfold Zlength in *; rewrite length_app; lia].
    split; [done|]. rewrite Hc, <- length_encode_all, take_app_length.
    cbn [files offsets put_file]. split_and!; [|by rewrite lookup_insert_ne|done].
    constructor; [done|cbn; by rewrite lookup_insert_eq|].
    eapply same_but_trans; [done|]. apply same_but_put_file. by left.
Qed.

(** One turn of the full scan on a whole record. *)
Lemma scan_step fuel sz nx bs pre r c tl d :
  wf_record r → Offset r = base + Zlength pre → 0 ≤ base → base + Zlength pre + 1 < 2 ^ 63 →
  drop (length (encode_all pre)) c = encode_stamped r ++ tl → scanning d pre c →
  ∃ d', scan_all (S fuel) (base + Zlength pre) (total_size pre) (since_after iv 0 pre)
          (scan_seg sz nx bs pre, d) =
        scan_all fuel (base + Zlength (pre ++ [r])) (total_size (pre ++ [r]))
          (since_after iv 0 (pre ++ [r])) (scan_seg sz nx bs (pre ++ [r]), d') ∧
    scanning d' (pre ++ [r]) c ∧ same_but base d d'.
Proof using Hne Hlf Hip.
  intros Hr Hoff Hb Hm Hdrop [Hq Hl Ho Hi Hio].
  assert (decode_bytes (drop (offset d lf) (content d lf)) = Ok (r, EncodedSize r)) as Hdec.
  { rewrite Ho, (content_files _ _ _ Hl), Hdrop. by apply decode_bytes_encode. }
  pose proof (decode_next_record (scan_seg sz nx bs pre) d r (EncodedSize r) Hq Hdec) as Hk.
  cbn [scan_all]. rewrite (bind_Ok _ _ _ _ _ Hk). clear Hk. unfold scan_seg. cbn [logFile].
  set (d1 := put_offset _ _ d).
  assert (offset d1 lf = length (encode_all (pre ++ [r]))) as Ho1.
  { unfold d1. rewrite offset_put_offset, Ho, encode_all_snoc, length_app.
    pose proof (Zlength_encode_stamped r). unfold Zlength in *. lia. }
  assert (offset d1 ip = length (content d1 ip)) as Hio1
    by (rewrite (content_files d1 _ _ Hi), <- Hio; unfold d1; by autorewrite with fs).
  assert (i64 (Offset r + 1) = base + Zlength (pre ++ [r])) as ->.
  { unfold Zlength in *. rewrite !length_app in *. simpl in *.
    rewrite i64_small; [lia|unfold is_i64; lia]. }
  assert (total_size pre + EncodedSize r = total_size (pre ++ [r])) as Htot
    by (rewrite total_size_app; simpl; lia).
  pose proof (build_index_snoc iv base 0 0 pre r) as Hbi. rewrite Z.add_0_l in Hbi.
  pose proof (since_after_snoc iv 0 pre r) as Hsi. cbv zeta in Hsi.
  munfold. seg_cbn. fold (due iv (since_after iv 0 pre)). rewrite Htot.
  destruct (due iv (since_after iv 0 pre)); seg_cbn.
  - rewrite index_append_quiet by done. seg_cbn.
    rewrite (content_files d1 _ _ Hi), <- index_bytes_snoc, <- Hbi, Z.add_0_l, <- Hsi.
    eexists. split; [done|]. split.
    + constructor; [done|cbn; by rewrite lookup_insert_ne| |cbn; by rewrite lookup_insert_eq|].
      * rewrite offset_put_offset_ne, offset_put_file by done. done.
      * by rewrite offset_put_offset.
    + eapply same_but_trans; [|apply same_but_put_offset; by right].
      eapply same_but_trans; [|apply same_but_put_file; by right].
      apply same_but_put_offset. by left.
  - rewrite app_nil_r in Hbi. rewrite <- Hsi, <- Hbi. exists d1. split; [done|].
    split; [|apply same_but_put_offset; by left].
    constructor; [done|done|done|by rewrite Hbi|].
    by rewrite Hio1, Hbi, (content_files d1 _ _ Hi).
Qed.

Lemma scan_all_run fuel sz nx bs pre rest tl d :
  (length rest < fuel)%nat → Forall wf_record rest →
  contiguous base (pre ++ rest) → 0 ≤ base → base + Zlength (pre ++ rest) < 2 ^ 63 →
  torn tl → scanning d pre (encode_all (pre ++ rest) ++ tl) →
  let all := pre ++ rest in
  ∃ d', scan_all fuel (base + Zlength pre) (total_size pre) (since_after iv 0 pre)
          (scan_seg sz nx bs pre, d) =
      (Ok (base + Zlength all, total_size all, since_after iv 0 all),
       (scan_seg sz nx bs all, d')) ∧
    scanned d d' all ∧
    files d' !! ip = Some (index_bytes (build_index iv base 0 0 all)) ∧
    offset d' ip = length (index_bytes (build_index iv base 0 0 all)).
Proof using Hne Hlf Hip.
  intros Hf Hwf Hc Hb Hm [et Htl] Hsc all. subst all.
  revert pre rest d Hf Hwf Hc Hm Hsc.
  induction fuel as [|fuel IH]; intros pre rest d Hf Hwf Hc Hm Hsc; [lia|].
  destruct rest as [|r rest].
  - destruct Hsc as [Hq Hl Ho Hi Hio]. rewrite app_nil_r in *. cbn [scan_all].
    destruct (decode_next_err (scan_seg sz nx bs pre) d et) as [k Hk]; [done| |].
    { cbn [scan_seg logFile]. by rewrite Ho, (content_files _ _ _ Hl), drop_all_records. }
    rewrite (bind_Ok _ _ _ _ _ Hk). cbn [scan_seg logFile].
    set (d1 := put_offset _ _ d).
    assert (offset d1 ip = offset d ip) as Hio1 by (unfold d1; by autorewrite with fs).
    destruct (scan_end d d1 pre tl et) as [[-> Hs]|[-> (d2 & Htr & Hs & Hi2 & Ho2)]];
      [done|done|apply same_but_put_offset; by left|done| |].
    + exists d1. split; [done|]. split_and!; [done..|congruence].
    + exists d2. munfold. cbn [scan_seg logFile]. rewrite Htr. split; [done|].
      split_and!; [done|by rewrite Hi2|]. unfold offset in *. rewrite Ho2. congruence.
  - inversion_clear Hwf as [|? ? Hr Hwf'].
    assert (pre ++ r :: rest = (pre ++ [r]) ++ rest) as Happ by (by rewrite <- app_assoc).
    destruct (scan_step fuel sz nx bs pre r (encode_all (pre ++ r :: rest) ++ tl)
      (encode_all rest ++ tl) d) as (d1 & -> & Hsc1 & Hsame); [done| |done| | |done|].
    + apply (Hc (length pre)). by rewrite lookup_app_r, Nat.sub_diag by done.
    + unfold Zlength in *. rewrite length_app in Hm. simpl in Hm. lia.
    + by rewrite encode_all_app, <- app_assoc, drop_app_length, encode_all_cons, <- app_assoc.
    + rewrite Happ in *. destruct (IH (pre ++ [r]) rest d1) as (d' & -> & Hs & ?);
        [simpl in Hf; lia|done..|]. exists d'. split; [done|]. split; [|done].
      destruct Hs. constructor; [done..|]. by eapply same_but_trans.
Qed.

Lemma scan_tail_run fuel s pre rest tl d :
  logFile s = lf → (length rest < fuel)%nat → Forall wf_record rest →
  contiguous base (pre ++ rest) → 0 ≤ base → base + Zlength (pre ++ rest) < 2 ^ 63 →
  torn tl → quiet d → files d !! lf = Some (encode_all (pre ++ rest) ++ tl) →
  offset d lf = length (encode_all pre) →
  let all := pre ++ rest in
  ∃ d' s', scan_tail fuel (base + Zlength pre) (total_size pre) (s, d) =
      (Ok (base + Zlength all, total_size all), (s', d')) ∧
    (s' = s ∨ s' = set_size (total_size all) s) ∧
    scanned d d' all ∧ files d' !! ip = files d !! ip.
Proof using Hne Hlf.
  intros Hs Hf Hwf Hc Hb Hm [et Htl] Hq Hl Ho all. subst all.
  revert pre rest d Hf Hwf Hc Hm Hq Hl Ho.
  induction fuel as [|fuel IH]; intros pre rest d Hf Hwf Hc Hm Hq Hl Ho; [lia|].
  cbn [scan_tail]. destruct rest as [|r rest].
  - rewrite app_nil_r in *.
    destruct (decode_next_err s d et) as [k Hk]; [done| |].
    { by rewrite Hs, Ho, (content_files _ _ _ Hl), drop_all_records. }
    rewrite (bind_Ok _ _ _ _ _ Hk), Hs. set (d1 := put_offset _ _ d).
    destruct (scan_end d d1 pre tl et) as [[-> Hsc]|[-> (d2 & Htr & Hsc & Hi2 & Ho2)]];
      [done|done|apply same_but_put_offset; by left|done| |].
    + exists d1, s. split; [done|]. split; [by left|]. done.
    + exists d2, (set_size (total_size pre) s). munfold. rewrite Hs, Htr. split; [done|].
      split; [by right|]. done.
  - inversion_clear Hwf as [|? ? Hr Hwf'].
    assert (pre ++ r :: rest = (pre ++ [r]) ++ rest) as Happ by (by rewrite <- app_assoc).
    assert (decode_bytes (drop (offset d (logFile s)) (content d (logFile s))) =
      Ok (r, EncodedSize r)) as Hdec.
    { rewrite Hs, Ho, (content_files _ _ _ Hl), encode_all_app, <- app_assoc, drop_app_length,
        encode_all_cons, <- app_assoc. by apply decode_bytes_encode. }
    rewrite (bind_Ok _ _ _ _ _ (decode_next_record s d r _ Hq Hdec)), Hs.
    set (d1 := put_offset _ _ d).
    assert (Offset r = base + Zlength pre) as Hoff.
    { apply (Hc (length pre)). by rewrite lookup_app_r, Nat.sub_diag by done. }
    assert (i64 (Offset r + 1) = base + Zlength (pre ++ [r])) as ->.
    { unfold Zlength in *. rewrite !length_app in *. simpl in *.
      rewrite i64_small; [lia|unfold is_i64; lia]. }
    assert (total_size pre + EncodedSize r = total_size (pre ++ [r])) as ->
      by (rewrite total_size_app; simpl; lia).
    rewrite Happ in *.
    destruct (IH (pre ++ [r]) rest d1) as (d' & s' & -> & Hs' & Hsc & Hi);
      [simpl in Hf; lia|done..| |].
    { unfold d1. rewrite offset_put_offset, Ho, encode_all_snoc, length_app.
      pose proof (Zlength_encode_stamped r). unfold Zlength in *. lia. }
    exists d', s'. split; [done|]. split; [done|]. split; [|done].
    destruct Hsc. constructor; [done..|].
    eapply same_but_trans; [|done]. apply same_but_put_offset. by left.
Qed.

(** The full scan rebuilds the index from the whole records, whatever the
    index file held, and leaves the segment ready for appending. *)
Lemma recover_rebuild_run s recs tl ib d :
  baseOffset s = base → logFile s = lf → idx_path (idx s) = ip → indexInterval s = iv →
  Forall wf_record recs → contiguous base recs → 0 ≤ base → base + Zlength recs < 2 ^ 63 →
  total_size recs < 2 ^ 32 → torn tl →
  quiet d → files d !! lf = Some (encode_all recs ++ tl) → files d !! ip = Some ib →
  ∃ d' s', recover_rebuild (s, d) = (Ok tt, (s', d')) ∧
    seg_data d' s' recs ∧ seg_tail d' s' recs ∧ quiet d' ∧ same_but base d d' ∧
    baseOffset s' = base ∧ indexInterval s' = iv.
Proof using Hne Hlf Hip.
  intros Hsb Hsl Hsi Hsv Hwf Hc Hb Hm Htot Htorn Hq Hl Hi.
  set (d2 := put_offset ip 0 (put_file ip [] (put_offset lf 0 d))).
  assert (content d2 lf = encode_all recs ++ tl) as Hc2.
  { unfold d2. autorewrite with fs. by apply content_files. }
  destruct (scan_all_run (S (length (encode_all recs ++ tl))) (size s) (nextOffset s)
    (bytesSinceIndex s) [] recs tl d2) as (d' & Hrun & [Hq' Hl' Hsame] & Hi' & Hio');
    [|done..| |].
  { pose proof (total_size_nonneg recs). rewrite length_app, length_encode_all.
    unfold Zlength in *. lia. }
  { constructor; [done|cbn; by rewrite lookup_insert_ne| |cbn; by rewrite lookup_insert_eq|].
    - unfold d2. rewrite offset_put_offset_ne, offset_put_file by done.
      by rewrite offset_put_offset.
    - unfold d2. by rewrite offset_put_offset. }
  exists (put_offset lf (length (encode_all recs)) d'),
    (Segment base lf (Index ip (build_index iv base 0 0 recs)) (total_size recs)
      (base + Zlength recs) (since_after iv 0 recs) iv).
  assert (same_but base d (put_offset lf (length (encode_all recs)) d')) as Hsame'.
  { eapply same_but_trans; [|apply same_but_put_offset; by left].
    eapply same_but_trans; [|done]. unfold d2.
    eapply same_but_trans; [|apply same_but_put_offset; by right].
    eapply same_but_trans; [|apply same_but_put_file; by right].
    apply same_but_put_offset. by left. }
  split; [|split_and!; [by constructor| |done..]].
  - unfold recover_rebuild. destruct s as [b l i sz nx bs v]. cbn in Hsb, Hsl, Hsi, Hsv. subst b l v.
    munfold. rewrite SeekStart_quiet by done. seg_cbn. rewrite Hsi.
    rewrite Truncate_quiet by (done || unfold Zlength; lia). seg_cbn.
    rewrite SeekStart_quiet by done.
    change (Z.to_nat 0) with 0%nat. rewrite take_0. fold d2.
    unfold scan_fuel. munfold. seg_cbn. rewrite Hc2.
    cbn [app] in Hrun. unfold scan_seg in Hrun at 1. cbn [build_index] in Hrun.
    change (base + Zlength []) with (base + 0) in Hrun. rewrite Z.add_0_r in Hrun.
    change (total_size []) with 0 in Hrun. cbn [since_after size nextOffset bytesSinceIndex] in Hrun.
    rewrite Hrun. unfold scan_seg. seg_cbn. rewrite SeekEnd_quiet by done.
    by rewrite (content_files _ _ _ Hl').
  - constructor; cbn [logFile idx idx_path entries]; [| |done].
    + by rewrite offset_put_offset.
    + rewrite offset_put_offset_ne; done.
Qed.

(** The scan from the last index entry finds the end of a sealed segment. *)
Lemma recover_from_run s recs tl lst d :
  baseOffset s = base → logFile s = lf → idx_path (idx s) = ip → indexInterval s = iv →
  entries (idx s) = build_index iv base 0 0 recs → last (entries (idx s)) = Some lst →
  Forall wf_record recs → contiguous base recs → 0 ≤ base → base + Zlength recs < 2 ^ 63 →
  total_size recs < 2 ^ 32 → torn tl →
  quiet d → files d !! lf = Some (encode_all recs ++ tl) →
  files d !! ip = Some (index_bytes (build_index iv base 0 0 recs)) →
  ∃ d' s', recover_from lst (s, d) = (Ok tt, (s', d')) ∧
    seg_data d' s' recs ∧ quiet d' ∧ same_but base d d' ∧
    baseOffset s' = base ∧ indexInterval s' = iv.
Proof using Hne Hlf Hip.
  intros Hsb Hsl Hsi Hsv He Hlast Hwf Hc Hb Hm Htot Htorn Hq Hl Hi.
  rewrite He, last_lookup in Hlast.
  destruct (build_index_entry iv base recs Hc Htot _ _ Hlast) as (i & Hil & Hrel & Hpos).
  assert (Forall wf_record (drop i recs)) as Hwfd by (by apply Forall_drop).
  assert (0 ≤ total_size (take i recs)) as Hpos0
    by (pose proof (total_size_nonneg (take i recs)); unfold Zlength in *; lia).
  pose proof (length_encode_all (take i recs)) as Hlen.
  destruct (scan_tail_run (S (length (encode_all recs ++ tl))) s (take i recs) (drop i recs) tl
    (put_offset lf (length (encode_all (take i recs))) d))
    as (d' & s' & Hrun & Hs' & [Hq' Hl' Hsame] & Hi');
    rewrite ?(take_drop i recs) in *; try done.
  { pose proof (total_size_nonneg recs). rewrite length_app, length_encode_all, length_drop.
    unfold Zlength in *. lia. }
  { by rewrite offset_put_offset. }
  exists (put_offset lf (length (encode_all recs)) d'),
    (Segment base lf (idx s) (total_size recs) (base + Zlength recs) (bytesSinceIndex s) iv).
  split; [|split_and!; [|done| |done..]].
  - unfold recover_from. munfold. rewrite Hsl.
    rewrite SeekStart_quiet by (rewrite ?Hpos; done). munfold. rewrite Hpos, <- Hlen.
    unfold scan_fuel. munfold. rewrite Hsl.
    replace (content (put_offset lf _ d) lf) with (encode_all recs ++ tl)
      by (by rewrite content_put_offset, (content_files _ _ _ Hl)).
    rewrite Hsb, Hrel. unfold Zlength in Hrun.
    rewrite length_take_le in Hrun by lia.
    rewrite i64_small by (unfold is_i64, Zlength in *; lia).
    rewrite Hrun. cbn [fst snd]. rewrite SeekEnd_quiet by done.
    rewrite (content_files _ _ _ Hl').
    destruct Hs' as [-> | ->]; destruct s; cbn in *; by subst.
  - constructor; cbn [logFile idx size nextOffset baseOffset indexInterval];
      rewrite ?Hsi, ?He; try done. cbn. by rewrite Hi'.
  - eapply same_but_trans; [|apply same_but_put_offset; by left].
    eapply same_but_trans; [|done]. apply same_but_put_offset. by left.
Qed.
End recovery.

(** ** Creating and opening segments *)

Lemma openIndex_run d p :
  quiet d →
  ∃ es, openIndex p d =
    (Ok (Index p es),
     put_offset p 0 (match files d !! p with Some _ => d | None => put_file p [] d end)) ∧
    (∀ es' tl, files d !! p = Some (index_bytes es' ++ tl) → (length tl < 8)%nat →
       Forall entry_ok es' → es = es') ∧
    (files d !! p = None → es = []).
Proof.
  intros Hq. unfold openIndex, open_create, mbind, M_bind. rewrite syscall_quiet by done. unfold act.
  set (d1 := put_offset p 0 (match files d !! p with Some _ => d | None => put_file p [] d end)).
  assert (match files d !! p with Some _ => (Ok tt, put_offset p 0 d)
    | None => (Ok tt, put_offset p 0 (put_file p [] d)) end = (Ok tt, d1)) as ->
    by (unfold d1; by destruct (files d !! p)).
  assert (quiet d1) as Hq1 by (unfold d1; destruct (files d !! p); auto).
  set (b := content d1 p).
  destruct (decide (length b < 8)%nat) as [Hlt|Hge].
  - unfold attempt. rewrite (index_load_quiet d1 p [] b) by done.
    exists []. split; [done|]. split; [|done].
    intros es' tl Hf Htl Hok. assert (b = index_bytes es' ++ tl) as Hb.
    { unfold b, d1. rewrite Hf, content_put_offset. by apply content_files. }
    rewrite Hb, length_app, length_index_bytes in Hlt.
    destruct es'; [done|simpl in Hlt; lia].
  - unfold attempt.
    assert (∃ es, index_load (Index p []) d1 = (Ok (Index p es), d1)) as [es Hes].
    { unfold index_load, Stat_Size, mbind, M_bind. rewrite syscall_quiet by done.
      unfold gets. cbn [idx_path]. fold b. destruct (Z.to_nat _ =? 0)%nat; [by eexists|].
      rewrite file_readat_spec by (done || lia).
      destruct (length _ =? _)%nat; eexists; reflexivity. }
    exists es. rewrite Hes. split; [done|]. split.
    + intros es' tl Hf Htl Hok.
      rewrite (index_load_quiet d1 p es' tl) in Hes; [congruence|done| |done|done].
      fold b. unfold b, d1. rewrite Hf, content_put_offset. by apply content_files.
    + intros Hn. exfalso. apply Hge. unfold b, d1. rewrite Hn, content_put_offset, content_put_file.
      simpl. lia.
Qed.

(** A created segment is empty and ready for appending. *)
Lemma createSegment_run base iv d :
  0 ≤ base < 2 ^ 63 → quiet d →
  files d !! log_name base = None → files d !! index_name base = None →
  ∃ d' s, createSegment base iv d = (Ok s, d') ∧
    seg_data d' s [] ∧ seg_tail d' s [] ∧ quiet d' ∧ same_but base d d' ∧
    baseOffset s = base ∧ indexInterval s = iv.
Proof.
  intros Hb Hq Hl Hi. unfold createSegment, MkdirAll, open_excl, segmentPaths, mbind, M_bind.
  rewrite !syscall_quiet by done. unfold mret at 1, M_ret at 1, act. rewrite syscall_quiet, Hl by done.
  set (d1 := put_offset _ _ _).
  assert (quiet d1) as Hq1 by done.
  assert (files d1 !! index_name base = None) as Hi1.
  { unfold d1. cbn. rewrite lookup_insert_ne; [done|apply log_index_name]. }
  destruct (openIndex_run d1 (index_name base) Hq1) as (es & Hrun & _ & Hnil).
  rewrite Hi1 in Hrun. rewrite Hnil in Hrun by done. unfold attempt. rewrite Hrun.
  pose proof (log_index_name base base) as Hne.
  eexists _, _. split; [done|]. split_and!; [| |by auto| |done..].
  - constructor; cbn; try done.
    + unfold d1. cbn. rewrite lookup_insert_ne by done. by rewrite lookup_insert_eq.
    + by rewrite lookup_insert_eq.
    + unfold Zlength. simpl. lia.
    + lia.
    + unfold Zlength. simpl. lia.
  - constructor; cbn; [| |done].
    + rewrite offset_put_offset_ne, offset_put_file by done. unfold d1. by rewrite offset_put_offset.
    + by rewrite offset_put_offset.
  - eapply same_but_trans; [|apply same_but_put_offset; by right].
    eapply same_but_trans; [|apply same_but_put_file; by right].
    eapply same_but_trans; [|apply same_but_put_offset; by left].
    apply same_but_put_file. by left.
Qed.

(** What a restart finds on disk for one segment: the whole records [recs],
    then bytes the decoder rejects, and the index the records call for; the
    index may be anything when the whole file is going to be scanned, and missing
    when it would be empty. *)
Record on_disk_segment (base iv : Z) (active : bool) (recs : list record) (tl : bytes)
    (d : disk) : Prop := {
  od_log : files d !! log_name base = Some (encode_all recs ++ tl);
  od_torn : torn tl;
  od_wf : Forall wf_record recs;
  od_contig : contiguous base recs;
  od_base : 0 ≤ base;
  od_max : base + Zlength recs < 2 ^ 63;
  od_small : total_size recs < 2 ^ 32;
  od_index : (active = true ∧ encode_all recs ++ tl ≠ []) ∨
             content d (index_name base) = index_bytes (build_index iv base 0 0 recs)
}.

Lemma recover_run base iv active recs tl es ib d :
  let lf := log_name base in let ip := index_name base in
  let s := Segment base lf (Index ip es) (Zlength (encode_all recs ++ tl)) 0 0 iv in
  quiet d → on_disk_segment base iv active recs tl d →
  files d !! ip = Some ib → offset d lf = 0%nat → offset d ip = 0%nat →
  ((active = true ∧ encode_all recs ++ tl ≠ []) ∨
   (ib = index_bytes (build_index iv base 0 0 recs) ∧ es = build_index iv base 0 0 recs)) →
  ∃ d' s', recover active (s, d) = (Ok tt, (s', d')) ∧
    seg_data d' s' recs ∧ (active = true → seg_tail d' s' recs) ∧ quiet d' ∧ same_but base d d' ∧
    baseOffset s' = base ∧ indexInterval s' = iv.
Proof.
  intros lf ip s Hq [Hl Htorn Hwf Hc Hb Hm Hsm _] Hi Ho Hio Hcase.
  assert (lf ≠ ip) as Hne by apply log_index_name.
  unfold recover. munfold. cbn [s size]. unfold Zlength at 1.
  destruct (encode_all recs ++ tl) as [|b0 bs] eqn:Econt.
  { (* an empty file *)
    destruct Hcase as [[_ ?]|[-> ->]]; [done|]. cbn [length]. rewrite Z.eqb_refl.
    apply app_nil in Econt as [Er ->]. assert (recs = []) as ->.
    { apply (f_equal length) in Er. rewrite length_encode_all in Er. simpl in Er.
      pose proof (total_size_nonneg recs) as Hts. unfold Zlength in Hts.
      destruct recs; [done|]. simpl in Hts, Er. lia. }
    exists d, (set_nextOffset base s). split; [done|].
    unfold Zlength in *. simpl in *. split_and!; try done.
    - constructor; cbn; unfold Zlength; simpl; try done; lia. }
  rewrite (proj2 (Z.eqb_neq _ _)) by (simpl; lia). rewrite <- Econt in *. cbn [idx s entries].
  assert (∃ d' s', recover_rebuild (s, d) = (Ok tt, (s', d')) ∧
    seg_data d' s' recs ∧ seg_tail d' s' recs ∧ quiet d' ∧ same_but base d d' ∧
    baseOffset s' = base ∧ indexInterval s' = iv) as (d' & s' & Hrun & Hpost).
  { by eapply recover_rebuild_run. }
  destruct (last es) as [lst|] eqn:El; [destruct active|].
  - exists d', s'. split; [done|]. destruct Hpost as (?&?&?&?&?&?). by split_and!.
  - destruct Hcase as [[? _]|[-> ->]]; [done|].
    destruct (recover_from_run base iv lf ip Hne eq_refl eq_refl s recs tl lst d)
      as (d2 & s2 & Hrun2 & ? & ? & ? & ? & ?); try done.
    exists d2, s2. split; [done|]. split_and!; done.
  - exists d', s'. split; [done|]. destruct Hpost as (?&?&?&?&?&?). by split_and!.
Qed.

Lemma openSegment_run base iv active recs tl d :
  quiet d → on_disk_segment base iv active recs tl d →
  ∃ d' s, openSegment base iv active d = (Ok s, d') ∧
    seg_data d' s recs ∧ (active = true → seg_tail d' s recs) ∧
    quiet d' ∧ same_but base d d' ∧ baseOffset s = base ∧ indexInterval s = iv.
Proof.
  intros Hq Hod. pose proof Hod as []. set (lf := log_name base) in *. set (ip := index_name base) in *.
  assert (lf ≠ ip) as Hne by apply log_index_name.
  unfold openSegment, segmentPaths, open_rdwr, Stat_Size, attempt, mbind, M_bind.
  fold lf ip. rewrite syscall_quiet by done. unfold act. rewrite od_log0.
  set (d1 := put_offset lf 0 d). rewrite syscall_quiet by done. unfold gets.
  replace (content d1 lf) with (encode_all recs ++ tl)
    by (by unfold d1; rewrite content_put_offset, (content_files _ _ _ od_log0)).
  destruct (openIndex_run d1 ip) as (es & -> & Hes & Hnil); [done|].
  change (files d1 !! ip) with (files d !! ip) in *.
  set (ib := default [] (files d !! ip)).
  set (d2 := put_offset ip 0 (match files d !! ip with Some _ => d1 | None => put_file ip [] d1 end)).
  assert (files d2 = <[ip:=ib]> (files d)) as Hf2.
  { unfold d2, ib. destruct (files d !! ip) eqn:E; cbn; [by rewrite insert_id|done]. }
  assert (offsets d2 = <[ip:=0%nat]> (<[lf:=0%nat]> (offsets d))) as Ho2
    by (unfold d2; by destruct (files d !! ip)).
  assert (quiet d2) as Hq2 by (unfold d2; destruct (files d !! ip); auto).
  assert (same_but base d d2) as Hs2.
  { intros p Hpl Hpi. by rewrite Hf2, Ho2, !lookup_insert_ne by done. }
  destruct (recover_run base iv active recs tl es ib d2) as (d' & s' & Hrec & ? & ? & ? & ? & ? & ?).
  - done.
  - constructor; try done; fold lf ip.
    + by rewrite Hf2, lookup_insert_ne.
    + destruct od_index0 as [?|Hi]; [by left|right]. rewrite <- Hi. fold ip. unfold content.
      by rewrite Hf2, lookup_insert_eq.
  - by rewrite Hf2, lookup_insert_eq.
  - unfold offset. by rewrite Ho2, lookup_insert_ne, lookup_insert_eq.
  - unfold offset. by rewrite Ho2, lookup_insert_eq.
  - destruct od_index0 as [?|Hi]; [by left|right]. split; [exact Hi|]. unfold content in Hi.
    destruct (files d !! ip) as [c|]; cbn [default] in Hi.
    + cbn in Hi. apply (Hes _ []); [by rewrite Hi, app_nil_r|simpl; lia|apply build_index_entry_ok].
    + rewrite Hnil by done. symmetry in Hi. by destruct (build_index _ _ _ _ _).
  - fold lf ip in Hrec. unfold local. rewrite Hrec. exists d', s'. split; [done|].
    split_and!; try done. by eapply same_but_trans.
Qed.

(** An empty data file is taken as it is, with the index found. *)
Lemma openSegment_empty base iv active d :
  quiet d → files d !! log_name base = Some [] →
  ∃ d' s, openSegment base iv active d = (Ok s, d') ∧
    (files d' !! logFile s = Some [] ∧ logFile s = log_name base ∧ size s = 0 ∧ nextOffset s = base) ∧
    quiet d' ∧ same_but base d d' ∧ baseOffset s = base ∧ indexInterval s = iv.
Proof.
  intros Hq Hl. set (lf := log_name base) in *. set (ip := index_name base).
  assert (lf ≠ ip) as Hne by apply log_index_name.
  unfold openSegment, segmentPaths, open_rdwr, Stat_Size, attempt, mbind, M_bind.
  fold lf ip. rewrite syscall_quiet by done. unfold act. rewrite Hl.
  set (d1 := put_offset lf 0 d). rewrite syscall_quiet by done. unfold gets.
  replace (content d1 lf) with ([] : bytes) by (by unfold d1; rewrite content_put_offset, (content_files _ _ _ Hl)).
  destruct (openIndex_run d1 ip) as (es & -> & _ & _); [done|].
  set (d2 := put_offset ip 0 _).
  assert (files d2 !! lf = Some []) as Hl2.
  { unfold d2. cbn [files put_offset]. destruct (files d1 !! ip); [done|]. cbn. by rewrite lookup_insert_ne. }
  exists d2, (Segment base lf (Index ip es) 0 base 0 iv). split; [done|]. split; [done|].
  split_and!; [unfold d2; by destruct (files d1 !! ip)| |done..].
  intros p Hpl Hpi. unfold d2. destruct (files d1 !! ip); cbn; by rewrite !lookup_insert_ne by done.
Qed.
