(* ===== verification/CommitLog.v ===== *)
(** The segmented commit log of one partition, [internal/log/log.go]. *)
From S2P Require Import Prelude GoStrings Bytes RecordFmt Disk Index Segment.
Open Scope Z_scope.

(** ** State *)

Definition DefaultMaxSegmentBytes : Z := Z.shiftl 1 20.
Definition DefaultIndexInterval : Z := 4096.

(** [Dir] is the directory the disk stands for. *)
Record Config := Cfg { MaxSegmentBytes : Z; IndexInterval : Z; FsyncEvery : Z }.

(** [active] is the pointer [l.active], which aliases an element of
    [l.segments]: it is that element's index.  The mutex makes every method one
    atomic step, so it does not appear. *)
Record log := Log {
  cfg : Config;
  segments : list segment;
  active : nat;
  hw : Z;
  appends : Z
}.

Definition set_segments (ss : list segment) (l : log) : log :=
  Log (cfg l) ss (active l) (hw l) (appends l).
Definition set_active (i : nat) (l : log) : log :=
  Log (cfg l) (segments l) i (hw l) (appends l).
Definition set_hw (h : Z) (l : log) : log :=
  Log (cfg l) (segments l) (active l) h (appends l).
Definition set_appends (n : Z) (l : log) : log :=
  Log (cfg l) (segments l) (active l) (hw l) n.

Abbreviation ML A := (M (log * disk) A).

Definition self : ML log := gets fst.
Definition update (f : log → log) : ML unit := modify (λ s, (f (fst s), snd s)).
Definition on_disk {A} (m : M disk A) : ML A := zoom snd (λ d s, (fst s, d)) m.

(** A method call on the segment [l.active] points to. *)
Definition on_active {A} (m : MS A) : ML A := act $ λ '(l, d),
  match segments l !! active l with
  | None => (Panicked, (l, d))
  | Some s => let '(r, (s', d')) := m (s, d) in
              (r, (set_segments (<[active l := s']> (segments l)) l, d'))
  end.
Definition active_segment : ML segment := on_active Segment.self.

(** ** Opening *)

Definition segment_base (name : string) : option Z :=
  if HasSuffix name ".log" then ParseInt (TrimSuffix name ".log") else None.

Definition listSegmentBases : M disk (list Z) :=
  ents ← ReadDir;
  mret (merge_sort Z.le (omap segment_base ents)).

(** The loop of [recover] over the segments found; the last one is active. *)
Fixpoint open_segments (interval : Z) (bases : list Z) : M disk (list segment) :=
  match bases with
  | [] => mret []
  | base :: bases =>
    r ← attempt (openSegment base interval (bool_decide (bases = [])));
    match r with
    | inr e => throw (ErrOpenSegment base e)
    | inl s => ss ← open_segments interval bases; mret (s :: ss)
    end
  end.

Definition log_recover (c : Config) : M disk log :=
  bases ← listSegmentBases;
  match bases with
  | [] => s ← createSegment 0 (IndexInterval c); mret (Log c [s] 0 0 0)
  | _ => ss ← open_segments (IndexInterval c) bases;
         mret (Log c ss (length ss - 1) 0 0)
  end.

Definition Open (c : Config) : M disk log :=
  let c := Cfg (if MaxSegmentBytes c <=? 0 then DefaultMaxSegmentBytes else MaxSegmentBytes c)
               (if IndexInterval c <=? 0 then DefaultIndexInterval else IndexInterval c)
               (FsyncEvery c) in
  MkdirAll;;
  log_recover c.

(** ** Appending *)

Definition rotateLocked : ML unit :=
  on_active flush;;
  l ← self;
  a ← active_segment;
  s ← on_disk (createSegment (nextOffset a) (IndexInterval (cfg l)));
  update (λ l, set_active (length (segments l)) (set_segments (segments l ++ [s]) l)).

Definition set_Offset (o : Z) (r : record) : record := Rec o (Timestamp r) (Key r) (Value r).

Definition appendLocked (now : Z) (rec : record) : ML Z :=
  l ← self;
  a ← active_segment;
  rec ← (if (0 <? size a) && (MaxSegmentBytes (cfg l) <? size a + EncodedSize rec)
         then rotateLocked;;
              a ← active_segment;
              mret (if negb (Offset rec =? nextOffset a) then set_Offset (nextOffset a) rec else rec)
         else mret rec);
  off ← on_active (segment_append now rec);
  update (λ l, set_appends (appends l + 1) l);;
  l ← self;
  (if (0 <? FsyncEvery (cfg l)) && (appends l mod FsyncEvery (cfg l) =? 0)
   then on_active flush else mret tt);;
  mret off.

(** [time.Now] reads [now] in both places the clock is consulted. *)
Definition Append (now : Z) (key value : bytes) : ML Z :=
  a ← active_segment;
  appendLocked now (Rec (nextOffset a) now key value).

Definition AppendAt (now : Z) (rec : record) : ML Z :=
  a ← active_segment;
  if negb (Offset rec =? nextOffset a)
  then throw (ErrLogOffset (nextOffset a) (Offset rec))
  else appendLocked now rec.

(** ** Reading *)

Definition size_sum (recs : list record) : Z := foldr (λ r n, EncodedSize r + n) 0 recs.

Fixpoint read_segments (ss : list segment) (from maxBytes maxOffset n : Z) (out : list record) :
    M disk (list record) :=
  match ss with
  | [] => mret out
  | s :: ss =>
    if nextOffset s <=? from then read_segments ss from maxBytes maxOffset n out
    else if maxOffset <=? baseOffset s then mret out
    else
      recs ← readFrom s from (maxBytes - n) maxOffset;
      let out := out ++ recs in
      let n := n + size_sum recs in
      if maxBytes <=? n then mret out
      else
        let from := match last recs with
                    | Some r => i64 (Offset r + 1)
                    | None => if from <? nextOffset s then nextOffset s else from
                    end in
        read_segments ss from maxBytes maxOffset n out
  end.

Definition Read (from maxBytes maxOffset : Z) : ML (list record) :=
  a ← active_segment;
  let maxBytes := if maxBytes <=? 0 then Z.shiftl 1 20 else maxBytes in
  let maxOffset := if maxOffset <? 0 then nextOffset a else maxOffset in
  if (nextOffset a <=? from) || (maxOffset <=? from) then mret [] else
  l ← self;
  on_disk (read_segments (segments l) from maxBytes maxOffset 0 []).

(** ** High watermark *)

Definition LEO : ML Z := a ← active_segment; mret (nextOffset a).
Definition HighWatermark : ML Z := l ← self; mret (hw l).

Definition SetHighWatermark (h : Z) : ML unit :=
  a ← active_segment;
  let h := if nextOffset a <? h then nextOffset a else h in
  l ← self;
  if hw l <? h then update (set_hw h) else mret tt.

(** [WaitHighWatermark(offset, timeout)] entered at time [now].  While it waits
    the lock is free; [wakes] lists, for each wake-up of the condition variable,
    the time and the high watermark then.  [None]: still waiting. *)
Fixpoint wait_loop (offset timeout deadline now h : Z) (wakes : list (Z * Z)) :
    option (res unit) :=
  if h <=? offset then
    if timeout <=? 0 then Some (Err ErrHwTimeout) else
    if deadline - now <=? 0 then Some (Err ErrHwTimeout) else
    match wakes with
    | [] => None
    | (now, h) :: wakes =>
      if (deadline <? now) && (h <=? offset) then Some (Err ErrHwTimeout)
      else wait_loop offset timeout deadline now h wakes
    end
  else Some (Ok tt).

Definition WaitHighWatermark (offset timeout now h : Z) (wakes : list (Z * Z)) : option (res unit) :=
  wait_loop offset timeout (now + timeout) now h wakes.

(** ** Closing *)

(** Every segment is flushed and closed; the first error is returned. *)
Fixpoint close_segments (ss : list segment) (err : option goerr) : M disk (option goerr) :=
  match ss with
  | [] => mret err
  | s :: ss =>
    let keep (r : (unit + goerr) * segment) (err : option goerr) :=
      match fst r, err with inr e, None => Some e | _, _ => err end in
    r1 ← local s flush;
    let err := keep r1 err in
    r2 ← local s segment_close;
    close_segments ss (keep r2 err)
  end.

Definition log_Close : ML unit :=
  l ← self;
  err ← on_disk (close_segments (segments l) None);
  match err with Some e => throw e | None => mret tt end.
