(* ===== verification/LogRep.v ===== *)
(** What a commit log holds ([log_rep], [holds]), and that appending extends it. *)
From S2P Require Import Prelude GoStrings Bytes RecordFmt Disk Index Segment CommitLog.
Open Scope Z_scope.

(** ** The representation invariant

    [log_rep]: the log is the sealed segments [ss] holding [rss], each of them
    non-empty and starting where the one before ends, then the active segment
    [s] holding [rs]; the directory holds their files and no others. *)

Inductive sealed (d : disk) (iv : Z) : Z → list segment → list (list record) → Z → Prop :=
  | sealed_nil b : sealed d iv b [] [] b
  | sealed_cons s ss rs rss b' :
      seg_data d s rs → rs ≠ [] → indexInterval s = iv →
      sealed d iv (nextOffset s) ss rss b' →
      sealed d iv (baseOffset s) (s :: ss) (rs :: rss) b'.

Definition dir_rep (d : disk) (bases : list Z) : Prop :=
  ∀ p, is_Some (files d !! p) → ∃ b, b ∈ bases ∧ (p = log_name b ∨ p = index_name b).

Record log_rep (l : log) (d : disk) (ss : list segment) (s : segment)
    (rss : list (list record)) (rs : list record) : Prop := {
  lr_segments : segments l = ss ++ [s];
  lr_active : active l = length ss;
  lr_sealed : sealed d (IndexInterval (cfg l)) 0 ss rss (baseOffset s);
  lr_data : seg_data d s rs;
  lr_tail : seg_tail d s rs;
  lr_iv : indexInterval s = IndexInterval (cfg l);
  lr_dir : dir_rep d (baseOffset <$> segments l);
  lr_quiet : quiet d;
  lr_hw : 0 ≤ hw l ≤ nextOffset s;
  lr_cfg : 0 < MaxSegmentBytes (cfg l) < 2 ^ 32
}.

(** The log [l] on the disk [d] holds exactly [recs]; record [i] has offset [i]. *)
Definition holds (l : log) (d : disk) (recs : list record) : Prop :=
  ∃ ss s rss rs, log_rep l d ss s rss rs ∧ recs = concat rss ++ rs.

(** *** Sealed segments *)

Lemma sealed_end d iv b ss rss b' : sealed d iv b ss rss b' → b' = b + Zlength (concat rss).
Proof.
  unfold Zlength. induction 1 as [b|s ss rs rss b' Hd _ _ _ IH]; [simpl; lia|].
  rewrite IH, (sd_next _ _ _ Hd). cbn [concat]. rewrite length_app. unfold Zlength. lia.
Qed.

Lemma sealed_snoc d iv b ss rss s rs :
  sealed d iv b ss rss (baseOffset s) → seg_data d s rs → rs ≠ [] → indexInterval s = iv →
  sealed d iv b (ss ++ [s]) (rss ++ [rs]) (nextOffset s).
Proof.
  intros H. remember (baseOffset s) as b' eqn:Eb.
  induction H as [b|s0 ss rs0 rss b' Hd Hne Hiv _ IH]; intros Hds Hrs Hivs.
  - rewrite Eb. cbn [app]. by constructor; [..|constructor].
  - cbn [app]. constructor; [done..|]. by apply IH.
Qed.

Lemma sealed_bases d iv b ss rss b' :
  sealed d iv b ss rss b' → Forall (λ s, b ≤ baseOffset s < b') ss ∧ b ≤ b'.
Proof.
  induction 1 as [b|s ss rs rss b' Hd Hne _ _ [IH Hle]]; [done|].
  assert (baseOffset s < nextOffset s).
  { rewrite (sd_next _ _ _ Hd). unfold Zlength. destruct rs; [done|simpl; lia]. }
  split; [|lia]. constructor; [lia|]. eapply Forall_impl; [done|]. simpl. lia.
Qed.

Lemma sealed_contiguous d iv b ss rss b' : sealed d iv b ss rss b' → contiguous b (concat rss).
Proof.
  induction 1 as [b|s ss rs rss b' Hd _ _ _ IH]; [apply contiguous_nil|].
  cbn [concat]. apply contiguous_app. split; [apply Hd|]. by rewrite <- (sd_next _ _ _ Hd).
Qed.

Lemma sealed_wf d iv b ss rss b' : sealed d iv b ss rss b' → Forall wf_record (concat rss).
Proof.
  induction 1 as [b|s ss rs rss b' Hd _ _ _ IH]; [constructor|].
  cbn [concat]. apply Forall_app_2; [apply Hd|done].
Qed.

Lemma sealed_frame base d d' iv b ss rss b' :
  same_but base d d' → b' ≤ base < 2 ^ 63 →
  sealed d iv b ss rss b' → sealed d' iv b ss rss b'.
Proof.
  intros Hs Hb H. pose proof (sealed_bases _ _ _ _ _ _ H) as [Hf _].
  induction H as [b|s ss rs rss b' Hd Hne Hiv Hrest IH]; [constructor|].
  inversion Hf as [|?? Hh Ht]; subst.
  constructor; [|done..|].
  - pose proof (sd_base _ _ _ Hd). apply (seg_data_frame base d); [done|lia|lia|done].
  - by apply IH; [|apply (sealed_bases _ _ _ _ _ _ Hrest)].
Qed.

(** *** What the representation says of the whole log *)

Section representation.
Context (l : log) (d : disk) (ss : list segment) (s : segment).
Context (rss : list (list record)) (rs : list record) (Hrep : log_rep l d ss s rss rs).

Lemma rep_base : baseOffset s = Zlength (concat rss).
Proof using Hrep. pose proof (sealed_end _ _ _ _ _ _ (lr_sealed _ _ _ _ _ _ Hrep)). lia. Qed.

Lemma rep_next : nextOffset s = Zlength (concat rss ++ rs).
Proof using Hrep.
  rewrite (sd_next _ _ _ (lr_data _ _ _ _ _ _ Hrep)), rep_base. unfold Zlength.
  rewrite length_app. lia.
Qed.

Lemma rep_contiguous : contiguous 0 (concat rss ++ rs).
Proof using Hrep.
  apply contiguous_app. split; [by eapply sealed_contiguous, Hrep|].
  rewrite Z.add_0_l, <- rep_base. apply (lr_data _ _ _ _ _ _ Hrep).
Qed.

Lemma rep_wf : Forall wf_record (concat rss ++ rs).
Proof using Hrep.
  apply Forall_app_2; [by eapply sealed_wf, Hrep|apply (lr_data _ _ _ _ _ _ Hrep)].
Qed.

Lemma self_run : self (l, d) = (Ok l, (l, d)).
Proof. done. Qed.

(** A call on the active segment. *)
Lemma on_active_run {A} (m : MS A) :
  on_active m (l, d) = let '(r, (s', d')) := m (s, d) in (r, (set_segments (ss ++ [s']) l, d')).
Proof using Hrep.
  unfold on_active, act. rewrite (lr_segments _ _ _ _ _ _ Hrep), (lr_active _ _ _ _ _ _ Hrep).
  rewrite list_lookup_middle by done. destruct (m (s, d)) as [r [s' d']].
  by rewrite insert_app_r_alt, Nat.sub_diag by done.
Qed.

Lemma set_segments_id : set_segments (ss ++ [s]) l = l.
Proof using Hrep. rewrite <- (lr_segments _ _ _ _ _ _ Hrep). by destruct l. Qed.

Lemma active_segment_run : active_segment (l, d) = (Ok s, (l, d)).
Proof using Hrep.
  unfold active_segment. rewrite on_active_run. unfold Segment.self, gets. simpl.
  by rewrite set_segments_id.
Qed.

Lemma flush_run : on_active flush (l, d) = (Ok tt, (l, d)).
Proof using Hrep.
  rewrite on_active_run. pose proof (lr_quiet _ _ _ _ _ _ Hrep).
  unfold flush. munfold. unfold Sync. rewrite !syscall_quiet by done. unfold mret, M_ret.
  rewrite !syscall_quiet by done. cbn [fst snd]. by rewrite set_segments_id.
Qed.
End representation.

(** *** Directories *)

Lemma dir_rep_same_but d d' b bases :
  same_but b d d' → b ∈ bases → dir_rep d bases → dir_rep d' bases.
Proof.
  intros Hs Hb Hd p Hp. destruct (decide (p = log_name b)) as [->|Hl]; [by exists b; auto|].
  destruct (decide (p = index_name b)) as [->|Hi]; [by exists b; auto|].
  apply Hd. by rewrite <- (proj1 (Hs p Hl Hi)).
Qed.

Lemma dir_rep_mono d bases bases' : bases ⊆ bases' → dir_rep d bases → dir_rep d bases'.
Proof. intros Hsub Hd p (b & Hb & Hp)%Hd. exists b. split; [by apply Hsub|done]. Qed.

(** A base that is not in the directory has no files. *)
Lemma dir_rep_fresh d bases b :
  dir_rep d bases → Forall (λ x, 0 ≤ x < 2 ^ 63) bases → 0 ≤ b < 2 ^ 63 → b ∉ bases →
  files d !! log_name b = None ∧ files d !! index_name b = None.
Proof.
  intros Hd Hall Hb Hnot. rewrite Forall_forall in Hall.
  split; apply eq_None_not_Some; intros (x & Hx & [E|E])%Hd.
  - apply log_name_inj in E as ->; [done|done|by apply Hall].
  - by apply log_index_name in E.
  - symmetry in E. by apply log_index_name in E.
  - apply index_name_inj in E as ->; [done|done|by apply Hall].
Qed.

Section operations.
Context (l : log) (d : disk) (ss : list segment) (s : segment).
Context (rss : list (list record)) (rs : list record) (Hrep : log_rep l d ss s rss rs).

Lemma rep_bases : Forall (λ x, 0 ≤ x ≤ baseOffset s) (baseOffset <$> segments l).
Proof using Hrep.
  rewrite (lr_segments _ _ _ _ _ _ Hrep), fmap_app. apply Forall_app_2.
  - apply Forall_fmap. eapply Forall_impl; [apply (sealed_bases _ _ _ _ _ _ (lr_sealed _ _ _ _ _ _ Hrep))|].
    simpl. lia.
  - pose proof (sd_base _ _ _ (lr_data _ _ _ _ _ _ Hrep)). repeat constructor; lia.
Qed.

(** [rotateLocked] seals a non-empty active segment and opens an empty one. *)
Lemma rotateLocked_run :
  rs ≠ [] →
  ∃ s' l' d', rotateLocked (l, d) = (Ok tt, (l', d')) ∧
    log_rep l' d' (ss ++ [s]) s' (rss ++ [rs]) [] ∧
    cfg l' = cfg l ∧ hw l' = hw l ∧ appends l' = appends l.
Proof using Hrep.
  intros Hne. pose proof Hrep as [Hsegs Hact Hsealed Hdata Htail Hiv Hdir Hq Hhw Hcfg].
  pose proof (sd_next _ _ _ Hdata) as Hnext. pose proof (sd_max _ _ _ Hdata) as Hmax.
  pose proof (sd_base _ _ _ Hdata) as Hbase. pose proof rep_bases as Hbases.
  assert (baseOffset s < nextOffset s) as Hlt by
    (rewrite Hnext; unfold Zlength; destruct rs; [done|simpl; lia]).
  destruct (dir_rep_fresh d _ (nextOffset s) Hdir) as [Hf1 Hf2].
  { eapply Forall_impl; [done|]. simpl. lia. }
  { lia. }
  { rewrite Forall_forall in Hbases. intros ?%Hbases. lia. }
  destruct (createSegment_run (nextOffset s) (IndexInterval (cfg l)) d)
    as (d' & s' & Hrun & Hsd & Hst & Hq' & Hsame & Hb' & Hiv'); [lia|done..|].
  exists s', (set_active (length (segments l)) (set_segments (segments l ++ [s']) l)), d'.
  split; [|split; [|done]].
  - unfold rotateLocked. rewrite (bind_Ok _ _ _ _ _ (flush_run _ _ _ _ _ _ Hrep)).
    rewrite (bind_Ok _ _ _ _ _ (self_run l d)).
    rewrite (bind_Ok _ _ _ _ _ (active_segment_run _ _ _ _ _ _ Hrep)).
    unfold on_disk, zoom, mbind, M_bind. cbn [snd fst]. by rewrite Hrun.
  - constructor; cbn [segments active cfg hw set_active set_segments]; try done.
    + by rewrite Hsegs.
    + by rewrite Hsegs.
    + rewrite Hb'. eapply (sealed_frame (nextOffset s) d); [done|lia|]. by apply sealed_snoc.
    + rewrite fmap_app. apply (dir_rep_same_but d _ (baseOffset s')).
      * by rewrite Hb'.
      * apply elem_of_app. right. by apply list_elem_of_singleton.
      * eapply dir_rep_mono; [|done]. intros x Hx. apply elem_of_app. by left.
    + pose proof (sd_next _ _ _ Hsd) as Hn'. rewrite Hb' in Hn'. unfold Zlength in *.
      simpl in Hn'. lia.
Qed.
End operations.

(** *** Appending *)

(** A segment outgrows the configured size only by a single record. *)
Definition bounded (max : Z) (rs : list record) : Prop := total_size rs ≤ max ∨ (length rs ≤ 1)%nat.

Section append_active.
Context (l : log) (d : disk) (ss : list segment) (s : segment).
Context (rss : list (list record)) (rs : list record) (Hrep : log_rep l d ss s rss rs).
Context (now : Z) (rec : record) (Hoff : Offset rec = nextOffset s).
Context (Hwf : wf_record (stamp now rec)) (Hmax : nextOffset s + 1 < 2 ^ 63).
Context (Hfit : total_size rs + EncodedSize rec < 2 ^ 32).

Let s' := append_segment rec s.
Let d' := append_disk now rec s d rs.
Let l' := set_segments (ss ++ [s']) l.

Lemma active_append_run : on_active (segment_append now rec) (l, d) = (Ok (Offset rec), (l', d')).
Proof using Hrep Hoff Hmax.
  rewrite (on_active_run _ _ _ _ _ _ Hrep). destruct Hrep.
  by rewrite (segment_append_run now rec s d rs).
Qed.

Lemma active_append_rep n : log_rep (set_appends n l') d' ss s' rss (rs ++ [stamp now rec]).
Proof using Hrep Hoff Hwf Hmax Hfit.
  destruct Hrep as [Hsegs Hact Hsealed Hdata Htail Hiv Hdir Hq Hhw Hcfg].
  pose proof (sd_base _ _ _ Hdata). pose proof (sd_next _ _ _ Hdata). unfold Zlength in *.
  pose proof (append_same_but now rec s d rs Hdata) as Hsame.
  constructor; cbn; try done.
  - apply (sealed_frame (baseOffset s) d); [done|lia|done].
  - by apply append_data.
  - by apply append_tail.
  - rewrite fmap_app. cbn. rewrite Hsegs, fmap_app in Hdir. cbn in Hdir.
    eapply (dir_rep_same_but d); [done| |done].
    apply elem_of_app. right. by apply list_elem_of_singleton.
  - by apply append_quiet.
  - lia.
Qed.
End append_active.

(** What an append leaves: the record, stamped and at the end. *)
Record appended (l l' : log) (d' : disk) (rss : list (list record)) (rs : list record) (r : record)
    : Prop := {
  ap_rep : ∃ ss' s' rss' rs', log_rep l' d' ss' s' rss' rs' ∧
    concat rss' ++ rs' = (concat rss ++ rs) ++ [r] ∧
    (Forall (bounded (MaxSegmentBytes (cfg l))) (rss ++ [rs]) →
     Forall (bounded (MaxSegmentBytes (cfg l))) (rss' ++ [rs']));
  ap_cfg : cfg l' = cfg l;
  ap_hw : hw l' = hw l
}.

Definition fsync_due (l : log) : bool :=
  (0 <? FsyncEvery (cfg l)) && (appends l mod FsyncEvery (cfg l) =? 0).

(** [appendLocked] from the call of [l.active.append] on. *)
Definition append_rest (now : Z) (rec : record) : ML Z :=
  off ← on_active (segment_append now rec);
  update (λ l, set_appends (appends l + 1) l);;
  l ← self;
  (if fsync_due l then on_active flush else mret tt);;
  mret off.

Lemma append_rest_run now rec l d ss s rss rs :
  log_rep l d ss s rss rs → Offset rec = nextOffset s →
  wf_record (stamp now rec) → nextOffset s + 1 < 2 ^ 63 → total_size rs + EncodedSize rec < 2 ^ 32 →
  ∃ l' d' s', append_rest now rec (l, d) = (Ok (Offset rec), (l', d')) ∧
    log_rep l' d' ss s' rss (rs ++ [stamp now rec]) ∧ cfg l' = cfg l ∧ hw l' = hw l.
Proof.
  intros Hrep Hoff Hwf Hmax Hfit.
  pose proof (active_append_rep _ _ _ _ _ _ Hrep now rec Hoff Hwf Hmax Hfit (appends l + 1)) as Hrep'.
  eexists _, _, _. split; [|by split_and!].
  unfold append_rest. rewrite (bind_Ok _ _ _ _ _ (active_append_run _ _ _ _ _ _ Hrep now rec Hoff Hmax)).
  unfold update, modify, self, gets, mbind, M_bind. cbn [fst snd].
  change (appends (set_segments _ l)) with (appends l).
  destruct (fsync_due _); [|done]. by rewrite (flush_run _ _ _ _ _ _ Hrep').
Qed.

Lemma size_pos_nonempty d s rs : seg_data d s rs → 0 < size s → rs ≠ [].
Proof. intros H Hs ->. rewrite (sd_size _ _ _ H) in Hs. done. Qed.

Lemma appendLocked_run now rec l d ss s rss rs :
  log_rep l d ss s rss rs → Offset rec = nextOffset s →
  wf_record (stamp now rec) → nextOffset s + 1 < 2 ^ 63 →
  ∃ l' d', appendLocked now rec (l, d) = (Ok (Offset rec), (l', d')) ∧
    appended l l' d' rss rs (stamp now rec).
Proof.
  intros Hrep Hoff Hwf Hmax.
  assert (EncodedSize rec < 2 ^ 27) as Hsz.
  { rewrite <- (EncodedSize_stamp now). destruct Hwf as (_ & _ & H).
    change (Z.shiftl 64 20) with 67108864 in H. lia. }
  pose proof (sd_size _ _ _ (lr_data _ _ _ _ _ _ Hrep)) as Hsize.
  pose proof (lr_cfg _ _ _ _ _ _ Hrep) as Hcfg.
  unfold appendLocked. rewrite (bind_Ok _ _ _ _ _ (self_run l d)).
  rewrite (bind_Ok _ _ _ _ _ (active_segment_run _ _ _ _ _ _ Hrep)).
  destruct (Z.ltb_spec 0 (size s)) as [Hpos|Hzero]; cbn [andb].
  - destruct (Z.ltb_spec (MaxSegmentBytes (cfg l)) (size s + EncodedSize rec)) as [Hbig|Hsmall].
    + pose proof (size_pos_nonempty _ _ _ (lr_data _ _ _ _ _ _ Hrep) Hpos) as Hne.
      destruct (rotateLocked_run _ _ _ _ _ _ Hrep Hne) as (s1 & l1 & d1 & Hrot & Hrep1 & Hc1 & Hh1 & _).
      assert (nextOffset s1 = nextOffset s) as Hn.
      { rewrite (rep_next _ _ _ _ _ _ Hrep1), (rep_next _ _ _ _ _ _ Hrep).
        by rewrite concat_snoc, app_nil_r. }
      destruct (append_rest_run now rec _ _ _ _ _ _ Hrep1) as (l2 & d2 & s2 & Hrun & Hrep2 & Hc2 & Hh2);
        [congruence|done|congruence|simpl; lia|].
      exists l2, d2. split.
      * erewrite bind_Ok; [apply Hrun|]. rewrite (bind_Ok _ _ _ _ _ Hrot).
        rewrite (bind_Ok _ _ _ _ _ (active_segment_run _ _ _ _ _ _ Hrep1)).
        by rewrite Hn, <- Hoff, Z.eqb_refl.
      * split; [|congruence..]. eexists _, _, _, _. split; [done|]. split.
        { by rewrite concat_snoc. }
        intros Hb. rewrite Forall_app. split; [done|]. apply Forall_singleton. right. simpl. lia.
    + destruct (append_rest_run now rec _ _ _ _ _ _ Hrep) as (l2 & d2 & s2 & Hrun & Hrep2 & Hc2 & Hh2);
        [done..|lia|].
      exists l2, d2. split; [exact Hrun|]. split; [|done..].
      eexists _, _, _, _. split; [done|]. split; [by rewrite app_assoc|].
      rewrite !Forall_app. intros [Hb _]. split; [done|]. apply Forall_singleton. left.
      rewrite total_size_app. simpl. rewrite EncodedSize_stamp. lia.
  - destruct (append_rest_run now rec _ _ _ _ _ _ Hrep) as (l2 & d2 & s2 & Hrun & Hrep2 & Hc2 & Hh2);
      [done..|lia|].
    exists l2, d2. split; [exact Hrun|]. split; [|done..].
    eexists _, _, _, _. split; [done|]. split; [by rewrite app_assoc|].
    rewrite !Forall_app. intros [Hb _]. split; [done|]. apply Forall_singleton. right.
    pose proof (total_size_nonneg rs). unfold Zlength in *. destruct rs; simpl in *; lia.
Qed.

(** ** The public operations *)

Lemma Append_run now key value l d ss s rss rs :
  let rec := Rec (nextOffset s) now key value in
  log_rep l d ss s rss rs → wf_record (stamp now rec) → nextOffset s + 1 < 2 ^ 63 →
  ∃ l' d', Append now key value (l, d) = (Ok (nextOffset s), (l', d')) ∧
    appended l l' d' rss rs (stamp now rec).
Proof.
  intros rec Hrep Hwf Hmax. unfold Append.
  rewrite (bind_Ok _ _ _ _ _ (active_segment_run _ _ _ _ _ _ Hrep)).
  by apply (appendLocked_run now rec l d ss s rss rs).
Qed.

Lemma appended_holds l l' d' rss rs r :
  appended l l' d' rss rs r → holds l' d' ((concat rss ++ rs) ++ [r]) ∧ hw l' = hw l ∧ cfg l' = cfg l.
Proof.
  intros [(ss' & s' & rss' & rs' & Hrep & <- & _) Hc Hh]. split; [|done].
  by exists ss', s', rss', rs'.
Qed.

Lemma SetHighWatermark_run h l d ss s rss rs :
  log_rep l d ss s rss rs →
  SetHighWatermark h (l, d) =
    (Ok tt, (set_hw (Z.max (hw l) (Z.min h (Zlength (concat rss ++ rs)))) l, d)).
Proof.
  intros Hrep. unfold SetHighWatermark.
  rewrite (bind_Ok _ _ _ _ _ (active_segment_run _ _ _ _ _ _ Hrep)).
  rewrite (bind_Ok _ _ _ _ _ (self_run l d)), (rep_next _ _ _ _ _ _ Hrep).
  pose proof (rep_next _ _ _ _ _ _ Hrep) as Hn. pose proof (lr_hw _ _ _ _ _ _ Hrep).
  set (leo := Zlength _) in *.
  assert ((if leo <? h then leo else h) = Z.min h leo) as -> by (destruct (Z.ltb_spec leo h); lia).
  destruct (Z.ltb_spec (hw l) (Z.min h leo)).
  - by rewrite Z.max_r by lia.
  - rewrite Z.max_l by lia. by destruct l.
Qed.

Lemma set_hw_rep h l d ss s rss rs :
  0 ≤ h ≤ nextOffset s → log_rep l d ss s rss rs → log_rep (set_hw h l) d ss s rss rs.
Proof. intros Hh []. by constructor. Qed.

(** ** Segment sizes *)

Definition segment_bounded (max : Z) (s : segment) : Prop :=
  size s ≤ max ∨ nextOffset s ≤ baseOffset s + 1.

Lemma segment_bounded_data d s rs max :
  seg_data d s rs → segment_bounded max s ↔ bounded max rs.
Proof.
  intros H. unfold segment_bounded, bounded. rewrite (sd_size _ _ _ H), (sd_next _ _ _ H).
  unfold Zlength. lia.
Qed.

Lemma sealed_bounded d iv b ss rss b' max :
  sealed d iv b ss rss b' → Forall (segment_bounded max) ss ↔ Forall (bounded max) rss.
Proof.
  induction 1 as [|s ss rs rss b' Hd _ _ _ IH]; [done|].
  by rewrite !Forall_cons, IH, (segment_bounded_data _ _ _ _ Hd).
Qed.

Lemma rep_bounded l d ss s rss rs max :
  log_rep l d ss s rss rs →
  Forall (segment_bounded max) (segments l) ↔ Forall (bounded max) (rss ++ [rs]).
Proof.
  intros Hrep. rewrite (lr_segments _ _ _ _ _ _ Hrep), !Forall_app, !Forall_singleton.
  by rewrite (sealed_bounded _ _ _ _ _ _ _ (lr_sealed _ _ _ _ _ _ Hrep)),
    (segment_bounded_data _ _ _ _ (lr_data _ _ _ _ _ _ Hrep)).
Qed.

(** ** A sample log

    Five records of 37 bytes in segments of at most 80 bytes. *)
Definition no_disk : disk := Disk ∅ ∅ [].
Definition small_cfg : Config := Cfg 80 40 2.

Lemma fresh_log_run c d :
  quiet d → files d = ∅ → 0 < MaxSegmentBytes c < 2 ^ 32 →
  ∃ l d' s, log_recover c d = (Ok l, d') ∧ log_rep l d' [] s [] [] ∧ cfg l = c ∧ hw l = 0.
Proof.
  intros Hq Hf Hc.
  destruct (createSegment_run 0 (IndexInterval c) d) as
    (d' & s & Hrun & Hsd & Hst & Hq' & Hsame & Hb & Hiv); [lia|done|by rewrite Hf..|].
  exists (Log c [s] 0 0 0), d', s. split_and!; try done.
  - unfold log_recover, listSegmentBases, ReadDir, mbind, M_bind. rewrite syscall_quiet by done.
    unfold gets. rewrite Hf. cbn [map_to_list fmap]. rewrite map_to_list_empty. cbn. by rewrite Hrun.
  - constructor; try done; cbn [cfg segments hw].
    + rewrite Hb. constructor.
    + cbn. rewrite Hb. intros p Hp. exists 0. split; [by apply list_elem_of_singleton|].
      destruct (decide (p = log_name 0)); [by left|]. destruct (decide (p = index_name 0)); [by right|].
      destruct (Hsame p) as [E _]; [done..|]. rewrite E, Hf, lookup_empty in Hp. by destruct Hp.
    + rewrite (sd_next _ _ _ Hsd), Hb. done.
Qed.

(** The sample is built by the operations themselves. *)
Definition append_all (kvs : list (bytes * bytes)) (st : log * disk) : log * disk :=
  foldl (λ st '(k, v), snd (Append 1000 k v st)) st kvs.

Definition sample_kvs : list (bytes * bytes) :=
  [([x61], [x01; x02; x03]); ([x62], [x04; x05; x06]); ([x63], [x07; x08; x09]);
   ([x64], [x0a; x0b; x0c]); ([x65], [x0d; x0e; x0f])].

Definition start_state (c : Config) : log * disk :=
  match log_recover c no_disk with (Ok l, d) => (l, d) | (_, d) => (Log c [] 0 0 0, d) end.

Definition sample_log : log := Eval vm_compute in fst (append_all sample_kvs (start_state small_cfg)).
Definition sample_disk : disk := snd (append_all sample_kvs (start_state small_cfg)).
Definition sample_records : list record :=
  imap (λ i '(k, v), Rec (Z.of_nat i) 1000 k v) sample_kvs.

Lemma append_all_holds kvs l d recs :
  holds l d recs →
  (∀ i k v, kvs !! i = Some (k, v) → wf_record (Rec (Zlength recs + Z.of_nat i) 1000 k v)) →
  Zlength recs + Z.of_nat (length kvs) < 2 ^ 63 →
  let st := append_all kvs (l, d) in
  holds (fst st) (snd st)
    (recs ++ imap (λ i '(k, v), Rec (Zlength recs + Z.of_nat i) 1000 k v) kvs).
Proof.
  revert l d recs. induction kvs as [|[k v] kvs IH]; intros l d recs Hh Hwf Hmax; cbn.
  { by rewrite app_nil_r. }
  destruct Hh as (ss & s & rss & rs & Hrep & ->).
  pose proof (rep_next _ _ _ _ _ _ Hrep) as Hn. unfold Zlength in *. cbn [length] in Hmax.
  destruct (Append_run 1000 k v l d ss s rss rs Hrep) as (l' & d' & Hrun & Happ).
  - rewrite Hn. unfold stamp. cbn. specialize (Hwf 0%nat k v eq_refl). by rewrite Z.add_0_r in Hwf.
  - rewrite Hn. lia.
  - rewrite Hrun. cbn [snd]. destruct (appended_holds _ _ _ _ _ _ Happ) as (Hh & _ & _).
    apply IH in Hh; [|intros i k' v' Hi|rewrite length_app; simpl; lia].
    + rewrite <- app_assoc in Hh. cbn in Hh. rewrite Hn in Hh. rewrite Z.add_0_r.
      eapply eq_ind; [exact Hh|]. f_equal. unfold stamp. cbn. f_equal.
      apply imap_ext. intros i [k' v'] _. cbn. f_equal. rewrite length_app. simpl. lia.
    + specialize (Hwf (S i) k' v' Hi). rewrite length_app. simpl.
      by replace (_ + _)%Z with (Z.of_nat (length (concat rss ++ rs)) + Z.of_nat (S i)) by lia.
Qed.

Lemma sample_state_holds c :
  0 < MaxSegmentBytes c < 2 ^ 32 →
  let st := append_all sample_kvs (start_state c) in holds (fst st) (snd st) sample_records.
Proof.
  intros Hc. destruct (fresh_log_run c no_disk) as (l & d & s & Hrun & Hrep & _); [done..|].
  assert (holds l d []) as Hh by (by exists [], s, [], []).
  assert (start_state c = (l, d)) as -> by (unfold start_state; by rewrite Hrun).
  apply (append_all_holds sample_kvs) in Hh; [exact Hh| |done].
  intros i k v Hi. apply lookup_lt_Some in Hi as Hlt. simpl in Hlt.
  apply (bool_decide_unpack _).
  do 5 (destruct i as [|i]; [injection Hi as <- <-; vm_compute; exact I|]). lia.
Qed.

Lemma sample_holds : holds sample_log sample_disk sample_records.
Proof.
  assert (sample_log = fst (append_all sample_kvs (start_state small_cfg))) as -> by (vm_compute; reflexivity).
  by apply (sample_state_holds small_cfg).
Qed.

Lemma start_state_holds c :
  0 < MaxSegmentBytes c < 2 ^ 32 → holds (fst (start_state c)) (snd (start_state c)) [].
Proof.
  intros Hc. destruct (fresh_log_run c no_disk) as (l & d & s & Hrun & Hrep & _); [done..|].
  unfold start_state. rewrite Hrun. by exists [], s, [], [].
Qed.

Lemma start_holds : holds (fst (start_state small_cfg)) (snd (start_state small_cfg)) [].
Proof. by apply start_state_holds. Qed.

Lemma sample_leo : Zlength sample_records = 5.
Proof. reflexivity. Qed.

(** ** Properties *)

(** C1: [Append] returns the log end offset and extends the log by exactly the
    new record at that offset, through rotation and fsync alike; the high
    watermark and the configuration are untouched. *)
Theorem append_extends now key value l d recs
    (Hlog : holds l d recs)
    (Hwf : wf_record (stamp now (Rec (Zlength recs) now key value)))
    (Hroom : Zlength recs + 1 < 2 ^ 63) :
  ∃ l' d', Append now key value (l, d) = (Ok (Zlength recs), (l', d')) ∧
    holds l' d' (recs ++ [stamp now (Rec (Zlength recs) now key value)]) ∧
    hw l' = hw l ∧ cfg l' = cfg l.
Proof.
  destruct Hlog as (ss & s & rss & rs & Hrep & ->).
  pose proof (rep_next _ _ _ _ _ _ Hrep) as Hn. rewrite <- Hn in *.
  destruct (Append_run now key value l d ss s rss rs Hrep Hwf Hroom) as (l' & d' & Hrun & Happ).
  exists l', d'. split; [exact Hrun|]. by eapply appended_holds.
Qed.

Lemma append_extends_witness :
  ∃ l' d', Append 1000 [x66] [x10] (sample_log, sample_disk) = (Ok 5, (l', d')) ∧
    holds l' d' (sample_records ++ [Rec 5 1000 [x66] [x10]]) ∧
    hw l' = hw sample_log ∧ cfg l' = cfg sample_log.
Proof.
  apply (append_extends 1000 [x66] [x10] sample_log sample_disk sample_records sample_holds).
  - apply (bool_decide_unpack _). vm_compute. exact I.
  - vm_compute. reflexivity.
Defined.

(** [AppendAt] accepts a record exactly when it carries the log end offset:
    then the record is appended as it is; otherwise the call fails naming both
    offsets and nothing changes, neither the log nor the disk. *)
Theorem append_at_exact now rec l d recs
    (Hlog : holds l d recs) (Hwf : wf_record (stamp now rec)) (Hroom : Zlength recs + 1 < 2 ^ 63) :
  if Offset rec =? Zlength recs
  then ∃ l' d', AppendAt now rec (l, d) = (Ok (Offset rec), (l', d')) ∧
         holds l' d' (recs ++ [stamp now rec]) ∧ hw l' = hw l ∧ cfg l' = cfg l
  else AppendAt now rec (l, d) = (Err (ErrLogOffset (Zlength recs) (Offset rec)), (l, d)).
Proof.
  destruct Hlog as (ss & s & rss & rs & Hrep & ->).
  pose proof (rep_next _ _ _ _ _ _ Hrep) as Hn. rewrite <- Hn in *. unfold AppendAt.
  rewrite (bind_Ok _ _ _ _ _ (active_segment_run _ _ _ _ _ _ Hrep)).
  destruct (Z.eqb_spec (Offset rec) (nextOffset s)) as [Heq|]; [|done]. cbn [negb].
  destruct (appendLocked_run now rec l d ss s rss rs Hrep Heq Hwf Hroom) as (l' & d' & Hrun & Happ).
  exists l', d'. split; [exact Hrun|]. by eapply appended_holds.
Qed.

Lemma append_at_exact_witness :
  let rec := Rec 5 7 [x66] [x10] in
  ∃ l' d', AppendAt 1000 rec (sample_log, sample_disk) = (Ok 5, (l', d')) ∧
    holds l' d' (sample_records ++ [rec]) ∧ hw l' = hw sample_log ∧ cfg l' = cfg sample_log.
Proof.
  apply (append_at_exact 1000 (Rec 5 7 [x66] [x10]) sample_log sample_disk sample_records sample_holds).
  - apply (bool_decide_unpack _). vm_compute. exact I.
  - vm_compute. reflexivity.
Defined.

(** C30: rotation keeps every segment within [MaxSegmentBytes], unless it holds
    a single record. *)
Theorem append_bounds_segments now key value l d recs
    (Hlog : holds l d recs)
    (Hwf : wf_record (stamp now (Rec (Zlength recs) now key value)))
    (Hroom : Zlength recs + 1 < 2 ^ 63)
    (Hbound : Forall (segment_bounded (MaxSegmentBytes (cfg l))) (segments l)) :
  ∃ off l' d', Append now key value (l, d) = (Ok off, (l', d')) ∧
    Forall (segment_bounded (MaxSegmentBytes (cfg l'))) (segments l').
Proof.
  destruct Hlog as (ss & s & rss & rs & Hrep & ->).
  rewrite <- (rep_next _ _ _ _ _ _ Hrep) in *.
  destruct (Append_run now key value l d ss s rss rs Hrep Hwf Hroom) as (l' & d' & Hrun & Happ).
  exists (nextOffset s), l', d'. split; [exact Hrun|].
  destruct Happ as [(ss' & s' & rss' & rs' & Hrep' & _ & Hb) Hc _].
  rewrite Hc, (rep_bounded _ _ _ _ _ _ _ Hrep'). apply Hb. by rewrite <- (rep_bounded _ _ _ _ _ _ _ Hrep).
Qed.

Lemma append_bounds_segments_witness :
  ∃ off l' d', Append 1000 [x66] [x10] (sample_log, sample_disk) = (Ok off, (l', d')) ∧
    Forall (segment_bounded (MaxSegmentBytes (cfg l'))) (segments l').
Proof.
  apply (append_bounds_segments 1000 [x66] [x10] sample_log sample_disk sample_records sample_holds).
  - apply (bool_decide_unpack _). vm_compute. exact I.
  - vm_compute. reflexivity.
  - repeat constructor; vm_compute; discriminate.
Defined.

(** [SetHighWatermark] never retreats and never passes the log end offset:
    it sets the high watermark to max(old, min(hw, LEO)) and changes nothing
    else. *)
Theorem set_high_watermark_clamps h l d recs (Hlog : holds l d recs) :
  let l' := set_hw (Z.max (hw l) (Z.min h (Zlength recs))) l in
  SetHighWatermark h (l, d) = (Ok tt, (l', d)) ∧ holds l' d recs ∧
  hw l ≤ hw l' ≤ Zlength recs.
Proof.
  destruct Hlog as (ss & s & rss & rs & Hrep & ->). intros l'.
  pose proof (lr_hw _ _ _ _ _ _ Hrep) as Hhw. rewrite (rep_next _ _ _ _ _ _ Hrep) in Hhw.
  split; [by eapply SetHighWatermark_run|]. split; [|cbn; lia].
  exists ss, s, rss, rs. split; [|done]. apply set_hw_rep; [|done].
  rewrite (rep_next _ _ _ _ _ _ Hrep). lia.
Qed.

Lemma set_high_watermark_clamps_witness :
  SetHighWatermark 9 (sample_log, sample_disk) = (Ok tt, (set_hw 5 sample_log, sample_disk)) ∧
  holds (set_hw 5 sample_log) sample_disk sample_records ∧ 0 ≤ 5 ≤ 5.
Proof. apply (set_high_watermark_clamps 9 sample_log sample_disk sample_records sample_holds). Defined.
