(* ===== verification/LogRead.v ===== *)
(** Reading the commit log: [Read] against the records the log holds. *)
From S2P Require Import Prelude GoStrings Bytes RecordFmt Disk Index Segment CommitLog LogRep.
Open Scope Z_scope.

(** ** Segments in a row *)

(** Segments in a row, each ready for reading. *)
Fixpoint chained (d : disk) (b : Z) (ss : list segment) (rss : list (list record)) : Prop :=
  match ss, rss with
  | [], [] => True
  | s :: ss, rs :: rss =>
    baseOffset s = b ∧ seg_data d s rs ∧ chained d (b + Zlength rs) ss rss
  | _, _ => False
  end.

(** What [Read] returns, as a function of the segments' records. *)
Fixpoint read_spec (b : Z) (rss : list (list record)) (from maxBytes maxOffset n : Z) : list record :=
  match rss with
  | [] => []
  | rs :: rss =>
    let next := b + Zlength rs in
    if next <=? from then read_spec next rss from maxBytes maxOffset n
    else if maxOffset <=? b then []
    else
      let recs := if (b <=? from) && (from <? maxOffset)
                  then take_budget (maxBytes - n) maxOffset 0 (drop (Z.to_nat (from - b)) rs)
                  else [] in
      let n := n + total_size recs in
      if maxBytes <=? n then recs
      else
        let from := match last recs with Some r => Offset r + 1 | None => next end in
        recs ++ read_spec next rss from maxBytes maxOffset n
  end.

Lemma take_budget_prefix maxBytes maxOffset n recs :
  take_budget maxBytes maxOffset n recs `prefix_of` recs.
Proof.
  revert n. induction recs as [|r recs IH]; intros n; cbn [take_budget]; [done|].
  destruct (maxOffset <=? Offset r); [apply prefix_nil|].
  destruct (_ && _); [apply prefix_nil|].
  destruct (maxBytes <=? _); [by exists recs|]. by apply prefix_cons.
Qed.

Lemma chained_snoc d iv b ss rss s rs :
  sealed d iv b ss rss (baseOffset s) → seg_data d s rs → chained d b (ss ++ [s]) (rss ++ [rs]).
Proof.
  intros H. remember (baseOffset s) as b' eqn:Eb.
  induction H as [b|s0 ss rs0 rss b' Hd Hne Hiv _ IH]; intros Hds; simpl; [done|].
  split; [done|]. split; [done|]. rewrite <- (sd_next _ _ _ Hd). by apply IH.
Qed.

Lemma read_segments_run d b ss rss from maxBytes maxOffset n out :
  quiet d → chained d b ss rss →
  read_segments ss from maxBytes maxOffset n out d =
    (Ok (out ++ read_spec b rss from maxBytes maxOffset n), d).
Proof.
  intros Hq. revert b rss from n out. induction ss as [|s ss IH];
    intros b [|rs rss] from n out Hc; simpl in Hc; try done.
  { cbn. by rewrite app_nil_r. }
  destruct Hc as (Hb & Hd & Hc). pose proof (sd_next _ _ _ Hd) as Hnext. rewrite Hb in Hnext.
  cbn [read_segments read_spec]. rewrite Hnext, Hb. cbv zeta.
  destruct (Z.leb_spec (b + Zlength rs) from) as [|Hlt]; [by apply IH|].
  destruct (maxOffset <=? b); [by rewrite app_nil_r|].
  set (recs := if _ && _ then _ else _).
  assert (readFrom s from (maxBytes - n) maxOffset d = (Ok recs, d)) as Hread.
  { unfold recs. destruct (Z.leb_spec b from), (Z.ltb_spec from maxOffset); cbn [andb];
      try (apply readFrom_outside; lia).
    rewrite (readFrom_run _ _ _ Hq Hd) by lia. by rewrite Hb. }
  rewrite (bind_Ok _ _ _ _ _ Hread).
  change (size_sum recs) with (total_size recs).
  destruct (maxBytes <=? n + total_size recs); [done|].
  rewrite (proj2 (Z.ltb_lt _ _) Hlt).
  rewrite (IH (b + Zlength rs) rss) by done. rewrite <- app_assoc.
  destruct (last recs) as [r|] eqn:Elast; [|done].
  rewrite i64_small; [done|].
  assert (r ∈ rs) as (i & Hi)%list_elem_of_lookup.
  { assert (recs `sublist_of` rs) as Hsub.
    { unfold recs. destruct (_ && _); [|apply sublist_nil_l].
      etrans; [apply prefix_sublist, take_budget_prefix|apply sublist_drop]. }
    eapply elem_of_sublist; [|done]. apply last_Some_elem_of. done. }
  pose proof (sd_contig _ _ _ Hd i r Hi) as Ho. apply lookup_lt_Some in Hi.
  pose proof (sd_max _ _ _ Hd). pose proof (sd_base _ _ _ Hd). unfold is_i64, Zlength in *. lia.
Qed.

Lemma contiguous_bounds b recs r : contiguous b recs → r ∈ recs → b ≤ Offset r < b + Zlength recs.
Proof.
  intros Hc (i & Hi)%list_elem_of_lookup. rewrite (Hc i r Hi).
  apply lookup_lt_Some in Hi. unfold Zlength. lia.
Qed.

Lemma contiguous_drop b recs k :
  (k ≤ length recs)%nat → contiguous b recs → contiguous (b + Z.of_nat k) (drop k recs).
Proof.
  intros Hk Hc i r Hi. rewrite lookup_drop in Hi. rewrite (Hc _ _ Hi). lia.
Qed.

Lemma take_budget_below maxBytes maxOffset n recs :
  Forall (λ r, Offset r < maxOffset) (take_budget maxBytes maxOffset n recs).
Proof.
  revert n. induction recs as [|r recs IH]; intros n; cbn [take_budget]; [constructor|].
  destruct (Z.leb_spec maxOffset (Offset r)); [constructor|].
  destruct (_ && _); [constructor|].
  destruct (maxBytes <=? _); repeat constructor; [lia..|apply IH].
Qed.

(** The first record is returned whatever its size. *)
Lemma take_budget_head maxBytes maxOffset r recs :
  Offset r < maxOffset → head (take_budget maxBytes maxOffset 0 (r :: recs)) = Some r.
Proof.
  intros H. cbn [take_budget]. rewrite (proj2 (Z.leb_gt _ _)) by lia. cbn [Z.ltb Z.compare andb].
  by destruct (maxBytes <=? _).
Qed.

(** With budget enough, all records below the limit are returned. *)
Lemma take_budget_all b maxBytes maxOffset n recs :
  0 ≤ n → contiguous b recs →
  n + total_size (filter (λ r, Offset r < maxOffset) recs) ≤ maxBytes →
  take_budget maxBytes maxOffset n recs = filter (λ r, Offset r < maxOffset) recs.
Proof.
  revert b n. induction recs as [|r recs IH]; intros b n Hn Hc Hsz; [done|].
  cbn [take_budget]. apply contiguous_cons in Hc as [Hr Hc].
  destruct (Z.leb_spec maxOffset (Offset r)) as [Hge|Hlt].
  { symmetry. apply filter_none. intros x [->|Hx]%elem_of_cons; [lia|].
    pose proof (contiguous_bounds _ _ _ Hc Hx). lia. }
  rewrite filter_cons_True in * by done. cbn [total_size foldr] in Hsz.
  fold (total_size (filter (λ r, Offset r < maxOffset) recs)) in Hsz.
  pose proof (total_size_nonneg (filter (λ r, Offset r < maxOffset) recs)) as Hnn.
  unfold Zlength in Hnn. pose proof (EncodedSize_lb r).
  rewrite (proj2 (Z.ltb_ge maxBytes _)), andb_false_r by lia.
  destruct (Z.leb_spec maxBytes (n + EncodedSize r)).
  - destruct (filter _ recs) eqn:E; [done|]. exfalso. cbn [length] in Hnn. lia.
  - f_equal. apply (IH (b + 1)); [lia|done|lia].
Qed.

Section read_spec.
Context (maxBytes maxOffset : Z).

(** The records one segment contributes. *)
Definition segment_part (b : Z) (rs : list record) (from n : Z) : list record :=
  if (b <=? from) && (from <? maxOffset)
  then take_budget (maxBytes - n) maxOffset 0 (drop (Z.to_nat (from - b)) rs) else [].

Lemma segment_part_prefix b rs from n :
  segment_part b rs from n `prefix_of` drop (Z.to_nat (from - b)) rs.
Proof. unfold segment_part. destruct (_ && _); [apply take_budget_prefix|apply prefix_nil]. Qed.

Lemma segment_part_sublist b rs from n : segment_part b rs from n `sublist_of` rs.
Proof. etrans; [apply prefix_sublist, segment_part_prefix|apply sublist_drop]. Qed.

Lemma segment_part_range b rs from n :
  contiguous b rs → from < b + Zlength rs →
  Forall (λ r, from ≤ Offset r < maxOffset) (segment_part b rs from n).
Proof.
  intros Hc Hf. unfold segment_part. destruct (Z.leb_spec b from); [|constructor].
  destruct (from <? maxOffset); [|constructor]. cbn [andb].
  apply Forall_forall. intros r Hr. unfold Zlength in Hf.
  pose proof (take_budget_below (maxBytes - n) maxOffset 0 (drop (Z.to_nat (from - b)) rs)) as Hb.
  rewrite Forall_forall in Hb. specialize (Hb _ Hr).
  eapply elem_of_sublist in Hr; [|apply prefix_sublist, take_budget_prefix].
  apply (contiguous_bounds (b + Z.of_nat (Z.to_nat (from - b)))) in Hr; [lia|].
  by apply contiguous_drop; [lia|].
Qed.

(** The value of [from] after a segment. *)
Definition from_after (next : Z) (recs : list record) : Z :=
  match last recs with Some r => Offset r + 1 | None => next end.

Lemma read_spec_cons b rs rss from n :
  read_spec b (rs :: rss) from maxBytes maxOffset n =
  let next := b + Zlength rs in
  if next <=? from then read_spec next rss from maxBytes maxOffset n
  else if maxOffset <=? b then []
  else
    let recs := segment_part b rs from n in
    if maxBytes <=? n + total_size recs then recs
    else recs ++ read_spec next rss (from_after next recs) maxBytes maxOffset (n + total_size recs).
Proof. done. Qed.

Lemma from_after_ge b rs from n :
  contiguous b rs → from < b + Zlength rs →
  from ≤ from_after (b + Zlength rs) (segment_part b rs from n).
Proof.
  intros Hc Hf. unfold from_after. destruct (last _) as [r|] eqn:E; [|lia].
  apply last_Some_elem_of in E. pose proof (segment_part_range b rs from n Hc Hf) as H.
  rewrite Forall_forall in H. specialize (H _ E). simpl in H. lia.
Qed.

Lemma from_after_le b rs from n :
  contiguous b rs → from_after (b + Zlength rs) (segment_part b rs from n) ≤ b + Zlength rs.
Proof.
  intros Hc. unfold from_after. destruct (last _) as [r|] eqn:E; [|lia].
  apply last_Some_elem_of in E. eapply elem_of_sublist in E; [|apply segment_part_sublist].
  pose proof (contiguous_bounds _ _ _ Hc E). lia.
Qed.

(** Nothing outside the range, every record at most once and in order. *)
Lemma read_spec_sound b rss from n :
  contiguous b (concat rss) →
  read_spec b rss from maxBytes maxOffset n `sublist_of` concat rss ∧
  Forall (λ r, from ≤ Offset r < maxOffset) (read_spec b rss from maxBytes maxOffset n).
Proof.
  revert b from n. induction rss as [|rs rss IH]; intros b from n Hc; [done|].
  cbn [concat] in *. apply contiguous_app in Hc as [Hrs Hc].
  rewrite read_spec_cons. cbv zeta.
  destruct (Z.leb_spec (b + Zlength rs) from) as [|Hlt].
  { destruct (IH _ from n Hc). split; [by apply sublist_inserts_l|done]. }
  destruct (maxOffset <=? b); [split; [apply sublist_nil_l|constructor]|].
  pose proof (segment_part_sublist b rs from n) as Hsub.
  pose proof (segment_part_range b rs from n Hrs Hlt) as Hrange.
  destruct (maxBytes <=? _); [split; [by apply sublist_inserts_r|done]|].
  edestruct IH as [Hs Hr]; [done|]. split; [by apply sublist_app|].
  apply Forall_app_2; [done|]. eapply Forall_impl; [exact Hr|]. simpl.
  pose proof (from_after_ge b rs from n Hrs Hlt). lia.
Qed.

(** Something is always returned, and it starts at [from]. *)
Lemma read_spec_head b rss from n :
  contiguous b (concat rss) → b ≤ from < b + Zlength (concat rss) → from < maxOffset →
  head (read_spec b rss from maxBytes maxOffset n) = concat rss !! Z.to_nat (from - b).
Proof.
  revert b. induction rss as [|rs rss IH]; intros b Hc Hf Hm.
  { unfold Zlength in Hf. simpl in Hf. lia. }
  cbn [concat] in *. apply contiguous_app in Hc as [Hrs Hc].
  rewrite read_spec_cons. cbv zeta. unfold Zlength in *. rewrite length_app in Hf.
  destruct (Z.leb_spec (b + Z.of_nat (length rs)) from) as [Hge|Hlt].
  { rewrite IH by (done || lia). rewrite lookup_app_r by lia. f_equal. lia. }
  rewrite (proj2 (Z.leb_gt _ _)) by lia. rewrite lookup_app_l by lia.
  destruct (lookup_lt_is_Some_2 rs (Z.to_nat (from - b))) as [r Hr]; [lia|].
  assert (head (segment_part b rs from n) = Some r) as Hhead.
  { unfold segment_part. rewrite (proj2 (Z.leb_le _ _)), (proj2 (Z.ltb_lt _ _)) by lia. cbn [andb].
    rewrite (drop_S _ _ _ Hr). apply take_budget_head. rewrite (Hrs _ _ Hr). lia. }
  rewrite Hr. destruct (maxBytes <=? _); [done|].
  by destruct (segment_part b rs from n).
Qed.

Lemma read_spec_above b rss from n :
  maxOffset ≤ b → read_spec b rss from maxBytes maxOffset n = [].
Proof.
  revert b. induction rss as [|rs rss IH]; intros b Hb; [done|].
  rewrite read_spec_cons. cbv zeta. unfold Zlength.
  destruct (_ <=? from); [apply IH; lia|]. by rewrite (proj2 (Z.leb_le _ _)).
Qed.

(** The records of a segment with offsets in [from, maxOffset). *)
Abbreviation window from recs := (filter (λ r, from ≤ Offset r < maxOffset) recs).

Lemma window_app from a b : window from (a ++ b) = window from a ++ window from b.
Proof. apply filter_app. Qed.

Lemma window_drop b rs from :
  contiguous b rs → b ≤ from < b + Zlength rs →
  filter (λ r, Offset r < maxOffset) (drop (Z.to_nat (from - b)) rs) = window from rs.
Proof.
  intros Hc Hf. unfold Zlength in Hf. set (k := Z.to_nat (from - b)).
  rewrite <- (take_drop k rs) at 2. rewrite window_app, (filter_none _ (take k rs)).
  - apply filter_ext_in. intros r Hr.
    apply (contiguous_bounds (b + Z.of_nat k)) in Hr; [lia|]. apply contiguous_drop; [lia|done].
  - intros r (i & Hi)%list_elem_of_lookup. apply lookup_take_Some in Hi as [Hi Hik].
    rewrite (Hc i r Hi). lia.
Qed.

Lemma segment_part_all b rs from n :
  contiguous b rs → b ≤ from < b + Zlength rs →
  total_size (window from rs) ≤ maxBytes - n → segment_part b rs from n = window from rs.
Proof.
  intros Hc Hf Hsz. unfold segment_part. rewrite (proj2 (Z.leb_le _ _)) by lia.
  destruct (Z.ltb_spec from maxOffset) as [Hm|Hm]; cbn [andb].
  - rewrite <- (window_drop b) in * by done. apply (take_budget_all (b + Z.of_nat (Z.to_nat (from - b)))); [lia| |lia].
    apply contiguous_drop; [unfold Zlength in *; lia|done].
  - symmetry. apply filter_none. intros. lia.
Qed.

(** Within budget nothing is missing. *)
Lemma read_spec_complete b rss from n :
  contiguous b (concat rss) → b ≤ from → 0 ≤ n →
  n + total_size (window from (concat rss)) ≤ maxBytes →
  read_spec b rss from maxBytes maxOffset n = window from (concat rss).
Proof.
  revert b from n. induction rss as [|rs rss IH]; intros b from n Hc Hf Hn Hsz; [done|].
  cbn [concat] in *. apply contiguous_app in Hc as [Hrs Hc].
  rewrite window_app, total_size_app in Hsz. rewrite read_spec_cons, window_app. cbv zeta.
  pose proof (total_size_nonneg (window from rs)) as H1.
  pose proof (total_size_nonneg (window from (concat rss))) as H2. unfold Zlength in H1, H2.
  destruct (Z.leb_spec (b + Zlength rs) from) as [|Hlt].
  { rewrite (filter_none _ rs) in * by (intros r Hr; pose proof (contiguous_bounds _ _ _ Hrs Hr); lia).
    apply IH; [done|lia|done|]. done. }
  destruct (Z.leb_spec maxOffset b).
  { rewrite !filter_none; [done|..]; intros r Hr; [pose proof (contiguous_bounds _ _ _ Hc Hr)|
      pose proof (contiguous_bounds _ _ _ Hrs Hr)]; unfold Zlength in *; lia. }
  rewrite (segment_part_all b rs from n) by (done || lia).
  destruct (Z.leb_spec maxBytes (n + total_size (window from rs))).
  { destruct (window from (concat rss)) eqn:E; [by rewrite app_nil_r|]. cbn [length] in H2. lia. }
  f_equal. destruct (Z.le_gt_cases maxOffset (b + Zlength rs)) as [Hle|Hgt].
  { rewrite read_spec_above by done. symmetry. apply filter_none.
    intros r Hr. pose proof (contiguous_bounds _ _ _ Hc Hr). lia. }
  assert (from_after (b + Zlength rs) (window from rs) = b + Zlength rs) as ->.
  { clear IH Hsz H1 H2. destruct rs as [|r rs' _] using rev_ind; [done|].
    pose proof (Hrs (length rs') r (list_lookup_middle rs' [] r _ eq_refl)) as Hr.
    unfold Zlength in *. rewrite length_app in *. cbn [length] in *.
    unfold from_after. rewrite window_app, filter_cons_True, last_app by lia. simpl. lia. }
  assert (∀ r, r ∈ concat rss → b + Zlength rs ≤ Offset r) as Habove
    by (intros r Hr; apply (contiguous_bounds _ _ _ Hc Hr)).
  assert (window from (concat rss) = window (b + Zlength rs) (concat rss)) as Heq.
  { apply filter_ext_in. intros r Hr%Habove. lia. }
  rewrite Heq in *. apply IH; [done|lia|lia|lia].
Qed.

Lemma read_spec_one b rs from n :
  read_spec b [rs] from maxBytes maxOffset n =
    if b + Zlength rs <=? from then [] else if maxOffset <=? b then [] else segment_part b rs from n.
Proof.
  rewrite read_spec_cons. cbv zeta. destruct (_ <=? from); [done|]. destruct (maxOffset <=? b); [done|].
  destruct (maxBytes <=? _); [done|]. by rewrite app_nil_r.
Qed.

Lemma read_spec_two b r1 r2 from n :
  contiguous b (r1 ++ r2) → b ≤ from < b + Zlength r1 →
  read_spec b [r1; r2] from maxBytes maxOffset n `prefix_of` drop (Z.to_nat (from - b)) (r1 ++ r2).
Proof.
  intros Hc Hf. apply contiguous_app in Hc as [H1 H2]. unfold Zlength in *.
  rewrite read_spec_cons. cbv zeta. unfold Zlength. rewrite (proj2 (Z.leb_gt _ _)) by lia.
  rewrite drop_app_le by lia.
  destruct (maxOffset <=? b); [apply prefix_nil|].
  pose proof (segment_part_prefix b r1 from n) as Hpre.
  destruct (maxBytes <=? _); [by apply prefix_app_r|].
  destruct (Z.le_gt_cases maxOffset from) as [Hle|Hgt].
  { rewrite read_spec_above, app_nil_r by lia. by apply prefix_app_r. }
  pose proof (from_after_le b r1 from n H1) as Hle. unfold Zlength in Hle.
  rewrite read_spec_one. unfold Zlength. set (part := segment_part b r1 from n) in *.
  destruct (Z.leb_spec (b + Z.of_nat (length r1)) (from_after (b + Z.of_nat (length r1)) part)) as [Hall|Hcut].
  - assert (part = drop (Z.to_nat (from - b)) r1) as ->.
    { apply prefix_length_eq; [done|]. rewrite length_drop.
      destruct (last part) as [r|] eqn:E.
      - unfold from_after in Hall. rewrite E in Hall. rewrite last_lookup in E.
        pose proof (prefix_lookup_Some _ _ _ _ E Hpre) as E'. rewrite lookup_drop in E'.
        apply lookup_lt_Some in E. rewrite (H1 _ _ E') in Hall. lia.
      - apply last_None in E. unfold part, segment_part in E.
        rewrite (proj2 (Z.leb_le _ _)), (proj2 (Z.ltb_lt _ _)) in E by lia. cbn [andb] in E.
        destruct (lookup_lt_is_Some_2 r1 (Z.to_nat (from - b))) as [r Hr]; [lia|].
        rewrite (drop_S _ _ _ Hr) in E. pose proof (H1 _ _ Hr).
        pose proof (take_budget_head (maxBytes - n) maxOffset r (drop (S (Z.to_nat (from - b))) r1)) as Hh.
        rewrite E in Hh. specialize (Hh ltac:(lia)). discriminate Hh. }
    apply prefix_app.
    destruct (_ <=? from_after _ _); [apply prefix_nil|].
    destruct (maxOffset <=? _); [apply prefix_nil|].
    etrans; [apply segment_part_prefix|].
    match goal with |- drop ?k _ `prefix_of` _ => replace k with 0%nat by lia end. by rewrite drop_0.
  - rewrite (proj2 (Z.leb_gt (_ + Z.of_nat (length r2)) _)) by lia.
    replace (segment_part _ r2 _ _) with (@nil record).
    { destruct (maxOffset <=? _); rewrite app_nil_r; by apply prefix_app_r. }
    symmetry. unfold segment_part. by rewrite (proj2 (Z.leb_gt _ _)).
Qed.

(** Reading that starts in one of the last two segments leaves no gap. *)
Lemma read_spec_no_gap b rss from n :
  contiguous b (concat rss) → b + Zlength (concat (take (length rss - 2) rss)) ≤ from →
  read_spec b rss from maxBytes maxOffset n `prefix_of` drop (Z.to_nat (from - b)) (concat rss).
Proof.
  revert b. induction rss as [|r1 rss IH]; intros b Hc Hf; [apply prefix_nil|].
  assert (b ≤ from) as Hbf by (unfold Zlength in Hf; lia).
  destruct (Z.le_gt_cases (b + Zlength r1) from) as [Hge|Hlt].
  { rewrite read_spec_cons. cbv zeta. rewrite (proj2 (Z.leb_le _ _)) by done.
    cbn [concat] in *. apply contiguous_app in Hc as [_ Hc]. unfold Zlength in *.
    rewrite drop_app_ge by lia.
    replace (_ - _)%nat with (Z.to_nat (from - (b + Z.of_nat (length r1)))) by lia.
    apply IH; [done|]. destruct rss as [|r2 rss]; [simpl; lia|].
    cbn [length Nat.sub] in *. rewrite Nat.sub_0_r in Hf. destruct rss as [|r3 rss]; [simpl; lia|].
    cbn [length Nat.sub take concat] in *. rewrite Nat.sub_0_r in *. rewrite length_app in Hf. lia. }
  destruct rss as [|r2 [|r3 rss]].
  - rewrite read_spec_one. cbn [concat]. rewrite app_nil_r. rewrite (proj2 (Z.leb_gt _ _)) by done.
    destruct (maxOffset <=? b); [apply prefix_nil|apply segment_part_prefix].
  - cbn [concat]. rewrite app_nil_r. apply read_spec_two; [|done].
    cbn [concat] in Hc. by rewrite app_nil_r in Hc.
  - exfalso. cbn [length Nat.sub take concat] in Hf. unfold Zlength in *. rewrite length_app in Hf. lia.
Qed.
End read_spec.

(** [maxBytes] and [maxOffset] after [Read]'s defaults. *)
Definition byte_budget (maxBytes : Z) : Z := if maxBytes <=? 0 then Z.shiftl 1 20 else maxBytes.
Definition read_limit (leo maxOffset : Z) : Z := if maxOffset <? 0 then leo else maxOffset.

Lemma Read_run l d ss s rss rs from maxBytes maxOffset :
  log_rep l d ss s rss rs →
  let leo := Zlength (concat rss ++ rs) in
  let limit := read_limit leo maxOffset in
  Read from maxBytes maxOffset (l, d) =
    (Ok (if (leo <=? from) || (limit <=? from) then []
         else read_spec 0 (rss ++ [rs]) from (byte_budget maxBytes) limit 0), (l, d)).
Proof.
  intros Hrep leo limit. pose proof (rep_next _ _ _ _ _ _ Hrep) as Hnext. fold leo in Hnext.
  unfold Read. rewrite (bind_Ok _ _ _ _ _ (active_segment_run _ _ _ _ _ _ Hrep)), Hnext.
  fold (byte_budget maxBytes). fold (read_limit leo maxOffset). fold limit. cbv zeta.
  destruct (_ || _); [done|]. rewrite (bind_Ok _ _ _ _ _ (self_run l d)).
  unfold on_disk, zoom. cbn [snd fst]. rewrite (lr_segments _ _ _ _ _ _ Hrep).
  rewrite (read_segments_run d 0 (ss ++ [s]) (rss ++ [rs])); [done|apply Hrep|].
  destruct Hrep. by eapply chained_snoc.
Qed.

(** ** Properties *)

(** The offsets a [Read] from [from] may cover end here. *)
Definition read_end (recs : list record) (maxOffset : Z) : Z :=
  Z.min (Zlength recs) (read_limit (Zlength recs) maxOffset).

Section read_properties.
Context (l : log) (d : disk) (recs : list record) (Hlog : holds l d recs).

Lemma Read_holds from maxBytes maxOffset :
  0 ≤ from →
  ∃ ss s rss rs, log_rep l d ss s rss rs ∧ recs = concat (rss ++ [rs]) ∧ contiguous 0 recs ∧
    Read from maxBytes maxOffset (l, d) =
      (Ok (if read_end recs maxOffset <=? from then []
           else read_spec 0 (rss ++ [rs]) from (byte_budget maxBytes)
                  (read_limit (Zlength recs) maxOffset) 0), (l, d)).
Proof using Hlog.
  intros Hf. destruct Hlog as (ss & s & rss & rs & Hrep & ->).
  exists ss, s, rss, rs. split; [done|]. split; [by rewrite concat_snoc|].
  split; [by eapply rep_contiguous|]. rewrite (Read_run l d ss s rss rs) by done. do 2 f_equal.
  unfold read_end. set (leo := Zlength _). set (lim := read_limit _ _).
  destruct (Z.leb_spec leo from), (Z.leb_spec lim from), (Z.leb_spec (Z.min leo lim) from);
    first [done|lia].
Qed.
End read_properties.

Lemma contiguous_lt_end recs r : contiguous 0 recs → r ∈ recs → Offset r < Zlength recs.
Proof. intros Hc Hr. pose proof (contiguous_bounds 0 recs r Hc Hr). lia. Qed.

Lemma Read_sound l d recs (Hlog : holds l d recs) from maxBytes maxOffset (Hfrom : 0 ≤ from) :
  ∃ out, Read from maxBytes maxOffset (l, d) = (Ok out, (l, d)) ∧ out `sublist_of` recs ∧
    Forall (λ r, from ≤ Offset r < read_end recs maxOffset) out.
Proof.
  destruct (Read_holds l d recs Hlog from maxBytes maxOffset Hfrom)
    as (ss & s & rss & rs & _ & Hrecs & Hc & Hrun).
  eexists. split; [exact Hrun|]. destruct (_ <=? from); [split; [apply sublist_nil_l|constructor]|].
  destruct (read_spec_sound (byte_budget maxBytes) (read_limit (Zlength recs) maxOffset)
    0 (rss ++ [rs]) from 0) as [Hsub Hrange]; rewrite <- Hrecs in *; [done|].
  split; [exact Hsub|]. rewrite Forall_forall in Hrange |- *.
  intros r Hr. pose proof (Hrange r Hr) as Hb.
  eapply elem_of_sublist in Hr; [|exact Hsub].
  pose proof (contiguous_lt_end _ _ Hc Hr). unfold read_end. simpl in Hb. lia.
Qed.

Lemma Read_head l d recs (Hlog : holds l d recs) from maxBytes maxOffset
    (Hfrom : 0 ≤ from < read_end recs maxOffset) :
  ∃ r out, Read from maxBytes maxOffset (l, d) = (Ok (r :: out), (l, d)) ∧
    recs !! Z.to_nat from = Some r.
Proof.
  destruct (Read_holds l d recs Hlog from maxBytes maxOffset) as
    (ss & s & rss & rs & _ & Hrecs & Hc & Hrun); [lia|].
  rewrite (proj2 (Z.leb_gt _ _)) in Hrun by lia. rewrite Hrun.
  unfold read_end in Hfrom. rewrite Hrecs in Hc.
  pose proof (read_spec_head (byte_budget maxBytes) (read_limit (Zlength recs) maxOffset)
    0 (rss ++ [rs]) from 0 Hc) as Hh.
  rewrite <- Hrecs, Z.sub_0_r in Hh. specialize (Hh ltac:(lia) ltac:(lia)).
  destruct (lookup_lt_is_Some_2 recs (Z.to_nat from)) as [r Hr]; [unfold Zlength in *; lia|].
  rewrite Hr in Hh. destruct (read_spec _ _ _ _ _ _) as [|r' out]; [done|].
  injection Hh as ->. by exists r, out.
Qed.

(** A read never fails, changes nothing, and returns records of the log
    with offsets in [from, min(LEO, maxOffset)), each at most once and in offset
    order: a consumer capped at the high watermark sees nothing above it. *)
Theorem read_within_range l d recs from maxBytes maxOffset
    (Hlog : holds l d recs) (Hfrom : 0 ≤ from) :
  ∃ out, Read from maxBytes maxOffset (l, d) = (Ok out, (l, d)) ∧ out `sublist_of` recs ∧
    Forall (λ r, from ≤ Offset r < read_end recs maxOffset) out.
Proof. by apply Read_sound. Qed.

Lemma read_within_range_witness :
  ∃ out, Read 1 100 4 (sample_log, sample_disk) = (Ok out, (sample_log, sample_disk)) ∧
    out `sublist_of` sample_records ∧
    Forall (λ r, 1 ≤ Offset r < read_end sample_records 4) out.
Proof. apply (read_within_range _ _ _ 1 100 4 sample_holds). lia. Defined.

(** When there is something to read, the first record returned is the one
    at [from], whatever its size: a reader always makes progress. *)
Theorem read_makes_progress l d recs from maxBytes maxOffset
    (Hlog : holds l d recs) (Hfrom : 0 ≤ from < read_end recs maxOffset) :
  ∃ r out, Read from maxBytes maxOffset (l, d) = (Ok (r :: out), (l, d)) ∧
    recs !! Z.to_nat from = Some r.
Proof. by apply Read_head. Qed.

Lemma read_makes_progress_witness :
  ∃ r out, Read 3 1 (-1) (sample_log, sample_disk) = (Ok (r :: out), (sample_log, sample_disk)) ∧
    sample_records !! 3%nat = Some r.
Proof.
  apply (read_makes_progress _ _ _ 3 1 (-1) sample_holds). vm_compute. split; congruence.
Defined.

(** C19: when the records in [from, min(LEO, maxOffset)) fit in the byte budget
    the read returns all of them, across segments. *)
Theorem read_returns_all_within_budget l d recs from maxBytes maxOffset
    (Hlog : holds l d recs) (Hfrom : 0 ≤ from)
    (Hfit : total_size (filter (λ r, from ≤ Offset r < read_end recs maxOffset) recs)
            ≤ byte_budget maxBytes) :
  Read from maxBytes maxOffset (l, d) =
    (Ok (filter (λ r, from ≤ Offset r < read_end recs maxOffset) recs), (l, d)).
Proof.
  destruct (Read_holds l d recs Hlog from maxBytes maxOffset Hfrom)
    as (ss & s & rss & rs & _ & Hrecs & Hc & Hrun).
  rewrite Hrun. do 2 f_equal. destruct (Z.leb_spec (read_end recs maxOffset) from).
  { symmetry. apply filter_none. intros. lia. }
  assert (filter (λ r, from ≤ Offset r < read_end recs maxOffset) recs =
    filter (λ r, from ≤ Offset r < read_limit (Zlength recs) maxOffset) recs) as Heq.
  { apply filter_ext_in. intros r Hr. pose proof (contiguous_lt_end _ _ Hc Hr). unfold read_end. lia. }
  rewrite Heq in *. pose proof (read_spec_complete (byte_budget maxBytes)
    (read_limit (Zlength recs) maxOffset) 0 (rss ++ [rs]) from 0) as Hall.
  rewrite <- Hrecs in Hall. by apply Hall.
Qed.

Lemma read_returns_all_within_budget_witness :
  Read 1 111 4 (sample_log, sample_disk) =
    (Ok (filter (λ r, 1 ≤ Offset r < 4) sample_records), (sample_log, sample_disk)).
Proof.
  apply (read_returns_all_within_budget _ _ _ 1 111 4 sample_holds); [lia|].
  vm_compute. discriminate.
Defined.

(** The first offset of the last segment but one (0 with a single segment). *)
Definition penultimate_base (l : log) : Z :=
  default 0 (baseOffset <$> segments l !! (length (segments l) - 2)%nat).

Lemma sealed_length d iv b ss rss b' : sealed d iv b ss rss b' → length rss = length ss.
Proof. induction 1; cbn; congruence. Qed.

Lemma sealed_last d iv b ss rss b' :
  sealed d iv b ss rss b' →
  b + Zlength (concat (take (length rss - 1) rss)) = default b (baseOffset <$> last ss).
Proof.
  unfold Zlength. induction 1 as [b|s ss rs rss b' Hd _ _ Hrest IH]; [simpl; lia|].
  remember (nextOffset s) as nb eqn:Enb.
  destruct Hrest as [b|s1 ss rs1 rss b' Hd1]; [simpl; lia|].
  rewrite last_cons_cons. cbn [length Nat.sub] in *. rewrite Nat.sub_0_r in *.
  cbn [take concat]. rewrite length_app. pose proof (sd_next _ _ _ Hd) as Hn. unfold Zlength in Hn.
  rewrite <- Enb in Hn. rewrite Nat2Z.inj_add, Z.add_assoc, <- Hn, IH.
  destruct (last (s1 :: ss)) eqn:E; [done|]. by apply last_None in E.
Qed.

Lemma rep_penultimate l d ss s rss rs :
  log_rep l d ss s rss rs →
  penultimate_base l = Zlength (concat (take (length (rss ++ [rs]) - 2) (rss ++ [rs]))).
Proof.
  intros Hrep. unfold penultimate_base. rewrite (lr_segments _ _ _ _ _ _ Hrep).
  pose proof (sealed_last _ _ _ _ _ _ (lr_sealed _ _ _ _ _ _ Hrep)) as Hl.
  rewrite last_lookup in Hl. rewrite !length_app. cbn [length].
  replace (length rss + 1 - 2)%nat with (length rss - 1)%nat by lia.
  rewrite take_app_le by lia. rewrite Z.add_0_l in Hl. rewrite Hl.
  destruct ss as [|s0 ss].
  - cbn. pose proof (lr_sealed _ _ _ _ _ _ Hrep) as H. by inversion H.
  - rewrite lookup_app_l by (simpl; lia). f_equal. f_equal. f_equal. simpl. lia.
Qed.

(** A read that starts at or after the first offset of the last segment but
    one returns consecutive records: a prefix of the log from [from] on. *)
Theorem read_contiguous_in_last_two_segments l d recs from maxBytes maxOffset
    (Hlog : holds l d recs) (Hfrom : 0 ≤ from) (Hlast : penultimate_base l ≤ from) :
  ∃ out, Read from maxBytes maxOffset (l, d) = (Ok out, (l, d)) ∧
    out `prefix_of` drop (Z.to_nat from) recs.
Proof.
  destruct (Read_holds l d recs Hlog from maxBytes maxOffset Hfrom)
    as (ss & s & rss & rs & Hrep & Hrecs & Hc & Hrun).
  rewrite (rep_penultimate _ _ _ _ _ _ Hrep) in Hlast.
  eexists. split; [exact Hrun|]. destruct (_ <=? from); [apply prefix_nil|].
  rewrite Hrecs in Hc. pose proof (read_spec_no_gap (byte_budget maxBytes)
    (read_limit (Zlength recs) maxOffset) 0 (rss ++ [rs]) from 0 Hc) as H.
  rewrite <- Hrecs, Z.sub_0_r in H. apply H. lia.
Qed.

Lemma read_contiguous_in_last_two_segments_witness :
  ∃ out, Read 2 50 (-1) (sample_log, sample_disk) = (Ok out, (sample_log, sample_disk)) ∧
    out `prefix_of` drop 2 sample_records.
Proof.
  apply (read_contiguous_in_last_two_segments _ _ _ 2 50 (-1) sample_holds); [lia|].
  vm_compute. discriminate.
Defined.

(** With three segments to cross a read can skip records. The sample log
    holds offsets 0..4; a read from 0 with a budget of 50 bytes returns offsets
    0 and 4, 74 bytes in all: offsets 1, 2 and 3 are left out and the budget is
    exceeded. A consumer that goes on from the last offset it got loses them. *)
Theorem read_skips_records :
  holds sample_log sample_disk sample_records ∧
  Offset <$> sample_records = [0; 1; 2; 3; 4] ∧
  match fst (Read 0 50 (-1) (sample_log, sample_disk)) with
  | Ok out => Offset <$> out = [0; 4] ∧ total_size out = 74
  | _ => False
  end.
Proof.
  split; [exact sample_holds|]. split; [reflexivity|]. vm_compute. split; reflexivity.
Qed.

(** ** Waiting for the high watermark *)

(** The value of the high watermark and the time at the last look. *)
Definition last_look (now h : Z) (wakes : list (Z * Z)) (n : nat) : Z * Z :=
  default (now, h) (last (take n wakes)).

Lemma last_look_S now h w wakes n :
  last_look now h (w :: wakes) (S n) = last_look (fst w) (snd w) wakes n.
Proof.
  unfold last_look. cbn [take]. rewrite last_cons. destruct w. by destruct (last _).
Qed.

(** The three outcomes of the loop. *)
Definition wait_ok offset (timeout deadline : Z) now h wakes (r : option (res unit)) : Prop :=
  match r with
  | Some (Ok _) => ∃ n, offset < snd (last_look now h wakes n)
  | Some (Err e) => e = ErrHwTimeout ∧ ∃ n, snd (last_look now h wakes n) ≤ offset ∧
      (timeout ≤ 0 ∨ deadline ≤ fst (last_look now h wakes n))
  | Some _ => False
  | None => Forall (λ w, fst w < deadline) wakes
  end.

Lemma wait_loop_ok offset timeout deadline wakes now h :
  wait_ok offset timeout deadline now h wakes (wait_loop offset timeout deadline now h wakes).
Proof.
  revert now h. induction wakes as [|[now' h'] wakes IH]; intros now h; cbn [wait_loop].
  all: destruct (Z.leb_spec h offset) as [Hh|Hh]; [|by exists 0%nat].
  all: destruct (Z.leb_spec timeout 0); [split; [done|]; exists 0%nat; simpl; lia|].
  all: destruct (Z.leb_spec (deadline - now) 0); [split; [done|]; exists 0%nat; simpl; lia|].
  { constructor. }
  destruct (Z.ltb_spec deadline now'), (Z.leb_spec h' offset); cbn [andb].
  1: { split; [done|]. exists 1%nat. simpl. lia. }
  all: specialize (IH now' h'); revert IH; unfold wait_ok;
    destruct (wait_loop _ _ _ _ _ wakes) as [[[]|e| |]|] eqn:E; try done.
  all: try (intros (n & Hn); exists (S n); by rewrite last_look_S).
  all: try (intros (? & n & Hn); split; [done|]; exists (S n); by rewrite last_look_S).
  all: intros Hall; constructor; [|done]; cbn [fst].
  - by destruct wakes; cbn [wait_loop] in E; rewrite (proj2 (Z.leb_gt _ _)) in E by done.
  - destruct wakes; cbn [wait_loop] in E; destruct (Z.leb_spec (deadline - now') 0); [|lia| |lia];
      rewrite (proj2 (Z.leb_le h' _)), (proj2 (Z.leb_gt timeout _)) in E by done; done.
  - by destruct wakes; cbn [wait_loop] in E; rewrite (proj2 (Z.leb_gt _ _)) in E by done.
Qed.

(** [WaitHighWatermark] returns nil only after seeing the high watermark
    above [offset]; it times out only when the high watermark was still at or
    below [offset] at a look with no time left; and it is still waiting only
    while every wake-up so far came before the deadline. *)
Theorem wait_high_watermark_outcomes offset timeout now h wakes :
  match WaitHighWatermark offset timeout now h wakes with
  | Some (Ok _) => ∃ n, offset < snd (last_look now h wakes n)
  | Some (Err e) => e = ErrHwTimeout ∧ ∃ n, snd (last_look now h wakes n) ≤ offset ∧
      (timeout ≤ 0 ∨ now + timeout ≤ fst (last_look now h wakes n))
  | Some _ => False
  | None => Forall (λ w, fst w < now + timeout) wakes
  end.
Proof. apply wait_loop_ok. Qed.
