(* ===== verification/LogOpen.v ===== *)
(** Opening a partition directory: recovery after a restart or a crash. *)
From S2P Require Import Prelude GoStrings Bytes RecordFmt Disk Index Segment CommitLog LogRep.
Open Scope Z_scope.

(** ** Opening a directory

    [sealed_files] is the disk's side of [sealed]: what a restart finds. *)
Inductive sealed_files (d : disk) (iv : Z) : Z → list Z → list (list record) → Z → Prop :=
  | sf_nil b : sealed_files d iv b [] [] b
  | sf_cons b bs rs rss b' :
      on_disk_segment b iv false rs [] d → rs ≠ [] →
      sealed_files d iv (b + Zlength rs) bs rss b' →
      sealed_files d iv b (b :: bs) (rs :: rss) b'.

(** [d'] differs from [d] at most in the files of the segments [bases]. *)
Definition same_outside (bases : list Z) (d d' : disk) : Prop :=
  ∀ p, (∀ b, b ∈ bases → p ≠ log_name b ∧ p ≠ index_name b) → files d' !! p = files d !! p.

Lemma sealed_files_lt d iv b bs rss b' :
  sealed_files d iv b bs rss b' → Forall (λ x, b ≤ x < b') bs ∧ b ≤ b'.
Proof.
  induction 1 as [b|b bs rs rss b' _ Hne _ [IH Hle]]; [done|].
  assert (b < b + Zlength rs) by (unfold Zlength; destruct rs; [done|simpl; lia]).
  split; [|lia]. constructor; [lia|]. eapply Forall_impl; [done|]. simpl. lia.
Qed.

Lemma same_but_outside b d d' : same_but b d d' → same_outside [b] d d'.
Proof. intros H p Hp. destruct (Hp b) as [??]; [by apply list_elem_of_singleton|]. by apply H. Qed.

Definition valid_bases (bases : list Z) : Prop := Forall (λ b, 0 ≤ b < 2 ^ 63) bases.

(** The files of a segment outside [bases] are unchanged. *)
Lemma outside_lookup bases d d' b p :
  same_outside bases d d' → valid_bases bases → 0 ≤ b < 2 ^ 63 → b ∉ bases →
  p = log_name b ∨ p = index_name b → files d' !! p = files d !! p.
Proof.
  intros Hs Hv Hb Hnot Hp. unfold valid_bases in Hv. rewrite Forall_forall in Hv.
  apply Hs. intros x Hin. specialize (Hv x Hin). destruct Hp as [-> | ->]; split.
  - intros E%log_name_inj; [congruence|lia|lia].
  - apply log_index_name.
  - intros E. symmetry in E. by apply log_index_name in E.
  - intros E%index_name_inj; [congruence|lia|lia].
Qed.

Lemma on_disk_frame b iv active recs tl bases d d' :
  same_outside bases d d' → valid_bases bases → b ∉ bases →
  on_disk_segment b iv active recs tl d → on_disk_segment b iv active recs tl d'.
Proof.
  intros Hs Hv Hnot [Hl Htorn Hwf Hc H0 Hm Hsm Hi].
  assert (0 ≤ b < 2 ^ 63) as Hb by (unfold Zlength in *; lia).
  constructor; [|done..|].
  - rewrite (outside_lookup _ _ _ _ _ Hs Hv Hb Hnot); auto.
  - destruct Hi; [by left|]. right. unfold content. rewrite (outside_lookup _ _ _ _ _ Hs Hv Hb Hnot); auto.
Qed.

Lemma sealed_files_frame bases d d' iv b bs rss b' :
  same_outside bases d d' → valid_bases bases → (∀ x, x ∈ bases → x < b ∨ b' ≤ x) →
  sealed_files d iv b bs rss b' → sealed_files d' iv b bs rss b'.
Proof.
  intros Hs Hv Hnot H. induction H as [b|b bs rs rss b' Hd Hne Hrest IH]; [constructor|].
  destruct (sealed_files_lt _ _ _ _ _ _ Hrest) as [_ Hle].
  assert (b < b + Zlength rs) by (unfold Zlength; destruct rs; [done|simpl; lia]).
  constructor; [|done|].
  - apply (on_disk_frame _ _ _ _ _ bases d); [done|done| |done]. intros [?|?]%Hnot; lia.
  - apply IH. intros x [?|?]%Hnot; lia.
Qed.

Lemma seg_data_outside bases d d' s recs :
  same_outside bases d d' → valid_bases bases → baseOffset s ∉ bases →
  seg_data d s recs → seg_data d' s recs.
Proof.
  intros Hs Hv Hnot H.
  assert (0 ≤ baseOffset s < 2 ^ 63) as Hb
    by (pose proof (sd_base _ _ _ H); pose proof (sd_max _ _ _ H); unfold Zlength in *; lia).
  destruct H. constructor; try done.
  - rewrite (outside_lookup _ _ _ _ _ Hs Hv Hb Hnot); auto.
  - rewrite (outside_lookup _ _ _ _ _ Hs Hv Hb Hnot); auto.
Qed.

(** The sealed segments are recovered, whatever is known of the last one. *)
Lemma open_segments_run iv bs b rss b' (Q : disk → segment → Prop) d :
  sealed_files d iv b bs rss b' → 0 ≤ b → b' < 2 ^ 63 → quiet d →
  (∀ d1, same_outside bs d d1 → quiet d1 → ∃ d' s, openSegment b' iv true d1 = (Ok s, d') ∧
     Q d' s ∧ quiet d' ∧ same_but b' d1 d' ∧ baseOffset s = b' ∧ indexInterval s = iv) →
  ∃ ss s d', open_segments iv (bs ++ [b']) d = (Ok (ss ++ [s]), d') ∧
    sealed d' iv b ss rss (baseOffset s) ∧ Q d' s ∧ baseOffset s = b' ∧ indexInterval s = iv ∧
    baseOffset <$> ss = bs ∧ quiet d' ∧ same_outside (bs ++ [b']) d d'.
Proof.
  intros Hsf. revert d Hsf.
  induction bs as [|b0 bs IH] in b, rss |- *; intros d Hsf Hb Hmax Hq Hlast;
    inversion Hsf as [?|? ? rs0 rss' ? Hod0 Hne Hsf']; subst.
  - destruct (Hlast d) as (d' & s & Hrun & HQ & Hq' & Hsame & Hbs & Hiv); [done..|].
    exists [], s, d'. cbn [app open_segments]. rewrite bool_decide_true by done.
    unfold attempt, mbind, M_bind. rewrite Hrun. split; [done|].
    split_and!; try done; [rewrite Hbs; constructor|].
    intros p Hp. destruct (Hp b') as [? ?]; [by apply list_elem_of_singleton|]. by apply Hsame.
  - destruct (sealed_files_lt _ _ _ _ _ _ Hsf') as [Hlts Hle].
    assert (b0 < b0 + Zlength rs0) as Hlt by (unfold Zlength; destruct rs0; [done|simpl; lia]).
    destruct (openSegment_run b0 iv false rs0 [] d Hq Hod0)
      as (d1 & s0 & Hrun & Hsd & _ & Hq1 & Hsame & Hbs & Hiv).
    destruct (IH (b0 + Zlength rs0) rss' d1) as (ss & s & d' & Hrun' & Hsealed & HQ & Hbs' & Hiv' & Hmap & Hq' & Hout);
      [|lia|done|done| |].
    { apply (sealed_files_frame [b0] d); [by apply same_but_outside|repeat constructor; lia| |done].
      intros x ->%list_elem_of_singleton. lia. }
    { intros d2 Hd2 Hq2. destruct (Hlast d2) as (d' & s & ?); [|done|by exists d', s]. intros p Hp.
      rewrite Hd2 by (intros x Hx; apply Hp; by right).
      destruct (Hp b0) as [? ?]; [by left|]. by apply Hsame. }
    exists (s0 :: ss), s, d'. split.
    { cbn [app open_segments]. rewrite bool_decide_false by (by destruct bs).
      unfold attempt, mbind, M_bind. rewrite Hrun, Hrun'. done. }
    split_and!; try done.
    + rewrite <- Hbs at 1. constructor; [|done..|].
      * apply (seg_data_outside (bs ++ [b']) d1); [done| | |done].
        { apply Forall_app_2; [eapply Forall_impl; [exact Hlts|]; simpl; lia|repeat constructor; lia]. }
        { rewrite Hbs, elem_of_app, list_elem_of_singleton. rewrite Forall_forall in Hlts.
          intros [?%Hlts | ->]; lia. }
      * by rewrite (sd_next _ _ _ Hsd), Hbs.
    + rewrite fmap_cons. by rewrite Hbs, Hmap.
    + intros p Hp. rewrite Hout by (intros x Hx; apply Hp; by right).
      destruct (Hp b0) as [? ?]; [by left|]. by apply Hsame.
Qed.

(** ** Finding the segments *)

Lemma segment_base_log b : 0 ≤ b < 2 ^ 63 → segment_base (log_name b) = Some b.
Proof.
  intros Hb. unfold segment_base, log_name. rewrite HasSuffix_app, TrimSuffix_app.
  by apply ParseInt_Sprintf020d.
Qed.

Lemma segment_base_index b : segment_base (index_name b) = None.
Proof.
  unfold segment_base. destruct (HasSuffix _ _) eqn:E; [|done]. exfalso.
  apply HasSuffix_split in E as [l E]. apply (f_equal last) in E.
  unfold index_name in E. rewrite to_chars_app, !last_app in E. discriminate E.
Qed.

Lemma listSegmentBases_run d bases :
  quiet d → dir_rep d bases → Forall (λ b, 0 ≤ b < 2 ^ 63) bases →
  Forall (λ b, is_Some (files d !! log_name b)) bases → StronglySorted Z.lt bases →
  listSegmentBases d = (Ok bases, d).
Proof.
  intros Hq Hdir Hb Hlog Hsort. rewrite Forall_forall in Hb, Hlog.
  unfold listSegmentBases, ReadDir, mbind, M_bind. rewrite syscall_quiet by done.
  unfold gets, mret, M_ret. f_equal. f_equal.
  set (names := (map_to_list (files d)).*1).
  assert (∀ p b, p ∈ names → segment_base p = Some b → b ∈ bases ∧ p = log_name b) as Hname.
  { intros p b Hp Hsb. apply list_elem_of_fmap in Hp as ([p' c] & -> & Hp%elem_of_map_to_list).
    destruct (Hdir p') as (b' & Hb' & [-> | ->]); [by eexists| |].
    - cbn [fst] in *. rewrite segment_base_log in Hsb by (by apply Hb). injection Hsb as <-. done.
    - cbn [fst] in *. by rewrite segment_base_index in Hsb. }
  apply (StronglySorted_unique Z.le).
  - apply StronglySorted_merge_sort; apply _.
  - eapply StronglySorted_impl; [|exact Hsort]. lia.
  - rewrite merge_sort_Permutation. apply NoDup_Permutation.
    + apply NoDup_omap_inj; [|apply NoDup_fst_map_to_list].
      intros x y z Hx Hy Ex Ey. destruct (Hname x z Hx Ex) as [_ ->].
      by destruct (Hname y z Hy Ey) as [_ ->].
    + by apply StronglySorted_lt_NoDup.
    + intros b. rewrite list_elem_of_omap. split.
      * intros (p & Hp & E). by apply (Hname p).
      * intros Hin. exists (log_name b). split; [|apply segment_base_log, Hb, Hin].
        destruct (Hlog b Hin) as [c Hc]. apply list_elem_of_fmap. exists (log_name b, c).
        split; [done|]. by apply elem_of_map_to_list.
Qed.

(** ** Opening the log *)

(** The configuration [Open] works with. *)
Definition with_defaults (c : Config) : Config :=
  Cfg (if MaxSegmentBytes c <=? 0 then DefaultMaxSegmentBytes else MaxSegmentBytes c)
      (if IndexInterval c <=? 0 then DefaultIndexInterval else IndexInterval c) (FsyncEvery c).

(** Sealed segments, and the files of one more. *)
Record partition_dir (c : Config) (d : disk) (bs : list Z) (rss : list (list record)) : Prop := {
  pd_quiet : quiet d;
  pd_sealed : sealed_files d (IndexInterval c) 0 bs rss (Zlength (concat rss));
  pd_active : is_Some (files d !! log_name (Zlength (concat rss)));
  pd_max : Zlength (concat rss) < 2 ^ 63;
  pd_dir : dir_rep d (bs ++ [Zlength (concat rss)])
}.

Lemma sealed_files_logs d iv b bs rss b' :
  sealed_files d iv b bs rss b' → Forall (λ x, is_Some (files d !! log_name x)) bs.
Proof.
  induction 1 as [|b bs rs rss b' Hod _ _ IH]; constructor; [|done].
  rewrite (od_log _ _ _ _ _ _ Hod). by eexists.
Qed.

Lemma sealed_files_sorted d iv b bs rss b' :
  sealed_files d iv b bs rss b' → StronglySorted Z.lt (bs ++ [b']).
Proof.
  induction 1 as [|b bs rs rss b' Hod Hne Hrest IH]; [repeat constructor|].
  cbn [app]. constructor; [done|].
  destruct (sealed_files_lt _ _ _ _ _ _ Hrest) as [Hlt Hle].
  assert (b < b + Zlength rs) by (unfold Zlength; destruct rs; [done|simpl; lia]).
  apply Forall_app_2; [eapply Forall_impl; [exact Hlt|]; simpl; lia|repeat constructor; lia].
Qed.

Lemma dir_rep_outside bases d d' :
  same_outside bases d d' → dir_rep d bases → dir_rep d' bases.
Proof.
  intros Hs Hd p Hp.
  destruct (decide (Exists (λ b, p = log_name b ∨ p = index_name b) bases)) as [He|Hn].
  - apply Exists_exists in He as (b & Hb & E). by exists b.
  - apply Hd. rewrite <- Hs; [done|]. intros b Hb.
    assert (¬ (p = log_name b ∨ p = index_name b)) by (intros E; apply Hn, Exists_exists; eauto).
    tauto.
Qed.

Lemma log_recover_run c d bs rss (Q : disk → segment → Prop) :
  partition_dir c d bs rss →
  (∀ d1, same_outside bs d d1 → quiet d1 →
     ∃ d' s, openSegment (Zlength (concat rss)) (IndexInterval c) true d1 = (Ok s, d') ∧ Q d' s ∧ quiet d' ∧
       same_but (Zlength (concat rss)) d1 d' ∧ baseOffset s = Zlength (concat rss) ∧ indexInterval s = IndexInterval c) →
  ∃ ss s d', log_recover c d = (Ok (Log c (ss ++ [s]) (length ss) 0 0), d') ∧
    sealed d' (IndexInterval c) 0 ss rss (baseOffset s) ∧ Q d' s ∧ baseOffset s = Zlength (concat rss) ∧
    indexInterval s = IndexInterval c ∧ dir_rep d' (baseOffset <$> ss ++ [s]) ∧ quiet d'.
Proof.
  intros [Hq Hsf Hact Hmax Hdir] Hlast.
  destruct (sealed_files_lt _ _ _ _ _ _ Hsf) as [Hlt Hle].
  destruct (open_segments_run _ _ _ _ _ Q d Hsf) as
    (ss & s & d' & Hrun & Hsealed & HQ & Hb & Hiv & Hmap & Hq' & Hout); [lia|done..|].
  assert (listSegmentBases d = (Ok (bs ++ [Zlength (concat rss)]), d)) as Hlist.
  { apply listSegmentBases_run; [done|done| | |by eapply sealed_files_sorted].
    - apply Forall_app_2; [eapply Forall_impl; [exact Hlt|]; simpl; lia|]. repeat constructor; lia.
    - apply Forall_app_2; [by eapply sealed_files_logs|]. by apply Forall_singleton. }
  exists ss, s, d'. split_and!; try done.
  - unfold log_recover. rewrite (bind_Ok _ _ _ _ _ Hlist).
    assert (length (ss ++ [s]) - 1 = length ss)%nat as Hlen by (rewrite length_app; simpl; lia).
    destruct (bs ++ [_]) as [|x xs] eqn:E; [by destruct bs|].
    rewrite (bind_Ok _ _ _ _ _ Hrun). by rewrite Hlen.
  - rewrite fmap_app, Hmap. cbn. rewrite Hb. by eapply dir_rep_outside.
Qed.

Lemma Open_with_defaults c d : quiet d → Open c d = log_recover (with_defaults c) d.
Proof.
  intros Hq. unfold Open, MkdirAll, mbind, M_bind. by rewrite syscall_quiet.
Qed.

(** ** Crashes

    A crash keeps the sealed segments and the first [k] bytes of the active
    data file; the active index may be anything, or missing.  With [k] at least
    the file's size and the index kept this is a clean restart. *)
Fixpoint whole (k : nat) (recs : list record) : list record :=
  match recs with
  | [] => []
  | r :: recs =>
    if EncodedSize r <=? Z.of_nat k then r :: whole (k - Z.to_nat (EncodedSize r)) recs else []
  end.

Record crash (d d' : disk) (s : segment) (k : nat) : Prop := {
  cr_quiet : quiet d';
  cr_log : files d' !! logFile s = take k <$> files d !! logFile s;
  cr_rest : ∀ p, p ≠ logFile s → p ≠ idx_path (idx s) → files d' !! p = files d !! p
}.

Lemma whole_prefix k recs : whole k recs `prefix_of` recs.
Proof.
  revert k. induction recs as [|r recs IH]; intros k; cbn [whole]; [done|].
  destruct (_ <=? _); [by apply prefix_cons|apply prefix_nil].
Qed.

Lemma take_encode_all k recs :
  Forall wf_record recs →
  ∃ tl, take k (encode_all recs) = encode_all (whole k recs) ++ tl ∧ torn tl.
Proof.
  intros Hwf. revert k. induction Hwf as [|r recs Hr Hwf IH]; intros k.
  { exists []. split; [by destruct k|apply torn_nil]. }
  pose proof (Zlength_encode_stamped r) as Hlen. unfold Zlength in Hlen.
  cbn [whole]. destruct (Z.leb_spec (EncodedSize r) (Z.of_nat k)).
  - destruct (IH (k - Z.to_nat (EncodedSize r))%nat) as (tl & E & Ht). exists tl. split; [|done].
    rewrite !encode_all_cons, take_app_ge by lia. rewrite <- app_assoc. f_equal. rewrite <- E.
    f_equal. lia.
  - exists (take k (encode_stamped r)). split; [|apply torn_prefix; [done|lia]].
    rewrite encode_all_cons, take_app_le by lia. done.
Qed.

Lemma sealed_on_disk d iv b ss rss b' :
  sealed d iv b ss rss b' → sealed_files d iv b (baseOffset <$> ss) rss b'.
Proof.
  induction 1 as [b|s ss rs rss b' Hd Hne Hiv _ IH]; [constructor|].
  rewrite fmap_cons. rewrite (sd_next _ _ _ Hd) in IH. constructor; [|done..].
  pose proof (sd_entries _ _ _ Hd) as He. rewrite Hiv in He.
  constructor; try apply Hd; [by rewrite app_nil_r, <- (sd_logname _ _ _ Hd), (sd_log _ _ _ Hd)|apply torn_nil|].
  right. by rewrite <- (sd_idxname _ _ _ Hd), (content_files _ _ _ (sd_idx _ _ _ Hd)), He.
Qed.

Lemma crash_partition_dir l d ss s rss rs d' k :
  log_rep l d ss s rss rs → crash d d' s k → partition_dir (cfg l) d' (baseOffset <$> ss) rss.
Proof.
  intros Hrep [Hq' Hlog Hrest].
  pose proof Hrep as [Hsegs _ Hsealed Hsd _ Hiv Hdir _ _ Hcfg].
  pose proof (rep_base _ _ _ _ _ _ Hrep) as Hbase. pose proof (sd_max _ _ _ Hsd) as Hmax.
  pose proof (sd_base _ _ _ Hsd) as H0. unfold Zlength in Hmax.
  assert (same_outside [baseOffset s] d d') as Hout.
  { intros p Hp. destruct (Hp (baseOffset s)) as [H1 H2]; [by apply list_elem_of_singleton|].
    apply Hrest; [by rewrite (sd_logname _ _ _ Hsd)|by rewrite (sd_idxname _ _ _ Hsd)]. }
  constructor; rewrite <- ?Hbase; [done| | |lia|].
  - apply (sealed_files_frame [baseOffset s] d); [done|repeat constructor; lia| |].
    + intros x ->%list_elem_of_singleton. lia.
    + by apply sealed_on_disk.
  - rewrite <- (sd_logname _ _ _ Hsd), Hlog, (sd_log _ _ _ Hsd). by eexists.
  - rewrite Hsegs, fmap_app in Hdir. intros p Hp.
    destruct (decide (p = log_name (baseOffset s))) as [->|];
      [exists (baseOffset s); split; [apply elem_of_app; right; by apply list_elem_of_singleton|by left]|].
    destruct (decide (p = index_name (baseOffset s))) as [->|];
      [exists (baseOffset s); split; [apply elem_of_app; right; by apply list_elem_of_singleton|by right]|].
    apply Hdir. rewrite <- Hrest; [done|by rewrite (sd_logname _ _ _ Hsd)|by rewrite (sd_idxname _ _ _ Hsd)].
Qed.

(** Something is left of the active data file, or nothing of its index. *)
Definition index_fits (d : disk) (s : segment) : Prop :=
  content d (logFile s) ≠ [] ∨ content d (idx_path (idx s)) = [].

Lemma encode_all_nil recs : encode_all recs = [] → recs = [].
Proof.
  intros E. destruct recs as [|r w]; [done|]. apply (f_equal length) in E.
  rewrite length_encode_all in E. cbn [total_size foldr length] in E. fold (total_size w) in E.
  pose proof (total_size_nonneg w). pose proof (EncodedSize_lb r). unfold Zlength in *. lia.
Qed.

(** What is left of the active segment. *)
Lemma crash_active l d ss s rss rs d' k :
  log_rep l d ss s rss rs → crash d d' s k → index_fits d' s →
  ∃ tl, on_disk_segment (Zlength (concat rss)) (IndexInterval (cfg l)) true (whole k rs) tl d'.
Proof.
  intros Hrep [_ Hlog _] Hidx. pose proof (lr_data _ _ _ _ _ _ Hrep) as Hsd.
  pose proof (rep_base _ _ _ _ _ _ Hrep) as Hbase. pose proof (sd_max _ _ _ Hsd) as Hmax.
  destruct (take_encode_all k rs) as (tl & Htake & Htorn); [apply Hsd|]. exists tl.
  destruct (whole_prefix k rs) as [rest Hpre]. pose proof (f_equal length Hpre) as Hlen. rewrite length_app in Hlen.
  rewrite (sd_log _ _ _ Hsd) in Hlog. cbn in Hlog. rewrite Htake in Hlog.
  unfold index_fits in Hidx. rewrite (content_files _ _ _ Hlog), (sd_idxname _ _ _ Hsd) in Hidx.
  rewrite (sd_logname _ _ _ Hsd) in Hlog. rewrite <- Hbase.
  pose proof (sd_wf _ _ _ Hsd) as Hwf. pose proof (sd_contig _ _ _ Hsd) as Hc.
  pose proof (sd_small _ _ _ Hsd) as Hsm. rewrite Hpre in Hwf, Hc, Hsm.
  constructor; [done|done| | |apply Hsd| | |].
  - by apply Forall_app in Hwf as [? _].
  - by apply contiguous_app in Hc as [? _].
  - unfold Zlength in *. lia.
  - rewrite total_size_app in Hsm. pose proof (total_size_nonneg rest). unfold Zlength in *. lia.
  - destruct (decide (encode_all (whole k rs) ++ tl = [])) as [E|]; [right|by left].
    destruct Hidx as [?|Hidx]; [done|]. rewrite Hidx. apply app_nil in E as [E _].
    by rewrite (encode_all_nil _ E).
Qed.

(** The log's records are those of its data files, and it would append after
    them; nothing is said of the index of the active segment. *)
Definition stored (l : log) (d : disk) (recs : list record) : Prop :=
  ∃ ss s rss rs, recs = concat rss ++ rs ∧ segments l = ss ++ [s] ∧ active l = length ss ∧
    sealed d (IndexInterval (cfg l)) 0 ss rss (baseOffset s) ∧ files d !! logFile s = Some (encode_all rs) ∧
    logFile s = log_name (baseOffset s) ∧ size s = total_size rs ∧ nextOffset s = baseOffset s + Zlength rs.

Lemma holds_stored l d recs : holds l d recs → stored l d recs.
Proof.
  intros (ss & s & rss & rs & [Hsegs Hact Hsealed Hsd _ _ _ _ _ _] & ->). exists ss, s, rss, rs.
  by split_and!; try done; apply Hsd.
Qed.

(** Recovery when the index fits. *)
Lemma recovered_fits l d ss s rss rs d' k :
  log_rep l d ss s rss rs → crash d d' s k → index_fits d' s →
  ∃ l' d'', log_recover (cfg l) d' = (Ok l', d'') ∧ holds l' d'' (concat rss ++ whole k rs) ∧
    cfg l' = cfg l ∧ hw l' = 0.
Proof.
  intros Hrep Hcrash Hfits. pose proof (crash_partition_dir _ _ _ _ _ _ _ _ Hrep Hcrash) as Hdir.
  destruct (crash_active _ _ _ _ _ _ _ _ Hrep Hcrash Hfits) as [tl Hod].
  destruct (log_recover_run _ _ _ _ (λ d s, seg_data d s (whole k rs) ∧ seg_tail d s (whole k rs)) Hdir)
    as (ss' & s' & d'' & Hrun & Hsealed & [Hsd Hst] & Hb & Hiv & Hdir' & Hq').
  { intros d1 Hd1 Hq1. destruct (sealed_files_lt _ _ _ _ _ _ (pd_sealed _ _ _ _ Hdir)) as [Hlt _].
    pose proof (pd_max _ _ _ _ Hdir) as Hmax. rewrite Forall_forall in Hlt.
    destruct (openSegment_run (Zlength (concat rss)) (IndexInterval (cfg l)) true (whole k rs) tl d1 Hq1)
      as (d2 & s2 & Hrun & Hsd & Hst & Hrest); [|exists d2, s2; split; [done|]; split; [by split; [|apply Hst]|done]].
    apply (on_disk_frame _ _ _ _ _ (baseOffset <$> ss) d'); [done| | |done].
    - apply Forall_forall. intros x Hx%Hlt. lia.
    - intros Hx%Hlt. lia. }
  eexists _, d''. split; [exact Hrun|]. split; [|done]. exists ss', s', rss, (whole k rs). split; [|done].
  constructor; try done; cbn [hw cfg].
  - pose proof (sd_next _ _ _ Hsd). pose proof (sd_base _ _ _ Hsd). unfold Zlength in *. lia.
  - apply Hrep.
Qed.

(** Recovery when nothing is left of the active data file. *)
Lemma recovered_empty l d ss s rss rs d' k :
  log_rep l d ss s rss rs → crash d d' s k → content d' (logFile s) = [] →
  ∃ l' d'', log_recover (cfg l) d' = (Ok l', d'') ∧ stored l' d'' (concat rss ++ whole k rs) ∧
    cfg l' = cfg l ∧ hw l' = 0.
Proof.
  intros Hrep Hcrash Hnil. pose proof (crash_partition_dir _ _ _ _ _ _ _ _ Hrep Hcrash) as Hdir.
  pose proof (lr_data _ _ _ _ _ _ Hrep) as Hsd. pose proof (cr_log _ _ _ _ Hcrash) as Hlog.
  rewrite (sd_log _ _ _ Hsd) in Hlog. cbn in Hlog. rewrite (content_files _ _ _ Hlog) in Hnil.
  assert (whole k rs = []) as ->.
  { destruct (take_encode_all k rs) as (tl & Htake & _); [apply Hsd|]. rewrite Hnil in Htake.
    symmetry in Htake. apply app_nil in Htake as [E _]. by apply encode_all_nil. }
  rewrite Hnil, (sd_logname _ _ _ Hsd), (rep_base _ _ _ _ _ _ Hrep) in Hlog.
  destruct (log_recover_run _ _ _ _ (λ d s, files d !! logFile s = Some [] ∧ logFile s = log_name (Zlength (concat rss)) ∧
      size s = 0 ∧ nextOffset s = Zlength (concat rss)) Hdir)
    as (ss' & s' & d'' & Hrun & Hsealed & (Hl & Hname & Hsize & Hnext) & Hb & _).
  { intros d1 Hd1 Hq1. destruct (sealed_files_lt _ _ _ _ _ _ (pd_sealed _ _ _ _ Hdir)) as [Hlt Hle].
    pose proof (pd_max _ _ _ _ Hdir) as Hmax. rewrite Forall_forall in Hlt.
    apply openSegment_empty; [done|]. rewrite <- Hlog. apply (outside_lookup (baseOffset <$> ss) _ _ (Zlength (concat rss)));
      [done| |lia| |by left].
    - apply Forall_forall. intros x Hx%Hlt. lia.
    - intros Hx%Hlt. lia. }
  eexists _, d''. split; [exact Hrun|]. split; [|done]. exists ss', s', rss, [].
  split_and!; try done; cbn; rewrite ?Hb; try done. unfold Zlength. cbn. unfold Zlength in *. lia.
Qed.

(** ** Properties *)

(** C6: opening a directory after a crash that left the sealed segments and the
    first bytes of the active data file succeeds, whatever became of the active
    index; the data files then hold the records of the sealed segments and exactly
    the whole records in what was left, torn bytes are cut off, and the high
    watermark starts again at 0. Unless the active data file is empty and its
    index is not, the index is right too: the log is ready for reading and
    appending as one that holds these records. With the files left entire this is
    a clean restart. *)
Theorem open_recovers_whole_records c l d ss s rss rs d' k
    (Hlog : log_rep l d ss s rss rs) (Hcfg : cfg l = with_defaults c)
    (Hcrash : crash d d' s k) :
  ∃ l' d'', Open c d' = (Ok l', d'') ∧ stored l' d'' (concat rss ++ whole k rs) ∧
    (content d' (logFile s) ≠ [] ∨ content d' (idx_path (idx s)) = [] → holds l' d'' (concat rss ++ whole k rs)) ∧
    cfg l' = cfg l ∧ hw l' = 0.
Proof.
  rewrite Open_with_defaults by apply Hcrash. rewrite <- Hcfg.
  destruct (decide (content d' (logFile s) = [])) as [Hnil|Hne].
  - destruct (decide (content d' (idx_path (idx s)) = [])) as [Hidx|Hidx].
    + destruct (recovered_fits _ _ _ _ _ _ _ _ Hlog Hcrash (or_intror Hidx)) as (l' & d'' & Hrun & Hh & Hrest).
      exists l', d''. split; [exact Hrun|]. split; [by apply holds_stored|done].
    + destruct (recovered_empty _ _ _ _ _ _ _ _ Hlog Hcrash Hnil) as (l' & d'' & Hrun & Hh & Hrest).
      exists l', d''. split; [exact Hrun|]. split; [done|]. split; [by intros [|]|done].
  - destruct (recovered_fits _ _ _ _ _ _ _ _ Hlog Hcrash (or_introl Hne)) as (l' & d'' & Hrun & Hh & Hrest).
    exists l', d''. split; [exact Hrun|]. split; [by apply holds_stored|done].
Qed.

(** A log with one record in its only segment, cut in the middle of a second. *)
Definition two_cfg : Config := Cfg 4096 40 0.
Definition two_state : log * disk := append_all (take 2 sample_kvs) (start_state two_cfg).
Definition two_log : log := Eval vm_compute in fst two_state.
Definition two_disk : disk := Eval vm_compute in snd two_state.
Definition two_segment : segment := Eval vm_compute in
  default (Segment 0 "" (Index "" []) 0 0 0 0) (segments two_log !! 0%nat).
Definition two_records : list record := take 2 sample_records.
Definition cut_disk : disk :=
  Disk (<[log_name 0 := take 50 (content two_disk (log_name 0))]> (files two_disk)) ∅ [].

Lemma two_rep : log_rep two_log two_disk [] two_segment [] two_records.
Proof.
  destruct (fresh_log_run two_cfg no_disk) as (l & d & s & Hrun & Hrep & _); [done..|].
  assert (holds l d []) as Hh by (by exists [], s, [], []).
  assert (start_state two_cfg = (l, d)) as Hst by (unfold start_state; by rewrite Hrun).
  apply (append_all_holds (take 2 sample_kvs)) in Hh; [| |done].
  2:{ intros i k v Hi. apply lookup_lt_Some in Hi as Hlt. simpl in Hlt. apply (bool_decide_unpack _).
      do 2 (destruct i as [|i]; [injection Hi as <- <-; vm_compute; exact I|]). lia. }
  cbv zeta in Hh. rewrite <- Hst in Hh.
  assert (append_all (take 2 sample_kvs) (start_state two_cfg) = (two_log, two_disk)) as E by (vm_compute; reflexivity).
  rewrite E in Hh. destruct Hh as (ss & s' & rss & rs & Hrep' & Hrecs).
  pose proof (lr_segments _ _ _ _ _ _ Hrep') as Hsegs. clear -Hsegs Hrep' Hrecs. cbn [fst snd] in *.
  change (segments two_log) with [two_segment] in Hsegs.
  destruct ss as [|x [|y ss]]; [|discriminate Hsegs..]. cbn [app] in Hsegs.
  assert (s' = two_segment) as -> by congruence.
  pose proof (lr_sealed _ _ _ _ _ _ Hrep') as Hs. inversion Hs as [b Hb1 Hb2 Hb3 Hb4|]. subst rss.
  assert (rs = two_records) as -> by (symmetry; exact Hrecs). exact Hrep'.
Qed.

Lemma cut_disk_crash : crash two_disk cut_disk two_segment 50.
Proof.
  constructor; [done|vm_compute; reflexivity|].
  intros p Hp _. unfold cut_disk. cbn [files]. apply lookup_insert_ne. intros <-. by apply Hp.
Qed.

Lemma open_recovers_whole_records_witness :
  ∃ l' d'', Open (Cfg 4096 40 0) cut_disk = (Ok l', d'') ∧
    holds l' d'' [Rec 0 1000 [x61] [x01; x02; x03]] ∧ cfg l' = two_cfg ∧ hw l' = 0.
Proof.
  destruct (open_recovers_whole_records (Cfg 4096 40 0) two_log two_disk [] two_segment [] two_records
    cut_disk 50 two_rep eq_refl cut_disk_crash) as (l' & d'' & Hrun & _ & Hh & Hrest).
  exists l', d''. split; [exact Hrun|]. split; [|exact Hrest]. apply Hh. left. vm_compute. discriminate.
Defined.

(** Opening an empty directory gives an empty log at offset 0. *)
Theorem open_empty_directory c d
    (Hq : quiet d) (Hempty : files d = ∅)
    (Hcfg : MaxSegmentBytes c < 2 ^ 32) :
  ∃ l d', Open c d = (Ok l, d') ∧ holds l d' [] ∧ cfg l = with_defaults c ∧ hw l = 0.
Proof.
  rewrite Open_with_defaults by done.
  destruct (fresh_log_run (with_defaults c) d Hq Hempty) as (l & d' & s & Hrun & Hrep & Hc & Hh).
  { cbn. destruct (Z.leb_spec (MaxSegmentBytes c) 0); [done|lia]. }
  exists l, d'. split; [exact Hrun|]. split; [by exists [], s, [], []|done].
Qed.

Lemma open_empty_directory_witness :
  ∃ l d', Open (Cfg 0 0 0) no_disk = (Ok l, d') ∧ holds l d' [] ∧ cfg l = Cfg 1048576 4096 0 ∧ hw l = 0.
Proof. apply (open_empty_directory (Cfg 0 0 0) no_disk); reflexivity. Defined.

(** ** Where recovery and failed writes lose data *)

Definition read_from (o : Z) (st : log * disk) : res (list Z) :=
  match fst (Read o 0 (-1) st) with
  | Ok out => Ok (Offset <$> out) | Err e => Err e | Panicked => Panicked | Diverged => Diverged
  end.
Definition reopened (c : Config) (d : disk) : log * disk :=
  match Open c d with (Ok l, d) => (l, d) | (_, d) => (Log c [] 0 0 0, d) end.

(** Three records were appended; the data file's bytes were lost, the index
    file's were not; two smaller records are appended after the restart. *)
Definition large_kvs : list (bytes * bytes) := replicate 3 ([x61], replicate 20 x62).
Definition lost_data : log * disk :=
  let st := append_all large_kvs (start_state two_cfg) in
  reopened two_cfg (put_file (log_name 0) [] (snd st)).
Definition refilled : log * disk := append_all (take 2 sample_kvs) lost_data.

(** [recover] leaves early when the data file is empty and keeps whatever
    entries the index file holds; records appended later are looked up through
    the stale entries and reading an acknowledged, intact record fails. *)
Theorem stale_index_breaks_reads :
  fst (LEO lost_data) = Ok 0 ∧ fst (LEO refilled) = Ok 2 ∧
  read_from 0 refilled = Ok [0; 1] ∧ ∃ e, read_from 1 refilled = Err e.
Proof. split_and!; [vm_compute; reflexivity..|]. eexists. vm_compute. reflexivity. Qed.

(** A log whose next write fails after 20 bytes. *)
Definition failing_state : log * disk :=
  let '(l, d) := start_state two_cfg in (l, Disk (files d) (offsets d) [Fail 20]).

(** A write that fails part of the way leaves its bytes in the data file.
    The next append succeeds and its offset is acknowledged, but the record lies
    behind the torn bytes: it cannot be read and recovery truncates it away. *)
Theorem append_after_failed_write_is_lost :
  let st1 := snd (Append 1000 [x61] [x01] failing_state) in
  let st2 := snd (Append 1000 [x62] [x02] st1) in
  fst (Append 1000 [x61] [x01] failing_state) = Err ErrIO ∧
  fst (Append 1000 [x62] [x02] st1) = Ok 0 ∧
  read_from 0 st2 = Err (ErrCorrupt BadCrc) ∧
  fst (LEO (reopened two_cfg (snd st2))) = Ok 0.
Proof. vm_compute. split_and!; reflexivity. Qed.
