(* ===== verification/Partitioner.v ===== *)
(** Partition selection, [internal/routing/partitioner.go]. *)
From S2P Require Import Prelude GoStrings Bytes.
Open Scope Z_scope.

(** ** State and operations *)

(** [hash/fnv]'s 32-bit FNV-1a. *)
Definition fnv_offset : Z := 2166136261.
Definition fnv_prime : Z := 16777619.
Definition fnv_step (h : Z) (b : byte) : Z := u32 (Z.lxor h (Z_of_byte b) * fnv_prime).
Definition fnv32a (key : bytes) : Z := foldl fnv_step fnv_offset key.

(** [rr] is the uint64 round-robin counter; [atomic.AddUint64] makes each call
    one step on it. *)
Record Partitioner := { rr : Z }.

Definition Partition (key : bytes) (numPartitions : Z) : M Partitioner Z :=
  if numPartitions <=? 0 then mret 0 else
  match key with
  | [] => act $ λ p, let n := u64 (rr p + 1) in
            (Ok (u64 (n - 1) mod u64 numPartitions), {| rr := n |})
  | _ => if u32 numPartitions =? 0 then panic     (* integer divide by zero *)
         else mret (fnv32a key mod u32 numPartitions)
  end.

Definition Hash32 (key : bytes) : Z := fnv32a key.

(** A run of [k] produce requests without a key. *)
Fixpoint round_robin (k : nat) (n : Z) : M Partitioner (list Z) :=
  match k with
  | O => mret []
  | S k => p ← Partition [] n; ps ← round_robin k n; mret (p :: ps)
  end.

(** ** Lemmas *)

Lemma fnv_known : fnv32a [x61] = 0xE40C292C ∧ fnv32a [x66; x6f; x6f; x62; x61; x72] = 0xBF9CF968.
Proof. by vm_compute. Qed.

Lemma fnv32a_range key : is_u32 (fnv32a key).
Proof.
  unfold fnv32a. assert (is_u32 fnv_offset) as H by (unfold is_u32, fnv_offset; lia).
  revert H. generalize fnv_offset. induction key as [|b key IH]; intros h H; [done|].
  cbn. apply IH, u32_range.
Qed.

Lemma Partition_empty p n :
  0 < n < 2 ^ 63 → 0 ≤ rr p < 2 ^ 64 →
  Partition [] n p = (Ok (rr p mod n), {| rr := u64 (rr p + 1) |}).
Proof.
  intros Hn Hp. unfold Partition, act. rewrite (proj2 (Z.leb_gt _ _)) by lia. do 2 f_equal.
  unfold u64. rewrite (Z.mod_small n) by lia. f_equal.
  rewrite Zminus_mod_idemp_l, Z.add_simpl_r. by apply Z.mod_small.
Qed.

Lemma round_robin_run k n p :
  0 < n < 2 ^ 63 → 0 ≤ rr p → rr p + Z.of_nat k < 2 ^ 64 →
  round_robin k n p =
    (Ok ((λ i, i mod n) <$> seqZ (rr p) (Z.of_nat k)), {| rr := rr p + Z.of_nat k |}).
Proof.
  intros Hn. revert p. induction k as [|k IH]; intros [r] Hr Hk; cbn [rr] in *.
  { cbn. by rewrite Z.add_0_r. }
  cbn [round_robin]. unfold mbind, M_bind. rewrite Partition_empty by (cbn [rr]; lia). cbn [rr].
  unfold u64. rewrite Z.mod_small by lia. rewrite IH by (cbn [rr]; lia). cbn [rr].
  rewrite (seqZ_cons r) by lia. unfold mret, M_ret. cbn [fmap list_fmap].
  replace (Z.pred (Z.of_nat (S k))) with (Z.of_nat k) by lia. rewrite Z.add_1_r.
  replace (Z.succ r + Z.of_nat k) with (r + Z.of_nat (S k)) by lia. done.
Qed.

(** [n] consecutive residues are all the residues. *)
Lemma residues_permutation r n :
  0 < n → 0 ≤ r → (λ i, i mod n) <$> seqZ r n ≡ₚ seqZ 0 n.
Proof.
  intros Hn Hr. apply NoDup_Permutation.
  - apply NoDup_fmap_2_strong; [|apply NoDup_seqZ].
    intros x y Hx%elem_of_seqZ Hy%elem_of_seqZ E.
    pose proof (Z.div_mod x n). pose proof (Z.div_mod y n).
    assert (x / n = y / n) by nia. nia.
  - apply NoDup_seqZ.
  - intros x. rewrite list_elem_of_fmap, elem_of_seqZ. split.
    + intros (i & -> & _). pose proof (Z.mod_pos_bound i n). lia.
    + intros Hx. exists (r + (x - r) mod n). rewrite elem_of_seqZ.
      pose proof (Z.mod_pos_bound (x - r) n). split; [|lia].
      rewrite Zplus_mod_idemp_r. replace (r + (x - r)) with x by lia.
      symmetry. apply Z.mod_small. lia.
Qed.

(** ** Properties *)

(** For a positive number of partitions the result is a partition number
    below it; a key always gets the same partition and leaves the round-robin
    counter alone. The one exception is a number of partitions divisible by
    2^32, for which a keyed request panics (division by zero). *)
Theorem partition_in_range key n p (Hn : 0 < n < 2 ^ 63) (Hp : 0 ≤ rr p < 2 ^ 64) :
  if bool_decide (key ≠ []) && (n mod 2 ^ 32 =? 0)
  then Partition key n p = (Panicked, p)
  else ∃ i p', Partition key n p = (Ok i, p') ∧ 0 ≤ i < n ∧
    (key ≠ [] → p' = p ∧ ∀ q, Partition key n q = (Ok i, q)).
Proof.
  destruct key as [|b key]; [rewrite bool_decide_false by tauto|rewrite bool_decide_true by done]; cbn [andb].
  - rewrite Partition_empty by done. do 2 eexists. split; [done|].
    split; [apply Z.mod_pos_bound; lia|]. intros H. by destruct H.
  - unfold Partition. rewrite (proj2 (Z.leb_gt _ _)) by lia. unfold u32.
    pose proof (Z.mod_pos_bound n (2 ^ 32)). pose proof (Z.mod_le n (2 ^ 32)).
    destruct (Z.eqb_spec (n mod 2 ^ 32) 0); [done|]. do 2 eexists. split; [done|].
    pose proof (Z.mod_pos_bound (fnv32a (b :: key)) (n mod 2 ^ 32)). split; [lia|done].
Qed.

Lemma partition_in_range_witness :
  ∃ i p', Partition [x61] 7 {| rr := 3 |} = (Ok i, p') ∧ 0 ≤ i < 7 ∧
    ([x61] ≠ [] → p' = {| rr := 3 |} ∧ ∀ q, Partition [x61] 7 q = (Ok i, q)).
Proof. apply (partition_in_range [x61] 7 {| rr := 3 |}); cbn; lia. Defined.

(** Round robin is fair: [n] consecutive requests without a key go to the
    [n] partitions once each, wherever the counter stands. *)
Theorem round_robin_is_fair n p
    (Hn : 0 < n < 2 ^ 63) (Hp : 0 ≤ rr p) (Hwrap : rr p + n < 2 ^ 64) :
  ∃ out, round_robin (Z.to_nat n) n p = (Ok out, {| rr := rr p + n |}) ∧ out ≡ₚ seqZ 0 n.
Proof.
  rewrite round_robin_run by lia. rewrite Z2Nat.id by lia. eexists. split; [done|].
  by apply residues_permutation; lia.
Qed.

Lemma round_robin_is_fair_witness :
  ∃ out, round_robin 4 4 {| rr := 6 |} = (Ok out, {| rr := 10 |}) ∧ out ≡ₚ [0; 1; 2; 3].
Proof. apply (round_robin_is_fair 4 {| rr := 6 |}); cbn; lia. Defined.
