(* ===== verification/Assignor.v ===== *)
(** The range assignor, [internal/assignor/range.go]. *)
From S2P Require Import Prelude GoStrings.
Open Scope nat_scope.

(** ** Operations *)

(** One member's share, by topic; the whole assignment, by member. *)
Abbreviation assignment := (gmap string (list Z)).
Abbreviation assignments := (gmap string assignment).

Definition share (asg : assignments) (m t : string) : list Z :=
  default [] (default ∅ (asg !! m) !! t).

(** [out[m][topic] = append(out[m][topic], ps...)]; [out[m]] exists. *)
Definition append_share (m topic : string) (ps : list Z) (out : assignments) : assignments :=
  alter (λ asg, <[topic := default [] (asg !! topic) ++ ps]> asg) m out.

Fixpoint assignRange_loop (per extra : nat) (topic : string) (parts : list Z)
    (members : list string) (i idx : nat) (out : assignments) : assignments :=
  match members with
  | [] => out
  | m :: members =>
    let count := if i <? extra then per + 1 else per in
    if count =? 0 then assignRange_loop per extra topic parts members (S i) idx out
    else
      let out := append_share m topic (take count (drop idx parts)) out in
      assignRange_loop per extra topic parts members (S i) (idx + count) out
  end.

Definition assignRange (members : list string) (topic : string) (parts : list Z)
    (out : assignments) : assignments :=
  let n := length members in
  let p := length parts in
  if (n =? 0) || (p =? 0) then out
  else assignRange_loop (p / n) (p mod n) topic parts members 0 0 out.

Definition RangeAssign (members : list string) (topicPartitions : gmap string (list Z)) : assignments :=
  let ms := sort_strings members in
  let out := foldl (λ out m, <[m := ∅]> out) ∅ ms in
  if length ms =? 0 then out else
  let topics := sort_strings (map_to_list topicPartitions).*1 in
  foldl (λ out topic,
    let parts := sort_ints (default [] (topicPartitions !! topic)) in
    assignRange ms topic parts out) out topics.

(** ** What an assignor promises its callers *)

Class PartitionAssignor (assign : list string → gmap string (list Z) → assignments) := {
  (** exactly the members get an assignment *)
  assign_members ms tp m : is_Some (assign ms tp !! m) ↔ m ∈ ms;
  (** of each topic, the members' shares make up its partitions *)
  assign_all ms tp t :
    NoDup ms → ms ≠ [] →
    concat ((λ m, share (assign ms tp) m t) <$> ms) ≡ₚ default [] (tp !! t)
}.

(** ** Lemmas *)

Definition quota (per extra i : nat) : nat := if i <? extra then per + 1 else per.

Fixpoint quota_sum (per extra i k : nat) : nat :=
  match k with O => 0 | S k => quota per extra i + quota_sum per extra (S i) k end.

Lemma quota_sum_closed per extra i k :
  quota_sum per extra i k = k * per + (Nat.min (i + k) extra - Nat.min i extra).
Proof.
  revert i. induction k as [|k IH]; intros i; cbn [quota_sum]; [lia|].
  rewrite IH. unfold quota. destruct (Nat.ltb_spec i extra); lia.
Qed.

Lemma quota_sum_all n p : 0 < n → quota_sum (p / n) (p mod n) 0 n = p.
Proof.
  intros Hn. rewrite quota_sum_closed. pose proof (Nat.mod_upper_bound p n).
  pose proof (Nat.div_mod p n). lia.
Qed.

Lemma share_append m t ps out m' t' :
  is_Some (out !! m) →
  share (append_share m t ps out) m' t' =
    if decide (m' = m ∧ t' = t) then share out m t ++ ps else share out m' t'.
Proof.
  intros [asg Hm]. unfold share, append_share.
  destruct (decide (m = m')) as [<-|Hne].
  - rewrite lookup_alter_eq, Hm. cbn. destruct (decide (t = t')) as [<-|Ht].
    + rewrite lookup_insert_eq. by rewrite decide_True.
    + rewrite lookup_insert_ne by done. rewrite decide_False; [done|]. intros [_ ?]. congruence.
  - rewrite lookup_alter_ne by done. rewrite decide_False; [done|]. intros [? _]. congruence.
Qed.

Lemma append_share_dom m t ps out m' :
  is_Some (append_share m t ps out !! m') ↔ is_Some (out !! m').
Proof. unfold append_share. by rewrite lookup_alter_is_Some. Qed.

Section loop.
Context (per extra : nat) (topic : string) (parts : list Z).

Lemma loop_dom members i idx out m :
  is_Some (assignRange_loop per extra topic parts members i idx out !! m) ↔ is_Some (out !! m).
Proof.
  revert i idx out. induction members as [|m0 ms IH]; intros i idx out; cbn [assignRange_loop]; [done|].
  cbv zeta. fold (quota per extra i). destruct (quota per extra i =? 0); [apply IH|].
  rewrite IH. apply append_share_dom.
Qed.

Lemma loop_other members i idx out m t :
  Forall (λ m, is_Some (out !! m)) members → m ∉ members ∨ t ≠ topic →
  share (assignRange_loop per extra topic parts members i idx out) m t = share out m t.
Proof.
  revert i idx out. induction members as [|m0 ms IH]; intros i idx out Hdom Hmt; [done|].
  cbn [assignRange_loop]. cbv zeta. fold (quota per extra i).
  apply Forall_cons in Hdom as [Hm0 Hdom]. rewrite not_elem_of_cons in Hmt.
  destruct (quota per extra i =? 0); [apply IH; tauto|]. rewrite IH; [| |tauto].
  - rewrite share_append by done. apply decide_False. tauto.
  - eapply Forall_impl; [exact Hdom|]. intros x. by rewrite append_share_dom.
Qed.

(** The member at position [j] gets the [j]-th slice. *)
Lemma loop_share members i idx out j m :
  NoDup members → Forall (λ m, is_Some (out !! m) ∧ share out m topic = []) members →
  members !! j = Some m →
  share (assignRange_loop per extra topic parts members i idx out) m topic =
    take (quota per extra (i + j)) (drop (idx + quota_sum per extra i j) parts).
Proof.
  revert i idx out j. induction members as [|m0 ms IH]; intros i idx out j Hnd Hout Hj; [done|].
  apply NoDup_cons in Hnd as [Hm0 Hnd]. apply Forall_cons in Hout as [[Hs0 He0] Hout].
  cbn [assignRange_loop]. cbv zeta. fold (quota per extra i).
  set (out1 := append_share m0 topic (take (quota per extra i) (drop idx parts)) out).
  assert (Forall (λ m, is_Some (out1 !! m) ∧ share out1 m topic = []) ms) as Hout1.
  { rewrite Forall_forall in Hout |- *. intros x Hx. destruct (Hout x Hx) as [??]. unfold out1.
    rewrite append_share_dom, share_append, decide_False by (done || (intros [-> _]; done)). done. }
  assert (quota per extra i = 0 → ∀ x t, share out1 x t = share out x t) as Hzero.
  { intros Hq x t. unfold out1. rewrite Hq, share_append, take_0, app_nil_r by done.
    case_decide as E; [|done]. by destruct E as [-> ->]. }
  assert (∀ o, Forall (λ m, is_Some (o !! m) ∧ share o m topic = []) ms →
    Forall (λ m, is_Some (o !! m)) ms) as Hfst.
  { intros o Ho. eapply Forall_impl; [exact Ho|]. by intros x []. }
  destruct j as [|j]; cbn [lookup list_lookup] in Hj.
  - injection Hj as <-. cbn [quota_sum]. rewrite !Nat.add_0_r.
    destruct (Nat.eqb_spec (quota per extra i) 0) as [Hq|Hq].
    + rewrite loop_other, He0, Hq; [by rewrite take_0|by apply Hfst|by left].
    + rewrite loop_other; [|by apply Hfst|by left].
      unfold out1. rewrite share_append, decide_True by done. by rewrite He0.
  - cbn [quota_sum]. rewrite <- (Nat.add_succ_comm i j), Nat.add_assoc.
    destruct (Nat.eqb_spec (quota per extra i) 0) as [Hq|Hq].
    + rewrite (IH (S i) idx out j) by done. by rewrite Hq, Nat.add_0_r.
    + by apply IH.
Qed.
End loop.

(** The slice of sorted partitions that goes to the [j]-th of [n] members. *)
Definition range_slice (n j : nat) (parts : list Z) : list Z :=
  let p := length parts in
  take (p / n + (if j <? p mod n then 1 else 0)) (drop (j * (p / n) + Nat.min j (p mod n)) parts).

Lemma range_slice_quota n j parts :
  let p := length parts in
  take (quota (p / n) (p mod n) j) (drop (quota_sum (p / n) (p mod n) 0 j) parts) = range_slice n j parts.
Proof.
  cbv zeta. unfold range_slice. rewrite quota_sum_closed. unfold quota.
  f_equal; [destruct (_ <? _); lia|]. f_equal. lia.
Qed.

Lemma range_slice_nil n j : range_slice n j [] = [].
Proof. unfold range_slice. by rewrite drop_nil, take_nil. Qed.

Lemma range_slices_concat n parts :
  0 < n → concat ((λ j, range_slice n j parts) <$> seq 0 n) = parts.
Proof.
  intros Hn. set (per := length parts / n). set (extra := length parts mod n).
  assert (∀ k i, concat ((λ j, range_slice n j parts) <$> seq i k) =
    take (quota_sum per extra i k) (drop (quota_sum per extra 0 i) parts)) as Hgen.
  { induction k as [|k IH]; intros i; cbn [seq fmap list_fmap concat quota_sum].
    - by rewrite take_0.
    - rewrite IH, <- range_slice_quota. fold per extra.
      rewrite <- take_take_drop, drop_drop. repeat f_equal. rewrite !quota_sum_closed.
      unfold quota. destruct (Nat.ltb_spec i extra); lia. }
  rewrite Hgen. cbn [quota_sum]. rewrite drop_0. unfold per, extra.
  rewrite quota_sum_all by done. apply firstn_all.
Qed.

(** *** One topic, then all topics *)

Lemma assignRange_dom ms t parts out m :
  is_Some (assignRange ms t parts out !! m) ↔ is_Some (out !! m).
Proof. unfold assignRange. destruct (_ || _); [done|apply loop_dom]. Qed.

Lemma assignRange_share ms t parts out j m t' :
  NoDup ms → Forall (λ m, is_Some (out !! m)) ms → Forall (λ m, share out m t = []) ms →
  ms !! j = Some m →
  share (assignRange ms t parts out) m t' =
    if decide (t' = t) then range_slice (length ms) j parts else share out m t'.
Proof.
  intros Hnd Hdom Hempty Hj. unfold assignRange.
  assert (0 < length ms) as Hn by (apply lookup_lt_Some in Hj; lia).
  destruct (Nat.eqb_spec (length ms) 0); [lia|]. cbn [orb].
  destruct (Nat.eqb_spec (length parts) 0) as [Hp|].
  - apply length_zero_iff_nil in Hp as ->. rewrite range_slice_nil.
    case_decide as E; [|done]. subst t'. rewrite Forall_forall in Hempty.
    by eapply Hempty, list_elem_of_lookup_2.
  - case_decide as E; [subst t'|by apply loop_other; auto].
    rewrite (loop_share _ _ _ _ _ _ _ _ j) by (done || by apply Forall_and).
    by rewrite <- range_slice_quota.
Qed.

Section topics.
Context (ms : list string) (tp : gmap string (list Z)) (Hnd : NoDup ms).

Let step (out : assignments) (t : string) : assignments :=
  assignRange ms t (sort_ints (default [] (tp !! t))) out.

Lemma topics_dom ts out m : is_Some (foldl step out ts !! m) ↔ is_Some (out !! m).
Proof.
  revert out. induction ts as [|t ts IH]; intros out; [done|]. cbn [foldl].
  rewrite IH. apply assignRange_dom.
Qed.

Lemma topics_share ts out j m t :
  NoDup ts → Forall (λ m, is_Some (out !! m)) ms →
  (∀ x t, x ∈ ms → t ∈ ts → share out x t = []) → ms !! j = Some m →
  share (foldl step out ts) m t =
    if decide (t ∈ ts) then range_slice (length ms) j (sort_ints (default [] (tp !! t)))
    else share out m t.
Proof using Hnd.
  intros Hts Hdom Hempty Hj. revert out Hdom Hempty.
  induction Hts as [|t0 ts Ht0 Hts IH]; intros out Hdom Hempty; [done|]. cbn [foldl].
  assert (Forall (λ m, share out m t0 = []) ms) as He0
    by (apply Forall_forall; intros; apply Hempty; [done|by left]).
  pose proof (λ j x t', assignRange_share ms t0 (sort_ints (default [] (tp !! t0))) out j x t' Hnd Hdom He0) as Hstep.
  rewrite IH.
  - fold (step out t0) in Hstep. rewrite (Hstep j m t Hj).
    destruct (decide (t = t0)) as [->|Hne].
    + rewrite (decide_False (P := t0 ∈ ts)), (decide_True (P := t0 ∈ t0 :: ts)) by (done || by left). done.
    + destruct (decide (t ∈ ts)); [rewrite decide_True by (by right); done|].
      rewrite decide_False; [done|]. rewrite elem_of_cons. tauto.
  - eapply Forall_impl; [exact Hdom|]. intros x Hx. by apply assignRange_dom.
  - intros x t' Hx Ht'. destruct (list_elem_of_lookup_1 _ _ Hx) as [k Hk]. unfold step.
    rewrite (Hstep k x t' Hk), decide_False by (intros ->; done). apply Hempty; [done|by right].
Qed.
End topics.

Lemma initial_shares ms m :
  foldl (λ (out : assignments) m, <[m := ∅]> out) ∅ ms !! m = if decide (m ∈ ms) then Some ∅ else None.
Proof.
  induction ms as [|m0 ms IH] using rev_ind; [done|].
  rewrite foldl_snoc. destruct (decide (m = m0)) as [->|Hne].
  - rewrite lookup_insert_eq, decide_True; [done|]. apply elem_of_app. right. by apply list_elem_of_singleton.
  - rewrite lookup_insert_ne, IH by done.
    destruct (decide (m ∈ ms)), (decide (m ∈ ms ++ [m0])) as [H|H]; try done;
      rewrite elem_of_app, list_elem_of_singleton in H; tauto.
Qed.

Lemma RangeAssign_members ms tp m : is_Some (RangeAssign ms tp !! m) ↔ m ∈ ms.
Proof.
  unfold RangeAssign. pose proof (sort_strings_perm ms) as Hp.
  assert (is_Some (foldl (λ (out : assignments) m, <[m := ∅]> out) ∅ (sort_strings ms) !! m) ↔ m ∈ ms) as Hinit.
  { rewrite initial_shares. assert (m ∈ sort_strings ms ↔ m ∈ ms) as <- by (by rewrite Hp).
    case_decide; split; try done; by intros []. }
  destruct (_ =? 0); [done|]. by rewrite topics_dom.
Qed.

Lemma RangeAssign_share ms tp j m t :
  NoDup ms → sort_strings ms !! j = Some m →
  share (RangeAssign ms tp) m t =
    range_slice (length ms) j (sort_ints (default [] (tp !! t))).
Proof.
  intros Hnd Hj. unfold RangeAssign. pose proof (sort_strings_perm ms) as Hp.
  assert (0 < length (sort_strings ms)) as Hlen by (apply lookup_lt_Some in Hj; lia).
  destruct (Nat.eqb_spec (length (sort_strings ms)) 0); [lia|].
  assert (∀ x t, share (foldl (λ (out : assignments) m, <[m := ∅]> out) ∅ (sort_strings ms)) x t = []) as Hempty.
  { intros x t'. unfold share. rewrite initial_shares. case_decide; by rewrite ?lookup_empty. }
  assert (NoDup (sort_strings ms)) as Hnd' by (by rewrite Hp).
  rewrite (topics_share (sort_strings ms) tp Hnd' _ _ j).
  - rewrite (Permutation_length Hp), Hempty. case_decide as Ht; [done|].
    destruct (tp !! t) as [ps|] eqn:E; [|cbn; by rewrite range_slice_nil].
    destruct Ht. rewrite sort_strings_perm. apply list_elem_of_fmap. exists (t, ps).
    split; [done|]. by apply elem_of_map_to_list.
  - rewrite sort_strings_perm. apply NoDup_fst_map_to_list.
  - apply Forall_forall. intros x Hx. rewrite initial_shares. by rewrite decide_True.
  - intros. apply Hempty.
  - done.
Qed.

Lemma RangeAssign_concat ms tp t :
  NoDup ms → ms ≠ [] →
  concat ((λ m, share (RangeAssign ms tp) m t) <$> sort_strings ms) = sort_ints (default [] (tp !! t)).
Proof.
  intros Hnd Hne. set (parts := sort_ints _).
  assert (0 < length ms) as Hlen by (destruct ms; [done|simpl; lia]).
  rewrite <- (range_slices_concat (length ms) parts) at 1 by done. f_equal.
  apply list_eq. intros j. rewrite !list_lookup_fmap.
  destruct (sort_strings ms !! j) as [m|] eqn:E.
  - cbn. rewrite (RangeAssign_share ms tp j m t Hnd E). fold parts.
    apply lookup_lt_Some in E. rewrite (Permutation_length (sort_strings_perm ms)) in E.
    by rewrite lookup_seq_lt.
  - apply lookup_ge_None in E. rewrite (Permutation_length (sort_strings_perm ms)) in E.
    by rewrite lookup_seq_ge.
Qed.

#[export] Instance RangeAssign_assignor : PartitionAssignor RangeAssign.
Proof.
  split; [apply RangeAssign_members|]. intros ms tp t Hnd Hne.
  rewrite <- (sort_ints_perm (default [] (tp !! t))), <- (RangeAssign_concat ms tp t Hnd Hne).
  by rewrite (sort_strings_perm ms) at 1.
Qed.

(** ** Properties *)

Definition sample_members : list string := ["m-b"; "m-a"; "m-c"]%string.
Definition sample_topics : gmap string (list Z) :=
  {[ "events"%string := [3; 0; 1; 2; 4; 6; 5]%Z; "logs"%string := [0; 1]%Z ]}.

(** C27: of every topic, the members' shares taken in member order are the
    topic's partitions in increasing order: each partition goes to exactly one
    member, none is lost and none is invented. *)
Theorem range_assign_covers_each_partition_once ms tp t
    (Hnd : NoDup ms) (Hne : ms ≠ []) :
  concat ((λ m, share (RangeAssign ms tp) m t) <$> sort_strings ms) =
  sort_ints (default [] (tp !! t)).
Proof. by apply RangeAssign_concat. Qed.

Lemma range_assign_covers_each_partition_once_witness :
  concat ((λ m, share (RangeAssign sample_members sample_topics) m "events") <$>
    sort_strings sample_members) = sort_ints [3; 0; 1; 2; 4; 6; 5]%Z.
Proof.
  apply (range_assign_covers_each_partition_once sample_members sample_topics "events").
  - apply (bool_decide_unpack _). vm_compute. exact I.
  - discriminate.
Defined.

(** C33: the [j]-th of [n] members (in name order) gets, of [p] partitions, the
    [j]-th contiguous slice of the sorted partitions: [p / n] of them, and one
    more for the first [p mod n] members. The order in which members are listed
    and the order of the partitions do not matter. *)
Theorem range_assign_shares_are_balanced_ranges ms tp j m t
    (Hnd : NoDup ms) (Hj : sort_strings ms !! j = Some m) :
  let parts := sort_ints (default [] (tp !! t)) in
  let n := length ms in let p := length parts in
  let count := p / n + (if j <? p mod n then 1 else 0) in
  share (RangeAssign ms tp) m t = take count (drop (j * (p / n) + Nat.min j (p mod n)) parts) ∧
  length (share (RangeAssign ms tp) m t) = count ∧
  (∀ ms', ms' ≡ₚ ms → RangeAssign ms' tp = RangeAssign ms tp).
Proof.
  cbv zeta. rewrite (RangeAssign_share ms tp j m t Hnd Hj). split; [done|].
  set (parts := sort_ints _). unfold range_slice.
  apply lookup_lt_Some in Hj. rewrite (Permutation_length (sort_strings_perm ms)) in Hj.
  split.
  - rewrite length_take, length_drop. pose proof (Nat.div_mod (length parts) (length ms)).
    pose proof (Nat.mod_upper_bound (length parts) (length ms)).
    destruct (Nat.ltb_spec j (length parts mod length ms)); nia.
  - intros ms' Hp. unfold RangeAssign.
    assert (sort_strings ms' = sort_strings ms) as -> by (by rewrite Hp). done.
Qed.

Lemma range_assign_shares_are_balanced_ranges_witness :
  share (RangeAssign sample_members sample_topics) "m-b" "events" = [3; 4]%Z ∧
  length (share (RangeAssign sample_members sample_topics) "m-b" "events") = 2 ∧
  (∀ ms', ms' ≡ₚ sample_members → RangeAssign ms' sample_topics = RangeAssign sample_members sample_topics).
Proof.
  apply (range_assign_shares_are_balanced_ranges sample_members sample_topics 1 "m-b" "events").
  - apply (bool_decide_unpack _). vm_compute. exact I.
  - vm_compute. reflexivity.
Defined.
