(* ===== verification/Cluster.v ===== *)
(** Static membership and heartbeats, [internal/cluster/cluster.go]. *)
From S2P Require Import Prelude GoStrings.
Open Scope Z_scope.

(** ** State and operations

    Times are nanoseconds; every method that reads the clock takes [now].  The
    mutex makes each method one step. *)

Record Peer := { ID : Z; Addr : string }.

#[global] Instance Peer_eq_dec : EqDecision Peer.
Proof. solve_decision. Defined.

Record Cluster := {
  Self : Peer;
  Peers : gmap Z Peer;
  lastSeen : gmap Z Z;
  SessionTimeout : Z
}.

Definition second : Z := 1000000000.

Definition New (now : Z) (self : Peer) (peers : list Peer) (session : Z) : Cluster := {|
  Self := self;
  Peers := <[ID self := self]> (foldl (λ m p, <[ID p := p]> m) ∅ peers);
  lastSeen := <[ID self := now]> ∅;
  SessionTimeout := if session <=? 0 then 3 * second else session
|}.

Definition MarkSeen (now id : Z) (c : Cluster) : Cluster := {|
  Self := Self c; Peers := Peers c;
  lastSeen := <[id := now]> (lastSeen c);
  SessionTimeout := SessionTimeout c
|}.

Definition IsAlive (now id : Z) (c : Cluster) : bool :=
  if id =? ID (Self c) then true else
  match lastSeen c !! id with
  | None => false
  | Some t => now - t <? SessionTimeout c
  end.

Definition alive_in (now : Z) (c : Cluster) (id : Z) : bool :=
  if id =? ID (Self c) then true else
  match lastSeen c !! id with
  | Some t => now - t <? SessionTimeout c
  | None => false
  end.

Definition AliveIDs (now : Z) (c : Cluster) : list Z :=
  sort_ints (filter (λ id, alive_in now c id) (map_to_list (Peers c)).*1).

Definition ControllerID (now : Z) (c : Cluster) : Z :=
  match AliveIDs now c with
  | [] => ID (Self c)
  | id :: _ => id
  end.

Definition IsController (now : Z) (c : Cluster) : bool := ControllerID now c =? ID (Self c).

Definition peer_addr (id : Z) (c : Cluster) : string :=
  match Peers c !! id with Some p => Addr p | None => "" end.

Definition peer_le (p q : Peer) : Prop := ID p ≤ ID q.
#[global] Instance peer_le_dec p q : Decision (peer_le p q).
Proof. unfold peer_le. apply _. Defined.
#[global] Instance peer_le_trans : Transitive peer_le.
Proof. intros a b c. unfold peer_le. lia. Qed.
#[global] Instance peer_le_total : Total peer_le.
Proof. intros a b. unfold peer_le. lia. Qed.

Definition All (c : Cluster) : list Peer := merge_sort peer_le (map_to_list (Peers c)).*2.

Definition OtherPeers (c : Cluster) : list Peer :=
  filter (λ p, ID p ≠ ID (Self c)) (All c).

(** ** Well-formedness: [New] establishes it, [MarkSeen] preserves it *)

Record cluster_wf (c : Cluster) : Prop := {
  wf_self : Peers c !! ID (Self c) = Some (Self c);
  wf_ids : ∀ id p, Peers c !! id = Some p → ID p = id
}.

Lemma New_wf now self peers session : cluster_wf (New now self peers session).
Proof.
  split; cbn; [by rewrite lookup_insert_eq|].
  intros id p. rewrite lookup_insert_Some. intros [[<- <-]|[_ H]]; [done|]. revert H.
  assert (∀ m : gmap Z Peer, (∀ id p, m !! id = Some p → ID p = id) →
    ∀ id p, foldl (λ m p, <[ID p := p]> m) m peers !! id = Some p → ID p = id) as Hf.
  { induction peers as [|q peers IH]; intros m Hm; [done|]. cbn. apply IH.
    intros i r. rewrite lookup_insert_Some. intros [[<- <-]|[_ ?]]; auto. }
  apply Hf. intros ??. by rewrite lookup_empty.
Qed.

Lemma MarkSeen_wf now id c : cluster_wf c → cluster_wf (MarkSeen now id c).
Proof. by intros []. Qed.

Lemma elem_of_AliveIDs now c id :
  id ∈ AliveIDs now c ↔ is_Some (Peers c !! id) ∧ IsAlive now id c = true.
Proof.
  unfold AliveIDs. rewrite sort_ints_perm, list_elem_of_filter, list_elem_of_fmap.
  unfold IsAlive. fold (alive_in now c id). rewrite Is_true_true. split.
  - intros [Ha ([i p] & -> & Hp%elem_of_map_to_list)]. split; [by eexists|done].
  - intros [[p Hp] Ha]. split; [done|]. exists (id, p). split; [done|]. by apply elem_of_map_to_list.
Qed.

Lemma self_alive now c : cluster_wf c → ID (Self c) ∈ AliveIDs now c.
Proof.
  intros Hwf. apply elem_of_AliveIDs. rewrite (wf_self _ Hwf). split; [by eexists|].
  unfold IsAlive. by rewrite Z.eqb_refl.
Qed.

(** The controller is the first of the live brokers. *)
Lemma ControllerID_least now c :
  cluster_wf c → ControllerID now c ∈ AliveIDs now c ∧ ∀ id, id ∈ AliveIDs now c → ControllerID now c ≤ id.
Proof.
  intros Hwf. pose proof (self_alive now c Hwf) as Hself.
  pose proof (sort_ints_sorted (filter (λ id, alive_in now c id) (map_to_list (Peers c)).*1)) as Hsort.
  fold (AliveIDs now c) in Hsort. unfold ControllerID.
  destruct (AliveIDs now c) as [|x xs]; [by apply elem_of_nil in Hself|]. split; [by left|].
  intros id [->|Hid]%elem_of_cons; [lia|].
  apply StronglySorted_inv in Hsort as [_ Hx]. rewrite Forall_forall in Hx. by apply Hx.
Qed.

Lemma ControllerID_le_self now c : cluster_wf c → ControllerID now c ≤ ID (Self c).
Proof. intros Hwf. by apply ControllerID_least, self_alive. Qed.

(** ** Properties *)

(** The controller is the lowest live broker: it is in the membership and
    alive, no live broker has a lower id, and it is never above the broker
    itself; brokers with the same live set agree on it. *)
Theorem controller_is_lowest_alive now c (Hwf : cluster_wf c) :
  let k := ControllerID now c in
  is_Some (Peers c !! k) ∧ IsAlive now k c = true ∧ k ≤ ID (Self c) ∧
  (∀ id, is_Some (Peers c !! id) → IsAlive now id c = true → k ≤ id) ∧
  (∀ c' now', AliveIDs now' c' = AliveIDs now c → ControllerID now' c' = k).
Proof.
  intros k. destruct (ControllerID_least now c Hwf) as [Hin Hmin]. fold k in Hin, Hmin.
  destruct (proj1 (elem_of_AliveIDs _ _ _) Hin) as [Hp Ha].
  split_and!; [done|done|by apply ControllerID_le_self| |].
  - intros id Hid Hal. by apply Hmin, elem_of_AliveIDs.
  - intros c' now' Hids. unfold k, ControllerID. rewrite Hids.
    by destruct (AliveIDs now c) as [|x xs]; [apply elem_of_nil in Hin|].
Qed.

Definition sample_cluster : Cluster :=
  MarkSeen 1000 3 (MarkSeen 900 1 (New 500 {| ID := 2; Addr := "b:9092" |}
    [{| ID := 1; Addr := "a:9092" |}; {| ID := 2; Addr := "b:9092" |}; {| ID := 3; Addr := "c:9092" |}] 0)).

Lemma controller_is_lowest_alive_witness :
  ControllerID 1000 sample_cluster = 1 ∧
  (∀ id, is_Some (Peers sample_cluster !! id) → IsAlive 1000 id sample_cluster = true → 1 ≤ id).
Proof.
  split; [reflexivity|].
  apply (controller_is_lowest_alive 1000 sample_cluster). do 2 apply MarkSeen_wf. apply New_wf.
Defined.

(** A broker that has heard nothing from any lower-numbered broker for the
    session timeout is controller on its own view, whatever the others see; two
    sides of a network partition therefore have a controller each. *)
Theorem silence_hands_over_control now c (Hwf : cluster_wf c)
    (Hsilent : ∀ id, id < ID (Self c) →
       match lastSeen c !! id with Some t => SessionTimeout c ≤ now - t | None => True end) :
  IsController now c = true.
Proof.
  unfold IsController. apply Z.eqb_eq. destruct (ControllerID_least now c Hwf) as [Hx _].
  pose proof (ControllerID_le_self now c Hwf). set (x := ControllerID now c) in *.
  destruct (Z.eq_dec x (ID (Self c))) as [|Hne]; [done|]. exfalso.
  apply elem_of_AliveIDs in Hx as [_ Ha].
  specialize (Hsilent x ltac:(lia)). unfold IsAlive in Ha. rewrite (proj2 (Z.eqb_neq _ _) Hne) in Ha.
  destruct (lastSeen c !! x) as [t|]; [|done]. apply Z.ltb_lt in Ha. lia.
Qed.

Lemma silence_hands_over_control_witness :
  IsController (4 * second) sample_cluster = true ∧ IsController 1000 sample_cluster = false.
Proof.
  split; [|reflexivity].
  apply silence_hands_over_control; [do 2 apply MarkSeen_wf; apply New_wf|].
  intros id Hid. unfold sample_cluster, MarkSeen, New, second. cbn in Hid |- *.
  repeat (rewrite lookup_insert; case_decide); rewrite ?lookup_empty; lia.
Defined.
