(* ===== verification/Coordinator.v ===== *)
(** The consumer-group coordinator, [internal/group/coordinator.go]. *)
From S2P Require Import Prelude GoStrings Bytes Assignor.
Open Scope Z_scope.

(** ** State *)

Inductive State := Empty | PreparingRebalance | CompletingRebalance | Stable.

#[global] Instance State_eq_dec : EqDecision State.
Proof. solve_decision. Defined.

Definition State_String (s : State) : string :=
  match s with
  | Empty => "Empty"
  | PreparingRebalance => "PreparingRebalance"
  | CompletingRebalance => "CompletingRebalance"
  | Stable => "Stable"
  end.

(** [Assignment] is [None] for a nil map. *)
Record Member := {
  m_ID : string;
  Topics : list string;
  LastHeartbeat : Z;
  Joined : bool;
  Synced : bool;
  Assignment : option assignment
}.

#[global] Instance Member_eq_dec : EqDecision Member.
Proof. solve_decision. Defined.

Record Group := {
  g_ID : string;
  g_State : State;
  Generation : Z;
  Members : gmap string Member;
  Leader : string
}.

Record JoinResult := {
  jr_MemberID : string;
  jr_Generation : Z;
  jr_LeaderID : string;
  jr_Members : list string;
  jr_State : string
}.

(** [saved] is the offsets table in the file [offsetPath]; a call that writes
    it takes [disk_ok], whether the file system lets it.  [hooked] is whether
    [onOffsetPersist] is set. *)
Record Coordinator := {
  groups : gmap string Group;
  offsets : gmap string Z;
  saved : gmap string Z;
  sessionTimeout : Z;
  rebalanceWait : Z;
  partitionsOf : option (string → list Z);
  hooked : bool
}.

Inductive group_error := ErrUnknownMember | ErrGenerationMismatch | ErrRebalanceInProgress | ErrUnknownGroup.

Definition set_groups (gs : gmap string Group) (c : Coordinator) : Coordinator := {|
  groups := gs; offsets := offsets c; saved := saved c; sessionTimeout := sessionTimeout c;
  rebalanceWait := rebalanceWait c; partitionsOf := partitionsOf c; hooked := hooked c |}.
Definition set_group (id : string) (g : Group) (c : Coordinator) : Coordinator :=
  set_groups (<[id := g]> (groups c)) c.
Definition set_offsets (os : gmap string Z) (c : Coordinator) : Coordinator := {|
  groups := groups c; offsets := os; saved := saved c; sessionTimeout := sessionTimeout c;
  rebalanceWait := rebalanceWait c; partitionsOf := partitionsOf c; hooked := hooked c |}.
Definition set_saved (os : gmap string Z) (c : Coordinator) : Coordinator := {|
  groups := groups c; offsets := offsets c; saved := os; sessionTimeout := sessionTimeout c;
  rebalanceWait := rebalanceWait c; partitionsOf := partitionsOf c; hooked := hooked c |}.

Definition set_Members (ms : gmap string Member) (g : Group) : Group := {|
  g_ID := g_ID g; g_State := g_State g; Generation := Generation g; Members := ms; Leader := Leader g |}.
Definition set_State (s : State) (g : Group) : Group := {|
  g_ID := g_ID g; g_State := s; Generation := Generation g; Members := Members g; Leader := Leader g |}.
Definition set_Leader (l : string) (g : Group) : Group := {|
  g_ID := g_ID g; g_State := g_State g; Generation := Generation g; Members := Members g; Leader := l |}.

Definition set_Joined (b : bool) (m : Member) : Member := {|
  m_ID := m_ID m; Topics := Topics m; LastHeartbeat := LastHeartbeat m;
  Joined := b; Synced := Synced m; Assignment := Assignment m |}.
Definition set_LastHeartbeat (t : Z) (m : Member) : Member := {|
  m_ID := m_ID m; Topics := Topics m; LastHeartbeat := t;
  Joined := Joined m; Synced := Synced m; Assignment := Assignment m |}.
Definition set_Synced (b : bool) (m : Member) : Member := {|
  m_ID := m_ID m; Topics := Topics m; LastHeartbeat := LastHeartbeat m;
  Joined := Joined m; Synced := b; Assignment := Assignment m |}.
Definition set_Assignment (a : option assignment) (m : Member) : Member := {|
  m_ID := m_ID m; Topics := Topics m; LastHeartbeat := LastHeartbeat m;
  Joined := Joined m; Synced := Synced m; Assignment := a |}.

Definition second : Z := 1000000000.

(** The table [loadOffsets] leaves, from what the file holds: [None] when it is
    missing or cannot be read or decoded, which [New] does not tell apart. *)
Definition loadOffsets (file : option (gmap string Z)) : gmap string Z := default ∅ file.

(** A member's identifier from eight random bytes, in hexadecimal. *)
Definition hex_digit (n : Z) : ascii := ascii_of_N (Z.to_N (if n <? 10 then 48 + n else 87 + n)).
Definition EncodeToString (bs : list byte) : string :=
  of_chars (bs ≫= λ b, [hex_digit (Z_of_byte b / 16); hex_digit (Z_of_byte b mod 16)]).
Definition newMemberID (random : list byte) : string := "m-" +:+ EncodeToString random.

(** [stored] is what [loadOffsets] reads from an earlier run. *)
Definition New (stored : gmap string Z) (session rebalance : Z)
    (partitions : option (string → list Z)) : Coordinator := {|
  groups := ∅;
  offsets := stored;
  saved := stored;
  sessionTimeout := if session <=? 0 then 10 * second else session;
  rebalanceWait := if rebalance <=? 0 then 2 * second else rebalance;
  partitionsOf := partitions;
  hooked := false
|}.

Definition SetOffsetHook (c : Coordinator) : Coordinator := {|
  groups := groups c; offsets := offsets c; saved := saved c; sessionTimeout := sessionTimeout c;
  rebalanceWait := rebalanceWait c; partitionsOf := partitionsOf c; hooked := true |}.

Lemma hex_digit_inj n m : 0 ≤ n < 16 → 0 ≤ m < 16 → hex_digit n = hex_digit m → n = m.
Proof.
  intros Hn Hm E%(f_equal N_of_ascii). unfold hex_digit in E.
  destruct (Z.ltb_spec n 10), (Z.ltb_spec m 10); rewrite !N_ascii_embedding in E by lia; lia.
Qed.

(** Different bytes give different identifiers, none of which is empty. *)
Lemma newMemberID_inj a b : newMemberID a = newMemberID b → a = b.
Proof.
  intros E%(f_equal to_chars). unfold newMemberID, EncodeToString in E. rewrite !to_chars_app, !to_of_chars in E.
  apply app_inv_head in E. revert b E. induction a as [|x a IH]; intros [|y b]; [done..|]. cbn. intros [= E1 E2 E].
  f_equal; [|by apply IH]. apply Z_of_byte_inj. pose proof (Z_of_byte_range x). pose proof (Z_of_byte_range y).
  apply hex_digit_inj in E1; [|split; [apply Z.div_pos; lia|apply Z.div_lt_upper_bound; lia]..].
  apply hex_digit_inj in E2; [|apply Z.mod_pos_bound; lia..].
  rewrite (Z.div_mod (Z_of_byte x) 16), (Z.div_mod (Z_of_byte y) 16) by lia. congruence.
Qed.

(** ** Rebalancing *)

Definition new_group (id : string) : Group := {|
  g_ID := id; g_State := Empty; Generation := 0; Members := ∅; Leader := "" |}.

Definition group (c : Coordinator) (id : string) : Group := default (new_group id) (groups c !! id).

Definition beginRebalance (g : Group) : Group := {|
  g_ID := g_ID g;
  g_State := PreparingRebalance;
  Generation := Generation g + 1;
  Members := (λ m, set_Assignment None (set_Synced false (set_Joined false m))) <$> Members g;
  Leader := ""
|}.

Definition member_ids (g : Group) : list string := (map_to_list (Members g)).*1.

(** The topics any member subscribes to. *)
Definition subscriptions (ms : gmap string Member) : gset string :=
  map_fold (λ _ m acc, list_to_set (Topics m) ∪ acc) ∅ ms.

Section coordinator.
Context (c : Coordinator).

Definition topic_partitions (subs : gset string) : gmap string (list Z) :=
  match partitionsOf c with
  | Some f => set_to_map (λ t, (t, f t)) subs
  | None => ∅
  end.

Definition finishAssignment (g : Group) : Group :=
  if decide (Members g = ∅) then set_Leader "" (set_State Empty g) else
  let ids := sort_strings (member_ids g) in
  let asg := RangeAssign ids (topic_partitions (subscriptions (Members g))) in
  {| g_ID := g_ID g;
     g_State := CompletingRebalance;
     Generation := Generation g;
     Members := map_imap (λ id m, Some (match asg !! id with
                  | Some topics => set_Synced false (set_Assignment (Some topics) m)
                  | None => m end)) (Members g);
     Leader := default "" (head ids) |}.

Definition expired (now : Z) (m : Member) : bool := sessionTimeout c <? now - LastHeartbeat m.

Definition maybeCompleteJoin (now : Z) (g : Group) : Group :=
  let ms := filter (λ '(_, m), expired now m = false) (Members g) in
  let all := bool_decide (map_Forall (λ _ m, Joined m = true) ms) in
  let g := set_Members ms g in
  if negb all && bool_decide (ms ≠ ∅) then g else finishAssignment g.
End coordinator.

(** ** The handlers *)

(** [fresh] is the identifier [newMemberID] draws. *)
Definition Join (now : Z) (fresh groupID memberID : string) (topics : list string)
    (c : Coordinator) : JoinResult * Coordinator :=
  let g := group c groupID in
  let memberID := if bool_decide (memberID = "") then fresh else memberID in
  let m := default {| m_ID := memberID; Topics := []; LastHeartbeat := 0; Joined := false;
                      Synced := false; Assignment := None |} (Members g !! memberID) in
  let m := {| m_ID := m_ID m; Topics := topics; LastHeartbeat := now; Joined := Joined m;
              Synced := false; Assignment := Assignment m |} in
  let g := set_Members (<[memberID := m]> (Members g)) g in
  let g := if decide (g_State g = PreparingRebalance) then g else beginRebalance g in
  let g := set_Members (alter (set_Joined true) memberID (Members g)) g in
  let g := if decide (g_State g = PreparingRebalance) then maybeCompleteJoin c now g else g in
  let members := if bool_decide (Leader g = memberID) then sort_strings (member_ids g) else [] in
  ({| jr_MemberID := memberID; jr_Generation := Generation g; jr_LeaderID := Leader g;
      jr_Members := members; jr_State := State_String (g_State g) |},
   set_group groupID g c).

(** A success carries the assignment; the generation and state come with every
    answer. *)
Definition Sync (now : Z) (groupID memberID : string) (generation : Z) (c : Coordinator) :
    (assignment + group_error) * Z * string * Coordinator :=
  match groups c !! groupID with
  | None => (inr ErrUnknownGroup, 0, "", c)
  | Some g =>
    let fail e := (inr e, Generation g, State_String (g_State g), c) in
    if negb (generation =? Generation g) then fail ErrGenerationMismatch else
    match Members g !! memberID with
    | None => fail ErrUnknownMember
    | Some m =>
      if decide (g_State g = PreparingRebalance) then fail ErrRebalanceInProgress else
      let m := set_Synced true (set_LastHeartbeat now m) in
      let g := set_Members (<[memberID := m]> (Members g)) g in
      let g := if decide (g_State g = CompletingRebalance)
               then if bool_decide (map_Forall (λ _ m, Synced m = true) (Members g))
                    then set_State Stable g else g
               else g in
      (inl (default ∅ (Assignment m)), Generation g, State_String (g_State g), set_group groupID g c)
    end
  end.

Definition Heartbeat (now : Z) (groupID memberID : string) (generation : Z) (c : Coordinator) :
    option group_error * string * Coordinator :=
  match groups c !! groupID with
  | None => (Some ErrUnknownGroup, "", c)
  | Some g =>
    match Members g !! memberID with
    | None => (Some ErrUnknownMember, State_String (g_State g), c)
    | Some m =>
      if negb (generation =? Generation g) || negb (bool_decide (g_State g = Stable))
      then (Some ErrRebalanceInProgress, State_String (g_State g), c)
      else (None, State_String (g_State g),
            set_group groupID (set_Members (<[memberID := set_LastHeartbeat now m]> (Members g)) g) c)
    end
  end.

Definition Leave (now : Z) (groupID memberID : string) (c : Coordinator) : Coordinator :=
  match groups c !! groupID with
  | None => c
  | Some g =>
    let g := set_Members (delete memberID (Members g)) g in
    set_group groupID (maybeCompleteJoin c now (beginRebalance g)) c
  end.

(** *** Expire *)

Definition oldest_heartbeat (now : Z) (ms : gmap string Member) : Z :=
  map_fold (λ _ m hb, Z.min (LastHeartbeat m) hb) now ms.

(** The part of [Expire] after dead members are dropped. *)
Definition completeDelayedJoin (c : Coordinator) (now : Z) (g : Group) : Group :=
  if decide (g_State g = PreparingRebalance) then
    let allJoined := bool_decide (map_Forall (λ _ m, Joined m = true) (Members g)) in
    if allJoined || (rebalanceWait c <? now - oldest_heartbeat now (Members g)) then
      finishAssignment c (set_Members
        (filter (λ '(_, m), negb (Joined m) && (rebalanceWait c <? now - LastHeartbeat m) = false)
           (Members g)) g)
    else g
  else g.

Definition expire_group (c : Coordinator) (now : Z) (g : Group) : Group :=
  let ms := filter (λ '(_, m), expired c now m = false) (Members g) in
  let changed := bool_decide (ms ≠ Members g) in
  let g := set_Members ms g in
  if changed then
    let g := beginRebalance g in
    if decide (Members g = ∅) then set_State Empty g else completeDelayedJoin c now g
  else completeDelayedJoin c now g.

Definition Expire (now : Z) (c : Coordinator) : Coordinator :=
  set_groups (expire_group c now <$> groups c) c.

(** ** Offsets *)

Definition offsetKey (group topic : string) (partition : Z) : string :=
  group +:+ "/" +:+ topic +:+ "/" +:+ Itoa partition.

Record CommittedOffset := { co_Topic : string; co_Partition : Z; co_Offset : Z }.

(** A call of [onOffsetPersist]. *)
Record HookCall := { hc_Group : string; hc_Topic : string; hc_Partition : Z; hc_Offset : Z }.

Definition persistOffsets (disk_ok : bool) (c : Coordinator) : bool * Coordinator :=
  if disk_ok then (true, set_saved (offsets c) c) else (false, c).

Fixpoint commit_all (groupID : string) (os : list CommittedOffset) (c : Coordinator) :
    list HookCall * Coordinator :=
  match os with
  | [] => ([], c)
  | o :: os =>
    let c := set_offsets (<[offsetKey groupID (co_Topic o) (co_Partition o) := co_Offset o]> (offsets c)) c in
    let call := if hooked c
                then [{| hc_Group := groupID; hc_Topic := co_Topic o; hc_Partition := co_Partition o;
                         hc_Offset := co_Offset o |}] else [] in
    let '(calls, c) := commit_all groupID os c in
    (call ++ calls, c)
  end.

(** Returns whether it succeeded, and the hook calls it made. *)
Definition Commit (disk_ok : bool) (groupID : string) (os : list CommittedOffset) (c : Coordinator) :
    bool * list HookCall * Coordinator :=
  let '(calls, c) := commit_all groupID os c in
  let '(ok, c) := persistOffsets disk_ok c in
  (ok, calls, c).

Definition ApplyOffset (disk_ok : bool) (group topic : string) (partition offset : Z)
    (c : Coordinator) : Coordinator :=
  snd (persistOffsets disk_ok (set_offsets (<[offsetKey group topic partition := offset]> (offsets c)) c)).

(** One key of the offsets table as [FetchOffsets] reads it. *)
Definition parse_offset_key (groupID k : string) : option (string * Z) :=
  let prefix := groupID +:+ "/" in
  if negb (HasPrefix k prefix) then None else
  let rest := drop (length (to_chars prefix)) (to_chars k) in
  match split_last "/"%char rest with
  | None => None
  | Some (t, p) =>
    match Atoi (of_chars p) with
    | None => None
    | Some p => Some (of_chars t, p)
    end
  end.

Definition offset_le (a b : CommittedOffset) : Prop :=
  if decide (co_Topic a = co_Topic b) then co_Partition a ≤ co_Partition b
  else str_le (co_Topic a) (co_Topic b).
#[global] Instance offset_le_dec a b : Decision (offset_le a b).
Proof. unfold offset_le. destruct (decide (co_Topic a = co_Topic b)); apply _. Defined.

Definition FetchOffsets (groupID topic : string) (c : Coordinator) : list CommittedOffset :=
  merge_sort offset_le (omap (λ '(k, v),
    match parse_offset_key groupID k with
    | None => None
    | Some (t, p) =>
      if negb (bool_decide (topic = "")) && negb (bool_decide (t = topic)) then None
      else Some {| co_Topic := t; co_Partition := p; co_Offset := v |}
    end) (map_to_list (offsets c))).

Definition SnapshotOffsets (c : Coordinator) : gmap string Z := offsets c.

Definition DebugGroup (id : string) (c : Coordinator) : State * Z * list string :=
  match groups c !! id with
  | None => (Empty, 0, [])
  | Some g => (g_State g, Generation g, sort_strings (member_ids g))
  end.
