(* ===== verification/GroupSafety.v ===== *)
(** The consumer-group coordinator as a state machine: what holds in every
    reachable state, and what a sequence of requests guarantees. *)
From S2P Require Import Prelude GoStrings Assignor Coordinator.
Open Scope Z_scope.

(** ** Requests and reachable states

    [EnvPartitions f] is not a request: it is the cluster metadata changing
    under the closure [partitionsOf]. *)
Inductive request :=
  | ReqJoin (now : Z) (fresh groupID memberID : string) (topics : list string)
  | ReqSync (now : Z) (groupID memberID : string) (generation : Z)
  | ReqHeartbeat (now : Z) (groupID memberID : string) (generation : Z)
  | ReqLeave (now : Z) (groupID memberID : string)
  | ReqExpire (now : Z)
  | ReqCommit (disk_ok : bool) (groupID : string) (os : list CommittedOffset)
  | ReqApply (disk_ok : bool) (groupID topic : string) (partition offset : Z)
  | ReqSetHook
  | EnvPartitions (f : string → list Z).

Definition set_partitionsOf (f : string → list Z) (c : Coordinator) : Coordinator := {|
  groups := groups c; offsets := offsets c; saved := saved c; sessionTimeout := sessionTimeout c;
  rebalanceWait := rebalanceWait c; partitionsOf := Some f; hooked := hooked c |}.

Definition handle (r : request) (c : Coordinator) : Coordinator :=
  match r with
  | ReqJoin now fresh g m ts => snd (Join now fresh g m ts c)
  | ReqSync now g m gen => snd (Sync now g m gen c)
  | ReqHeartbeat now g m gen => snd (Heartbeat now g m gen c)
  | ReqLeave now g m => Leave now g m c
  | ReqExpire now => Expire now c
  | ReqCommit ok g os => snd (Commit ok g os c)
  | ReqApply ok g t p o => ApplyOffset ok g t p o c
  | ReqSetHook => SetOffsetHook c
  | EnvPartitions f => set_partitionsOf f c
  end.

(** A topic's partitions are distinct. *)
Definition distinct_partitions (c : Coordinator) : Prop :=
  ∀ f t, partitionsOf c = Some f → NoDup (f t).

Inductive step (c : Coordinator) : Coordinator → Prop :=
  | step_request r : distinct_partitions (handle r c) → step c (handle r c).

Inductive reachable : Coordinator → Prop :=
  | reach_new stored session rebalance f :
      (∀ t, NoDup (f t)) → reachable (New stored session rebalance (Some f))
  | reach_step c c' : reachable c → step c c' → reachable c'.

(** ** The group invariant *)

Definition active (g : Group) : Prop := g_State g = CompletingRebalance ∨ g_State g = Stable.

Definition sorted_ids (ms : gmap string Member) : list string := sort_strings (map_to_list ms).*1.

Definition assigned_by (tp : gmap string (list Z)) (ms : gmap string Member) : Prop :=
  ∀ id m, ms !! id = Some m → Assignment m = RangeAssign (sorted_ids ms) tp !! id.

Record group_ok (g : Group) : Prop := {
  ok_empty : g_State g = Empty → Members g = ∅;
  ok_leader : active g → head (sorted_ids (Members g)) = Some (Leader g);
  ok_assigned : active g → ∃ tp, map_Forall (λ _ ps, NoDup ps) tp ∧ assigned_by tp (Members g);
  ok_synced : g_State g = Stable → map_Forall (λ _ m, Synced m = true) (Members g)
}.

(** How a group may change: the generation never goes back, and within one
    generation the assignments, once made, are fixed. *)
Definition evolves (g g' : Group) : Prop :=
  Generation g ≤ Generation g' ∧
  (Generation g = Generation g' → active g →
   active g' ∧ Assignment <$> Members g' = Assignment <$> Members g).

#[global] Instance evolves_refl : Reflexive evolves.
Proof. intros g. split; [lia|done]. Qed.
#[global] Instance evolves_trans : Transitive evolves.
Proof.
  intros g1 g2 g3 [H1 E1] [H2 E2]. split; [lia|]. intros Hg Ha.
  destruct E1 as [Ha2 Hm2]; [lia|done|]. destruct E2 as [Ha3 Hm3]; [lia|done|].
  split; [done|congruence].
Qed.

(** *** Member identifiers *)

Lemma elem_of_sorted_ids ms id : id ∈ sorted_ids ms ↔ is_Some (ms !! id).
Proof.
  unfold sorted_ids. rewrite sort_strings_perm, list_elem_of_fmap. split.
  - intros ([i m] & -> & H%elem_of_map_to_list). by exists m.
  - intros [m H]. exists (id, m). split; [done|]. by apply elem_of_map_to_list.
Qed.

Lemma NoDup_sorted_ids ms : NoDup (sorted_ids ms).
Proof. unfold sorted_ids. rewrite sort_strings_perm. apply NoDup_fst_map_to_list. Qed.

Lemma sorted_ids_dom ms ms' :
  (∀ id, is_Some (ms !! id) ↔ is_Some (ms' !! id)) → sorted_ids ms = sorted_ids ms'.
Proof.
  intros H. apply (StronglySorted_unique str_le); [apply sort_strings_sorted..|].
  apply NoDup_Permutation; [apply NoDup_sorted_ids..|].
  intros id. by rewrite !elem_of_sorted_ids.
Qed.

Lemma sorted_ids_nonempty ms : ms ≠ ∅ → sorted_ids ms ≠ [].
Proof.
  intros H E. apply H, map_eq. intros id. rewrite lookup_empty.
  apply eq_None_not_Some. rewrite <- elem_of_sorted_ids, E. by apply not_elem_of_nil.
Qed.

Lemma sort_strings_idemp l : sort_strings (sort_strings l) = sort_strings l.
Proof. apply sort_strings_proper, sort_strings_perm. Qed.

(** Replacing a member by one with the same assignment. *)
Lemma insert_same_assignment (ms : gmap string Member) id m m' :
  ms !! id = Some m → Assignment m' = Assignment m →
  Assignment <$> <[id := m']> ms = Assignment <$> ms.
Proof.
  intros Hm Ha. rewrite fmap_insert, Ha. apply insert_id. by rewrite lookup_fmap, Hm.
Qed.

Lemma assigned_by_fmap tp (ms ms' : gmap string Member) :
  Assignment <$> ms' = Assignment <$> ms → assigned_by tp ms → assigned_by tp ms'.
Proof.
  intros Heq H id m' Hm'.
  assert (∀ i, Assignment <$> ms' !! i = Assignment <$> ms !! i) as Hl
    by (intros i; rewrite <- !lookup_fmap; by rewrite Heq).
  rewrite (sorted_ids_dom ms' ms).
  - pose proof (Hl id) as E. rewrite Hm' in E. cbn in E.
    destruct (ms !! id) as [m|] eqn:Hm; [|done]. injection E as ->. by apply H.
  - intros i. specialize (Hl i). destruct (ms' !! i), (ms !! i); try done; split; intros []; done.
Qed.

(** ** The rebalance steps keep the invariant *)

Ltac wrong_state :=
  unfold active; cbn; intros;
  repeat match goal with H : _ ∨ _ |- _ => destruct H end; congruence.

Lemma preparing_ok g : g_State g = PreparingRebalance → group_ok g.
Proof. intros H. split; wrong_state. Qed.

Lemma not_active_preparing g : g_State g = PreparingRebalance → ¬ active g.
Proof. intros H H'. revert H H'. wrong_state. Qed.

Lemma new_group_ok id : group_ok (new_group id).
Proof. split; first [done|wrong_state]. Qed.

Lemma topic_partitions_lookup c subs t ps :
  topic_partitions c subs !! t = Some ps → ∃ f, partitionsOf c = Some f ∧ t ∈ subs ∧ ps = f t.
Proof.
  unfold topic_partitions. destruct (partitionsOf c) as [f|]; [|by rewrite lookup_empty].
  intros H. apply lookup_set_to_map in H as (x & Hx & E); [|intros y y' _ _ Ey; exact Ey].
  injection E as <- <-. by exists f.
Qed.

Lemma topic_partitions_distinct c subs :
  distinct_partitions c → map_Forall (λ _ ps, NoDup ps) (topic_partitions c subs).
Proof. intros Hd t ps (f & Hf & _ & ->)%topic_partitions_lookup. by apply Hd. Qed.

Section rebalance.
Context (c : Coordinator) (Hc : distinct_partitions c).

Definition assign_members_map (g : Group) : gmap string Member :=
  let asg := RangeAssign (sorted_ids (Members g)) (topic_partitions c (subscriptions (Members g))) in
  map_imap (λ id m, Some (match asg !! id with
     | Some topics => set_Synced false (set_Assignment (Some topics) m)
     | None => m end)) (Members g).

Lemma finishAssignment_eq g :
  finishAssignment c g =
    if decide (Members g = ∅) then set_Leader "" (set_State Empty g)
    else {| g_ID := g_ID g; g_State := CompletingRebalance; Generation := Generation g;
            Members := assign_members_map g; Leader := default "" (head (sorted_ids (Members g))) |}.
Proof. done. Qed.

Lemma assign_members_lookup g id m' :
  assign_members_map g !! id = Some m' →
  ∃ m a, Members g !! id = Some m ∧
    RangeAssign (sorted_ids (Members g)) (topic_partitions c (subscriptions (Members g))) !! id = Some a ∧
    m' = set_Synced false (set_Assignment (Some a) m).
Proof.
  unfold assign_members_map. cbv zeta. rewrite map_lookup_imap. intros H.
  destruct (Members g !! id) as [m|] eqn:Hm; [|done]. cbn in H.
  assert (id ∈ sorted_ids (Members g)) as Hid by (apply elem_of_sorted_ids; by eexists).
  apply (assign_members _ (topic_partitions c (subscriptions (Members g)))) in Hid as [a Ha].
  rewrite Ha in H. injection H as <-. by exists m, a.
Qed.

Lemma assign_members_dom g id : is_Some (assign_members_map g !! id) ↔ is_Some (Members g !! id).
Proof. unfold assign_members_map. rewrite map_lookup_imap. by destruct (Members g !! id). Qed.

Lemma finishAssignment_ok g : group_ok (finishAssignment c g).
Proof using Hc.
  rewrite finishAssignment_eq. destruct (decide (Members g = ∅)) as [He|Hne].
  { split; first [done|wrong_state]. }
  assert (sorted_ids (assign_members_map g) = sorted_ids (Members g)) as Hids
    by (apply sorted_ids_dom, assign_members_dom).
  split; cbn; try done.
  - intros _. rewrite Hids. pose proof (sorted_ids_nonempty _ Hne). by destruct (sorted_ids (Members g)).
  - intros _. eexists. split; [by apply topic_partitions_distinct|].
    intros id m' H. rewrite Hids. by apply assign_members_lookup in H as (m & a & _ & -> & ->).
Qed.

Lemma finishAssignment_gen g : Generation (finishAssignment c g) = Generation g.
Proof. rewrite finishAssignment_eq. by destruct (decide _). Qed.

Lemma maybeCompleteJoin_ok now g :
  g_State g = PreparingRebalance →
  group_ok (maybeCompleteJoin c now g) ∧ Generation (maybeCompleteJoin c now g) = Generation g.
Proof using Hc.
  intros Hs. unfold maybeCompleteJoin. cbv zeta. destruct (_ && _).
  - split; [by apply preparing_ok|done].
  - split; [apply finishAssignment_ok|by rewrite finishAssignment_gen].
Qed.

Lemma completeDelayedJoin_ok now g :
  group_ok g →
  group_ok (completeDelayedJoin c now g) ∧ evolves g (completeDelayedJoin c now g).
Proof using Hc.
  intros Hg. unfold completeDelayedJoin. destruct (decide (g_State g = PreparingRebalance)) as [Hs|];
    [|by split]. cbv zeta.
  destruct (_ || _); [|by split]. split; [apply finishAssignment_ok|].
  split; [by rewrite finishAssignment_gen|]. intros _ Ha. by apply not_active_preparing in Hs.
Qed.

Lemma expire_group_ok now g :
  group_ok g → group_ok (expire_group c now g) ∧ evolves g (expire_group c now g).
Proof using Hc.
  intros Hg. unfold expire_group. cbv zeta. case_bool_decide as Hch.
  - set (g1 := beginRebalance _).
    assert (∀ g', Generation g' = Generation g1 → evolves g g') as Hlt.
    { intros g' E. assert (Generation g1 = Generation g + 1) by done. split; [lia|]. intros. lia. }
    destruct (decide (Members g1 = ∅)) as [He|].
    + split; [|by apply Hlt]. split; first [done|wrong_state].
    + destruct (completeDelayedJoin_ok now g1) as [Hok Hev]; [by apply preparing_ok|].
      split; [done|]. unfold completeDelayedJoin. destruct (decide _); [|by apply Hlt].
      destruct (_ || _); apply Hlt; [by rewrite finishAssignment_gen|done].
  - rewrite Hch.
    assert (set_Members (Members g) g = g) as -> by (by destruct g).
    by apply completeDelayedJoin_ok.
Qed.
End rebalance.

(** ** The requests keep the invariant *)

Definition all_ok (c : Coordinator) : Prop := map_Forall (λ _ g, group_ok g) (groups c).

(** The groups of [c'] are sound and each group of [c] evolved into them. *)
Definition groups_evolve (c c' : Coordinator) : Prop :=
  all_ok c' ∧
  ∀ id g, groups c !! id = Some g → ∃ g', groups c' !! id = Some g' ∧ evolves g g'.

Lemma groups_evolve_same c c' : groups c' = groups c → all_ok c → groups_evolve c c'.
Proof. intros E H. split; [by unfold all_ok; rewrite E|]. intros id g Hg. rewrite E. by exists g. Qed.

Lemma set_group_evolve c id g' :
  all_ok c → group_ok g' → (∀ g, groups c !! id = Some g → evolves g g') →
  groups_evolve c (set_group id g' c).
Proof.
  intros Hok Hg' Hev. split.
  - apply map_Forall_insert_2; [done|done].
  - intros id0 g Hg. cbn. destruct (decide (id0 = id)) as [->|Hne].
    + rewrite lookup_insert_eq. exists g'. split; [done|by apply Hev].
    + rewrite lookup_insert_ne by done. by exists g.
Qed.

(** An active group whose members keep their assignments. *)
Lemma same_assignments_ok g ms s :
  group_ok g → active g → Assignment <$> ms = Assignment <$> Members g →
  s = CompletingRebalance ∨ s = Stable ∧ map_Forall (λ _ m, Synced m = true) ms →
  let g' := set_State s (set_Members ms g) in group_ok g' ∧ evolves g g'.
Proof.
  intros Hok Ha Hms Hs. cbv zeta.
  assert (sorted_ids ms = sorted_ids (Members g)) as Hids.
  { apply sorted_ids_dom. intros id. apply (f_equal (λ m, m !! id)) in Hms.
    rewrite !lookup_fmap in Hms.
    destruct (ms !! id), (Members g !! id); try done; split; intros []; done. }
  assert (active (set_State s (set_Members ms g))) as Ha' by (destruct Hs as [->|[-> _]]; [by left|by right]).
  split; [split; cbn|].
  - destruct Hs as [->|[-> _]]; done.
  - intros _. rewrite Hids. by apply (ok_leader g).
  - intros _. destruct (ok_assigned g Hok Ha) as (tp & Htp & Hby). exists tp.
    split; [done|]. by eapply assigned_by_fmap.
  - intros ->. by destruct Hs as [|[_ ?]].
  - split; [done|]. intros _ _. split; [done|]. by cbn.
Qed.

Lemma active_with_member g id m :
  group_ok g → Members g !! id = Some m → g_State g ≠ PreparingRebalance → active g.
Proof.
  intros Hok Hm Hs. unfold active. destruct (g_State g) eqn:E; [|done|by left|by right].
  rewrite (ok_empty g Hok E), lookup_empty in Hm. done.
Qed.

Section requests.
Context (c : Coordinator) (Hc : distinct_partitions c) (Hok : all_ok c).

Lemma Join_evolve now fresh gid mid topics :
  groups_evolve c (snd (Join now fresh gid mid topics c)).
Proof using Hc Hok.
  unfold Join. cbv zeta. cbn [snd].
  set (id := if bool_decide (mid = "") then fresh else mid).
  set (g0 := group c gid). set (g1 := set_Members (<[id := _]> (Members g0)) g0).
  set (g2 := if decide (g_State g1 = PreparingRebalance) then g1 else beginRebalance g1).
  set (g3 := set_Members (alter (set_Joined true) id (Members g2)) g2).
  assert (g_State g3 = PreparingRebalance) as Hs3 by (unfold g3, g2; by destruct (decide _)).
  rewrite decide_True by done. destruct (maybeCompleteJoin_ok c Hc now g3 Hs3) as [Hok3 Hgen].
  apply set_group_evolve; [done|done|]. intros g Hg.
  assert (g0 = g) as E by (unfold g0, group; by rewrite Hg).
  split; rewrite Hgen; unfold g3, g2; cbn [Generation set_Members].
  - destruct (decide _); cbn; rewrite E; lia.
  - destruct (decide (g_State g1 = PreparingRebalance)) as [Hs|]; cbn; rewrite E; [|lia].
    intros _ Ha. unfold g1 in Hs. cbn in Hs. rewrite E in Hs. by apply not_active_preparing in Hs.
Qed.

Lemma Sync_evolve now gid mid gen : groups_evolve c (snd (Sync now gid mid gen c)).
Proof using Hok.
  unfold Sync. destruct (groups c !! gid) as [g|] eqn:Hg; [|by apply groups_evolve_same].
  cbv zeta. destruct (negb _); [by apply groups_evolve_same|].
  destruct (Members g !! mid) as [m|] eqn:Hm; [|by apply groups_evolve_same].
  destruct (decide (g_State g = PreparingRebalance)); [by apply groups_evolve_same|]. cbn [snd].
  pose proof (Hok gid g Hg) as Hgok. pose proof (active_with_member g mid m Hgok Hm n) as Ha.
  set (m' := set_Synced true (set_LastHeartbeat now m)).
  pose proof (insert_same_assignment (Members g) mid m m' Hm eq_refl) as Hsame.
  set (ms := <[mid := m']> (Members g)) in *.
  assert (∀ s, s = CompletingRebalance ∨ s = Stable ∧ map_Forall (λ _ m, Synced m = true) ms →
    groups_evolve c (set_group gid (set_State s (set_Members ms g)) c)) as Hgo.
  { intros s Hs. destruct (same_assignments_ok g ms s Hgok Ha Hsame Hs) as [Hok' Hev].
    apply set_group_evolve; [done|done|]. intros g' Hg'. congruence. }
  destruct (decide (g_State (set_Members ms g) = CompletingRebalance)) as [Hs|Hs].
  - case_bool_decide as Hall; [apply Hgo; by right|].
    replace (set_Members ms g) with (set_State CompletingRebalance (set_Members ms g))
      by (cbn in Hs; rewrite <- Hs; by destruct g). apply Hgo. by left.
  - destruct Ha as [Ha|Ha]; [done|].
    replace (set_Members ms g) with (set_State Stable (set_Members ms g))
      by (rewrite <- Ha; by destruct g). apply Hgo. right. split; [done|].
    apply map_Forall_insert_2; [done|by apply (ok_synced g)].
Qed.

Lemma Heartbeat_evolve now gid mid gen : groups_evolve c (snd (Heartbeat now gid mid gen c)).
Proof using Hok.
  unfold Heartbeat. destruct (groups c !! gid) as [g|] eqn:Hg; [|by apply groups_evolve_same].
  destruct (Members g !! mid) as [m|] eqn:Hm; [|by apply groups_evolve_same].
  destruct (_ || _) eqn:E; [by apply groups_evolve_same|]. cbn [snd].
  apply orb_false_iff in E as [_ E]. rewrite negb_false_iff, bool_decide_eq_true in E.
  pose proof (Hok gid g Hg) as Hgok.
  pose proof (insert_same_assignment (Members g) mid m (set_LastHeartbeat now m) Hm eq_refl) as Hsame.
  set (ms := <[mid := _]> (Members g)) in *.
  replace (set_Members ms g) with (set_State Stable (set_Members ms g)) by (rewrite <- E; by destruct g).
  destruct (same_assignments_ok g ms Stable) as [Hok' Hev]; [done|by right|done| |].
  { right. split; [done|]. pose proof (ok_synced g Hgok E) as Hs.
    apply map_Forall_insert_2; [by apply (Hs mid m)|done]. }
  apply set_group_evolve; [done|done|]. intros g' Hg'. congruence.
Qed.

Lemma Leave_evolve now gid mid : groups_evolve c (Leave now gid mid c).
Proof using Hc Hok.
  unfold Leave. destruct (groups c !! gid) as [g|] eqn:Hg; [|by apply groups_evolve_same].
  destruct (maybeCompleteJoin_ok c Hc now (beginRebalance (set_Members (delete mid (Members g)) g)))
    as [Hok' Hgen]; [done|].
  apply set_group_evolve; [done|done|]. intros g' Hg'. assert (g' = g) as -> by congruence.
  split; rewrite Hgen; cbn; [lia|]. intros. lia.
Qed.

Lemma Expire_evolve now : groups_evolve c (Expire now c).
Proof using Hc Hok.
  split.
  - intros id g'. cbn. rewrite lookup_fmap, fmap_Some. intros (g & Hg & ->).
    by apply expire_group_ok, (Hok id g).
  - intros id g Hg. cbn. rewrite lookup_fmap, Hg. eexists. split; [done|].
    by apply expire_group_ok, (Hok id g).
Qed.
End requests.

Lemma commit_all_groups gid os c calls c' :
  commit_all gid os c = (calls, c') → groups c' = groups c ∧ partitionsOf c' = partitionsOf c ∧
    saved c' = saved c.
Proof.
  revert c calls c'. induction os as [|o os IH]; intros c calls c' H; cbn in H; [by injection H as <- <-|].
  destruct (commit_all _ _ _) as [calls1 c1] eqn:E. apply IH in E. by injection H as _ <-.
Qed.

Lemma handle_evolve r c :
  distinct_partitions c → all_ok c → groups_evolve c (handle r c).
Proof.
  intros Hc Hok. destruct r; cbn [handle].
  - by apply Join_evolve.
  - by apply Sync_evolve.
  - by apply Heartbeat_evolve.
  - by apply Leave_evolve.
  - by apply Expire_evolve.
  - apply groups_evolve_same; [|done]. unfold Commit.
    destruct (commit_all _ _ _) as [calls c'] eqn:E. apply commit_all_groups in E as [E _].
    unfold persistOffsets. by destruct disk_ok.
  - apply groups_evolve_same; [|done]. unfold ApplyOffset, persistOffsets. by destruct disk_ok.
  - by apply groups_evolve_same.
  - by apply groups_evolve_same.
Qed.

Lemma reachable_ok c : reachable c → distinct_partitions c ∧ all_ok c.
Proof.
  induction 1 as [stored session rebalance f Hf|c c' _ [Hd Hok] [r Hd']].
  - split; [|done]. intros f' t [= <-]. apply Hf.
  - split; [done|]. by apply handle_evolve.
Qed.

Lemma steps_evolve c c' :
  reachable c → rtc step c c' →
  reachable c' ∧ ∀ id g, groups c !! id = Some g → ∃ g', groups c' !! id = Some g' ∧ evolves g g'.
Proof.
  intros Hr Hs. induction Hs as [c|c c1 c' Hstep Hs IH]; [split; [done|]; intros id g Hg; by exists g|].
  assert (reachable c1) as Hr1 by (by eapply reach_step).
  destruct (IH Hr1) as [Hr' Hev]. split; [done|]. intros id g Hg.
  destruct (reachable_ok c Hr) as [Hd Hok]. destruct Hstep as [r Hd'].
  destruct (handle_evolve r c Hd Hok) as [_ Hev1]. destruct (Hev1 id g Hg) as (g1 & Hg1 & E1).
  destruct (Hev id g1 Hg1) as (g' & Hg' & E2). exists g'. split; [done|]. by etrans.
Qed.

(** ** Who owns what *)

(** Member [id] of [g] owns partition [p] of topic [t]. *)
Definition owns (g : Group) (id t : string) (p : Z) : Prop :=
  ∃ m a, Members g !! id = Some m ∧ Assignment m = Some a ∧ p ∈ default [] (a !! t).

Section assignor.
Context (assign : list string → gmap string (list Z) → assignments) `{!PartitionAssignor assign}.

(** Any assignor that keeps its promise gives a partition to one member only. *)
Lemma assign_exclusive ms tp id1 id2 t p :
  NoDup ms → NoDup (default [] (tp !! t)) → id1 ∈ ms → id2 ∈ ms →
  p ∈ share (assign ms tp) id1 t → p ∈ share (assign ms tp) id2 t → id1 = id2.
Proof using PartitionAssignor0.
  intros Hms Hps H1 H2 Hp1 Hp2.
  apply list_elem_of_lookup in H1 as [i Hi]. apply list_elem_of_lookup in H2 as [j Hj].
  assert (i = j) as ->; [|congruence].
  eapply (NoDup_concat_lookup ((λ m, share (assign ms tp) m t) <$> ms)); [| | |exact Hp1|exact Hp2].
  - rewrite assign_all; [done|done|]. intros ->. by rewrite lookup_nil in Hi.
  - by rewrite list_lookup_fmap, Hi.
  - by rewrite list_lookup_fmap, Hj.
Qed.

(** ... and leaves none out. *)
Lemma assign_total ms tp t p :
  NoDup ms → ms ≠ [] → p ∈ default [] (tp !! t) → ∃ id, id ∈ ms ∧ p ∈ share (assign ms tp) id t.
Proof using PartitionAssignor0.
  intros Hms Hne Hp. rewrite <- (assign_all ms tp t Hms Hne) in Hp.
  apply elem_of_concat in Hp as (ps & Hp & Hin). apply list_elem_of_fmap in Hin as (id & -> & Hid).
  by exists id.
Qed.

Lemma assign_sound ms tp id t p :
  NoDup ms → id ∈ ms → p ∈ share (assign ms tp) id t → p ∈ default [] (tp !! t).
Proof using PartitionAssignor0.
  intros Hms Hid Hp. rewrite <- (assign_all ms tp t Hms) by (intros ->; by apply not_elem_of_nil in Hid).
  eapply elem_of_sublist; [exact Hp|]. apply concat_sublist, list_elem_of_fmap. by exists id.
Qed.
End assignor.

Lemma owns_share g tp id t p :
  assigned_by tp (Members g) →
  owns g id t p ↔ id ∈ sorted_ids (Members g) ∧ p ∈ share (RangeAssign (sorted_ids (Members g)) tp) id t.
Proof.
  intros Hby. unfold owns, share. rewrite elem_of_sorted_ids. split.
  - intros (m & a & Hm & Ha & Hp). rewrite (Hby id m Hm) in Ha. rewrite Ha. split; [by eexists|done].
  - intros [[m Hm] Hp]. destruct (RangeAssign _ _ !! id) as [a|] eqn:E.
    + exists m, a. by rewrite (Hby id m Hm).
    + cbn in Hp. rewrite lookup_empty in Hp. by apply not_elem_of_nil in Hp.
Qed.

Lemma active_exclusive g id1 id2 t p :
  group_ok g → active g → owns g id1 t p → owns g id2 t p → id1 = id2.
Proof.
  intros Hok Ha. destruct (ok_assigned g Hok Ha) as (tp & Htp & Hby).
  rewrite !(owns_share g tp) by done. intros [H1 Hp1] [H2 Hp2].
  eapply (assign_exclusive RangeAssign); [apply NoDup_sorted_ids| |exact H1|exact H2|exact Hp1|exact Hp2].
  destruct (tp !! t) as [ps|] eqn:E; [by apply (Htp t)|constructor].
Qed.

Lemma elem_of_subscriptions ms t :
  t ∈ subscriptions ms ↔ ∃ id m, ms !! id = Some m ∧ t ∈ Topics m.
Proof.
  unfold subscriptions.
  apply (map_fold_weak_ind (λ acc ms, t ∈ acc ↔ ∃ id m, ms !! id = Some m ∧ t ∈ Topics m)).
  - split; [by intros ?%not_elem_of_empty|]. intros (id & m & H & _). by rewrite lookup_empty in H.
  - intros i m ms' acc Hi IH. rewrite elem_of_union, elem_of_list_to_set, IH. split.
    + intros [Ht|(id & m' & Hm & Ht)]; [exists i, m; by rewrite lookup_insert_eq|].
      exists id, m'. rewrite lookup_insert_ne; [done|congruence].
    + intros (id & m' & Hm & Ht). apply lookup_insert_Some in Hm as [[<- <-]|[_ Hm]]; [by left|].
      right. by exists id, m'.
Qed.

(** ** Properties *)

(** A run used by the witnesses: two members of the group "g" join, wait out
    the rebalance and sync. *)
Definition two_topics (t : string) : list Z :=
  if decide (t = "events"%string) then [0; 1; 2; 3; 4] else [].
Definition run (rs : list request) : Coordinator :=
  foldl (λ c r, handle r c) (New ∅ 10 2 (Some two_topics)) rs.
Definition joined_requests : list request :=
  [ReqJoin 1 "" "g" "a" ["events"%string]; ReqJoin 2 "" "g" "b" ["events"%string];
   ReqJoin 3 "" "g" "a" ["events"%string]].
Definition joined : Coordinator := run joined_requests.
Definition synced : Coordinator := handle (ReqSync 4 "g" "a" 2) joined.

Lemma two_topics_distinct t : NoDup (two_topics t).
Proof. unfold two_topics. case_decide; apply (bool_decide_unpack _); vm_compute; exact I. Qed.

Definition no_env (r : request) : bool := match r with EnvPartitions _ => false | _ => true end.

Lemma handle_partitionsOf r c : no_env r = true → partitionsOf (handle r c) = partitionsOf c.
Proof.
  destruct r; cbn [handle no_env]; intros H; try done.
  - unfold Sync. repeat (case_match; try done).
  - unfold Heartbeat. repeat (case_match; try done).
  - unfold Leave. by case_match.
  - unfold Commit. destruct (commit_all _ _ _) as [calls c'] eqn:E.
    apply commit_all_groups in E as (_ & E & _). unfold persistOffsets. by destruct disk_ok.
  - unfold ApplyOffset, persistOffsets. by destruct disk_ok.
Qed.

Lemma run_reachable rs c0 :
  reachable c0 → Forall (λ r, no_env r = true) rs → reachable (foldl (λ c r, handle r c) c0 rs).
Proof.
  intros Hr Hrs. revert c0 Hr. induction Hrs as [|r rs Hr _ IH]; intros c0 Hc0; [done|].
  cbn. apply IH. eapply reach_step; [done|]. constructor.
  intros f t Hf. rewrite handle_partitionsOf in Hf by done. by apply (reachable_ok c0 Hc0).
Qed.

Lemma joined_reachable : reachable joined.
Proof.
  apply run_reachable; [constructor; apply two_topics_distinct|]. repeat constructor.
Qed.

(** C17: in every reachable state, once a group has assigned its partitions
    every member holds an assignment, no partition belongs to two members, the
    leader is the first member in name order, and a group is Stable only when
    every member has synced. *)
Theorem assigned_partitions_are_exclusive c gid g
    (Hc : reachable c) (Hg : groups c !! gid = Some g) (Ha : active g) :
  (∀ id1 id2 t p, owns g id1 t p → owns g id2 t p → id1 = id2) ∧
  (∀ id m, Members g !! id = Some m → is_Some (Assignment m)) ∧
  head (sort_strings (member_ids g)) = Some (Leader g) ∧
  (g_State g = Stable → ∀ id m, Members g !! id = Some m → Synced m = true).
Proof.
  destruct (reachable_ok c Hc) as [_ Hok]. specialize (Hok gid g Hg).
  split; [intros; by eapply active_exclusive|]. split; [|split; [by apply ok_leader|by apply ok_synced]].
  intros id m Hm. destruct (ok_assigned g Hok Ha) as (tp & _ & Hby). rewrite (Hby id m Hm).
  apply assign_members, elem_of_sorted_ids. by eexists.
Qed.

Lemma assigned_partitions_are_exclusive_witness :
  ∃ g, groups joined !! "g"%string = Some g ∧ active g ∧ owns g "a" "events" 0 ∧ owns g "b" "events" 4 ∧
    (∀ id1 id2 t p, owns g id1 t p → owns g id2 t p → id1 = id2) ∧
    (∀ id m, Members g !! id = Some m → is_Some (Assignment m)) ∧
    head (sort_strings (member_ids g)) = Some (Leader g) ∧
    (g_State g = Stable → ∀ id m, Members g !! id = Some m → Synced m = true).
Proof.
  eexists. split; [vm_compute; reflexivity|]. split; [by left|].
  split; [do 2 eexists; split; [vm_compute; reflexivity|split; [reflexivity|apply (bool_decide_unpack _); vm_compute; exact I]]|].
  split; [do 2 eexists; split; [vm_compute; reflexivity|split; [reflexivity|apply (bool_decide_unpack _); vm_compute; exact I]]|].
  apply (assigned_partitions_are_exclusive joined "g"); [apply joined_reachable|vm_compute; reflexivity|by left].
Defined.

Lemma Sync_success now gid mid gen c a gen' s c' :
  reachable c → Sync now gid mid gen c = (inl a, gen', s, c') →
  ∃ g m, groups c !! gid = Some g ∧ group_ok g ∧ active g ∧ Generation g = gen ∧
    Members g !! mid = Some m ∧ a = default ∅ (Assignment m) ∧ c' = handle (ReqSync now gid mid gen) c.
Proof.
  intros Hr H. destruct (reachable_ok c Hr) as [_ Hok].
  assert (c' = snd (Sync now gid mid gen c)) as -> by (by rewrite H).
  unfold Sync in H. destruct (groups c !! gid) as [g|] eqn:Hg; [|done]. cbv zeta in H.
  destruct (Z.eqb_spec gen (Generation g)) as [Egen|]; [|done]. cbn [negb] in H.
  destruct (Members g !! mid) as [m|] eqn:Hm; [|done].
  destruct (decide (g_State g = PreparingRebalance)) as [|Hs]; [done|].
  injection H as Ha _ _. pose proof (Hok gid g Hg) as Hgok.
  exists g, m. split_and!; try done. by eapply active_with_member.
Qed.

(** C16: within one generation of a group, members that sync successfully are
    given disjoint partitions, whatever requests come in between. *)
Theorem synced_members_share_nothing now1 now2 gid m1 m2 gen a1 a2 g1 s1 g2 s2 c1 c1' c2 c2'
    (Hc : reachable c1)
    (Hsync1 : Sync now1 gid m1 gen c1 = (inl a1, g1, s1, c1'))
    (Hsteps : rtc step c1' c2)
    (Hsync2 : Sync now2 gid m2 gen c2 = (inl a2, g2, s2, c2'))
    (Hne : m1 ≠ m2) t p (Hp : p ∈ default [] (a1 !! t)) :
  p ∉ default [] (a2 !! t).
Proof.
  intros Hp2.
  destruct (Sync_success _ _ _ _ _ _ _ _ _ Hc Hsync1) as (g & m & Hg & Hgok & Ha & Hgen & Hm & -> & Hc1').
  assert (rtc step c1 c2) as Hrtc.
  { eapply rtc_l; [|exact Hsteps]. rewrite Hc1'. constructor.
    intros f tt Hf. rewrite handle_partitionsOf in Hf by done. by apply (reachable_ok c1 Hc). }
  destruct (steps_evolve c1 c2 Hc Hrtc) as [Hr2 Hev].
  destruct (Sync_success _ _ _ _ _ _ _ _ _ Hr2 Hsync2) as (g' & m' & Hg' & Hgok' & Ha' & Hgen' & Hm' & -> & _).
  destruct (Hev gid g Hg) as (g'' & Hg'' & [_ Hsame]). assert (g'' = g') as -> by congruence.
  destruct Hsame as [_ Hsame]; [congruence|done|].
  destruct (Assignment m') as [a'|] eqn:Ea'; [|cbn in Hp2; rewrite lookup_empty in Hp2; by apply not_elem_of_nil in Hp2].
  destruct (Assignment m) as [a|] eqn:Ea; [|cbn in Hp; rewrite lookup_empty in Hp; by apply not_elem_of_nil in Hp].
  apply Hne. eapply (active_exclusive g'); [done|done| |by exists m', a'].
  apply (f_equal (λ ms, ms !! m1)) in Hsame. rewrite !lookup_fmap, Hm in Hsame.
  destruct (Members g' !! m1) as [m1'|] eqn:Em1; [|done].
  injection Hsame as Hsame. exists m1', a. by rewrite Hsame.
Qed.

Lemma synced_members_share_nothing_witness :
  ∃ a1 a2, fst (fst (fst (Sync 4 "g" "a" 2 joined))) = inl a1 ∧
    fst (fst (fst (Sync 5 "g" "b" 2 synced))) = inl a2 ∧ 2 ∈ default [] (a1 !! "events"%string) ∧
    2 ∉ default [] (a2 !! "events"%string).
Proof.
  do 2 eexists. split; [vm_compute; reflexivity|]. split; [vm_compute; reflexivity|].
  assert (2 ∈ [0; 1; 2]) as Hp by (apply (bool_decide_unpack _); vm_compute; exact I).
  split; [exact Hp|].
  eapply (synced_members_share_nothing 4 5 "g" "a" "b" 2 _ _ _ _ _ _ joined synced synced _
    joined_reachable); [vm_compute; reflexivity|apply rtc_refl|vm_compute; reflexivity|discriminate|exact Hp].
Defined.

(** Generations never go back and groups never disappear: any sequence of
    requests leaves every group at the same or a later generation, and within
    the same generation an assigned group keeps its assignments. *)
Theorem generations_never_retreat c c' gid g
    (Hc : reachable c) (Hsteps : rtc step c c') (Hg : groups c !! gid = Some g) :
  ∃ g', groups c' !! gid = Some g' ∧ Generation g ≤ Generation g' ∧
    (Generation g = Generation g' → active g →
     active g' ∧ Assignment <$> Members g' = Assignment <$> Members g).
Proof. by apply (steps_evolve c c' Hc Hsteps). Qed.

Definition joined_group : Group := Eval vm_compute in
  default (new_group "") (groups joined !! "g"%string).

Lemma synced_step : step joined synced.
Proof.
  apply (step_request joined (ReqSync 4 "g" "a" 2)). intros f t Hf.
  rewrite handle_partitionsOf in Hf by reflexivity. by apply (reachable_ok joined joined_reachable).
Qed.

Lemma generations_never_retreat_witness :
  ∃ g', groups synced !! "g"%string = Some g' ∧ Generation joined_group ≤ Generation g' ∧
    (Generation joined_group = Generation g' → active joined_group →
     active g' ∧ Assignment <$> Members g' = Assignment <$> Members joined_group).
Proof.
  apply (generations_never_retreat joined synced "g" joined_group joined_reachable).
  - apply rtc_once, synced_step.
  - vm_compute. reflexivity.
Defined.

(** C28: completing a rebalance covers the subscriptions: of every topic some
    member subscribes to, each partition is owned by exactly one member, and
    nothing else is owned; a group without members becomes Empty. *)
Theorem finish_assignment_covers_subscriptions c g (Hc : distinct_partitions c) :
  let g' := finishAssignment c g in
  if decide (Members g = ∅) then g_State g' = Empty ∧ Members g' = ∅
  else g_State g' = CompletingRebalance ∧
    (∀ t p, (∃ f, partitionsOf c = Some f ∧ t ∈ subscriptions (Members g) ∧ p ∈ f t) ↔
            ∃ id, owns g' id t p) ∧
    (∀ id1 id2 t p, owns g' id1 t p → owns g' id2 t p → id1 = id2).
Proof.
  cbv zeta. pose proof (finishAssignment_ok c Hc g) as Hok. revert Hok.
  rewrite finishAssignment_eq. destruct (decide (Members g = ∅)) as [He|Hne]; [done|].
  intros Hok. set (g' := Build_Group _ _ _ _ _) in *. split; [done|].
  assert (active g') as Ha by (by left). split; [|intros; by eapply active_exclusive].
  set (tp := topic_partitions c (subscriptions (Members g))).
  assert (sorted_ids (Members g') = sorted_ids (Members g)) as Hids
    by (apply sorted_ids_dom, assign_members_dom).
  assert (assigned_by tp (Members g')) as Hby.
  { intros id m' Hm'. rewrite Hids.
    apply (assign_members_lookup c g id m') in Hm' as (m & a & _ & Ha' & ->). symmetry. exact Ha'. }
  assert (∀ t p, p ∈ default [] (tp !! t) ↔
    ∃ f, partitionsOf c = Some f ∧ t ∈ subscriptions (Members g) ∧ p ∈ f t) as Htp.
  { intros t p. split.
    - destruct (tp !! t) as [ps|] eqn:E; [|by intros ?%not_elem_of_nil].
      apply topic_partitions_lookup in E as (f & Hf & Ht & ->). by exists f.
    - intros (f & Hf & Ht & Hp). unfold tp, topic_partitions. rewrite Hf.
      assert (set_to_map (λ t, (t, f t)) (subscriptions (Members g)) !! t = Some (f t)) as ->; [|done].
      apply lookup_set_to_map; [intros y y' _ _ E; exact E|]. by exists t. }
  intros t p. rewrite <- Htp. split.
  - intros Hp. apply (assign_total RangeAssign (sorted_ids (Members g'))) in Hp as (id & Hid & Hp);
      [|apply NoDup_sorted_ids|rewrite Hids; by apply sorted_ids_nonempty].
    exists id. by apply (owns_share g' tp).
  - intros (id & [Hid Hp]%(owns_share g' tp)); [|done].
    by eapply (assign_sound RangeAssign); [apply NoDup_sorted_ids|exact Hid|].
Qed.

Lemma joined_group_nonempty : Members joined_group ≠ ∅.
Proof.
  intros E. apply (f_equal (λ ms : gmap string Member, bool_decide (ms = ∅))) in E.
  vm_compute in E. discriminate E.
Qed.

Lemma finish_assignment_covers_subscriptions_witness :
  let g' := finishAssignment joined joined_group in
  g_State g' = CompletingRebalance ∧
  (∀ t p, (∃ f, partitionsOf joined = Some f ∧ t ∈ subscriptions (Members joined_group) ∧ p ∈ f t) ↔
          ∃ id, owns g' id t p) ∧
  (∀ id1 id2 t p, owns g' id1 t p → owns g' id2 t p → id1 = id2).
Proof.
  pose proof (finish_assignment_covers_subscriptions joined joined_group
    (proj1 (reachable_ok joined joined_reachable))) as H.
  cbv zeta in H. rewrite decide_False in H by exact joined_group_nonempty. exact H.
Defined.

(** A heartbeat succeeds exactly when the group is known, the member is in
    it, the generation is the current one and the group is Stable; it then only
    renews the member's heartbeat. Every refusal leaves the coordinator as it
    was and tells the state. *)
Theorem heartbeat_accepts_exactly_stable_members now gid mid gen c :
  let '(err, state, c') := Heartbeat now gid mid gen c in
  match groups c !! gid with
  | Some g =>
    state = State_String (g_State g) ∧
    match Members g !! mid with
    | Some m =>
      if decide (gen = Generation g ∧ g_State g = Stable)
      then err = None ∧
        c' = set_group gid (set_Members (<[mid := set_LastHeartbeat now m]> (Members g)) g) c
      else err = Some ErrRebalanceInProgress ∧ c' = c
    | None => err = Some ErrUnknownMember ∧ c' = c
    end
  | None => err = Some ErrUnknownGroup ∧ state = ""%string ∧ c' = c
  end.
Proof.
  unfold Heartbeat. destruct (groups c !! gid) as [g|]; [|done].
  destruct (Members g !! mid) as [m|]; [|done].
  destruct (Z.eqb_spec gen (Generation g)) as [->|Hne]; cbn [negb orb].
  - case_bool_decide as Hs; cbn [negb].
    + by rewrite decide_True.
    + rewrite decide_False by tauto. done.
  - rewrite decide_False by tauto. done.
Qed.

(** ** A rebalance ends *)

Lemma oldest_heartbeat_le now (ms : gmap string Member) id m :
  ms !! id = Some m → oldest_heartbeat now ms ≤ LastHeartbeat m.
Proof.
  unfold oldest_heartbeat. revert id m.
  apply (map_fold_weak_ind (λ hb ms, ∀ id m, ms !! id = Some m → hb ≤ LastHeartbeat m)).
  - intros id m. by rewrite lookup_empty.
  - intros i x ms' hb _ IH id m [[-> ->]|[_ Hm]]%lookup_insert_Some; [lia|].
    specialize (IH id m Hm). lia.
Qed.

Lemma finishAssignment_not_preparing c g : g_State (finishAssignment c g) ≠ PreparingRebalance.
Proof. rewrite finishAssignment_eq. by destruct (decide _). Qed.

Lemma completeDelayedJoin_waits c now g :
  g_State (completeDelayedJoin c now g) = PreparingRebalance →
  completeDelayedJoin c now g = g ∧
  ¬ map_Forall (λ _ m, Joined m = true) (Members g) ∧
  (∀ id m, Members g !! id = Some m → now - LastHeartbeat m ≤ rebalanceWait c).
Proof.
  unfold completeDelayedJoin. destruct (decide (g_State g = PreparingRebalance)); [|done].
  cbv zeta. destruct (bool_decide _) eqn:Ej; [by intros ?%finishAssignment_not_preparing|].
  apply bool_decide_eq_false in Ej. cbn [orb].
  destruct (Z.ltb_spec (rebalanceWait c) (now - oldest_heartbeat now (Members g)));
    [by intros ?%finishAssignment_not_preparing|].
  intros _. split_and!; [done|done|]. intros id m Hm.
  pose proof (oldest_heartbeat_le now (Members g) id m Hm). lia.
Qed.

(** The ticker ends rebalances: after [Expire] a group that is still
    preparing has a member that did not join yet, every member has been heard of
    within the rebalance wait and within the session timeout. So a rebalance
    nobody contributes to is over at the first tick past the rebalance wait. *)
Theorem expire_bounds_the_rebalance now c gid g'
    (Hg' : groups (Expire now c) !! gid = Some g') (Hs : g_State g' = PreparingRebalance) :
  (∃ id m, Members g' !! id = Some m ∧ Joined m = false) ∧
  (∀ id m, Members g' !! id = Some m →
     now - LastHeartbeat m ≤ rebalanceWait c ∧ now - LastHeartbeat m ≤ sessionTimeout c).
Proof.
  cbn in Hg'. rewrite lookup_fmap, fmap_Some in Hg'. destruct Hg' as (g & Hg & ->).
  assert (∃ g1, expire_group c now g = completeDelayedJoin c now g1 ∧
    (∀ id m, Members g1 !! id = Some m → now - LastHeartbeat m ≤ sessionTimeout c)) as (g1 & E & Hsess).
  { assert (∀ id m, filter (λ '(_, m), expired c now m = false) (Members g) !! id = Some m →
      now - LastHeartbeat m ≤ sessionTimeout c) as Hf.
    { intros id m [_ He]%map_lookup_filter_Some. unfold expired in He. apply Z.ltb_ge in He. lia. }
    revert Hs. unfold expire_group. cbv zeta. destruct (bool_decide _).
    - destruct (decide _); [done|]. intros _. eexists. split; [done|]. cbn.
      intros id m. rewrite lookup_fmap, fmap_Some. intros (m0 & Hm0 & ->). cbn. by apply (Hf id).
    - intros _. eexists. split; [done|]. exact Hf. }
  rewrite E in Hs |- *. destruct (completeDelayedJoin_waits c now g1 Hs) as (-> & Hj & Hw).
  split; [|intros id m Hm; split; [by apply (Hw id)|by apply (Hsess id)]].
  apply map_not_Forall in Hj as (id & m & Hm & Hj); [|intros; apply _].
  exists id, m. split; [done|]. by destruct (Joined m).
Qed.

Lemma expire_bounds_the_rebalance_witness :
  let c := run (take 2 joined_requests) in
  ∃ g', groups (Expire 3 c) !! "g"%string = Some g' ∧
    (∃ id m, Members g' !! id = Some m ∧ Joined m = false) ∧
    (∀ id m, Members g' !! id = Some m →
       3 - LastHeartbeat m ≤ rebalanceWait c ∧ 3 - LastHeartbeat m ≤ sessionTimeout c).
Proof.
  cbv zeta. eexists. split; [vm_compute; reflexivity|].
  apply (expire_bounds_the_rebalance 3 (run (take 2 joined_requests)) "g"); vm_compute; reflexivity.
Defined.

Definition two_subscriptions : Coordinator :=
  foldl (λ c r, handle r c) (New ∅ 10 2 (Some (λ _, [0; 1])))
    [ReqJoin 1 "" "g" "a" ["x"%string]; ReqJoin 2 "" "g" "b" ["y"%string]; ReqJoin 3 "" "g" "a" ["x"%string]].

(** [finishAssignment] hands every subscribed topic to all members alike:
    a member gets partitions of a topic it never subscribed to, and the member
    that did subscribe does not get them. *)
Theorem members_get_topics_they_did_not_ask_for :
  ∃ g ma mb, groups two_subscriptions !! "g"%string = Some g ∧
    Members g !! "a"%string = Some ma ∧ Topics ma = ["x"%string] ∧
    Members g !! "b"%string = Some mb ∧ Topics mb = ["y"%string] ∧
    Assignment ma = Some {[ "x" := [0]; "y" := [0] ]}%string ∧
    Assignment mb = Some {[ "x" := [1]; "y" := [1] ]}%string.
Proof. do 3 eexists. split_and!; vm_compute; reflexivity. Qed.
