(* ===== verification/GroupOffsets.v ===== *)
(** Committed consumer offsets: the coordinator's table of strings against the
    map from (group, topic, partition) it stands for. *)
From S2P Require Import Prelude GoStrings Coordinator.
Open Scope Z_scope.

(** ** The key format *)

Definition slash_free (s : string) : Prop := "/"%char ∉ to_chars s.

#[global] Instance slash_free_dec s : Decision (slash_free s).
Proof. unfold slash_free. apply _. Defined.

Lemma split_first_inj (c : ascii) (a a' b b' : chars) :
  c ∉ a → c ∉ a' → a ++ c :: b = a' ++ c :: b' → a = a' ∧ b = b'.
Proof.
  revert a'. induction a as [|x a IH]; intros [|x' a'] Ha Ha' H; cbn in H.
  - by injection H as ->.
  - injection H as -> _. by destruct Ha'; left.
  - injection H as -> _. by destruct Ha; left.
  - injection H as -> H. rewrite not_elem_of_cons in Ha, Ha'.
    destruct (IH a') as [-> ->]; [tauto..|done|done].
Qed.

Lemma offsetKey_chars g t p :
  to_chars (offsetKey g t p) = to_chars g ++ "/"%char :: to_chars t ++ "/"%char :: to_chars (Itoa p).
Proof. unfold offsetKey. by rewrite !to_chars_app. Qed.

Lemma offsetKey_inj g g' t t' p p' :
  slash_free g → slash_free g' → - 2 ^ 63 ≤ p < 2 ^ 63 → - 2 ^ 63 ≤ p' < 2 ^ 63 →
  offsetKey g t p = offsetKey g' t' p' → g = g' ∧ t = t' ∧ p = p'.
Proof.
  intros Hg Hg' Hp Hp' H. apply (f_equal to_chars) in H. rewrite !offsetKey_chars in H.
  apply split_first_inj in H as [E1 E2]; [|done|done].
  apply (f_equal (split_last "/"%char)) in E2.
  rewrite !split_last_app in E2 by apply Itoa_no_slash. injection E2 as Et Ep.
  apply to_chars_inj in E1, Et, Ep. by apply Itoa_inj in Ep.
Qed.

Lemma parse_own_key g t p :
  - 2 ^ 63 ≤ p < 2 ^ 63 → parse_offset_key g (offsetKey g t p) = Some (t, p).
Proof.
  intros Hp. unfold parse_offset_key, HasPrefix. cbv zeta.
  rewrite offsetKey_chars, to_chars_app. change (to_chars "/") with ["/"%char].
  set (tl := to_chars t ++ _).
  assert (to_chars g ++ "/"%char :: tl = (to_chars g ++ ["/"%char]) ++ tl) as -> by (by rewrite <- app_assoc).
  rewrite take_app_length, drop_app_length, bool_decide_true by done. cbn [negb]. unfold tl.
  rewrite split_last_app by apply Itoa_no_slash. rewrite !of_to_chars.
  by rewrite Atoi_Itoa.
Qed.

Lemma parse_other_key g g' t p :
  slash_free g → slash_free g' → g ≠ g' → parse_offset_key g (offsetKey g' t p) = None.
Proof.
  intros Hg Hg' Hne. unfold parse_offset_key, HasPrefix. cbv zeta.
  case_bool_decide as H; [|done]. exfalso. apply Hne.
  rewrite to_chars_app in H. change (to_chars "/") with ["/"%char] in H.
  pose proof (take_drop (length (to_chars g ++ ["/"%char])) (to_chars (offsetKey g' t p))) as E.
  rewrite H, offsetKey_chars, <- app_assoc in E. cbn [app] in E.
  apply split_first_inj in E as [E _]; [|done|done]. by apply to_chars_inj.
Qed.

(** ** The map the table stands for *)

Abbreviation offset_map := (gmap (string * string * Z) Z).

Definition good_key (k : string * string * Z) : Prop :=
  slash_free k.1.1 ∧ - 2 ^ 63 ≤ k.2 < 2 ^ 63.

Record represents (os : gmap string Z) (abs : offset_map) : Prop := {
  rp_good : map_Forall (λ k _, good_key k) abs;
  rp_stored g t p o : abs !! (g, t, p) = Some o → os !! offsetKey g t p = Some o;
  rp_known k o : os !! k = Some o → ∃ g t p, k = offsetKey g t p ∧ abs !! (g, t, p) = Some o
}.

Definition commit_abs (gid : string) (os : list CommittedOffset) (abs : offset_map) : offset_map :=
  foldl (λ m o, <[(gid, co_Topic o, co_Partition o) := co_Offset o]> m) abs os.

Lemma represents_empty : represents ∅ ∅.
Proof. split; [apply map_Forall_empty|..]; intros *; by rewrite lookup_empty. Qed.

Lemma represents_insert os abs g t p o :
  slash_free g → - 2 ^ 63 ≤ p < 2 ^ 63 → represents os abs →
  represents (<[offsetKey g t p := o]> os) (<[(g, t, p) := o]> abs).
Proof.
  intros Hg Hp [Hgood Hst Hkn]. split.
  - by apply map_Forall_insert_2.
  - intros g' t' p' o' [[E ->]|[Hne H]]%lookup_insert_Some.
    + injection E as -> -> ->. apply lookup_insert_eq.
    + destruct (Hgood _ _ H) as [Hg' Hp']. cbn in Hg', Hp'.
      rewrite lookup_insert_ne; [by apply Hst|]. intros E.
      apply offsetKey_inj in E as (-> & -> & ->); done.
  - intros k o' [[<- ->]|[Hne H]]%lookup_insert_Some.
    + exists g, t, p. split; [done|]. apply lookup_insert_eq.
    + destruct (Hkn _ _ H) as (g' & t' & p' & -> & H'). exists g', t', p'. split; [done|].
      rewrite lookup_insert_ne; [done|]. intros [= -> -> ->]. by apply Hne.
Qed.

Lemma commit_all_represents gid os c abs :
  slash_free gid → Forall (λ o, - 2 ^ 63 ≤ co_Partition o < 2 ^ 63) os → represents (offsets c) abs →
  represents (offsets (snd (commit_all gid os c))) (commit_abs gid os abs).
Proof.
  intros Hg Hos. revert c abs. induction Hos as [|o os Ho _ IH]; intros c abs H; [done|].
  cbn [commit_all commit_abs foldl]. cbv zeta.
  set (c1 := set_offsets _ c). specialize (IH c1 (<[(gid, co_Topic o, co_Partition o) := co_Offset o]> abs)).
  destruct (commit_all gid os c1) as [calls c']. apply IH. by apply represents_insert.
Qed.

Lemma elem_of_FetchOffsets gid topic c abs t p o :
  slash_free gid → represents (offsets c) abs →
  Build_CommittedOffset t p o ∈ FetchOffsets gid topic c ↔
    abs !! (gid, t, p) = Some o ∧ (topic = "" ∨ topic = t).
Proof.
  intros Hg [Hgood Hst Hkn]. unfold FetchOffsets.
  rewrite merge_sort_Permutation, list_elem_of_omap. split.
  - intros ([k v] & Hin%elem_of_map_to_list & H).
    destruct (Hkn k v Hin) as (g' & t' & p' & -> & Habs). destruct (Hgood _ _ Habs) as [Hg' Hp']. cbn in Hg', Hp'.
    destruct (decide (gid = g')) as [<-|Hne]; [|by rewrite parse_other_key in H].
    rewrite parse_own_key in H by done.
    destruct (bool_decide (topic = "")) eqn:E1; cbn in H; [|destruct (bool_decide (t' = topic)) eqn:E2; cbn in H; [|done]];
      injection H as <- <- <-.
    + rewrite bool_decide_eq_true in E1. auto.
    + rewrite bool_decide_eq_true in E2. auto.
  - intros [Habs Htopic]. destruct (Hgood _ _ Habs) as [_ Hp]. cbn in Hp.
    exists (offsetKey gid t p, o). split; [by apply elem_of_map_to_list, Hst|].
    rewrite parse_own_key by done.
    destruct Htopic as [-> | ->]; [by rewrite bool_decide_true|].
    rewrite (bool_decide_true (t = t)) by done. cbn. by rewrite andb_false_r.
Qed.

(** ** Properties *)

(** [Commit] implements a map from (group, topic, partition) to the last
    committed offset, and [FetchOffsets] reads it: after a commit the group's
    offsets are what it was before updated with the batch, in order; other
    groups' are untouched; topics may contain slashes, group names may not. The
    table is on disk when [Commit] succeeds. *)
Theorem commit_then_fetch abs c disk_ok gid os topic
    (Hrep : represents (offsets c) abs) (Hg : slash_free gid)
    (Hos : Forall (λ o, - 2 ^ 63 ≤ co_Partition o < 2 ^ 63) os) :
  let '(ok, calls, c') := Commit disk_ok gid os c in
  ok = disk_ok ∧ represents (offsets c') (commit_abs gid os abs) ∧
  (ok = true → saved c' = offsets c') ∧
  (∀ t p o, Build_CommittedOffset t p o ∈ FetchOffsets gid topic c' ↔
     commit_abs gid os abs !! (gid, t, p) = Some o ∧ (topic = "" ∨ topic = t)).
Proof.
  unfold Commit. pose proof (commit_all_represents gid os c abs Hg Hos Hrep) as H.
  destruct (commit_all gid os c) as [calls c1]. cbn [snd] in H. unfold persistOffsets.
  destruct disk_ok; (split; [done|]; split; [exact H|]; split; [done|];
    intros t p o; by apply elem_of_FetchOffsets).
Qed.

Definition sample_commit : list CommittedOffset :=
  [{| co_Topic := "a/b"; co_Partition := 0; co_Offset := 7 |};
   {| co_Topic := "a/b"; co_Partition := 1; co_Offset := 2 |};
   {| co_Topic := "a/b"; co_Partition := 0; co_Offset := 9 |}].

Lemma commit_then_fetch_witness :
  let '(ok, calls, c') := Commit true "g" sample_commit (New ∅ 0 0 None) in
  ok = true ∧ represents (offsets c') (commit_abs "g" sample_commit ∅) ∧
  (ok = true → saved c' = offsets c') ∧
  (∀ t p o, Build_CommittedOffset t p o ∈ FetchOffsets "g" "" c' ↔
     commit_abs "g" sample_commit ∅ !! ("g"%string, t, p) = Some o ∧ (""%string = "" ∨ ""%string = t)).
Proof.
  apply (commit_then_fetch ∅ (New ∅ 0 0 None) true "g" sample_commit "").
  - apply represents_empty.
  - apply (bool_decide_unpack _). vm_compute. exact I.
  - repeat constructor; cbn; lia.
Defined.

(** With a slash in a group name two groups share keys: group "a" reading
    topic "b/t" gets the offset group "a/b" committed for topic "t", and a commit
    of one overwrites the other's. *)
Theorem group_names_with_slashes_collide :
  let one o := [{| co_Topic := "t"; co_Partition := 0; co_Offset := o |}] in
  let other o := [{| co_Topic := "b/t"; co_Partition := 0; co_Offset := o |}] in
  let c1 := snd (Commit true "a/b" (one 41) (New ∅ 0 0 None)) in
  let c2 := snd (Commit true "a" (other 5) c1) in
  FetchOffsets "a" "b/t" c1 = other 41 ∧ FetchOffsets "a/b" "t" c2 = one 5.
Proof. split; vm_compute; reflexivity. Qed.
