(* ===== verification/LogInterface.v ===== *)
(** What the broker uses of a commit log, as an interface: the operations, the
    laws they obey, and [internal/log] as an implementation of them. *)
From S2P Require Import Prelude Bytes RecordFmt Disk Index Segment CommitLog LogRep LogRead.
Open Scope Z_scope.

(** ** The interface *)

(** A log [L] in its environment; a failing or panicking call says so. *)
Class LogOps (L : Type) := {
  op_append (now : Z) (key value : bytes) : M L Z;
  op_append_at (now : Z) (rec : record) : M L Z;
  op_read (from maxBytes maxOffset : Z) : M L (list record);
  op_leo : L → Z;
  op_hw : L → Z;
  op_set_hw (h : Z) : L → L;
  (* entered at [now] with high watermark [h]; [wakes]: the later looks at it *)
  op_wait (offset timeout now h : Z) (wakes : list (Z * Z)) : option (res unit)
}.

(** [log_contents l recs]: the log is healthy and holds exactly [recs]. *)
Class LogLaws (L : Type) `{LogOps L} := {
  log_contents : L → list record → Prop;
  log_records l recs :
    log_contents l recs → contiguous 0 recs ∧ Forall wf_record recs;
  log_leo l recs : log_contents l recs → op_leo l = Zlength recs;
  log_hw l recs : log_contents l recs → 0 ≤ op_hw l ≤ Zlength recs;
  log_append now key value l recs :
    let r := stamp now (Rec (Zlength recs) now key value) in
    log_contents l recs → wf_record r → Zlength recs + 1 < 2 ^ 63 →
    ∃ l', op_append now key value l = (Ok (Zlength recs), l') ∧
      log_contents l' (recs ++ [r]) ∧ op_hw l' = op_hw l;
  log_append_at now rec l recs :
    log_contents l recs → wf_record (stamp now rec) → Zlength recs + 1 < 2 ^ 63 →
    if Offset rec =? Zlength recs
    then ∃ l', op_append_at now rec l = (Ok (Offset rec), l') ∧
           log_contents l' (recs ++ [stamp now rec]) ∧ op_hw l' = op_hw l
    else ∃ e, op_append_at now rec l = (Err e, l);
  log_read from maxBytes maxOffset l recs :
    log_contents l recs → 0 ≤ from →
    ∃ out, op_read from maxBytes maxOffset l = (Ok out, l) ∧ out `sublist_of` recs ∧
      Forall (λ r, from ≤ Offset r < Z.min (Zlength recs) (read_limit (Zlength recs) maxOffset)) out;
  log_read_head from maxBytes maxOffset l recs :
    log_contents l recs → 0 ≤ from < Z.min (Zlength recs) (read_limit (Zlength recs) maxOffset) →
    ∃ r out, op_read from maxBytes maxOffset l = (Ok (r :: out), l) ∧ recs !! Z.to_nat from = Some r;
  log_wait offset timeout now h wakes :
    op_wait offset timeout now h wakes = Some (Ok tt) → offset < h ∨ ∃ w, w ∈ wakes ∧ offset < w.2;
  log_set_hw h l recs :
    log_contents l recs →
    log_contents (op_set_hw h l) recs ∧
    op_hw (op_set_hw h l) = Z.max (op_hw l) (Z.min h (Zlength recs))
}.

(** A log has one list of contents. *)
Lemma log_contents_unique `{LogLaws L} l recs recs' :
  log_contents l recs → log_contents l recs' → recs = recs'.
Proof.
  intros H1 H2. pose proof (log_leo _ _ H1) as E1. pose proof (log_leo _ _ H2) as E2.
  apply list_eq_same_length with (length recs); [|done|]; [unfold Zlength in *; lia|].
  intros i x y Hi Hx Hy.
  assert (0 ≤ Z.of_nat i < Z.min (Zlength recs) (read_limit (Zlength recs) (-1))) as Hr.
  { unfold read_limit. cbn. unfold Zlength. lia. }
  destruct (log_read_head (Z.of_nat i) 0 (-1) l recs H1 Hr) as (r & out & Hrun & Hx').
  destruct (log_read_head (Z.of_nat i) 0 (-1) l recs' H2) as (r' & out' & Hrun' & Hy').
  { assert (Zlength recs' = Zlength recs) as -> by lia. done. }
  rewrite Nat2Z.id in Hx', Hy'. rewrite Hrun in Hrun'. congruence.
Qed.

(** ** The implementation *)

#[export] Instance commit_log_ops : LogOps (log * disk) := {|
  op_append := Append;
  op_append_at := AppendAt;
  op_read := Read;
  op_leo st := match fst (LEO st) with Ok n => n | _ => 0 end;
  op_hw st := hw (fst st);
  op_set_hw h st := snd (SetHighWatermark h st);
  op_wait := WaitHighWatermark
|}.

Lemma LEO_run l d ss s rss rs :
  log_rep l d ss s rss rs → LEO (l, d) = (Ok (Zlength (concat rss ++ rs)), (l, d)).
Proof.
  intros Hrep. unfold LEO. rewrite (bind_Ok _ _ _ _ _ (active_segment_run _ _ _ _ _ _ Hrep)).
  by rewrite (rep_next _ _ _ _ _ _ Hrep).
Qed.

Lemma wait_loop_success offset timeout deadline now h wakes :
  wait_loop offset timeout deadline now h wakes = Some (Ok tt) →
  offset < h ∨ ∃ w, w ∈ wakes ∧ offset < w.2.
Proof.
  revert now h. induction wakes as [|[t h'] wakes IH]; intros now h; cbn [wait_loop];
    destruct (Z.leb_spec h offset); try (left; lia); repeat case_match; try done.
  intros [?|(w & Hw & ?)]%IH; right.
  - exists (t, h'). split; [by left|done].
  - exists w. split; [by right|done].
Qed.

#[export] Instance commit_log_laws : LogLaws (log * disk).
Proof.
  refine {| log_contents st recs := holds (fst st) (snd st) recs |}.
  - intros [l d] recs (ss & s & rss & rs & Hrep & ->). cbn in *.
    split; [by eapply rep_contiguous|by eapply rep_wf].
  - intros [l d] recs (ss & s & rss & rs & Hrep & ->). cbn in *. by rewrite (LEO_run _ _ _ _ _ _ Hrep).
  - intros [l d] recs (ss & s & rss & rs & Hrep & ->). cbn in *.
    rewrite <- (rep_next _ _ _ _ _ _ Hrep). apply (lr_hw _ _ _ _ _ _ Hrep).
  - intros now key value [l d] recs r (ss & s & rss & rs & Hrep & ->) Hwf Hmax. unfold r in *. cbn [fst snd] in Hrep.
    rewrite <- (rep_next _ _ _ _ _ _ Hrep) in *.
    destruct (Append_run now key value l d ss s rss rs Hrep Hwf Hmax) as (l' & d' & Hrun & Happ).
    exists (l', d'). split; [exact Hrun|].
    by destruct (appended_holds _ _ _ _ _ _ Happ) as (Hh & Hhw & _).
  - intros now rec [l d] recs (ss & s & rss & rs & Hrep & ->) Hwf Hmax. cbn [fst snd] in Hrep.
    rewrite <- (rep_next _ _ _ _ _ _ Hrep) in *. cbn. unfold AppendAt.
    rewrite (bind_Ok _ _ _ _ _ (active_segment_run _ _ _ _ _ _ Hrep)).
    destruct (Z.eqb_spec (Offset rec) (nextOffset s)) as [Heq|]; [|by eexists]. cbn [negb].
    destruct (appendLocked_run now rec l d ss s rss rs Hrep Heq Hwf Hmax) as (l' & d' & Hrun & Happ).
    exists (l', d'). split; [exact Hrun|].
    by destruct (appended_holds _ _ _ _ _ _ Happ) as (Hh & Hhw & _).
  - intros from maxBytes maxOffset [l d] recs Hh Hf. cbn.
    destruct (Read_sound l d recs Hh from maxBytes maxOffset Hf) as (out & Hrun & Hsub & Hr).
    by exists out.
  - intros from maxBytes maxOffset [l d] recs Hh Hf. by apply Read_head.
  - intros offset timeout now h wakes. apply wait_loop_success.
  - intros h [l d] recs (ss & s & rss & rs & Hrep & ->). cbn in *.
    rewrite (SetHighWatermark_run h l d ss s rss rs Hrep). cbn. split; [|done].
    pose proof (lr_hw _ _ _ _ _ _ Hrep) as Hhw. rewrite (rep_next _ _ _ _ _ _ Hrep) in Hhw.
    exists ss, s, rss, rs. split; [|done]. apply set_hw_rep; [|done].
    rewrite (rep_next _ _ _ _ _ _ Hrep). lia.
Defined.
