(* ===== verification/Store.v ===== *)
(** The partition store, [internal/store/store.go]: one commit log per topic and
    partition, each in a directory of its own. *)
From S2P Require Import Prelude GoStrings GoPath Bytes Disk CommitLog.
Open Scope Z_scope.

(** ** State and operations

    A store is over any log [L] that can be opened in a directory [D];
    [commit_log_opener] is the log of [internal/log] on its disk. *)
Class LogOpener (L D : Type) := {
  open_dir : Config → M D L;
  close_log : M L unit;
  no_dir : D
}.

#[export] Instance commit_log_opener : LogOpener (log * disk) disk := {|
  open_dir c d := match Open c d with
    | (Ok l, d') => (Ok (l, d'), d')
    | (Err e, d') => (Err e, d')
    | (Panicked, d') => (Panicked, d')
    | (Diverged, d') => (Diverged, d')
    end;
  close_log := log_Close;
  no_dir := Disk ∅ ∅ []
|}.

Section store.
Context {L D : Type} `{LogOpener L D}.

(** [dirs] holds the directories no log is open in. *)
Record Store := MkStore {
  root : string;
  logCfg : Config;
  logs : gmap string L;
  dirs : gmap string D
}.

Definition New (root : string) (fsyncEvery maxSeg idxInt : Z) (dirs : gmap string D) : Store :=
  MkStore root (Cfg maxSeg idxInt fsyncEvery) ∅ dirs.

Definition store_key (topic : string) (partition : Z) : string := topic +:+ "/" +:+ Itoa partition.

Definition part_dir (root topic : string) (partition : Z) : string :=
  path_Join [root; "topics"; topic; Itoa partition].

(** The log returned is the one in [logs] under the key returned. *)
Definition store_Open (topic : string) (partition : Z) : M Store string := act $ λ s,
  let k := store_key topic partition in
  match logs s !! k with
  | Some _ => (Ok k, s)
  | None =>
    let dir := part_dir (root s) topic partition in
    let '(r, d) := open_dir (logCfg s) (default no_dir (dirs s !! dir)) in
    let s := MkStore (root s) (logCfg s) (logs s) (<[dir := d]> (dirs s)) in
    match r with
    | Ok l => (Ok k, MkStore (root s) (logCfg s) (<[k := l]> (logs s)) (dirs s))
    | Err e => (Err e, s)
    | Panicked => (Panicked, s)
    | Diverged => (Diverged, s)
    end
  end.

Definition Get (topic : string) (partition : Z) (s : Store) : option L :=
  logs s !! store_key topic partition.

(** [parts] are the directories under one topic's; a name that is not a number
    is skipped, the first failure to open ends the scan. *)
Fixpoint load_partitions (topic : string) (parts : list string) : M Store unit :=
  match parts with
  | [] => mret tt
  | p :: parts =>
    match Atoi p with
    | None => load_partitions topic parts
    | Some n => store_Open topic n;; load_partitions topic parts
    end
  end.

(** [ents] is what [os.ReadDir] lists: the topic directories, each with the
    directories in it. *)
Fixpoint LoadExisting (ents : list (string * list string)) : M Store unit :=
  match ents with
  | [] => mret tt
  | (t, parts) :: ents => load_partitions t parts;; LoadExisting ents
  end.

(** Every log is closed; the first error in the order of [ks] is returned. *)
Fixpoint close_logs (ks : list string) (err : option goerr) : M Store (option goerr) :=
  match ks with
  | [] => mret err
  | k :: ks =>
    r ← (act $ λ s, match logs s !! k with
           | None => (Ok None, s)
           | Some l => let '(r, l') := close_log l in
                       let s' := MkStore (root s) (logCfg s) (<[k := l']> (logs s)) (dirs s) in
                       match r with
                       | Ok _ => (Ok None, s') | Err e => (Ok (Some e), s')
                       | Panicked => (Panicked, s') | Diverged => (Diverged, s')
                       end
           end);
    close_logs ks (match err with Some _ => err | None => r end)
  end.

Definition store_Close : M Store unit :=
  ks ← gets (λ s, (map_to_list (logs s)).*1);
  err ← close_logs ks None;
  match err with Some e => throw e | None => mret tt end.
End store.

Arguments Store L D : clear implicits.

Definition ParseKey (k : string) : option (string * Z) :=
  match split_last "/"%char (to_chars k) with
  | None => None
  | Some (t, p) => match Atoi (of_chars p) with
                   | None => None
                   | Some n => Some (of_chars t, n)
                   end
  end.

(** ** Keys and directories *)

Lemma ParseKey_store_key t p : - 2 ^ 63 ≤ p < 2 ^ 63 → ParseKey (store_key t p) = Some (t, p).
Proof.
  intros Hp. unfold ParseKey, store_key. rewrite !to_chars_app.
  change (to_chars "/") with ["/"%char]. cbn [app].
  rewrite split_last_app by apply Itoa_no_slash. by rewrite !of_to_chars, Atoi_Itoa.
Qed.

Lemma Itoa_simple n : - 2 ^ 63 ≤ n < 2 ^ 63 → simple_name (to_chars (Itoa n)).
Proof.
  intros Hn.
  assert (("."%char ∉ to_chars (Itoa n)) ∧ to_chars (Itoa n) ≠ []) as [Hdot Hne].
  { unfold Itoa. rewrite to_of_chars. destruct (Z.ltb_spec n 0).
    - split; [|done]. rewrite not_elem_of_cons. split; [done|]. by apply fixed_digits_no.
    - split; [by apply fixed_digits_no|]. destruct (ndigits_spec n) as [Hpos _]; [lia|].
      intros E. apply (f_equal length) in E. rewrite length_fixed_digits in E. simpl in E. lia. }
  split; [apply Itoa_no_slash|]. split; [done|].
  split; intros E; apply Hdot; rewrite E; by left.
Qed.

Lemma part_dir_eq root t p :
  root ≠ ""%string →
  part_dir root t p =
    Clean (of_chars (to_chars root ++ slash :: join_with slash
      [to_chars "topics"; to_chars t; to_chars (Itoa p)])).
Proof.
  intros Hr. unfold part_dir. cbn [path_Join]. rewrite bool_decide_false by done. done.
Qed.

Definition simple_topic (t : string) : Prop := simple_name (to_chars t).

#[global] Instance simple_topic_dec t : Decision (simple_topic t).
Proof. unfold simple_topic. apply _. Defined.

(** ** Properties *)

(** For topic names that are simple file names, different partitions are
    kept apart: they have different keys, which name them ([ParseKey]), and
    different directories. *)
Theorem partitions_are_kept_apart root t t' p p'
    (Hroot : root ≠ ""%string) (Ht : simple_topic t) (Ht' : simple_topic t')
    (Hp : - 2 ^ 63 ≤ p < 2 ^ 63) (Hp' : - 2 ^ 63 ≤ p' < 2 ^ 63) (Hne : (t, p) ≠ (t', p')) :
  ParseKey (store_key t p) = Some (t, p) ∧ store_key t p ≠ store_key t' p' ∧
  part_dir root t p ≠ part_dir root t' p'.
Proof.
  split; [by apply ParseKey_store_key|]. split.
  - intros E. apply (f_equal ParseKey) in E. rewrite !ParseKey_store_key in E by done. congruence.
  - intros E. rewrite !part_dir_eq in E by done.
    assert (∀ t p, simple_topic t → - 2 ^ 63 ≤ p < 2 ^ 63 →
      Forall simple_name [to_chars "topics"; to_chars t; to_chars (Itoa p)]) as Hs.
    { intros t0 p0 Ht0 Hp0. constructor; [apply (bool_decide_unpack _); vm_compute; exact I|].
      constructor; [exact Ht0|]. constructor; [by apply Itoa_simple|constructor]. }
    apply Clean_inj in E; [|by apply Hs|by apply Hs|done|done].
    injection E as E1 E2. apply to_chars_inj in E1, E2. apply Itoa_inj in E2; [|done|done]. congruence.
Qed.

Lemma partitions_are_kept_apart_witness :
  ParseKey (store_key "a" 11) = Some ("a"%string, 11) ∧ store_key "a" 11 ≠ store_key "a1" 1 ∧
  part_dir "data" "a" 11 ≠ part_dir "data" "a1" 1.
Proof.
  apply (partitions_are_kept_apart "data" "a" "a1" 11 1);
    first [apply (bool_decide_unpack _); vm_compute; exact I|lia|discriminate].
Defined.

(** Nothing checks topic names: a name with ".." leaves the data directory,
    and two names can stand for one directory, in which two logs are then open
    under different keys. *)
Theorem topic_names_can_leave_or_share_directories :
  part_dir "data" "../../../etc" 0 = "../etc/0"%string ∧
  part_dir "data" "x/../events" 0 = part_dir "data" "events" 0 ∧
  store_key "x/../events" 0 ≠ store_key "events" 0.
Proof. split_and!; [vm_compute; reflexivity..|]. vm_compute. discriminate. Qed.
