(* ===== verification/Wire.v ===== *)
(** The JSON messages of [internal/protocol/types.go], and what sending them does
    to strings.  A message is the value the receiver decodes; a field is named
    as in the code, with a prefix where Rocq needs one. *)
From S2P Require Import Prelude Bytes RecordFmt.
Open Scope Z_scope.

(** ** Messages *)

Record ProduceRecord := MkProduceRecord { pr_Key : bytes; pr_Value : bytes; pr_Partition : Z }.

Record ProduceRequest := MkProduceRequest {
  rq_Topic : string;
  rq_Partition : Z;
  rq_Key : bytes;
  rq_Value : bytes;
  rq_Acks : string;
  rq_Records : list ProduceRecord
}.

Record ProduceResult := MkProduceResult { ps_Partition : Z; ps_Offset : Z }.
Record ProduceResponse := MkProduceResponse { po_Topic : string; po_Results : list ProduceResult }.

Record WireRecord := MkWire { w_Offset : Z; w_Timestamp : Z; w_Key : bytes; w_Value : bytes }.

Record FetchResponse := MkFetch {
  f_Topic : string;
  f_Partition : Z;
  f_HighWatermark : Z;
  f_LogEndOffset : Z;
  f_Records : list WireRecord
}.

Record ReplicaAckRequest := MkAck { a_BrokerID : Z; a_Topic : string; a_Partition : Z; a_LEO : Z }.

(** *** Topics and membership *)

Record ErrorBody := MkErrorBody { eb_Error : string; eb_Leader : Z; eb_LeaderAddr : string }.

Record CreateTopicRequest := MkCreate { cr_Name : string; cr_Partitions : Z; cr_ReplicationFactor : Z }.

Record BrokerInfo := MkBrokerInfo { bi_ID : Z; bi_Addr : string; bi_Alive : bool }.

Record PartitionInfo := MkPartitionInfo {
  pi_ID : Z;
  pi_Leader : Z;
  pi_Replicas : list Z;
  pi_ISR : list Z;
  pi_HW : Z;
  pi_LEO : Z
}.

Record TopicInfo := MkTopicInfo { ti_Name : string; ti_Partitions : list PartitionInfo }.

Record Metadata := MkMetadata { md_Controller : Z; md_Brokers : list BrokerInfo; md_Topics : list TopicInfo }.

Record TopicSnapshot := MkSnapshot { sn_Name : string; sn_Partitions : list PartitionInfo }.

Record MetadataPush := MkPush { mp_Controller : Z; mp_Topics : list TopicSnapshot }.

Record HeartbeatPeerRequest := MkPeerHeartbeat { hp_BrokerID : Z }.

(** *** Groups; a nil map of an assignment is sent as null and read as empty *)

Record JoinRequest := MkJoinRequest { jq_MemberID : string; jq_Topics : list string }.

Record JoinResponse := MkJoinResponse {
  jp_MemberID : string;
  jp_Generation : Z;
  jp_LeaderID : string;
  jp_Members : list string;
  jp_State : string
}.

Record SyncRequest := MkSyncRequest { sq_MemberID : string; sq_Generation : Z }.
Record SyncResponse := MkSyncResponse { sp_Generation : Z; sp_Assignment : gmap string (list Z); sp_State : string }.
Record HeartbeatRequest := MkHeartbeatRequest { hq_MemberID : string; hq_Generation : Z }.
Record HeartbeatResponse := MkHeartbeatResponse { hp_Error : string; hp_State : string }.
Record LeaveRequest := MkLeave { lv_MemberID : string }.
Record OffsetCommit := MkOffsetCommit { oc_Topic : string; oc_Partition : Z; oc_Offset : Z }.

Record OffsetCommitRequest := MkOffsetCommitRequest {
  oq_MemberID : string;
  oq_Generation : Z;
  oq_Offsets : list OffsetCommit
}.

Record OffsetFetchResponse := MkOffsetFetch { of_Offsets : list OffsetCommit }.

(** *** Records on the wire *)

Definition toWire (recs : list record) : list WireRecord :=
  (λ r, MkWire (Offset r) (Timestamp r) (Key r) (Value r)) <$> recs.

(** ** Strings in JSON

    [encoding/json] writes a string as UTF-8: every byte that does not start a
    valid encoding ([utf8.DecodeRune] returns width 1 and [RuneError]) becomes
    U+FFFD; everything else is decoded to what was encoded. *)

Definition in_range (lo hi : Z) (b : byte) : bool := (lo <=? Z_of_byte b) && (Z_of_byte b <=? hi).
Definition cont (b : byte) : bool := in_range 0x80 0xBF b.

(** The width of the rune the bytes start with; [None] if they are invalid. *)
Definition rune_width (bs : bytes) : option nat :=
  match bs with
  | [] => None
  | b0 :: bs =>
    if in_range 0x00 0x7F b0 then Some 1%nat else
    match bs with
    | [] => None
    | b1 :: bs =>
      if in_range 0xC2 0xDF b0 then (if cont b1 then Some 2%nat else None) else
      match bs with
      | [] => None
      | b2 :: bs =>
        if in_range 0xE0 0xEF b0 then
          let lo := if Z_of_byte b0 =? 0xE0 then 0xA0 else 0x80 in
          let hi := if Z_of_byte b0 =? 0xED then 0x9F else 0xBF in
          if in_range lo hi b1 && cont b2 then Some 3%nat else None
        else
        match bs with
        | [] => None
        | b3 :: _ =>
          if in_range 0xF0 0xF4 b0 then
            let lo := if Z_of_byte b0 =? 0xF0 then 0x90 else 0x80 in
            let hi := if Z_of_byte b0 =? 0xF4 then 0x8F else 0xBF in
            if in_range lo hi b1 && cont b2 && cont b3 then Some 4%nat else None
          else None
        end
      end
    end
  end.

Definition RuneError : bytes := [xef; xbf; xbd].

(** [n] bounds the number of runes; the length of the string is enough. *)
Fixpoint coerce_utf8 (n : nat) (bs : bytes) : bytes :=
  match n, bs with
  | S n, b :: bs' =>
    match rune_width bs with
    | Some w => take w bs ++ coerce_utf8 n (drop w bs)
    | None => RuneError ++ coerce_utf8 n bs'
    end
  | _, _ => []
  end.

Definition json_string (bs : bytes) : bytes := coerce_utf8 (length bs) bs.

Definition json_record (w : WireRecord) : WireRecord :=
  MkWire (w_Offset w) (w_Timestamp w) (json_string (w_Key w)) (json_string (w_Value w)).

(** A response as the caller decodes it. *)
Definition json_fetch (f : FetchResponse) : FetchResponse :=
  MkFetch (f_Topic f) (f_Partition f) (f_HighWatermark f) (f_LogEndOffset f)
    (json_record <$> f_Records f).

(** A produce request as the broker it is sent to decodes it. *)
Definition json_request (q : ProduceRequest) : ProduceRequest :=
  MkProduceRequest (rq_Topic q) (rq_Partition q) (json_string (rq_Key q)) (json_string (rq_Value q)) (rq_Acks q)
    ((λ r, MkProduceRecord (json_string (pr_Key r)) (json_string (pr_Value r)) (pr_Partition r)) <$> rq_Records q).

(** [utf8.Valid] *)
Fixpoint valid_utf8_n (n : nat) (bs : bytes) : bool :=
  match n, bs with
  | S n, _ :: _ => match rune_width bs with Some w => valid_utf8_n n (drop w bs) | None => false end
  | _, _ => bool_decide (bs = [])
  end.
Definition valid_utf8 (bs : bytes) : bool := valid_utf8_n (length bs) bs.

(** ** Lemmas *)

Lemma rune_width_pos bs w : rune_width bs = Some w → (0 < w ≤ length bs)%nat.
Proof. unfold rune_width. intros E. repeat (case_match; simplify_eq/=); lia. Qed.

Lemma coerce_utf8_valid n bs : valid_utf8_n n bs = true → coerce_utf8 n bs = bs.
Proof.
  revert bs. induction n as [|n IH]; intros [|b bs]; cbn [valid_utf8_n coerce_utf8]; try done.
  destruct (rune_width (b :: bs)) as [w|]; [|done]. intros H. rewrite IH by done. apply take_drop.
Qed.

Lemma json_string_valid bs : valid_utf8 bs = true → json_string bs = bs.
Proof. apply coerce_utf8_valid. Qed.

Definition ascii_only (bs : bytes) : Prop := Forall (λ b, Z_of_byte b < 128) bs.

Lemma ascii_valid bs : ascii_only bs → valid_utf8 bs = true.
Proof.
  unfold valid_utf8, ascii_only. induction 1 as [|b bs Hb _ IH]; [done|].
  cbn [length valid_utf8_n rune_width]. pose proof (Z_of_byte_range b).
  assert (in_range 0 127 b = true) as -> by (unfold in_range; lia). done.
Qed.

(** A record whose key and value are UTF-8. *)
Definition utf8_record (r : record) : Prop := valid_utf8 (Key r) = true ∧ valid_utf8 (Value r) = true.

#[global] Instance utf8_record_dec r : Decision (utf8_record r).
Proof. unfold utf8_record. apply _. Defined.

Lemma json_record_utf8 r :
  utf8_record r →
  json_record (MkWire (Offset r) (Timestamp r) (Key r) (Value r)) = MkWire (Offset r) (Timestamp r) (Key r) (Value r).
Proof. intros [Hk Hv]. unfold json_record. by rewrite !json_string_valid. Qed.

(** A rune is read from its own bytes. *)
Lemma rune_width_take bs w :
  rune_width bs = Some w → (1 ≤ w ≤ length bs)%nat ∧ ∀ rest, rune_width (take w bs ++ rest) = Some w.
Proof.
  unfold rune_width.
  destruct bs as [|b0 [|b1 [|b2 [|b3 bs]]]]; try done;
    repeat (match goal with |- (if ?c then _ else _) = _ → _ => let E := fresh "E" in destruct c eqn:E end; try done);
    intros [= <-]; (split; [cbn; lia|]); intros rest; cbn [take app];
    repeat match goal with E : _ = ?b |- context [if ?c then _ else _] => match type of E with c = _ => rewrite E end end;
    done.
Qed.

(** What comes out of JSON is UTF-8. *)
Lemma coerce_utf8_n_valid n bs m : (length (coerce_utf8 n bs) ≤ m)%nat → valid_utf8_n m (coerce_utf8 n bs) = true.
Proof.
  revert bs m. induction n as [|n IH]; intros bs m Hm; [by destruct m|].
  destruct bs as [|b bs]; [by destruct m|]. revert Hm. cbn [coerce_utf8].
  destruct (rune_width (b :: bs)) as [w|] eqn:Hw.
  - destruct (rune_width_take _ _ Hw) as [Hle Htake]. specialize (Htake (coerce_utf8 n (drop w (b :: bs)))).
    set (rest := coerce_utf8 n _) in *. rewrite length_app, length_take_le by lia. intros Hm.
    destruct w as [|w]; [lia|]. destruct m as [|m]; [lia|].
    assert (∃ x l, take (S w) (b :: bs) ++ rest = x :: l) as (x & l & E) by (cbn; eauto).
    rewrite E in *. cbn [valid_utf8_n]. rewrite Htake, <- E, drop_app_length' by (rewrite length_take_le; lia).
    apply IH. fold rest. lia.
  - set (rest := coerce_utf8 n bs). intros Hm. change (RuneError ++ rest) with (xef :: xbf :: xbd :: rest) in *.
    destruct m as [|m]; [cbn in Hm; lia|]. cbn [valid_utf8_n length] in *.
    assert (rune_width (xef :: xbf :: xbd :: rest) = Some 3%nat) as -> by (by destruct rest).
    cbn [drop]. apply IH. fold rest. lia.
Qed.

Lemma json_string_utf8 bs : valid_utf8 (json_string bs) = true.
Proof. by apply coerce_utf8_n_valid. Qed.

Lemma json_string_same bs : json_string bs = bs ↔ valid_utf8 bs = true.
Proof. split; [|apply json_string_valid]. intros E. rewrite <- E. apply json_string_utf8. Qed.

(** A record as a follower gets it. *)
Definition through_json (r : record) : record := Rec (Offset r) (Timestamp r) (json_string (Key r)) (json_string (Value r)).

Lemma through_json_utf8 r : utf8_record (through_json r).
Proof. split; apply json_string_utf8. Qed.

Lemma through_json_same r : through_json r = r ↔ utf8_record r.
Proof.
  unfold through_json, utf8_record. rewrite <- !json_string_same. destruct r as [o t k v]; cbn. split.
  - by intros [= -> ->].
  - by intros [-> ->].
Qed.

Lemma json_record_through r :
  json_record (MkWire (Offset r) (Timestamp r) (Key r) (Value r)) =
  json_record (MkWire (Offset (through_json r)) (Timestamp (through_json r)) (Key (through_json r)) (Value (through_json r))).
Proof.
  unfold json_record, through_json. cbn [w_Offset w_Timestamp w_Key w_Value Offset Timestamp Key Value].
  by rewrite (json_string_valid (json_string (Key r))), (json_string_valid (json_string (Value r))) by apply json_string_utf8.
Qed.

Lemma json_string_samples :
  json_string [x68; xc3; xa9; xff] = [x68; xc3; xa9; xef; xbf; xbd] ∧
  json_string [xed; xa0; x80] = RuneError ++ RuneError ++ RuneError ∧
  json_string [xf0; x9f; x98; x80] = [xf0; x9f; x98; x80].
Proof. by vm_compute. Qed.
