(* ===== verification/BrokerState.v ===== *)
(** The broker's state: [internal/broker/config.go], the type declarations of
    [metadata.go], [replica.go] and [broker.go], and their small helpers. *)
From S2P Require Import Prelude GoStrings GoPath Assignor Coordinator Cluster Partitioner Store LogInterface.
Open Scope Z_scope.

(** ** Configuration *)

Record Config := MkConfig {
  cfg_ID : Z;
  Bind : string;
  Advertise : string;
  DataDir : string;
  cfg_Peers : list Peer;
  cfg_SessionTimeout : Z;
  GroupSession : Z;
  RebalanceWait : Z;
  ReplicaLagTime : Z;
  cfg_FsyncEvery : Z;
  cfg_MaxSegmentBytes : Z;
  cfg_IndexInterval : Z;
  MinISR : Z;
  ProduceTimeout : Z
}.

(** [strings.TrimSpace].  The white space of [unicode.IsSpace], in UTF-8. *)
Definition spaces : list chars := map (map ascii_of_nat) (
  [[9]; [10]; [11]; [12]; [13]; [32]; [194; 133]; [194; 160]; [225; 154; 128]] ++
  ((λ k, [226; 128; k]) <$> seq 128 11) ++
  [[226; 128; 168]; [226; 128; 169]; [226; 128; 175]; [226; 129; 159]; [227; 128; 128]])%nat.

(** [n] bounds the number of spaces; the length of the string is enough. *)
Fixpoint trim_prefix (sps : list chars) (n : nat) (l : chars) : chars :=
  match n with
  | O => l
  | S n =>
    match find (λ sp, bool_decide (take (length sp) l = sp)) sps with
    | Some sp => trim_prefix sps n (drop (length sp) l)
    | None => l
    end
  end.

Definition trim_left (l : chars) : chars := trim_prefix spaces (length l) l.
Definition trim_right (l : chars) : chars := reverse (trim_prefix (reverse <$> spaces) (length l) (reverse l)).
Definition TrimSpace (s : string) : string := of_chars (trim_right (trim_left (to_chars s))).

(** One peer, [id=host:port]; [None] is the error. *)
Definition parse_peer (part : string) : option Peer :=
  match Cut (TrimSpace part) "=" with
  | None => None
  | Some (idStr, addr) =>
    match Atoi idStr with
    | None => None
    | Some id => Some {| ID := id; Addr := addr |}
    end
  end.

Definition ParsePeers (s : string) : option (list Peer) :=
  let s := TrimSpace s in
  if bool_decide (s = ""%string) then Some [] else mapM parse_peer (Split s ",").

(** The defaults [New] fills in. *)
Definition with_defaults (c : Config) : Config := {|
  cfg_ID := cfg_ID c;
  Bind := if bool_decide (Bind c = ""%string) then "0.0.0.0:9092" else Bind c;
  Advertise := Advertise c;
  DataDir := if bool_decide (DataDir c = ""%string) then "data" else DataDir c;
  cfg_Peers := cfg_Peers c;
  cfg_SessionTimeout := if cfg_SessionTimeout c =? 0 then 3 * second else cfg_SessionTimeout c;
  GroupSession := if GroupSession c =? 0 then 10 * second else GroupSession c;
  RebalanceWait := if RebalanceWait c =? 0 then 2 * second else RebalanceWait c;
  ReplicaLagTime := if ReplicaLagTime c =? 0 then 5 * second else ReplicaLagTime c;
  cfg_FsyncEvery := cfg_FsyncEvery c;
  cfg_MaxSegmentBytes := if cfg_MaxSegmentBytes c =? 0 then Z.shiftl 1 20 else cfg_MaxSegmentBytes c;
  cfg_IndexInterval := if cfg_IndexInterval c =? 0 then 4096 else cfg_IndexInterval c;
  MinISR := if MinISR c <=? 0 then 1 else MinISR c;
  ProduceTimeout := if ProduceTimeout c =? 0 then 5 * second else ProduceTimeout c
|}.

(** ** Metadata and replication state *)

Record partitionMeta := MkPart { p_ID : Z; p_Leader : Z; p_Replicas : list Z; p_ISR : list Z }.
Record topicMeta := MkTopic { t_Name : string; t_Partitions : list partitionMeta }.

#[global] Instance partitionMeta_eq_dec : EqDecision partitionMeta.
Proof. solve_decision. Defined.
#[global] Instance topicMeta_eq_dec : EqDecision topicMeta.
Proof. solve_decision. Defined.

Record replicaState := MkReplica { r_leo : Z; r_lastSeen : Z }.

(** [topics_json] is the table in [topics.json]; [following] the keys of
    [followCancel]. *)
Record Broker {L D : Type} := MkBroker {
  cfg : Config;
  cluster : Cluster;
  store : Store L D;
  coordinator : Coordinator;
  partitioner : Partitioner;
  topics : gmap string topicMeta;
  topics_json : list topicMeta;
  replicaLEO : gmap string (gmap Z replicaState);
  following : gset string
}.
Arguments Broker L D : clear implicits.

Section broker.
Context {L D : Type}.
Implicit Types b : Broker L D.

Definition set_topics (ts : gmap string topicMeta) b : Broker L D :=
  MkBroker L D (cfg b) (cluster b) (store b) (coordinator b) (partitioner b) ts (topics_json b) (replicaLEO b) (following b).
Definition set_topics_json (l : list topicMeta) b : Broker L D :=
  MkBroker L D (cfg b) (cluster b) (store b) (coordinator b) (partitioner b) (topics b) l (replicaLEO b) (following b).
Definition set_replicaLEO (m : gmap string (gmap Z replicaState)) b : Broker L D :=
  MkBroker L D (cfg b) (cluster b) (store b) (coordinator b) (partitioner b) (topics b) (topics_json b) m (following b).
Definition set_store (s : Store L D) b : Broker L D :=
  MkBroker L D (cfg b) (cluster b) s (coordinator b) (partitioner b) (topics b) (topics_json b) (replicaLEO b) (following b).
Definition set_coordinator (c : Coordinator) b : Broker L D :=
  MkBroker L D (cfg b) (cluster b) (store b) c (partitioner b) (topics b) (topics_json b) (replicaLEO b) (following b).
Definition set_partitioner (p : Partitioner) b : Broker L D :=
  MkBroker L D (cfg b) (cluster b) (store b) (coordinator b) p (topics b) (topics_json b) (replicaLEO b) (following b).
Definition set_following (f : gset string) b : Broker L D :=
  MkBroker L D (cfg b) (cluster b) (store b) (coordinator b) (partitioner b) (topics b) (topics_json b) (replicaLEO b) f.
Definition set_cluster (c : Cluster) b : Broker L D :=
  MkBroker L D (cfg b) c (store b) (coordinator b) (partitioner b) (topics b) (topics_json b) (replicaLEO b) (following b).

(** A call on the store, and a method call on the log open under a key. *)
Definition on_store {A} (m : M (Store L D) A) : M (Broker L D) A := zoom store set_store m.
Definition on_partitioner {A} (m : M Partitioner A) : M (Broker L D) A := zoom partitioner set_partitioner m.
Definition set_log (k : string) (l : L) b : Broker L D :=
  let s := store b in
  set_store (MkStore (root s) (logCfg s) (<[k := l]> (logs s)) (dirs s)) b.
Definition on_log {A} (k : string) (m : M L A) : M (Broker L D) A := act $ λ b,
  match logs (store b) !! k with
  | None => (Panicked, b)
  | Some l => let '(r, l') := m l in (r, set_log k l' b)
  end.
End broker.

(** ** Helpers *)

Definition contains (xs : list Z) (v : Z) : bool := existsb (λ x, x =? v) xs.

Definition replicaKey (topic : string) (partition : Z) : string := topic +:+ "/" +:+ Itoa partition.

(** Keys come from [replicaKey], so the number parses; a syntax error gives 0. *)
Definition splitReplicaKey (k : string) : string * Z :=
  match split_last "/"%char (to_chars k) with
  | None => (k, 0)
  | Some (t, p) => (of_chars t, default 0 (Atoi (of_chars p)))
  end.

(** Equality as sets of two lists of the same length. *)
Definition sameInts (a b : list Z) : bool :=
  if negb (length a =? length b)%nat then false
  else forallb (λ x, bool_decide (x ∈ (list_to_set a : gset Z))) b.

Definition filterAlive (ids : list Z) (alive : Z → bool) : list Z := filter (λ id, alive id) ids.

(** [None]: index out of range on an empty list. *)
Definition firstAlive (replicas : list Z) (alive : Z → bool) : option Z :=
  match filter (λ id, alive id) replicas with
  | id :: _ => Some id
  | [] => head replicas
  end.

Lemma contains_spec xs v : contains xs v = true ↔ v ∈ xs.
Proof.
  unfold contains. rewrite existsb_exists. split.
  - intros (x & Hx & ->%Z.eqb_eq). by apply list_elem_of_In.
  - intros Hv. exists v. split; [by apply list_elem_of_In|apply Z.eqb_refl].
Qed.

Lemma splitReplicaKey_replicaKey t p :
  - 2 ^ 63 ≤ p < 2 ^ 63 → splitReplicaKey (replicaKey t p) = (t, p).
Proof.
  intros Hp. unfold splitReplicaKey, replicaKey. rewrite !to_chars_app.
  change (to_chars "/") with ["/"%char]. cbn [app].
  rewrite split_last_app by apply Itoa_no_slash. by rewrite !of_to_chars, Atoi_Itoa.
Qed.

Lemma sameInts_spec a b :
  NoDup a → NoDup b → sameInts a b = true ↔ a ≡ₚ b.
Proof.
  intros Ha Hb. unfold sameInts. destruct (Nat.eqb_spec (length a) (length b)) as [Hlen|Hlen]; cbn [negb].
  - rewrite forallb_forall. split.
    + intros H. symmetry. apply submseteq_length_Permutation; [|lia].
      apply NoDup_submseteq; [done|]. intros x Hx%list_elem_of_In%H. rewrite bool_decide_eq_true in Hx. by apply elem_of_list_to_set in Hx.
    + intros Hp x Hx%list_elem_of_In. apply bool_decide_eq_true, elem_of_list_to_set. by rewrite Hp.
  - split; [done|]. by intros ?%Permutation_length.
Qed.

(** ** Runs of calls on a log of the broker *)

Section on_log.
Context {L D : Type} `{LogOpener L D}.
Implicit Types b : Broker L D.

Definition log_at b (k : string) : option L := logs (store b) !! k.

Lemma set_log_id k l b : log_at b k = Some l → set_log k l b = b.
Proof.
  unfold log_at, set_log. intros Hl. rewrite insert_id by done.
  destruct b as [? ? [] ? ? ? ? ? ?]. done.
Qed.

Lemma set_log_set_log k l l' b : set_log k l' (set_log k l b) = set_log k l' b.
Proof. unfold set_log. cbn. by rewrite insert_insert_eq. Qed.

Lemma log_at_set_log k l b : log_at (set_log k l b) k = Some l.
Proof. unfold log_at. cbn. apply lookup_insert_eq. Qed.

Lemma log_at_set_log_ne k k' l b : k ≠ k' → log_at (set_log k l b) k' = log_at b k'.
Proof. intros. unfold log_at. cbn. by apply lookup_insert_ne. Qed.

Lemma on_log_run {A} k (m : M L A) b l :
  log_at b k = Some l → on_log k m b = (fst (m l), set_log k (snd (m l)) b).
Proof. unfold log_at, on_log, act. intros ->. by destruct (m l). Qed.

Lemma on_log_gets {A} k (f : L → A) b l : log_at b k = Some l → on_log k (gets f) b = (Ok (f l), b).
Proof. intros Hl. rewrite (on_log_run _ _ _ _ Hl). cbn. by rewrite set_log_id. Qed.

Lemma on_log_modify k (f : L → L) b l :
  log_at b k = Some l → on_log k (modify f) b = (Ok tt, set_log k (f l) b).
Proof. intros Hl. by rewrite (on_log_run _ _ _ _ Hl). Qed.

(** Opening a partition whose log is open. *)
Lemma on_store_open t p b l :
  log_at b (store_key t p) = Some l → on_store (store_Open t p) b = (Ok (store_key t p), b).
Proof.
  unfold log_at, on_store, zoom, store_Open, act. intros ->. by destruct b as [? ? [] ? ? ? ? ? ?].
Qed.

(** The log opened is the one of the partition. *)
Lemma on_store_open_key t p b k b' : on_store (store_Open t p) b = (Ok k, b') → k = store_key t p.
Proof.
  unfold on_store, zoom, store_Open, act. destruct (_ !! _); [by intros [= <-]|].
  destruct (open_dir _ _) as [[]]; by intros [= <-].
Qed.
End on_log.
