(* ===== verification/Metadata.v ===== *)
(** Topic metadata: [internal/broker/metadata.go] and the controller's part of
    [broker.go]. *)
From S2P Require Import Prelude GoStrings Assignor Coordinator Partitioner Cluster Store Wire BrokerState.
Open Scope Z_scope.

(** ** Operations on one partition or topic *)

(** [None] is a panic: an index out of range or a negative length. *)
Definition place_partition (rf nbrokers : Z) (ids : list Z) (i : Z) : option partitionMeta :=
  reps ← mapM (λ r, ids !! Z.to_nat ((i + r) mod nbrokers)) (seqZ 0 rf);
  leader ← head reps;
  Some (MkPart i leader reps [leader]).

Definition assignReplicas (npart rf nbrokers : Z) (ids : list Z) : option (list partitionMeta) :=
  let rf := if rf <? 1 then 1 else rf in
  let rf := if nbrokers <? rf then nbrokers else rf in
  if npart <? 0 then None else mapM (place_partition rf nbrokers ids) (seqZ 0 npart).

Definition find_partition (ps : list partitionMeta) (id : Z) : option partitionMeta :=
  head (filter (λ p, p_ID p = id) ps).

(** An empty ISR is replaced by the leader alone. *)
Definition nonempty_isr (leader : Z) (isr : list Z) : list Z :=
  match isr with [] => [leader] | _ => isr end.

(** One partition of a pushed snapshot, against the local one. *)
Definition merge_partition (self : Z) (is_controller : bool) (alive : Z → bool)
    (local : option partitionMeta) (inp : partitionMeta) : partitionMeta :=
  match local with
  | Some loc =>
    if (p_Leader loc =? self) && (p_Leader inp =? self)
    then MkPart (p_ID inp) (p_Leader inp) (p_Replicas inp) (p_ISR loc)
    else
      let leader := if is_controller && negb (alive (p_Leader inp)) then p_Leader loc else p_Leader inp in
      let isr := filterAlive (p_ISR inp) (λ id, (id =? self) || alive id) in
      MkPart (p_ID inp) leader (p_Replicas inp) (nonempty_isr leader isr)
  | None =>
    let isr := filterAlive (p_ISR inp) (λ id, (id =? self) || alive id) in
    MkPart (p_ID inp) (p_Leader inp) (p_Replicas inp) (nonempty_isr (p_Leader inp) isr)
  end.

(** One partition in the controller's tick; the flag is [changed]. [None] is
    the panic of [firstAlive] on an empty replica list. *)
Definition tick_partition (alive : Z → bool) (p : partitionMeta) : option (partitionMeta * bool) :=
  let changed := existsb (λ id, negb (alive id)) (p_ISR p) in
  let isr := filter (λ id, alive id) (p_ISR p) in
  '(leader, isr, changed) ←
    (if negb (alive (p_Leader p)) then
       leader ← firstAlive (p_Replicas p) alive;
       Some (leader, if negb (contains isr leader) then leader :: isr else isr, true)
     else Some (p_Leader p, isr, changed));
  let '(leader, changed) :=
    match p_Replicas p with
    | pref :: _ => if negb (pref =? leader) && alive pref && contains isr pref
                   then (pref, true) else (leader, changed)
    | [] => (leader, changed)
    end in
  match isr with
  | [] => Some (MkPart (p_ID p) leader (p_Replicas p) [leader], true)
  | _ => Some (MkPart (p_ID p) leader (p_Replicas p) isr, changed)
  end.

Definition tick_topic (alive : Z → bool) (t : topicMeta) : option (topicMeta * bool) :=
  rs ← mapM (tick_partition alive) (t_Partitions t);
  Some (MkTopic (t_Name t) rs.*1, existsb id rs.*2).

Definition topic_le (s t : topicMeta) : Prop := str_le (t_Name s) (t_Name t).
#[global] Instance topic_le_dec s t : Decision (topic_le s t).
Proof. unfold topic_le. apply _. Defined.

(** ** Operations of the broker *)

Section metadata.
Context {L D : Type}.
Implicit Types b : Broker L D.

Definition alive_at (now : Z) b (id : Z) : bool := IsAlive now id (cluster b).

Definition persistTopics (disk_ok : bool) b : Broker L D :=
  if disk_ok then set_topics_json (merge_sort topic_le (map_to_list (topics b)).*2) b else b.

(** [stored] is the table [topics.json] holds. *)
Definition loadTopics (stored : list topicMeta) b : Broker L D :=
  set_topics (foldl (λ m t, <[t_Name t := t]> m) (topics b) stored) b.

Definition snapshotTopics b : list topicMeta := merge_sort topic_le (map_to_list (topics b)).*2.

Definition topic b (name : string) : option topicMeta := topics b !! name.

Definition partition_meta b (name : string) (id : Z) : option partitionMeta :=
  match topics b !! name with
  | None => None
  | Some t => find_partition (t_Partitions t) id
  end.

Definition topicPartitions b (name : string) : list Z :=
  match topic b name with
  | None => []
  | Some t => p_ID <$> t_Partitions t
  end.

Definition merge_topic (now : Z) b (ts : gmap string topicMeta) (t : topicMeta) : gmap string topicMeta :=
  let prev := ts !! t_Name t in
  let merge inp :=
    merge_partition (cfg_ID (cfg b)) (IsController now (cluster b)) (alive_at now b)
      (prev ≫= λ prev, find_partition (t_Partitions prev) (p_ID inp)) inp in
  <[t_Name t := MkTopic (t_Name t) (merge <$> t_Partitions t)]> ts.

Definition applyTopics (now : Z) (disk_ok : bool) (ts : list topicMeta) b : Broker L D :=
  persistTopics disk_ok (set_topics (foldl (merge_topic now b) (topics b) ts) b).

(** Returns whether metadata has to be pushed; [None] is a panic. *)
Definition controllerTick (now : Z) (disk_ok : bool) b : option (bool * Broker L D) :=
  let ticked := tick_topic (alive_at now b) <$> topics b in
  if decide (map_Forall (λ _ r, is_Some r) ticked) then
    let changed := bool_decide (map_Exists (λ _ r, (snd <$> r) = Some true) ticked) in
    let b := set_topics (omap (λ r, fst <$> r) ticked) b in
    Some (changed, if changed then persistTopics disk_ok b else b)
  else None.

(** Returns whether metadata has to be pushed; [None] is a panic. *)
Definition createTopic (disk_ok : bool) (name : string) (npart rf : Z) b : option (bool * Broker L D) :=
  match topics b !! name with
  | Some _ => Some (false, b)
  | None =>
    let ids := ID <$> All (cluster b) in
    let npart := if npart <=? 0 then 1 else npart in
    parts ← assignReplicas npart rf (Z.of_nat (length ids)) ids;
    Some (true, persistTopics disk_ok (set_topics (<[name := MkTopic name parts]> (topics b)) b))
  end.

Definition offsetsTopic : string := "__consumer_offsets".

Definition ensureOffsetsTopic (disk_ok : bool) b : option (bool * Broker L D) :=
  match topic b offsetsTopic with
  | Some _ => Some (false, b)
  | None => createTopic disk_ok offsetsTopic 1 (Z.min 3 (Z.of_nat (length (All (cluster b))))) b
  end.

(** The controller's view that [broadcastMetadata] sends. *)
Definition metadataPush (now : Z) b : MetadataPush :=
  MkPush (ControllerID now (cluster b))
    ((λ t, MkSnapshot (t_Name t)
       ((λ p, MkPartitionInfo (p_ID p) (p_Leader p) (p_Replicas p) (p_ISR p) 0 0) <$> t_Partitions t)) <$> snapshotTopics b).
End metadata.

(** The topics the receiver of a push reads from it. *)
Definition pushed_topics (push : MetadataPush) : list topicMeta :=
  (λ t, MkTopic (sn_Name t) ((λ p, MkPart (pi_ID p) (pi_Leader p) (pi_Replicas p) (pi_ISR p)) <$> sn_Partitions t))
    <$> mp_Topics push.

(** ** Start-up *)

(** [ents] is what [LoadExisting] finds under the data directory, [offs] the
    committed offsets and [stored] the topics file, or the error reading it. *)
Definition broker_New {L D} `{LogOpener L D} (now : Z) (c : Config) (dirs : gmap string D)
    (ents : list (string * list string)) (offs : gmap string Z) (stored : list topicMeta + goerr) :
    res (Broker L D) :=
  let c := with_defaults c in
  let cl := Cluster.New now {| ID := cfg_ID c; Addr := Advertise c |} (cfg_Peers c) (cfg_SessionTimeout c) in
  match LoadExisting ents (Store.New (DataDir c) (cfg_FsyncEvery c) (cfg_MaxSegmentBytes c)
                             (cfg_IndexInterval c) dirs) with
  | (Ok _, st) =>
    let groups parts := Coordinator.SetOffsetHook
      (Coordinator.New offs (GroupSession c) (RebalanceWait c) (Some parts)) in
    let b := MkBroker L D c cl st (groups (λ _, [])) {| rr := 0 |} ∅
               (match stored with inl ts => ts | inr _ => [] end) ∅ ∅ in
    let b := set_coordinator (groups (topicPartitions b)) b in
    match stored with inl ts => Ok (loadTopics ts b) | inr e => Err e end
  | (Err e, _) => Err e
  | (Panicked, _) => Panicked
  | (Diverged, _) => Diverged
  end.

(** ** Well-formed metadata *)

(** The replicas are distinct, the in-sync ones are among them and the leader is
    in sync. *)
Record part_ok (p : partitionMeta) : Prop := {
  ok_replicas : NoDup (p_Replicas p);
  ok_isr_nodup : NoDup (p_ISR p);
  ok_isr : p_ISR p ⊆ p_Replicas p;
  ok_leader : p_Leader p ∈ p_ISR p
}.

Record topic_ok (t : topicMeta) : Prop := {
  ok_ids : NoDup (p_ID <$> t_Partitions t);
  ok_parts : Forall part_ok (t_Partitions t)
}.

Record metadata_ok {L D} (b : Broker L D) : Prop := {
  ok_names name t : topics b !! name = Some t → t_Name t = name;
  ok_topics name t : topics b !! name = Some t → topic_ok t
}.

Lemma metadata_ok_same {L D} (b b' : Broker L D) : topics b' = topics b → metadata_ok b → metadata_ok b'.
Proof. intros E [H1 H2]. split; rewrite E; done. Qed.

Lemma metadata_ok_one {L D} (b : Broker L D) t :
  topics b = {[t_Name t := t]} → topic_ok t → metadata_ok b.
Proof. intros E Ht. split; rewrite E; intros n t' H; by apply lookup_singleton_Some in H as [<- <-]. Qed.

(** A partition led by its only in-sync replica. *)
Lemma part_ok_alone i l reps : NoDup reps → l ∈ reps → part_ok (MkPart i l reps [l]).
Proof.
  intros Hnd Hl. split; cbn; [done|apply NoDup_singleton| |by left]. by intros x ->%list_elem_of_singleton.
Qed.

Lemma topic_ok_alone t i l reps : NoDup reps → l ∈ reps → topic_ok (MkTopic t [MkPart i l reps [l]]).
Proof. intros Hnd Hl. split; [apply NoDup_singleton|]. by apply Forall_singleton, part_ok_alone. Qed.

#[global] Instance topic_le_trans : Transitive topic_le.
Proof. intros s t u. unfold topic_le. apply str_le_trans. Qed.
#[global] Instance topic_le_total : Total topic_le.
Proof. intros s t. unfold topic_le. apply str_le_total. Qed.

(** ** Placing the replicas of a new topic *)

(** What partition [i] of a new topic looks like. *)
Record well_placed (ids : list Z) (rf i : Z) (p : partitionMeta) : Prop := {
  wp_id : p_ID p = i;
  wp_nodup : NoDup (p_Replicas p);
  wp_length : Zlength (p_Replicas p) = Z.min (Z.max rf 1) (Zlength ids);
  wp_ids : p_Replicas p ⊆ ids;
  wp_pref : head (p_Replicas p) = Some (p_Leader p);
  wp_leader : ids !! Z.to_nat (i mod Zlength ids) = Some (p_Leader p);
  wp_isr : p_ISR p = [p_Leader p]
}.

Lemma mod_small_inj n i a b : 0 ≤ a < n → 0 ≤ b < n → (i + a) mod n = (i + b) mod n → a = b.
Proof.
  intros Ha Hb E. pose proof (Z.div_mod (i + a) n). pose proof (Z.div_mod (i + b) n).
  assert ((i + a) / n = (i + b) / n) by nia. nia.
Qed.

Lemma place_partition_spec rf ids i :
  ids ≠ [] → NoDup ids →
  let rf' := if rf <? 1 then 1 else rf in
  let n := Z.of_nat (length ids) in
  ∃ p, place_partition (if n <? rf' then n else rf') n ids i = Some p ∧ well_placed ids rf i p.
Proof.
  intros Hne Hnd rf' n. assert (0 < n) as Hn by (unfold n; destruct ids; [done|cbn [length]; lia]).
  set (k := if n <? rf' then n else rf').
  assert (0 < k ≤ n ∧ k = Z.min (Z.max rf 1) n) as [Hk Hkeq].
  { unfold k, rf'. destruct (Z.ltb_spec rf 1); case_match; lia. }
  assert (∀ r, 0 ≤ (i + r) mod n < n) as Hmod by (intros; apply Z.mod_pos_bound; lia).
  destruct (mapM (λ r, ids !! Z.to_nat ((i + r) mod n)) (seqZ 0 k)) as [reps|] eqn:E.
  2: { exfalso. apply eq_None_not_Some in E. apply E, mapM_is_Some, Forall_forall. intros r _.
       apply lookup_lt_is_Some. specialize (Hmod r). lia. }
  apply mapM_Some in E.
  assert (length reps = Z.to_nat k) as Hlen by (rewrite <- (Forall2_length _ _ _ E); apply length_seqZ).
  assert (∀ j x, reps !! j = Some x → 0 ≤ Z.of_nat j < k ∧ ids !! Z.to_nat ((i + Z.of_nat j) mod n) = Some x) as Hj.
  { intros j x Hx. pose proof (lookup_lt_Some _ _ _ Hx).
    destruct (Forall2_lookup_r _ _ _ _ _ E Hx) as (y & Hy & Hi). apply lookup_seqZ in Hy as [-> ?].
    split; [lia|]. by rewrite Z.add_0_l in Hi. }
  unfold place_partition. rewrite (proj2 (mapM_Some _ _ _) E). cbn.
  destruct reps as [|l reps]; [cbn in Hlen; lia|]. cbn. eexists. split; [done|].
  split; cbn [p_ID p_Leader p_Replicas p_ISR]; try done.
  - apply NoDup_alt. intros a c x Ha Hc. apply Hj in Ha as [Ha Hia], Hc as [Hc Hic].
    assert (Z.to_nat ((i + Z.of_nat a) mod n) = Z.to_nat ((i + Z.of_nat c) mod n)) as Heq
      by (by eapply NoDup_lookup).
    assert (Z.of_nat a = Z.of_nat c); [|lia].
    apply (mod_small_inj n i); [lia..|]. pose proof (Hmod (Z.of_nat a)). pose proof (Hmod (Z.of_nat c)). lia.
  - rewrite !Zlength_correct. lia.
  - intros x [j Hx]%list_elem_of_lookup. apply Hj in Hx as [_ Hx]. by eapply list_elem_of_lookup_2.
  - rewrite Zlength_correct. fold n. specialize (Hj 0%nat l eq_refl) as [_ Hj]. by rewrite Z.add_0_r in Hj.
Qed.

Lemma All_ids_NoDup c : cluster_wf c → NoDup (ID <$> All c).
Proof.
  intros Hwf. unfold All. rewrite merge_sort_Permutation.
  assert (ID <$> (map_to_list (Peers c)).*2 = (map_to_list (Peers c)).*1) as ->.
  { rewrite <- list_fmap_compose. apply list_fmap_ext. intros j [i p] Hj. cbn.
    apply (wf_ids _ Hwf). apply elem_of_map_to_list. by eapply list_elem_of_lookup_2. }
  apply NoDup_fst_map_to_list.
Qed.

Lemma elem_of_All c p : p ∈ All c ↔ ∃ id, Peers c !! id = Some p.
Proof.
  unfold All. rewrite merge_sort_Permutation, list_elem_of_fmap. split.
  - intros ([id q] & -> & H%elem_of_map_to_list). by exists id.
  - intros [id H]. exists (id, p). split; [done|]. by apply elem_of_map_to_list.
Qed.

Lemma assignReplicas_spec npart rf ids :
  0 ≤ npart → ids ≠ [] → NoDup ids →
  ∃ ps, assignReplicas npart rf (Z.of_nat (length ids)) ids = Some ps ∧
    Forall2 (well_placed ids rf) (seqZ 0 npart) ps.
Proof.
  intros Hn Hne Hnd. unfold assignReplicas. rewrite (proj2 (Z.ltb_ge _ _)) by done.
  set (f := place_partition _ _ _).
  assert (∀ i, ∃ p, f i = Some p ∧ well_placed ids rf i p) as Hf by (intros; by apply place_partition_spec).
  clearbody f. induction (seqZ 0 npart) as [|i l IH]; cbn; [by exists []|].
  destruct (Hf i) as (p & -> & Hp), IH as (ps & -> & Hps). cbn. exists (p :: ps). split; [done|]. by constructor.
Qed.

Lemma well_placed_ok ids rf i p : well_placed ids rf i p → part_ok p.
Proof.
  intros [Hi Hnd Hlen Hids Hpref Hl Hisr]. split; rewrite ?Hisr.
  - done.
  - apply NoDup_singleton.
  - destruct (p_Replicas p); [done|]. injection Hpref as ->. intros x ->%list_elem_of_singleton. by left.
  - by apply list_elem_of_singleton.
Qed.

(** ** The controller's tick *)

(** What a tick makes of a partition. *)
Record ticked (alive : Z → bool) (p p' : partitionMeta) : Prop := {
  tk_ok : part_ok p';
  tk_id : p_ID p' = p_ID p;
  tk_replicas : p_Replicas p' = p_Replicas p;
  tk_alive : Exists (λ id, alive id = true) (p_Replicas p) →
    alive (p_Leader p') = true ∧ Forall (λ id, alive id = true) (p_ISR p');
  tk_stays : alive (p_Leader p) = true →
    p_Leader p' = p_Leader p ∨ head (p_Replicas p) = Some (p_Leader p');
  tk_keeps id : id ∈ p_ISR p → alive id = true → id ∈ p_ISR p';
  tk_adds id : id ∈ p_ISR p' →
    id ∈ p_ISR p ∨ alive (p_Leader p) = false ∧ firstAlive (p_Replicas p) alive = Some id
}.

Lemma firstAlive_spec reps (alive : Z → bool) :
  reps ≠ [] → ∃ l, firstAlive reps alive = Some l ∧ l ∈ reps ∧
    (Exists (λ id, alive id = true) reps → alive l = true).
Proof.
  intros Hne. unfold firstAlive. destruct (filter (λ id, alive id) reps) as [|l ls] eqn:E.
  - destruct reps as [|r reps]; [done|]. exists r. split; [done|]. split; [by left|].
    intros (x & Hx & Ha)%Exists_exists. assert (x ∈ filter (λ id, alive id) (r :: reps)) as Hin.
    { apply list_elem_of_filter. by rewrite Ha. }
    rewrite E in Hin. by apply elem_of_nil in Hin.
  - assert (l ∈ filter (λ id, alive id) reps) as [Ha Hin]%list_elem_of_filter by (rewrite E; by left).
    exists l. split; [done|]. split; [done|]. by apply Is_true_true in Ha.
Qed.

(** After dead members are dropped and a dead leader replaced. *)
Lemma tick_leader_spec (alive : Z → bool) p :
  part_ok p →
  let isr := filter (λ id, alive id) (p_ISR p) in
  ∃ l isr' ch,
    (if negb (alive (p_Leader p)) then
       leader ← firstAlive (p_Replicas p) alive;
       Some (leader, if negb (contains isr leader) then leader :: isr else isr, true)
     else Some (p_Leader p, isr, existsb (λ id, negb (alive id)) (p_ISR p))) = Some (l, isr', ch) ∧
    ticked alive p (MkPart (p_ID p) l (p_Replicas p) isr') ∧
    (alive (p_Leader p) = true → l = p_Leader p) ∧
    (ch = false → l = p_Leader p ∧ isr' = p_ISR p).
Proof.
  intros [Hrep Hnd Hsub Hl] isr.
  assert (∀ id, id ∈ isr ↔ alive id = true ∧ id ∈ p_ISR p) as Hisr.
  { intros id. unfold isr. by rewrite list_elem_of_filter, Is_true_true. }
  assert (NoDup isr) as Hnd' by (by apply NoDup_filter).
  destruct (alive (p_Leader p)) eqn:Ha; cbn [negb].
  - do 3 eexists. split; [done|]. split; [|split; [done|]].
    + assert (p_Leader p ∈ isr) by (by apply Hisr).
      split; cbn; try done; try (intros ?; rewrite Hisr; tauto); [split; cbn; [done..| |done]| |by left].
      * intros x [_ ?]%Hisr. by apply Hsub.
      * intros _. split; [done|]. apply Forall_forall. intros x. rewrite Hisr. tauto.
    + intros Hch. split; [done|]. apply filter_all. intros x Hx. apply Is_true_true.
      destruct (alive x) eqn:E; [done|]. apply not_true_iff_false in Hch. destruct Hch.
      apply existsb_exists. exists x. rewrite E. split; [by apply list_elem_of_In|done].
  - destruct (firstAlive_spec (p_Replicas p) alive) as (l & Hf & Hlin & Hla).
    { intros E. rewrite E in Hsub. apply Hsub in Hl. by apply elem_of_nil in Hl. }
    rewrite Hf. cbn. do 3 eexists. split; [done|]. split; [|split; done].
    set (isr' := if negb (contains isr l) then l :: isr else isr).
    assert (∀ x, x ∈ isr' ↔ x = l ∨ x ∈ isr) as Hisr'.
    { intros x. unfold isr'. destruct (contains isr l) eqn:E; cbn; [|by rewrite elem_of_cons].
      apply contains_spec in E. split; [by right|]. by intros [->|]. }
    split; cbn; try done; try congruence; [split; cbn; [done| | |]| | |].
    + unfold isr'. destruct (contains isr l) eqn:E; cbn; [done|]. constructor; [|done].
      rewrite <- contains_spec. congruence.
    + intros x [->|[_ ?]%Hisr]%Hisr'; [done|by apply Hsub].
    + apply Hisr'. by left.
    + intros Hex%Hla. split; [done|]. apply Forall_forall. intros x [->|[? _]%Hisr]%Hisr'; done.
    + intros x ??. apply Hisr'. right. by apply Hisr.
    + intros x [->|[_ ?]%Hisr]%Hisr'; [by right|by left].
Qed.

Lemma tick_partition_spec (alive : Z → bool) p :
  part_ok p → ∃ p' ch, tick_partition alive p = Some (p', ch) ∧ ticked alive p p' ∧ (ch = false → p' = p).
Proof.
  intros Hok. destruct (tick_leader_spec alive p Hok) as (l & isr & ch & E & Ht & Hl & Hch).
  unfold tick_partition. rewrite E. cbn [mbind option_bind].
  assert (isr ≠ []) as Hne by (intros ->; by pose proof (ok_leader _ (tk_ok _ _ _ Ht)) as ?%elem_of_nil).
  destruct isr as [|x isr]; [done|].
  destruct (p_Replicas p) as [|pref reps] eqn:Er.
  { do 2 eexists. split; [done|]. split; [done|]. intros [-> E']%Hch. destruct p. by simplify_eq/=. }
  destruct (negb (pref =? l) && alive pref && contains (x :: isr) pref) eqn:Ep.
  2: { do 2 eexists. split; [done|]. split; [done|]. intros [-> E']%Hch. destruct p. by simplify_eq/=. }
  do 2 eexists. split; [done|]. split; [|done].
  rewrite !andb_true_iff in Ep. destruct Ep as [[_ Hpref] Hin%contains_spec].
  destruct Ht as [[] ? ? Ha Hst Hk Hadd]. cbn in *. rewrite Er in *. split; cbn; rewrite ?Er; try done.
  - intros He. split; [done|]. by apply Ha.
  - intros _. by right.
Qed.

Lemma tick_topic_spec (alive : Z → bool) t :
  topic_ok t →
  ∃ t' ch, tick_topic alive t = Some (t', ch) ∧ t_Name t' = t_Name t ∧
    Forall2 (ticked alive) (t_Partitions t) (t_Partitions t') ∧ (ch = false → t' = t).
Proof.
  intros [_ Hok]. unfold tick_topic. destruct t as [name ps]; cbn in *.
  assert (∃ rs, mapM (tick_partition alive) ps = Some rs ∧ Forall2 (ticked alive) ps rs.*1 ∧
    (existsb id rs.*2 = false → rs.*1 = ps)) as (rs & -> & Ht & Hch).
  { induction Hok as [|p ps Hp _ (rs & E & Ht & Hch)]; [by exists []|].
    destruct (tick_partition_spec alive p Hp) as (p' & ch & E' & Htp & Hchp). exists ((p', ch) :: rs).
    cbn. rewrite E'. cbn. rewrite E. split; [done|]. split; [by constructor|].
    intros [->%Hchp Hrs%Hch]%orb_false_iff. by f_equal. }
  cbn. do 2 eexists. split; [done|]. split; [done|]. split; [done|]. intros ?%Hch. by f_equal.
Qed.

Section metadata_proofs.
Context {L D : Type}.
Implicit Types b : Broker L D.

Lemma persistTopics_topics disk_ok b : topics (persistTopics disk_ok b) = topics b.
Proof. by destruct disk_ok. Qed.

Lemma controllerTick_spec now disk_ok b :
  metadata_ok b →
  ∃ changed b', controllerTick now disk_ok b = Some (changed, b') ∧
    dom (topics b') = dom (topics b) ∧
    (∀ name t, topics b !! name = Some t → ∃ t', topics b' !! name = Some t' ∧
       t_Name t' = t_Name t ∧ Forall2 (ticked (alive_at now b)) (t_Partitions t) (t_Partitions t')) ∧
    (changed = false → topics b' = topics b).
Proof.
  intros [_ Hok]. unfold controllerTick. set (alive := alive_at now b).
  assert (map_Forall (λ _ r, is_Some r) (tick_topic alive <$> topics b)) as Hall.
  { intros name r. rewrite lookup_fmap_Some. intros (t & <- & Ht).
    destruct (tick_topic_spec alive t (Hok _ _ Ht)) as (t' & ch & -> & _). by eexists. }
  rewrite decide_True by done. do 2 eexists. split; [done|].
  set (ts := omap (λ r, fst <$> r) (tick_topic alive <$> topics b)).
  assert (∀ name, ts !! name = topics b !! name ≫= λ t, fst <$> tick_topic alive t) as Hts.
  { intros name. unfold ts. rewrite lookup_omap, lookup_fmap. by destruct (topics b !! name). }
  assert (∀ (c : bool) b0, topics b0 = ts → topics (if c then persistTopics disk_ok b0 else b0) = ts) as Hc.
  { intros [] b0 ?; [by rewrite persistTopics_topics|done]. }
  rewrite Hc by done. split_and!.
  - apply set_eq. intros name. rewrite !elem_of_dom, Hts. destruct (topics b !! name) as [t|] eqn:E; [|done].
    cbn. destruct (tick_topic_spec alive t (Hok _ _ E)) as (t' & ch & -> & _). split; by eexists.
  - intros name t Ht. destruct (tick_topic_spec alive t (Hok _ _ Ht)) as (t' & ch & E & Hn & Hp & _).
    exists t'. rewrite Hts, Ht. cbn. by rewrite E.
  - intros Hch. apply map_eq. intros name. rewrite Hts. destruct (topics b !! name) as [t|] eqn:Ht; [|done].
    cbn. destruct (tick_topic_spec alive t (Hok _ _ Ht)) as (t' & ch & E & _ & _ & Hsame). rewrite E. cbn.
    f_equal. apply Hsame. apply bool_decide_eq_false in Hch. apply not_true_iff_false. intros ->. apply Hch.
    exists name, (Some (t', true)). split; [|done]. rewrite lookup_fmap, Ht. cbn. by rewrite E.
Qed.

Lemma ticked_topic_ok (alive : Z → bool) t t' :
  topic_ok t → Forall2 (ticked alive) (t_Partitions t) (t_Partitions t') → topic_ok t'.
Proof.
  intros [Hid _] Ht. split.
  - assert (p_ID <$> t_Partitions t' = p_ID <$> t_Partitions t) as ->; [|done].
    symmetry. apply list_eq_Forall2, Forall2_fmap. eapply Forall2_impl; [exact Ht|]. by intros ?? [].
  - eapply Forall2_Forall_r; [exact Ht|]. apply Forall_true. by intros ?? [].
Qed.

Lemma controllerTick_ok now disk_ok b changed b' :
  metadata_ok b → controllerTick now disk_ok b = Some (changed, b') → metadata_ok b'.
Proof.
  intros Hok E. destruct (controllerTick_spec now disk_ok b Hok) as (c & b1 & E1 & Hdom & Ht & _).
  rewrite E in E1. injection E1 as <- <-.
  assert (∀ name t', topics b' !! name = Some t' → t_Name t' = name ∧ topic_ok t') as H.
  { intros name t' Ht'. assert (is_Some (topics b !! name)) as [t Hb].
    { apply elem_of_dom. rewrite <- Hdom. apply elem_of_dom. by eexists. }
    destruct (Ht _ _ Hb) as (t1 & Ht1 & Hn & Hps). simplify_eq. rewrite Hn, (ok_names _ Hok _ _ Hb).
    split; [done|]. eapply ticked_topic_ok; [by eapply (ok_topics _ Hok)|done]. }
  split; intros ???; by eapply H.
Qed.

Lemma createTopic_new disk_ok name npart rf b :
  cluster_wf (cluster b) → topics b !! name = None →
  ∃ ps b', createTopic disk_ok name npart rf b = Some (true, b') ∧
    topics b' = <[name := MkTopic name ps]> (topics b) ∧
    Forall2 (well_placed (ID <$> All (cluster b)) rf) (seqZ 0 (if npart <=? 0 then 1 else npart)) ps.
Proof.
  intros Hwf Hnone. unfold createTopic. rewrite Hnone.
  destruct (assignReplicas_spec (if npart <=? 0 then 1 else npart) rf (ID <$> All (cluster b))) as (ps & E & Hps).
  - case_match; lia.
  - intros E%fmap_nil_inv. assert (Self (cluster b) ∈ All (cluster b)) as Hin.
    { apply elem_of_All. eexists. apply (wf_self _ Hwf). }
    rewrite E in Hin. by apply elem_of_nil in Hin.
  - by apply All_ids_NoDup.
  - rewrite E. cbn. do 2 eexists. split; [done|]. by rewrite persistTopics_topics.
Qed.

Lemma createTopic_ok disk_ok name npart rf b changed b' :
  cluster_wf (cluster b) → metadata_ok b →
  createTopic disk_ok name npart rf b = Some (changed, b') → metadata_ok b'.
Proof.
  intros Hwf [Hn Ht] E. destruct (topics b !! name) as [t|] eqn:Hname.
  { unfold createTopic in E. rewrite Hname in E. by simplify_eq. }
  destruct (createTopic_new disk_ok name npart rf b Hwf Hname) as (ps & b1 & E1 & Hts & Hps).
  rewrite E in E1. injection E1 as -> <-. split; rewrite Hts; intros n t.
  - rewrite lookup_insert_Some. intros [[<- <-]|[_ ?]]; [done|by apply Hn].
  - rewrite lookup_insert_Some. intros [[<- <-]|[_ ?]]; [|by eapply Ht]. split; cbn.
    + assert (p_ID <$> ps = seqZ 0 (if npart <=? 0 then 1 else npart)) as ->; [|apply NoDup_seqZ].
      symmetry. apply list_eq_Forall2, Forall2_fmap_r. eapply Forall2_impl; [exact Hps|]. by intros ?? [].
    + eapply Forall2_Forall_r; [exact Hps|]. apply Forall_true. intros ??. by eapply well_placed_ok.
Qed.
End metadata_proofs.

(** ** Snapshots, reloads and pushes *)

Section snapshots.
Context {L D : Type}.
Implicit Types b : Broker L D.

Lemma elem_of_snapshot b t : metadata_ok b → t ∈ snapshotTopics b ↔ topics b !! t_Name t = Some t.
Proof.
  intros Hok. unfold snapshotTopics. rewrite merge_sort_Permutation, list_elem_of_fmap. split.
  - intros ([n t'] & -> & Ht%elem_of_map_to_list). cbn. by rewrite (ok_names _ Hok _ _ Ht).
  - intros Ht. exists (t_Name t, t). split; [done|]. by apply elem_of_map_to_list.
Qed.

Lemma snapshot_names b : metadata_ok b → t_Name <$> snapshotTopics b ≡ₚ (map_to_list (topics b)).*1.
Proof.
  intros Hok. unfold snapshotTopics. rewrite merge_sort_Permutation, <- list_fmap_compose.
  apply reflexive_eq, list_fmap_ext. intros i [n t] Hi. cbn. apply (ok_names _ Hok).
  apply elem_of_map_to_list. by eapply list_elem_of_lookup_2.
Qed.

Lemma snapshot_NoDup b : metadata_ok b → NoDup (t_Name <$> snapshotTopics b).
Proof. intros Hok. rewrite snapshot_names by done. apply NoDup_fst_map_to_list. Qed.

Lemma not_in_snapshot b n : metadata_ok b → topics b !! n = None → n ∉ t_Name <$> snapshotTopics b.
Proof.
  intros Hok Hn. rewrite snapshot_names by done. rewrite list_elem_of_fmap.
  intros ([n' t] & -> & Ht%elem_of_map_to_list). cbn in Hn. congruence.
Qed.

(** Folding the snapshot of [a] into a map touches exactly the topics of [a]. *)
Lemma foldl_snapshot (f : option topicMeta → topicMeta → topicMeta) b (m : gmap string topicMeta) n :
  metadata_ok b →
  foldl (λ m t, <[t_Name t := f (m !! t_Name t) t]> m) m (snapshotTopics b) !! n =
    match topics b !! n with Some t => Some (f (m !! n) t) | None => m !! n end.
Proof.
  intros Hok. destruct (topics b !! n) as [t|] eqn:Ht.
  - pose proof (ok_names _ Hok _ _ Ht) as <-. apply (foldl_upsert_at t_Name f).
    + by apply snapshot_NoDup.
    + by apply elem_of_snapshot.
  - apply (foldl_upsert_other t_Name f). by apply not_in_snapshot.
Qed.

(** Well-formedness can be checked. *)
#[global] Instance part_ok_dec p : Decision (part_ok p).
Proof.
  refine (cast_if (decide (NoDup (p_Replicas p) ∧ NoDup (p_ISR p) ∧ p_ISR p ⊆ p_Replicas p ∧ p_Leader p ∈ p_ISR p)));
    [by destruct_and?; split|intros []; tauto].
Defined.

#[global] Instance topic_ok_dec t : Decision (topic_ok t).
Proof.
  refine (cast_if (decide (NoDup (p_ID <$> t_Partitions t) ∧ Forall part_ok (t_Partitions t))));
    [by destruct_and?; split|intros []; tauto].
Defined.

Lemma metadata_ok_check b :
  bool_decide (map_Forall (λ name t, t_Name t = name ∧ topic_ok t) (topics b)) = true → metadata_ok b.
Proof. rewrite bool_decide_eq_true. intros Hall. by split; intros name t Ht; apply (Hall name t Ht). Qed.

(** What a broker makes of one pushed partition [p] when it held [loc]. *)
Record merged (now : Z) b (loc : option partitionMeta) (p p' : partitionMeta) : Prop := {
  mg_id : p_ID p' = p_ID p;
  mg_replicas : p_Replicas p' = p_Replicas p;
  mg_leader : p_Leader p' = p_Leader p ∨
    IsController now (cluster b) = true ∧ alive_at now b (p_Leader p) = false ∧
    p_Leader <$> loc = Some (p_Leader p');
  mg_own : p_Leader <$> loc = Some (cfg_ID (cfg b)) → p_Leader p = cfg_ID (cfg b) →
    p_ISR <$> loc = Some (p_ISR p');
  mg_isr : p_ISR <$> loc = Some (p_ISR p') ∨
    p_ISR p' ≠ [] ∧ ∀ id, id ∈ p_ISR p' →
      id = p_Leader p' ∨ id ∈ p_ISR p ∧ (id = cfg_ID (cfg b) ∨ alive_at now b id = true)
}.

Lemma merge_partition_spec now b loc p :
  merged now b loc p
    (merge_partition (cfg_ID (cfg b)) (IsController now (cluster b)) (alive_at now b) loc p).
Proof.
  set (keep := λ id, (id =? cfg_ID (cfg b)) || alive_at now b id).
  assert (∀ l id, id ∈ nonempty_isr l (filterAlive (p_ISR p) keep) →
    id = l ∨ id ∈ p_ISR p ∧ (id = cfg_ID (cfg b) ∨ alive_at now b id = true)) as Hisr.
  { intros l id. unfold nonempty_isr. destruct (filterAlive (p_ISR p) keep) as [|x isr] eqn:E.
    - intros ->%list_elem_of_singleton. by left.
    - rewrite <- E. unfold filterAlive. rewrite list_elem_of_filter, Is_true_true. unfold keep.
      rewrite orb_true_iff, Z.eqb_eq. tauto. }
  assert (∀ l, nonempty_isr l (filterAlive (p_ISR p) keep) ≠ []) as Hne.
  { intros l. unfold nonempty_isr. by destruct (filterAlive (p_ISR p) keep). }
  unfold merge_partition. fold keep. destruct loc as [loc|]; cbn.
  - destruct (Z.eqb_spec (p_Leader loc) (cfg_ID (cfg b))); destruct (Z.eqb_spec (p_Leader p) (cfg_ID (cfg b)));
      cbn; split; cbn; auto; try congruence; try (right; split; [apply Hne|apply Hisr]).
    all: destruct (IsController now (cluster b)), (alive_at now b (p_Leader p)); cbn; auto.
  - split; cbn; auto; done.
Qed.
End snapshots.

(** ** Sample brokers *)

Definition sample_config (id : Z) : Config :=
  MkConfig id "" "a:9092" "" [{| ID := 1; Addr := "a:9092" |}; {| ID := 2; Addr := "b:9092" |};
    {| ID := 3; Addr := "c:9092" |}] 0 0 0 0 0 0 0 0 0.

(** Broker [id] of three, over any logs, with an empty data directory. *)
Definition sample_broker {L D} (id : Z) : Broker L D :=
  MkBroker L D (with_defaults (sample_config id))
    (Cluster.New 0 {| ID := id; Addr := "" |} (cfg_Peers (sample_config id)) 0)
    (Store.New "data" 0 1048576 4096 ∅) (Coordinator.New ∅ 0 0 None) {| rr := 0 |} ∅ [] ∅ ∅.

Lemma sample_broker_wf {L D} id : cluster_wf (cluster (sample_broker (L:=L) (D:=D) id)).
Proof. apply New_wf. Qed.

Lemma sample_broker_ok {L D} id : metadata_ok (sample_broker (L:=L) (D:=D) id).
Proof. split; intros ??; cbn; by rewrite lookup_empty. Qed.

(** Broker 1 with a topic of two partitions on replicas 1,2 and 2,3. *)
Definition sample_topic : topicMeta :=
  MkTopic "orders" [MkPart 0 1 [1; 2] [1]; MkPart 1 2 [2; 3] [2]].
Definition broker_with_topic {L D} (id : Z) : Broker L D :=
  set_topics {["orders"%string := sample_topic]} (sample_broker id).

Lemma broker_with_topic_ok {L D} id : metadata_ok (broker_with_topic (L:=L) (D:=D) id).
Proof.
  apply (metadata_ok_one _ sample_topic); [done|]. split; [apply (bool_decide_unpack _); exact I|].
  apply Forall_cons_2; [|apply Forall_singleton]; apply part_ok_alone; apply (bool_decide_unpack _); exact I.
Qed.

(** ** Properties *)

Section properties.
Context {L D : Type}.
Implicit Types a b : Broker L D.

(** C29: a new topic is placed round robin: partition [i] is led by broker [i mod
    n] of the membership, its replicas are distinct brokers, as many as asked
    for and the membership allows and at least one, the leader is the first of
    them and alone in the ISR. Creation never fails, and leaves an existing
    topic of that name as it is. *)
Theorem new_topic_is_placed_round_robin disk_ok name npart rf b (Hwf : cluster_wf (cluster b)) :
  match topics b !! name with
  | Some _ => createTopic disk_ok name npart rf b = Some (false, b)
  | None => ∃ ps b', createTopic disk_ok name npart rf b = Some (true, b') ∧
      topics b' = <[name := MkTopic name ps]> (topics b) ∧
      Forall2 (well_placed (ID <$> All (cluster b)) rf) (seqZ 0 (if npart <=? 0 then 1 else npart)) ps
  end.
Proof.
  destruct (topics b !! name) as [t|] eqn:E; [|by apply createTopic_new].
  unfold createTopic. by rewrite E.
Qed.

(** C23: a controller tick repairs leadership. On well-formed metadata it does
    not panic, touches no replica list, and leaves well-formed metadata; a
    partition with a live replica ends with a live leader that is in an ISR of
    live brokers only; a live leader is replaced only by the preferred replica;
    no live member leaves the ISR; and a tick that reports no change made none. *)
Theorem controller_tick_repairs_leadership now disk_ok b (Hok : metadata_ok b) :
  ∃ changed b', controllerTick now disk_ok b = Some (changed, b') ∧ metadata_ok b' ∧
    dom (topics b') = dom (topics b) ∧
    (∀ name t, topics b !! name = Some t → ∃ t', topics b' !! name = Some t' ∧
       Forall2 (ticked (alive_at now b)) (t_Partitions t) (t_Partitions t')) ∧
    (changed = false → topics b' = topics b).
Proof.
  destruct (controllerTick_spec now disk_ok b Hok) as (c & b' & E & Hd & Ht & Hc).
  exists c, b'. split; [done|]. split; [by eapply controllerTick_ok|]. split; [done|]. split; [|done].
  intros name t (t' & ? & _ & ?)%Ht. by exists t'.
Qed.

(** What is written to the topics file is what a restarted broker reads
    back. *)
Theorem persisted_topics_reload a b (Hok : metadata_ok a) (Hb : topics b = ∅) :
  topics (loadTopics (topics_json (persistTopics true a)) b) = topics a.
Proof.
  cbn. rewrite Hb. fold (snapshotTopics a). apply map_eq. intros n.
  rewrite (foldl_snapshot (λ _ t, t) a ∅ n Hok), lookup_empty. by destruct (topics a !! n).
Qed.

Lemma pushed_topics_push now b : pushed_topics (metadataPush now b) = snapshotTopics b.
Proof.
  unfold pushed_topics, metadataPush. cbn [mp_Topics]. rewrite <- list_fmap_compose. rewrite <- (list_fmap_id (snapshotTopics b)) at 2.
  apply list_fmap_ext. intros _ [name ps] _. unfold compose. cbn. f_equal. rewrite <- list_fmap_compose.
  rewrite <- (list_fmap_id ps) at 2. apply list_fmap_ext. by intros _ [] _.
Qed.

Lemma apply_snapshot now' disk_ok a b name :
  metadata_ok a →
  let b' := applyTopics now' disk_ok (snapshotTopics a) b in
  topics b' !! name = match topics a !! name with
    | None => topics b !! name
    | Some t => Some (MkTopic name ((λ inp, merge_partition (cfg_ID (cfg b)) (IsController now' (cluster b))
        (alive_at now' b) (topics b !! name ≫= λ prev, find_partition (t_Partitions prev) (p_ID inp)) inp)
        <$> t_Partitions t))
    end.
Proof.
  intros Hok b'. unfold b', applyTopics. rewrite persistTopics_topics. cbn.
  set (f := λ (o : option topicMeta) (t : topicMeta), MkTopic (t_Name t) ((λ inp,
    merge_partition (cfg_ID (cfg b)) (IsController now' (cluster b)) (alive_at now' b)
      (o ≫= λ prev, find_partition (t_Partitions prev) (p_ID inp)) inp) <$> t_Partitions t)).
  change (merge_topic now' b) with (λ (m : gmap string topicMeta) t, <[t_Name t := f (m !! t_Name t) t]> m).
  rewrite foldl_snapshot by done. destruct (topics a !! name) as [t|] eqn:Ht; [|done].
  unfold f. by rewrite (ok_names _ Hok _ _ Ht).
Qed.

Lemma find_partition_leader (f : partitionMeta → partitionMeta) ps pid :
  (∀ p, p_ID (f p) = p_ID p ∧ p_Leader (f p) = p_Leader p) →
  p_Leader <$> find_partition (f <$> ps) pid = p_Leader <$> find_partition ps pid.
Proof.
  intros Hf. unfold find_partition. induction ps as [|p ps IH]; [done|]. rewrite fmap_cons, !filter_cons.
  destruct (Hf p) as [-> Hl]. destruct (decide (p_ID p = pid)); [cbn; by rewrite Hl|done].
Qed.

(** A broker that is not the controller takes over every leader. *)
Lemma apply_snapshot_leaders now' disk_ok a b name t :
  metadata_ok a → IsController now' (cluster b) = false → topics a !! name = Some t →
  let b' := applyTopics now' disk_ok (snapshotTopics a) b in
  length ∘ t_Partitions <$> topics b' !! name = Some (length (t_Partitions t)) ∧
  ∀ pid, p_Leader <$> partition_meta b' name pid = p_Leader <$> partition_meta a name pid.
Proof.
  intros Hok Hc Ht b'. pose proof (apply_snapshot now' disk_ok a b name Hok) as E. cbn zeta in E. fold b' in E.
  rewrite Ht in E. rewrite E. cbn. rewrite length_fmap. split; [done|]. intros pid. unfold partition_meta.
  rewrite E, Ht. cbn [t_Partitions]. apply find_partition_leader. intros p.
  set (q := topics b !! name ≫= λ prev, find_partition (t_Partitions prev) (p_ID p)).
  destruct (merge_partition_spec now' b q p) as [Hid _ [Hl|(Hc' & _)] _ _]; [by split|congruence].
Qed.

(** A metadata push propagates: the receiver ends with every topic of the
    sender, with its partitions and replica lists, and keeps its other topics;
    it takes over the leaders, except that a controller keeps its own choice
    over a leader it believes dead, and the ISRs without brokers it believes
    dead, except for partitions it leads itself, whose ISR it keeps. *)
Theorem metadata_push_propagates now now' disk_ok a b (Hok : metadata_ok a) :
  let b' := applyTopics now' disk_ok (pushed_topics (metadataPush now a)) b in
  (∀ name, topics a !! name = None → topics b' !! name = topics b !! name) ∧
  (∀ name t, topics a !! name = Some t → ∃ t', topics b' !! name = Some t' ∧ t_Name t' = name ∧
     Forall2 (λ p p', merged now' b
        (topics b !! name ≫= λ prev, find_partition (t_Partitions prev) (p_ID p)) p p')
       (t_Partitions t) (t_Partitions t')).
Proof.
  cbv zeta. rewrite pushed_topics_push.
  pose proof (λ name, apply_snapshot now' disk_ok a b name Hok) as E. cbn zeta in E. split; intros name.
  - intros Hn. specialize (E name). by rewrite Hn in E.
  - intros t Ht. specialize (E name). rewrite Ht in E. eexists. split; [exact E|]. split; [done|]. cbn.
    apply Forall2_fmap_r, Forall_Forall2_diag, Forall_true. intros p. apply merge_partition_spec.
Qed.

(** On the death of a leader the controller picks the first live replica
    even when it is out of sync and a member of the ISR is alive: with replicas
    1, 2, 3, ISR 1, 3 and broker 1 dead, broker 2 becomes leader. *)
Theorem failover_prefers_order_over_isr :
  let alive id := bool_decide (id ≠ 1) in
  let p := MkPart 0 1 [1; 2; 3] [1; 3] in
  tick_partition alive p = Some (MkPart 0 2 [1; 2; 3] [2; 3], true) ∧
  alive 3 = true ∧ 3 ∈ p_ISR p ∧ 2 ∉ p_ISR p.
Proof. split_and!; [vm_compute; reflexivity..| |]; apply (bool_decide_unpack _); vm_compute; exact I. Qed.
End properties.

Lemma new_topic_is_placed_round_robin_witness :
  ∃ ps b', createTopic true "orders" 4 2 (sample_broker (L:=unit) (D:=unit) 1) = Some (true, b') ∧
    topics b' = <["orders"%string := MkTopic "orders" ps]> ∅ ∧
    Forall2 (well_placed [1; 2; 3] 2) [0; 1; 2; 3] ps.
Proof.
  apply (new_topic_is_placed_round_robin (L:=unit) (D:=unit) true "orders" 4 2 (sample_broker 1)).
  apply sample_broker_wf.
Defined.

Lemma controller_tick_repairs_leadership_witness :
  ∃ changed b', controllerTick 1000 true (broker_with_topic (L:=unit) (D:=unit) 1) = Some (changed, b') ∧
    metadata_ok b' ∧ dom (topics b') = {["orders"%string]}.
Proof.
  destruct (controller_tick_repairs_leadership (L:=unit) (D:=unit) 1000 true (broker_with_topic 1)
    (broker_with_topic_ok 1)) as (c & b' & E & Hok & Hd & _).
  exists c, b'. split; [exact E|]. split; [exact Hok|]. rewrite Hd. apply dom_singleton_L.
Defined.

Lemma persisted_topics_reload_witness :
  topics (loadTopics (topics_json (persistTopics true (broker_with_topic (L:=unit) (D:=unit) 1)))
            (sample_broker (L:=unit) (D:=unit) 1)) = {["orders"%string := sample_topic]}.
Proof. apply (persisted_topics_reload (L:=unit) (D:=unit)); [apply broker_with_topic_ok|reflexivity]. Defined.

Lemma metadata_push_propagates_witness :
  let b' := applyTopics 9 true (pushed_topics (metadataPush 9 (broker_with_topic (L:=unit) (D:=unit) 1)))
              (sample_broker (L:=unit) (D:=unit) 2) in
  ∃ t', topics b' !! "orders"%string = Some t' ∧ t_Name t' = "orders"%string.
Proof.
  destruct (metadata_push_propagates (L:=unit) (D:=unit) 9 9 true _ (sample_broker 2)
    (broker_with_topic_ok 1)) as [_ H].
  destruct (H "orders"%string sample_topic) as (t' & ? & ? & _); [reflexivity|]. exists t'. by split.
Defined.
