(* ===== verification/Client.v ===== *)
(** The Go client, [internal/client/client.go]: fail-over between brokers and
    redirects to the leader, over a transport.  A request is sent by
    [send addr]; [None] is a failure to send it or to read the answer. *)
From S2P Require Import Prelude GoStrings Wire.
Open Scope Z_scope.

(** ** Errors and answers *)

Inductive client_error :=
  | NetworkError
  | HTTPStatus (code : Z) (msg : string)  (* "http %d: %s" *)
  | Message (msg : string)                (* "%s" *)
  | BadBody                               (* json.Unmarshal *)
  | NoBrokers                             (* "no brokers" *)
  | RetriesExhausted.                     (* "produce: retries exhausted" *)

(** A status, and a body, which decodes as an error body ([error_body], zero
    values where it does not) or as a result ([out], [None] where it does not). *)
Record reply (A : Type) := MkReply {
  status : Z;
  raw : string;
  error_body : ErrorBody;
  out : option A
}.
Arguments MkReply {A}.
Arguments status {A}.
Arguments raw {A}.
Arguments error_body {A}.
Arguments out {A}.

Definition StatusConflict : Z := 409.

(** The message of an error body, or the whole body when it has none. *)
Definition error_text {A} (r : reply A) : string :=
  if bool_decide (eb_Error (error_body r) = ""%string) then raw r else eb_Error (error_body r).

Definition decode_out {A} (r : reply A) : A + client_error :=
  match out r with Some a => inl a | None => inr BadBody end.

(** ** Operations *)

Section client.
Context {W A : Type} (send : string → M W (option (reply A))).

Definition pick (brokers : list string) : string := default ""%string (head brokers).

(** Every broker in turn until one answers below 400; the last error counts. *)
Fixpoint any_loop (last : client_error) (brokers : list string) : M W (A + client_error) :=
  match brokers with
  | [] => mret (inr last)
  | b :: brokers =>
    r ← send b;
    match r with
    | None => any_loop NetworkError brokers
    | Some r =>
      if 400 <=? status r then any_loop (HTTPStatus (status r) (error_text r)) brokers
      else mret (decode_out r)
    end
  end.

Definition any (brokers : list string) : M W (A + client_error) := any_loop NoBrokers brokers.

(** Up to [attempts] requests, following the leader a conflict names. *)
Fixpoint Produce_loop (attempts : nat) (addr : string) : M W (A + client_error) :=
  match attempts with
  | O => mret (inr RetriesExhausted)
  | S attempts =>
    r ← send addr;
    match r with
    | None => mret (inr NetworkError)
    | Some r =>
      if status r =? StatusConflict then
        let leader := eb_LeaderAddr (error_body r) in
        if negb (bool_decide (leader = ""%string)) && negb (bool_decide (leader = addr))
        then Produce_loop attempts leader
        else mret (inr (Message (eb_Error (error_body r))))
      else if 400 <=? status r then mret (inr (Message (error_text r)))
      else mret (decode_out r)
    end
  end.

Definition Produce (brokers : list string) (addr : string) : M W (A + client_error) :=
  Produce_loop 5 (if bool_decide (addr = ""%string) then pick brokers else addr).

(** One request, no redirect. *)
Definition Fetch (brokers : list string) (addr : string) : M W (A + client_error) :=
  r ← send (if bool_decide (addr = ""%string) then pick brokers else addr);
  match r with
  | None => mret (inr NetworkError)
  | Some r => if 400 <=? status r then mret (inr (HTTPStatus (status r) (raw r))) else mret (decode_out r)
  end.
End client.

(** [PeerHeartbeat], [PushMetadata] and [ReplicaAck] only report whether the
    request got through. *)
Definition delivered {W A} (send : string → M W (option (reply A))) (addr : string) : M W bool :=
  r ← send addr;
  mret match r with None => false | Some r => negb (400 <=? status r) end.

(** ** Fail-over and redirects *)

Section properties.
Context {W A : Type} (send : string → M W (option (reply A))).

(** An answer the client does not accept. *)
Definition refuses (r : option (reply A)) : Prop :=
  match r with None => True | Some r => 400 ≤ status r end.

(** The brokers are asked one after the other, and none is any good. *)
Inductive refused : list string → W → W → Prop :=
  | refused_nil w : refused [] w w
  | refused_cons b bs w r w1 w2 :
      send b w = (Ok r, w1) → refuses r → refused bs w1 w2 → refused (b :: bs) w w2.

Lemma any_loop_spec last brokers w :
  (∀ b w, ∃ r w', send b w = (Ok r, w')) →
  ∃ res w', any_loop send last brokers w = (Ok res, w') ∧
    ((∃ bs b rest r w1, brokers = bs ++ b :: rest ∧ refused bs w w1 ∧ send b w1 = (Ok (Some r), w') ∧
        status r < 400 ∧ res = decode_out r) ∨
     (refused brokers w w' ∧ ∃ e, res = inr e ∧ (brokers = [] → e = last))).
Proof.
  intros Hsend. revert last w. induction brokers as [|b brokers IH]; intros last w; cbn [any_loop].
  { exists (inr last), w. split; [done|]. right. split; [constructor|by exists last]. }
  destruct (Hsend b w) as (r & w1 & Hr). rewrite (bind_Ok _ _ _ _ _ Hr).
  assert (∀ last', refuses r → ∃ res w', any_loop send last' brokers w1 = (Ok res, w') ∧
    ((∃ bs b' rest r w2, b :: brokers = bs ++ b' :: rest ∧ refused bs w w2 ∧ send b' w2 = (Ok (Some r), w') ∧
        status r < 400 ∧ res = decode_out r) ∨
     (refused (b :: brokers) w w' ∧ ∃ e, res = inr e ∧ (b :: brokers = [] → e = last)))) as Hnext.
  { intros last' Hbad. destruct (IH last' w1) as (res & w' & Hrun & Hres). exists res, w'. split; [done|].
    destruct Hres as [(bs & b' & rest & r' & w2 & -> & Hbs & ? & ? & ?)|[Hall (e & -> & _)]]; [left|right].
    - exists (b :: bs), b', rest, r', w2. split_and!; try done. by econstructor.
    - split; [by econstructor|by exists e]. }
  destruct r as [r|]; [|by apply Hnext]. destruct (Z.leb_spec 400 (status r)); [by apply Hnext|].
  exists (decode_out r), w1. split; [done|]. left. exists [], b, brokers, r, w. split_and!; try done. constructor.
Qed.

(** The client asks its brokers in order and stops at the first one that
    answers below 400, whose answer is the result; no broker after it is asked.
    It fails only when every broker failed or refused, all having been asked
    once, or when that answer cannot be read, or when it has no brokers. *)
Theorem client_returns_the_first_answer brokers w (Hsend : ∀ b w, ∃ r w', send b w = (Ok r, w')) :
  ∃ res w', Client.any send brokers w = (Ok res, w') ∧
    ((∃ bs b rest r w1, brokers = bs ++ b :: rest ∧ refused bs w w1 ∧ send b w1 = (Ok (Some r), w') ∧
        status r < 400 ∧ res = decode_out r) ∨
     (refused brokers w w' ∧ ∃ e, res = inr e ∧ (brokers = [] → e = NoBrokers))).
Proof. by apply any_loop_spec. Qed.

(** The chain of conflicts a produce call follows: each answer names the next
    broker to ask. *)
Inductive redirected : nat → string → W → string → W → Prop :=
  | redirected_here addr w : redirected 0 addr w addr w
  | redirected_next n addr w r w1 addr' w' :
      send addr w = (Ok (Some r), w1) → status r = StatusConflict →
      eb_LeaderAddr (error_body r) ≠ ""%string → eb_LeaderAddr (error_body r) ≠ addr →
      redirected n (eb_LeaderAddr (error_body r)) w1 addr' w' → redirected (S n) addr w addr' w'.

Lemma Produce_loop_spec attempts addr w :
  (∀ b w, ∃ r w', send b w = (Ok r, w')) →
  ∃ res w', Produce_loop send attempts addr w = (Ok res, w') ∧
    ((∃ n addr' w1 r, (n < attempts)%nat ∧ redirected n addr w addr' w1 ∧ send addr' w1 = (Ok r, w') ∧
        (∀ a, res = inl a → ∃ r', r = Some r' ∧ status r' < 400 ∧ out r' = Some a)) ∨
     (res = inr RetriesExhausted ∧ ∃ addr', redirected attempts addr w addr' w')).
Proof.
  intros Hsend. revert addr w. induction attempts as [|attempts IH]; intros addr w; cbn [Produce_loop].
  { exists (inr RetriesExhausted), w. split; [done|]. right. split; [done|]. exists addr. constructor. }
  destruct (Hsend addr w) as (r & w1 & Hr). rewrite (bind_Ok _ _ _ _ _ Hr).
  assert (∀ res, (∀ a, res = inl a → ∃ r', r = Some r' ∧ status r' < 400 ∧ out r' = Some a) →
    ∃ res' w', (mret res : M W (A + client_error)) w1 = (Ok res', w') ∧
    ((∃ n addr' w2 r, (n < S attempts)%nat ∧ redirected n addr w addr' w2 ∧ send addr' w2 = (Ok r, w') ∧
        (∀ a, res' = inl a → ∃ r', r = Some r' ∧ status r' < 400 ∧ out r' = Some a)) ∨
     (res' = inr RetriesExhausted ∧ ∃ addr', redirected (S attempts) addr w addr' w'))) as Hstop.
  { intros res Hres. exists res, w1. split; [done|]. left. exists 0%nat, addr, w, r.
    split_and!; [lia|constructor|done|done]. }
  destruct r as [r|]; [|by apply Hstop]. destruct (Z.eqb_spec (status r) StatusConflict) as [Hc|_].
  - cbv zeta. destruct (negb _ && negb _) eqn:E; [|by apply Hstop].
    rewrite andb_true_iff, !negb_true_iff, !bool_decide_eq_false in E. destruct E as [Hne Hne'].
    destruct (IH (eb_LeaderAddr (error_body r)) w1) as (res & w' & Hrun & Hres). exists res, w'. split; [done|].
    destruct Hres as [(n & addr' & w2 & r' & Hn & Hred & Hs & Ha)|[-> (addr' & Hred)]]; [left|right].
    + exists (S n), addr', w2, r'. split_and!; [lia|by econstructor|done|done].
    + split; [done|]. exists addr'. by econstructor.
  - destruct (Z.leb_spec 400 (status r)); [by apply Hstop|]. apply Hstop. intros a E. exists r.
    unfold decode_out in E. destruct (out r) as [a'|] eqn:Ho; [|done]. injection E as ->. done.
Qed.

(** A produce call makes at most five requests and always returns. From the
    address given, or the first broker, it follows conflicts that name another
    leader, fewer than five of them, to a broker whose answer decides: a result
    is only returned when that broker accepted the request and its answer could
    be read. After five conflicts it gives up. *)
Theorem produce_follows_few_redirects brokers addr w (Hsend : ∀ b w, ∃ r w', send b w = (Ok r, w')) :
  let first := if bool_decide (addr = ""%string) then pick brokers else addr in
  ∃ res w', Client.Produce send brokers addr w = (Ok res, w') ∧
    ((∃ n addr' w1 r, (n < 5)%nat ∧ redirected n first w addr' w1 ∧ send addr' w1 = (Ok r, w') ∧
        (∀ a, res = inl a → ∃ r', r = Some r' ∧ status r' < 400 ∧ out r' = Some a)) ∨
     (res = inr RetriesExhausted ∧ ∃ addr', redirected 5 first w addr' w')).
Proof. by apply Produce_loop_spec. Qed.
End properties.

(** *** A sample transport: it counts requests; "b" refers to "c", which answers. *)

Definition sample_send (addr : string) : M nat (option (reply Z)) := act $ λ n,
  (Ok (if bool_decide (addr = "b"%string) then Some (MkReply StatusConflict "" (MkErrorBody "not_leader" 3 "c") None)
       else if bool_decide (addr = "c"%string) then Some (MkReply 200 "7" (MkErrorBody "" 0 "") (Some 7))
       else None), S n).

Lemma sample_send_total b n : ∃ r n', sample_send b n = (Ok r, n').
Proof. by do 2 eexists. Qed.

Lemma client_returns_the_first_answer_witness :
  Client.any sample_send ["a"; "b"; "c"; "c"]%string 0%nat = (Ok (inl 7), 3%nat) ∧
  ∃ res w', Client.any sample_send ["a"; "b"]%string 0%nat = (Ok res, w') ∧
    ((∃ bs b rest r w1, ["a"; "b"]%string = bs ++ b :: rest ∧ refused sample_send bs 0%nat w1 ∧
        sample_send b w1 = (Ok (Some r), w') ∧ status r < 400 ∧ res = decode_out r) ∨
     (refused sample_send ["a"; "b"]%string 0%nat w' ∧ ∃ e, res = inr e ∧ (["a"; "b"]%string = [] → e = NoBrokers))).
Proof. split; [reflexivity|]. apply (client_returns_the_first_answer sample_send), sample_send_total. Defined.

Lemma produce_follows_few_redirects_witness :
  Client.Produce sample_send [] "b" 0%nat = (Ok (inl 7), 2%nat) ∧
  ∃ res w', Client.Produce sample_send [] "b" 0%nat = (Ok res, w').
Proof.
  split; [reflexivity|].
  destruct (produce_follows_few_redirects sample_send [] "b" 0%nat sample_send_total) as (res & w' & H & _). eauto.
Defined.
