(* ===== verification/Consumer.v ===== *)
(** The consumer of the command line, [consumeCmd] of [cmd/logship-cli/main.go]:
    it joins a group, and prints and commits what it fetches until the group
    rebalances.  What it asks of the brokers is a record of calls; what it does
    is a trace of events. *)
From S2P Require Import Prelude GoStrings Bytes RecordFmt Wire Client.
Open Scope Z_scope.

(** ** The calls and the trace *)

(** The methods of the client the consumer uses. *)
Record calls (W : Type) := Calls {
  cl_Join : string → JoinRequest → M W (JoinResponse + client_error);
  cl_Sync : string → SyncRequest → M W (SyncResponse + client_error);
  cl_Heartbeat : string → HeartbeatRequest → M W (HeartbeatResponse + client_error);
  cl_CommitOffsets : string → OffsetCommitRequest → M W (unit + client_error);
  cl_FetchOffsets : string → string → M W (OffsetFetchResponse + client_error);
  cl_Metadata : M W (Metadata + client_error);
  cl_Fetch : string → Z → Z → Z → M W (FetchResponse + client_error)
}.
Arguments cl_Join {W}.
Arguments cl_Sync {W}.
Arguments cl_Heartbeat {W}.
Arguments cl_CommitOffsets {W}.
Arguments cl_FetchOffsets {W}.
Arguments cl_Metadata {W}.
Arguments cl_Fetch {W}.

(** [Assigned]: the partitions, the offsets the coordinator knew ([None] when it
    could not be asked) and the offsets to start at; [Committed]: the request. *)
Inductive event :=
  | Assigned (parts : list Z) (known : option (list OffsetCommit)) (start : gmap Z Z)
  | Printed (p : Z) (r : WireRecord)
  | Committed (p off : Z).

(** ** The consumer *)

Section consumer.
Context {W : Type} (cli : calls W) (groupID topic : string) (fromBeg : bool) (max : Z).

Definition call {A} (m : M W A) : M (W * list event) A := zoom fst (λ w s, (w, snd s)) m.
Definition emit (e : event) : M (W * list event) unit := modify (λ s, (fst s, snd s ++ [e])).

(** The value of [offsets[p]], zero when it is not there. *)
Definition offset_at (offsets : gmap Z Z) (p : Z) : Z := default 0 (offsets !! p).

Definition commit_table (os : list OffsetCommit) : gmap Z Z :=
  foldl (λ m o, <[oc_Partition o := oc_Offset o]> m) ∅ os.

(** The high watermark the metadata gives for the partition. *)
Definition latest (p : Z) (md : Metadata) : Z :=
  foldl (λ o t, if negb (bool_decide (ti_Name t = topic)) then o
                else foldl (λ o pi, if pi_ID pi =? p then pi_HW pi else o) o (ti_Partitions t)) 0 (md_Topics md).

Fixpoint start_offsets (parts : list Z) (offsets : gmap Z Z) : M (W * list event) (gmap Z Z) :=
  match parts with
  | [] => mret offsets
  | p :: parts =>
    match offsets !! p with
    | Some _ => start_offsets parts offsets
    | None =>
      if fromBeg then start_offsets parts (<[p := 0]> offsets) else
      md ← call (cl_Metadata cli);
      start_offsets parts (<[p := match md with inl md => latest p md | inr _ => 0 end]> offsets)
    end
  end.

Definition commit (member : string) (gen p : Z) (offsets : gmap Z Z) : M (W * list event) unit :=
  emit (Committed p (offset_at offsets p));;
  call (cl_CommitOffsets cli groupID (MkOffsetCommitRequest member gen [MkOffsetCommit topic p (offset_at offsets p)]));;
  mret tt.

(** The records of one answer; [None] when the [max]th is printed. *)
Fixpoint print_records (member : string) (gen p : Z) (recs : list WireRecord) (offsets : gmap Z Z) (printed : Z) :
    M (W * list event) (option (gmap Z Z * Z)) :=
  match recs with
  | [] => mret (Some (offsets, printed))
  | r :: recs =>
    emit (Printed p r);;
    let offsets := <[p := i64 (w_Offset r + 1)]> offsets in
    let printed := printed + 1 in
    if (0 <? max) && (max <=? printed)
    then commit member gen p offsets;; mret None
    else print_records member gen p recs offsets printed
  end.

(** One round over the partitions. *)
Fixpoint poll (member : string) (gen : Z) (parts : list Z) (offsets : gmap Z Z) (printed : Z) (progress : bool) :
    M (W * list event) (option (gmap Z Z * Z * bool)) :=
  match parts with
  | [] => mret (Some (offsets, printed, progress))
  | p :: parts =>
    fr ← call (cl_Fetch cli topic p (offset_at offsets p) (Z.shiftl 1 20));
    match fr with
    | inr _ => poll member gen parts offsets printed progress
    | inl fr =>
      if bool_decide (f_Records fr = []) then poll member gen parts offsets printed progress else
      res ← print_records member gen p (f_Records fr) offsets printed;
      match res with
      | None => mret None
      | Some (offsets, printed) =>
        commit member gen p offsets;;
        poll member gen parts offsets printed true
      end
    end
  end.

(** Until the group rebalances ([Some], with the records printed so far) or the
    consumer is done ([None]). *)
Fixpoint session (fuel : nat) (member : string) (gen : Z) (parts : list Z) (offsets : gmap Z Z) (printed idle : Z) :
    M (W * list event) (option Z) :=
  match fuel with
  | O => diverge
  | S fuel =>
    hb ← call (cl_Heartbeat cli groupID (MkHeartbeatRequest member gen));
    match hb with
    | inr _ => mret (Some printed)
    | inl hb =>
      if negb (bool_decide (hp_Error hb = ""%string)) then mret (Some printed) else
      res ← poll member gen parts offsets printed false;
      match res with
      | None => mret None
      | Some (offsets, printed, progress) =>
        let idle := if (progress : bool) then idle else idle + 1 in
        if negb progress && (0 <? max) && (25 <? idle) then mret None
        else session fuel member gen parts offsets printed idle
      end
    end
  end.

(** [true] when it returns, [false] when it exits with an error. *)
Fixpoint consume (fuel : nat) (member : string) (printed : Z) : M (W * list event) bool :=
  match fuel with
  | O => diverge
  | S fuel' =>
    jr ← call (cl_Join cli groupID (MkJoinRequest member [topic]));
    match jr with
    | inr _ => mret false
    | inl jr =>
      let member := jp_MemberID jr in
      sr ← call (cl_Sync cli groupID (MkSyncRequest member (jp_Generation jr)));
      match sr with
      | inr _ => consume fuel' member printed
      | inl sr =>
        let parts := default [] (sp_Assignment sr !! topic) in
        fo ← call (cl_FetchOffsets cli groupID topic);
        let known := match fo with inl fo => Some (of_Offsets fo) | inr _ => None end in
        start ← start_offsets parts (commit_table (default [] known));
        emit (Assigned parts known start);;
        res ← session fuel member (sp_Generation sr) parts start printed 0;
        match res with
        | None => mret true
        | Some printed => consume fuel' member printed
        end
      end
    end
  end.

Definition consumeCmd (fuel : nat) : M (W * list event) bool := consume fuel ""%string 0.
End consumer.

(** ** The abstract consumer: a cursor per partition *)

(** [rel c o]: a record at offset [o] may be printed when the cursor is at [c]. *)
Section cursor.
Context (rel : Z → Z → Prop).

(** The partitions assigned and their cursors. *)
Abbreviation cursors := (list Z * gmap Z Z)%type.

Inductive cursor_step : cursors → event → cursors → Prop :=
  | cursor_assigned st parts known start :
      (∀ p, p ∈ parts → is_Some (start !! p)) →
      (∀ os, known = Some os → commit_table os ⊆ start) →
      cursor_step st (Assigned parts known start) (parts, start)
  | cursor_printed parts cs p r :
      p ∈ parts → rel (offset_at cs p) (w_Offset r) →
      cursor_step (parts, cs) (Printed p r) (parts, <[p := w_Offset r + 1]> cs)
  | cursor_committed parts cs p :
      p ∈ parts → cursor_step (parts, cs) (Committed p (offset_at cs p)) (parts, cs).

(** The traces of a run, and the cursors after it. *)
Inductive cursor_run : list event → cursors → Prop :=
  | run_start : cursor_run [] ([], ∅)
  | run_step tr st e st' : cursor_run tr st → cursor_step st e st' → cursor_run (tr ++ [e]) st'.

(** The offsets of an answer to a fetch at [off]. *)
Fixpoint rising (off : Z) (os : list Z) : Prop :=
  match os with
  | [] => True
  | o :: os => 0 ≤ o < 2 ^ 63 - 1 ∧ rel off o ∧ rising (o + 1) os
  end.

(** [m] keeps [I], and its result satisfies [Q]. *)
Definition safe {W A} (I : W → Prop) (m : M W A) (Q : A → Prop) : Prop :=
  ∀ w, I w → match m w with (Ok a, w') => I w' ∧ Q a | (_, w') => I w' end.

(** What the consumer needs of the brokers, as long as [I] holds of them. *)
Record honest {W} (cli : calls W) (I : W → Prop) : Prop := {
  h_Join g q : safe I (cl_Join cli g q) (λ _, True);
  h_Sync g q : safe I (cl_Sync cli g q) (λ _, True);
  h_Heartbeat g q : safe I (cl_Heartbeat cli g q) (λ _, True);
  h_CommitOffsets g q :
    Forall (λ o, 0 ≤ oc_Offset o) (oq_Offsets q) → safe I (cl_CommitOffsets cli g q) (λ _, True);
  h_FetchOffsets g t : safe I (cl_FetchOffsets cli g t) (λ r,
    match r with inl fo => Forall (λ o, 0 ≤ oc_Offset o) (of_Offsets fo) | inr _ => True end);
  h_Metadata : safe I (cl_Metadata cli) (λ r,
    match r with
    | inl md => Forall (λ t, Forall (λ pi, 0 ≤ pi_HW pi) (ti_Partitions t)) (md_Topics md)
    | inr _ => True
    end);
  h_Fetch t p off n : 0 ≤ off → safe I (cl_Fetch cli t p off n) (λ r,
    match r with inl fr => rising off (w_Offset <$> f_Records fr) | inr _ => True end)
}.
End cursor.

(** ** The consumer implements the cursors *)

Lemma offset_at_insert p o cs : offset_at (<[p := o]> cs) p = o.
Proof. unfold offset_at. by rewrite lookup_insert_eq. Qed.

Lemma offset_at_insert_ne p q o cs : q ≠ p → offset_at (<[q := o]> cs) p = offset_at cs p.
Proof. intros. unfold offset_at. by rewrite lookup_insert_ne. Qed.

Section refinement.
Context {W : Type} (rel : Z → Z → Prop) (cli : calls W) (I : W → Prop) (Hcli : honest rel cli I).
Context (groupID topic : string) (fromBeg : bool) (max : Z).

Definition tracked (st : list Z * gmap Z Z) (s : W * list event) : Prop := I (fst s) ∧ cursor_run rel (snd s) st.

(** From cursors [st], a run of [m] is a run of the cursors, to some related to
    its result by [Q] when it returns. *)
Definition refines {A} (m : M (W * list event) A) st (Q : A → list Z * gmap Z Z → Prop) : Prop := ∀ s,
  tracked st s → match m s with
                 | (Ok a, s') => ∃ st', tracked st' s' ∧ Q a st'
                 | (_, s') => ∃ st', tracked st' s'
                 end.

Lemma refines_ret {A} (a : A) st (Q : A → list Z * gmap Z Z → Prop) : Q a st → refines (mret a) st Q.
Proof. intros HQ s Hs. by exists st. Qed.

Lemma refines_bind {A B} (m : M (W * list event) A) (f : A → M (W * list event) B) st P Q :
  refines m st P → (∀ a st', P a st' → refines (f a) st' Q) → refines (m ≫= f) st Q.
Proof.
  intros Hm Hf s Hs. specialize (Hm s Hs). unfold mbind, M_bind. destruct (m s) as [[a| | |] s']; try done.
  destruct Hm as (st' & Hs' & HP). by apply (Hf a st' HP).
Qed.

Lemma refines_call {A} (m : M W A) st P : safe I m P → refines (call m) st (λ a st', st' = st ∧ P a).
Proof.
  intros Hm [w tr] [Hw Htr]. specialize (Hm w Hw). unfold call, zoom. cbn in *.
  destruct (m w) as [[a| | |] w']; cbn; [|by exists st..]. exists st. by destruct Hm.
Qed.

Lemma refines_emit e st st' : cursor_step rel st e st' → refines (emit e) st (λ _ st'', st'' = st').
Proof.
  intros He [w tr] [Hw Htr]. exists st'. split; [|done]. split; [done|]. by apply (run_step _ _ st).
Qed.

Lemma refines_diverge {A} st (Q : A → list Z * gmap Z Z → Prop) : refines diverge st Q.
Proof. intros s Hs. by exists st. Qed.

(** Cursors are not negative. *)
Definition nonneg (cs : gmap Z Z) : Prop := ∀ p, 0 ≤ offset_at cs p.

Lemma nonneg_insert cs p o : nonneg cs → 0 ≤ o → nonneg (<[p := o]> cs).
Proof.
  intros Hcs Ho q. unfold offset_at. rewrite lookup_insert. case_decide; [done|]. apply Hcs.
Qed.

Lemma nonneg_commit_table os : Forall (λ o, 0 ≤ oc_Offset o) os → nonneg (commit_table os).
Proof.
  unfold commit_table. assert (nonneg ∅) as He by (intros p; unfold offset_at; by rewrite lookup_empty).
  intros Hos. revert He. generalize (∅ : gmap Z Z). induction Hos as [|o os Ho _ IH]; intros m Hm; [done|].
  cbn. by apply IH, nonneg_insert.
Qed.

Lemma foldl_nonneg {A} (f : Z → A → Z) (P : A → Prop) xs o :
  (∀ o x, 0 ≤ o → P x → 0 ≤ f o x) → Forall P xs → 0 ≤ o → 0 ≤ foldl f o xs.
Proof. intros Hf Hxs. revert o. induction Hxs; intros o Ho; cbn; auto. Qed.

Lemma latest_nonneg p md :
  Forall (λ t, Forall (λ pi, 0 ≤ pi_HW pi) (ti_Partitions t)) (md_Topics md) → 0 ≤ latest topic p md.
Proof.
  intros Hts. eapply foldl_nonneg; [|exact Hts|done]. intros o t Ho Ht. case_bool_decide; cbn [negb]; [|done].
  eapply foldl_nonneg; [|exact Ht|done]. intros; by case_match.
Qed.

(** [start_offsets] only fills in. *)
Lemma start_offsets_refines st parts cs :
  nonneg cs →
  refines (start_offsets cli topic fromBeg parts cs) st (λ cs' st', st' = st ∧
    nonneg cs' ∧ cs ⊆ cs' ∧ ∀ p, p ∈ parts → is_Some (cs' !! p)).
Proof.
  revert cs. induction parts as [|p parts IH]; intros cs Hcs; cbn [start_offsets].
  { apply refines_ret. split_and!; try done. intros p Hp. by apply elem_of_nil in Hp. }
  assert (∀ o, 0 ≤ o → cs !! p = None → refines (start_offsets cli topic fromBeg parts (<[p := o]> cs)) st
    (λ cs' st', st' = st ∧ nonneg cs' ∧ cs ⊆ cs' ∧ ∀ q, q ∈ p :: parts → is_Some (cs' !! q))) as Hnew.
  { intros o Ho Hp s Hs. specialize (IH (<[p := o]> cs) (nonneg_insert _ _ _ Hcs Ho) s Hs).
    destruct (start_offsets _ _ _ _ _ _) as [[cs'| | |] s']; try done.
    destruct IH as (st' & Hst & -> & Hn & Hsub & Hall). exists st. split_and!; try done.
    - etrans; [by apply insert_subseteq|done].
    - intros q [->|Hq]%elem_of_cons; [|by apply Hall]. exists o. eapply lookup_weaken; [|done]. apply lookup_insert_eq. }
  destruct (cs !! p) as [o|] eqn:Hp.
  - intros s Hs. specialize (IH cs Hcs s Hs). destruct (start_offsets _ _ _ _ _ _) as [[cs'| | |] s']; try done.
    destruct IH as (st' & Hst & -> & Hn & Hsub & Hall). exists st. split_and!; try done.
    intros q [->|Hq]%elem_of_cons; [|by apply Hall]. exists o. by eapply lookup_weaken.
  - destruct fromBeg; [by apply Hnew|]. eapply refines_bind; [apply refines_call, (h_Metadata _ _ _ Hcli)|].
    intros md st' [-> Hmd]. apply Hnew; [|done]. destruct md as [md|]; [by apply latest_nonneg|done].
Qed.

Lemma commit_refines parts cs member gen p :
  p ∈ parts → nonneg cs →
  refines (commit cli groupID topic member gen p cs) (parts, cs) (λ _ st', st' = (parts, cs)).
Proof.
  intros Hp Hcs. eapply refines_bind; [by eapply refines_emit, cursor_committed|]. intros _ st' ->.
  eapply refines_bind; [apply refines_call, (h_CommitOffsets _ _ _ Hcli); apply Forall_singleton, Hcs|].
  intros r st' [-> _]. by apply refines_ret.
Qed.

Lemma print_records_refines parts cs member gen p recs printed :
  p ∈ parts → nonneg cs → rising rel (offset_at cs p) (w_Offset <$> recs) →
  refines (print_records cli groupID topic max member gen p recs cs printed) (parts, cs) (λ r st',
    match r with Some (cs', _) => st' = (parts, cs') ∧ nonneg cs' | None => True end).
Proof.
  intros Hp. revert cs printed. induction recs as [|r recs IH]; intros cs printed Hcs Hup; cbn [print_records].
  { by apply refines_ret. }
  destruct Hup as (Ho & Hrel & Hup).
  eapply refines_bind; [by eapply refines_emit, cursor_printed|]. intros _ st' ->. cbv zeta.
  rewrite i64_small by (unfold is_i64; lia). assert (nonneg (<[p := w_Offset r + 1]> cs)) as Hcs' by (apply nonneg_insert; [done|lia]).
  destruct (_ && _).
  - eapply refines_bind; [by apply commit_refines|]. intros _ st' ->. by apply refines_ret.
  - apply IH; [done|]. by rewrite offset_at_insert.
Qed.

Lemma poll_refines parts cs member gen ps printed progress :
  ps ⊆ parts → nonneg cs →
  refines (poll cli groupID topic max member gen ps cs printed progress) (parts, cs) (λ r st',
    match r with Some (cs', _, _) => st' = (parts, cs') ∧ nonneg cs' | None => True end).
Proof.
  revert cs printed progress. induction ps as [|p ps IH]; intros cs printed progress Hps Hcs; cbn [poll].
  { by apply refines_ret. }
  assert (p ∈ parts) as Hp by (apply Hps; by left). assert (ps ⊆ parts) as Hps' by (intros q Hq; apply Hps; by right).
  eapply refines_bind; [apply refines_call, (h_Fetch _ _ _ Hcli), Hcs|]. intros fr st' [-> Hfr].
  destruct fr as [fr|]; [|by apply IH]. case_bool_decide; [by apply IH|].
  eapply refines_bind; [by apply print_records_refines|]. intros [[cs' printed']|] st' Hst; [|by apply refines_ret].
  destruct Hst as [-> Hcs']. eapply refines_bind; [by apply commit_refines|]. intros _ st' ->. by apply IH.
Qed.

Lemma session_refines fuel parts cs member gen printed idle :
  nonneg cs → refines (session cli groupID topic max fuel member gen parts cs printed idle) (parts, cs) (λ _ _, True).
Proof.
  revert cs printed idle. induction fuel as [|fuel IH]; intros cs printed idle Hcs; cbn [session].
  { apply refines_diverge. }
  eapply refines_bind; [apply refines_call, (h_Heartbeat _ _ _ Hcli)|]. intros hb st' [-> _].
  destruct hb as [hb|]; [|by apply refines_ret]. case_bool_decide; [|by apply refines_ret]. cbn [negb].
  eapply refines_bind; [by apply poll_refines|]. intros [[[cs' printed'] progress]|] st' Hst; [|by apply refines_ret].
  destruct Hst as [-> Hcs']. cbv zeta. destruct (_ && _); [by apply refines_ret|by apply IH].
Qed.

Lemma consume_refines fuel member printed st :
  refines (consume cli groupID topic fromBeg max fuel member printed) st (λ _ _, True).
Proof.
  revert member printed st. induction fuel as [|fuel IH]; intros member printed st; [apply refines_diverge|].
  cbn [consume]. eapply refines_bind; [apply refines_call, (h_Join _ _ _ Hcli)|]. intros jr st' [-> _].
  destruct jr as [jr|]; [|by apply refines_ret]. cbv zeta.
  eapply refines_bind; [apply refines_call, (h_Sync _ _ _ Hcli)|]. intros sr st' [-> _].
  destruct sr as [sr|]; [|apply IH].
  eapply refines_bind; [apply refines_call, (h_FetchOffsets _ _ _ Hcli)|]. intros fo st' [-> Hfo].
  set (known := match fo with inl fo => Some (of_Offsets fo) | inr _ => None end).
  assert (nonneg (commit_table (default [] known))) as Hn.
  { apply nonneg_commit_table. by destruct fo. }
  eapply refines_bind; [by apply start_offsets_refines|]. intros cs st' (-> & Hcs & Hsub & Hall).
  eapply refines_bind; [eapply refines_emit, cursor_assigned; [exact Hall|]|].
  { intros os Hos. by rewrite Hos in Hsub. }
  intros _ st' ->. eapply refines_bind; [by apply session_refines|].
  intros [printed'|] st' _; [apply IH|by apply refines_ret].
Qed.

End refinement.

(** ** The trace only grows *)

Section growing.
Context {W : Type} (cli : calls W) (groupID topic : string) (fromBeg : bool) (max : Z).

Definition grows {A} (m : M (W * list event) A) : Prop := ∀ s, snd s `prefix_of` snd (snd (m s)).

Lemma grows_ret {A} (a : A) : grows (mret a).
Proof. by intros s. Qed.

Lemma grows_diverge {A} : grows (diverge : M (W * list event) A).
Proof. by intros s. Qed.

Lemma grows_bind {A B} (m : M (W * list event) A) (f : A → M (W * list event) B) :
  grows m → (∀ a, grows (f a)) → grows (m ≫= f).
Proof.
  intros Hm Hf s. specialize (Hm s). unfold mbind, M_bind. destruct (m s) as [[a| | |] s']; try done.
  etrans; [exact Hm|apply Hf].
Qed.

Lemma grows_call {A} (m : M W A) : grows (call m).
Proof. intros [w tr]. unfold call, zoom. cbn. by destruct (m w). Qed.

Lemma grows_emit e : grows (emit e).
Proof. intros [w tr]. by apply prefix_app_r. Qed.

Lemma grows_start_offsets parts os : grows (start_offsets cli topic fromBeg parts os).
Proof.
  revert os. induction parts as [|p parts IH]; intros os; cbn [start_offsets]; [apply grows_ret|].
  destruct (os !! p); [apply IH|]. destruct fromBeg; [apply IH|]. apply grows_bind; [apply grows_call|intros; apply IH].
Qed.

Lemma grows_commit member gen p os : grows (commit cli groupID topic member gen p os).
Proof.
  apply grows_bind; [apply grows_emit|]. intros _. apply grows_bind; [apply grows_call|intros; apply grows_ret].
Qed.

Lemma grows_print_records member gen p recs os printed :
  grows (print_records cli groupID topic max member gen p recs os printed).
Proof.
  revert os printed. induction recs as [|r recs IH]; intros os printed; cbn [print_records]; [apply grows_ret|].
  apply grows_bind; [apply grows_emit|]. intros _. cbv zeta. destruct (_ && _); [|apply IH].
  apply grows_bind; [apply grows_commit|intros; apply grows_ret].
Qed.

Lemma grows_poll member gen parts os printed progress :
  grows (poll cli groupID topic max member gen parts os printed progress).
Proof.
  revert os printed progress. induction parts as [|p parts IH]; intros os printed progress; cbn [poll]; [apply grows_ret|].
  apply grows_bind; [apply grows_call|]. intros [fr|]; [|apply IH]. case_bool_decide; [apply IH|].
  apply grows_bind; [apply grows_print_records|]. intros [[os' printed']|]; [|apply grows_ret].
  apply grows_bind; [apply grows_commit|intros; apply IH].
Qed.

Lemma grows_session fuel member gen parts os printed idle :
  grows (session cli groupID topic max fuel member gen parts os printed idle).
Proof.
  revert os printed idle. induction fuel as [|fuel IH]; intros os printed idle; cbn [session]; [apply grows_diverge|].
  apply grows_bind; [apply grows_call|]. intros [hb|]; [|apply grows_ret]. destruct (negb _); [apply grows_ret|].
  apply grows_bind; [apply grows_poll|]. intros [[[os' printed'] progress]|]; [|apply grows_ret]. cbv zeta.
  destruct (_ && _); [apply grows_ret|apply IH].
Qed.

Lemma grows_consume fuel member printed : grows (consume cli groupID topic fromBeg max fuel member printed).
Proof.
  revert member printed. induction fuel as [|fuel IH]; intros member printed; cbn [consume]; [apply grows_diverge|].
  apply grows_bind; [apply grows_call|]. intros [jr|]; [|apply grows_ret]. cbv zeta.
  apply grows_bind; [apply grows_call|]. intros [sr|]; [|apply IH].
  apply grows_bind; [apply grows_call|]. intros fo. apply grows_bind; [apply grows_start_offsets|]. intros start.
  apply grows_bind; [apply grows_emit|]. intros _. apply grows_bind; [apply grows_session|].
  intros [printed'|]; [apply IH|apply grows_ret].
Qed.
End growing.

(** Without committed offsets, and not from the beginning, the consumer starts
    where the metadata says the high watermarks are. *)
Lemma start_offsets_latest {W} (cli : calls W) topic md w tr parts os :
  cl_Metadata cli w = (Ok (inl md), w) →
  ∃ start, start_offsets cli topic false parts os (w, tr) = (Ok start, (w, tr)) ∧ os ⊆ start ∧
    ∀ p, p ∈ parts → os !! p = None → start !! p = Some (latest topic p md).
Proof.
  intros Hmd. revert os. induction parts as [|p parts IH]; intros os; cbn [start_offsets].
  { exists os. split; [done|]. split; [done|]. by intros p ?%elem_of_nil. }
  destruct (os !! p) as [o|] eqn:Hp.
  - destruct (IH os) as (start & Hrun & Hsub & Hall). exists start. split; [done|]. split; [done|].
    intros q [->|Hq]%elem_of_cons Hn; [congruence|by apply Hall].
  - assert (call (cl_Metadata cli) (w, tr) = (Ok (inl md), (w, tr))) as Hc by (unfold call, zoom; cbn; by rewrite Hmd).
    destruct (IH (<[p := latest topic p md]> os)) as (start & Hrun & Hsub & Hall). exists start.
    rewrite (bind_Ok _ _ _ _ _ Hc). split; [done|]. split; [etrans; [by apply insert_subseteq|done]|].
    intros q Hq Hn. destruct (decide (q = p)) as [->|Hne].
    + eapply lookup_weaken; [apply lookup_insert_eq|exact Hsub].
    + apply elem_of_cons in Hq as [->|Hq]; [done|]. apply Hall; [done|]. by rewrite lookup_insert_ne.
Qed.

(** ** What a trace of the cursors says *)

(** Nothing is passed over. *)
Definition gap_free (rel : Z → Z → Prop) : Prop := ∀ c o, rel c o → o = c.

(** The offsets printed for a partition. *)
Definition printed_offsets (p : Z) (tr : list event) : list Z :=
  omap (λ e, match e with Printed q r => if q =? p then Some (w_Offset r) else None | _ => None end) tr.

Definition reassigns (e : event) : bool := match e with Assigned _ _ _ => true | _ => false end.

Lemma cursor_run_snoc rel tr e st' :
  cursor_run rel (tr ++ [e]) st' → ∃ st, cursor_run rel tr st ∧ cursor_step rel st e st'.
Proof.
  inversion 1 as [E|tr0 st e0 st0 Hrun Hstep E]; [by destruct tr|].
  apply app_inj_tail in E as [-> ->]. eauto.
Qed.

Lemma cursor_run_app rel tr1 tr2 st' : cursor_run rel (tr1 ++ tr2) st' → ∃ st, cursor_run rel tr1 st.
Proof.
  revert st'. induction tr2 as [|e tr2 IH] using rev_ind; intros st'; [rewrite app_nil_r; eauto|].
  rewrite app_assoc. intros (st & Hrun & _)%cursor_run_snoc. eauto.
Qed.

(** Within one assignment the cursors grow, and without gaps each is where its
    partition's records end. *)
Lemma assignment_run rel pre parts known start mid st :
  (∀ c o, rel c o → c ≤ o) →
  cursor_run rel (pre ++ Assigned parts known start :: mid) st → Forall (λ e, reassigns e = false) mid →
  fst st = parts ∧ (∀ os, known = Some os → commit_table os ⊆ start) ∧
  ∀ p, offset_at start p ≤ offset_at (snd st) p ∧
    StronglySorted Z.lt (printed_offsets p mid) ∧
    Forall (λ o, offset_at start p ≤ o < offset_at (snd st) p) (printed_offsets p mid) ∧
    (gap_free rel → printed_offsets p mid = seqZ (offset_at start p) (offset_at (snd st) p - offset_at start p)).
Proof.
  intros Hrel. revert st. induction mid as [|e mid IH] using rev_ind; intros st Hrun Hmid.
  { apply cursor_run_snoc in Hrun as (st0 & _ & Hstep). inversion Hstep; subst. split; [done|]. split; [done|].
    intros p. cbn [snd]. rewrite Z.sub_diag. by split_and!; [|constructor|constructor|]. }
  rewrite app_comm_cons, app_assoc in Hrun. apply cursor_run_snoc in Hrun as (st0 & Hrun & Hstep).
  apply Forall_app in Hmid as [Hmid He]. rewrite Forall_singleton in He.
  destruct (IH st0 Hrun Hmid) as (Hparts & Hknown & Hp). destruct Hstep as [|parts' cs q r Hq Hr|parts' cs q Hq]; [done| |].
  - split; [done|]. split; [done|]. intros p. destruct (Hp p) as (Hle & Hsort & Hall & Hseq). cbn [snd] in *.
    unfold printed_offsets. rewrite omap_app. cbn [omap list_omap]. fold (printed_offsets p mid).
    pose proof (Hrel _ _ Hr) as Hcur. destruct (Z.eqb_spec q p) as [->|Hne].
    + rewrite offset_at_insert. split_and!; [lia| | |].
      * apply StronglySorted_app_2; [|done|repeat constructor].
        intros x1 x2 Hx1 ->%list_elem_of_singleton. rewrite Forall_forall in Hall. specialize (Hall _ Hx1). lia.
      * apply Forall_app. split; [|apply Forall_singleton; lia]. eapply Forall_impl; [exact Hall|]. cbn. intros. lia.
      * intros Hgap. rewrite (Hseq Hgap), (Hgap _ _ Hr).
        replace (offset_at cs p + 1 - offset_at start p) with ((offset_at cs p - offset_at start p) + 1) by lia.
        rewrite seqZ_app, Z.add_comm, Z.sub_add by lia. done.
    + rewrite offset_at_insert_ne by done. by rewrite app_nil_r.
  - split; [done|]. split; [done|]. intros p. unfold printed_offsets. rewrite omap_app. cbn [omap list_omap].
    rewrite app_nil_r. apply Hp.
Qed.
