(* ===== verification/Replica.v ===== *)
(** Replication, [internal/broker/replica.go]: acks, the ISR, the high watermark
    and the follower loop, over any log. *)
From S2P Require Import Prelude GoStrings Bytes RecordFmt Disk Index Segment CommitLog LogRep LogRead LogInterface.
From S2P Require Import Cluster Store Wire BrokerState Metadata.
Open Scope Z_scope.

(** ** State and operations *)

(** The lowest log end offset among the leader and the replicas in [isr]. *)
Definition isr_hw (self : Z) (states : gmap Z replicaState) (isr : list Z) (leo : Z) : Z :=
  foldl (λ hw id, if id =? self then hw else
    match states !! id with
    | Some st => if r_leo st <? hw then r_leo st else hw
    | None => hw
    end) leo isr.

Definition set_isr (partition : Z) (isr : list Z) (t : topicMeta) : topicMeta :=
  MkTopic (t_Name t)
    ((λ p, if p_ID p =? partition then MkPart (p_ID p) (p_Leader p) (p_Replicas p) isr else p) <$> t_Partitions t).

Section replica.
Context {L D : Type} `{LogOpener L D} `{LogOps L}.
Implicit Types b : Broker L D.

Definition noteReplica (now : Z) (topic : string) (partition brokerID leo : Z) b : Broker L D :=
  let k := replicaKey topic partition in
  let m := default ∅ (replicaLEO b !! k) in
  set_replicaLEO (<[k := <[brokerID := MkReplica leo now]> m]> (replicaLEO b)) b.

Definition noteSelfLEO (now : Z) (topic : string) (partition leo : Z) b : Broker L D :=
  noteReplica now topic partition (cfg_ID (cfg b)) leo b.

Definition replica_states b (topic : string) (partition : Z) : gmap Z replicaState :=
  default ∅ (replicaLEO b !! replicaKey topic partition).

(** A replica that is alive and has acked recently. *)
Definition in_sync (now : Z) b (states : gmap Z replicaState) (id : Z) : bool :=
  alive_at now b id &&
  match states !! id with
  | None => false
  | Some st => now - r_lastSeen st <=? ReplicaLagTime (cfg b)
  end.

Definition current_isr (now : Z) b (states : gmap Z replicaState) (replicas : list Z) : list Z :=
  cfg_ID (cfg b) :: filter (λ id, negb (id =? cfg_ID (cfg b)) && in_sync now b states id) replicas.

(** Returns whether the ISR changed, so that metadata has to be pushed. *)
Definition recomputeHW (now : Z) (disk_ok : bool) (topic : string) (partition : Z) : M (Broker L D) bool :=
  pm ← gets (λ b, partition_meta b topic partition);
  self ← gets (λ b, cfg_ID (cfg b));
  match pm with
  | None => mret false
  | Some pm =>
    if negb (p_Leader pm =? self) then mret false else
    r ← attempt (on_store (store_Open topic partition));
    match r with
    | inr _ => mret false
    | inl k =>
      b ← gets id;
      let states := replica_states b topic partition in
      let isr := current_isr now b states (p_Replicas pm) in
      leo ← on_log k (gets op_leo);
      let hw := isr_hw self states isr leo in
      let changed := negb (sameInts (p_ISR pm) isr) in
      (if changed
       then modify (λ b, persistTopics disk_ok (set_topics (alter (set_isr partition isr) topic (topics b)) b))
       else mret tt);;
      on_log k (modify (op_set_hw hw));;
      mret changed
    end
  end.

(** Returns how many of the ISRs changed. *)
Fixpoint recompute_each (now : Z) (disk_ok : bool) (ps : list (string * partitionMeta)) : M (Broker L D) nat :=
  match ps with
  | [] => mret O
  | (t, p) :: ps =>
    self ← gets (λ b, cfg_ID (cfg b));
    c ← (if p_Leader p =? self then recomputeHW now disk_ok t (p_ID p) else mret false);
    cs ← recompute_each now disk_ok ps;
    mret ((if c : bool then 1 else 0) + cs)%nat
  end.

Definition all_partitions (ts : list topicMeta) : list (string * partitionMeta) :=
  ts ≫= λ t, (λ p, (t_Name t, p)) <$> t_Partitions t.

Definition recomputeAllHW (now : Z) (disk_ok : bool) : M (Broker L D) nat :=
  ts ← gets snapshotTopics;
  recompute_each now disk_ok (all_partitions ts).

(** *** Following *)

Definition wanted b : gmap string partitionMeta :=
  foldl (λ w '(t, p), if contains (p_Replicas p) (cfg_ID (cfg b)) && negb (p_Leader p =? cfg_ID (cfg b))
                      then <[replicaKey t (p_ID p) := p]> w else w)
    ∅ (all_partitions (snapshotTopics b)).

(** Returns the loops it starts: topic, partition and leader. *)
Definition syncFollowers b : list (string * Z * Z) * Broker L D :=
  let w := wanted b in
  let started := filter (λ '(k, p), k ∉ following b) (map_to_list w) in
  ((λ '(k, p), (splitReplicaKey k, p_Leader p)) <$> started,
   set_following (dom w) b).

(** One round of [followLoop], up to the request it sends: [None] when the loop
    ends, [Some None] when it retries later, else the address and the offset. *)
Definition follow_request (topic : string) (partition : Z) : M (Broker L D) (option (option (string * Z))) :=
  b ← gets id;
  match partition_meta b topic partition with
  | None => mret None
  | Some pm =>
    if (p_Leader pm =? cfg_ID (cfg b)) || negb (contains (p_Replicas pm) (cfg_ID (cfg b)))
    then mret None else
    let addr := peer_addr (p_Leader pm) (cluster b) in
    if bool_decide (addr = ""%string) then mret (Some None) else
    leo ← on_log (store_key topic partition) (gets op_leo);
    mret (Some (Some (addr, leo)))
  end.

Definition from_wire (w : WireRecord) : record := Rec (w_Offset w) (w_Timestamp w) (w_Key w) (w_Value w).

Fixpoint follow_records (now : Z) (k : string) (ws : list WireRecord) : M (Broker L D) unit :=
  match ws with
  | [] => mret tt
  | w :: ws =>
    leo ← on_log k (gets op_leo);
    let rec := from_wire w in
    if Offset rec <? leo then follow_records now k ws
    else if leo <? Offset rec then mret tt
    else
      r ← attempt (on_log k (op_append_at now rec));
      match r with
      | inr _ => mret tt
      | inl _ => follow_records now k ws
      end
  end.

(** The rest of the round, when the leader has answered; returns the ack. *)
Definition follow_reply (now : Z) (topic : string) (partition : Z) (fr : FetchResponse) :
    M (Broker L D) ReplicaAckRequest :=
  let k := store_key topic partition in
  follow_records now k (f_Records fr);;
  on_log k (modify (op_set_hw (f_HighWatermark fr)));;
  leo ← on_log k (gets op_leo);
  self ← gets (λ b, cfg_ID (cfg b));
  mret (MkAck self topic partition leo).
End replica.

(** ** The follower *)

Section follower.
Context {L D : Type} `{LogOpener L D} `{LogLaws L}.
Implicit Types b : Broker L D.

(** Records that a follower stores exactly as the leader has them. *)
Record replicable (recs : list record) : Prop := {
  rp_contiguous : contiguous 0 recs;
  rp_wf : Forall wf_record recs;
  rp_stamped : Forall (λ r, Timestamp r ≠ 0) recs;
  rp_utf8 : Forall utf8_record recs;
  rp_max : Zlength recs < 2 ^ 63
}.

Lemma stamp_id now r : Timestamp r ≠ 0 → stamp now r = r.
Proof. unfold stamp. intros Hr. by rewrite (proj2 (Z.eqb_neq _ _)). Qed.

Lemma prefix_next (recs all : list record) r :
  contiguous 0 all → recs `prefix_of` all → r ∈ all → Offset r = Zlength recs →
  recs ++ [r] `prefix_of` all.
Proof.
  intros Hc [rest ->] [i Hi]%list_elem_of_lookup Ho. pose proof (Hc _ _ Hi) as Hoff.
  assert (i = length recs) as -> by (unfold Zlength in *; lia).
  rewrite lookup_app_r, Nat.sub_diag in Hi by lia. destruct rest as [|x rest]; [done|].
  injection Hi as ->. apply prefix_app. by apply prefix_cons, prefix_nil.
Qed.

Lemma follow_records_spec now k all out :
  replicable all → Forall (.∈ all) out →
  ∀ b l recs, log_at b k = Some l → log_contents l recs → recs `prefix_of` all →
  ∃ l' recs', follow_records now k (json_record <$> toWire out) b = (Ok tt, set_log k l' b) ∧
    log_contents l' recs' ∧ recs `prefix_of` recs' ∧ recs' `prefix_of` all ∧ op_hw l' = op_hw l ∧
    (∀ r, head out = Some r → Offset r = Zlength recs → recs ++ [r] `prefix_of` recs').
Proof.
  intros [Hc Hwf Hts Hutf Hmax] Hout. induction Hout as [|r out Hr _ IH]; intros b l recs Hl Hrecs Hpre.
  { exists l, recs. cbn. by rewrite set_log_id. }
  rewrite Forall_forall in Hwf, Hts, Hutf. unfold toWire. cbn [fmap list_fmap].
  rewrite json_record_utf8 by auto. cbn [follow_records].
  rewrite (bind_Ok _ _ _ _ _ (on_log_gets _ _ _ _ Hl)), (log_leo _ _ Hrecs).
  unfold from_wire. cbn. destruct (Z.ltb_spec (Offset r) (Zlength recs)).
  { destruct (IH b l recs Hl Hrecs Hpre) as (l' & recs' & Hrun & Hrecs' & Hp1 & Hp2 & Hhw & _).
    exists l', recs'. split_and!; try done. intros ? [= ->]. lia. }
  destruct (Z.ltb_spec (Zlength recs) (Offset r)).
  { exists l, recs. rewrite set_log_id by done. split_and!; try done. intros ? [= ->]. lia. }
  assert (Offset r = Zlength recs) as Ho by lia.
  pose proof (prefix_next recs all r Hc Hpre Hr Ho) as Hpre'.
  pose proof (log_append_at now r l recs Hrecs) as Happ. rewrite stamp_id in Happ by auto.
  rewrite Ho, Z.eqb_refl in Happ. destruct Happ as (l1 & Hrun1 & Hrecs1 & Hhw1); [by auto| |].
  { apply prefix_length in Hpre'. rewrite length_app in Hpre'. cbn in Hpre'. unfold Zlength in *. lia. }
  destruct (IH (set_log k l1 b) l1 (recs ++ [r]) (log_at_set_log _ _ _) Hrecs1 Hpre') as
    (l' & recs' & Hrun & Hrecs' & Hp1 & Hp2 & Hhw & _).
  exists l', recs'. split_and!; [|done| |done|by rewrite Hhw|].
  - erewrite bind_Ok; cycle 1.
    { apply attempt_Ok. rewrite (on_log_run _ _ _ _ Hl). destruct r; cbn in *. by rewrite Hrun1. }
    rewrite <- (set_log_set_log k l1 l' b). exact Hrun.
  - etrans; [|exact Hp1]. by apply prefix_app_r.
  - by intros ? [= ->].
Qed.
End follower.

(** ** The leader *)

Lemma isr_hw_spec self states isr leo :
  isr_hw self states isr leo ≤ leo ∧
  (∀ id st, id ∈ isr → id ≠ self → states !! id = Some st → isr_hw self states isr leo ≤ r_leo st) ∧
  (∀ n, n ≤ leo → (∀ id st, id ∈ isr → id ≠ self → states !! id = Some st → n ≤ r_leo st) →
     n ≤ isr_hw self states isr leo).
Proof.
  unfold isr_hw. revert leo. induction isr as [|id isr IH]; intros leo; cbn.
  { split; [lia|]. split; [by intros ?? ?%elem_of_nil|done]. }
  set (leo' := if id =? self then leo else _).
  destruct (IH leo') as (H1 & H2 & H3).
  assert (leo' ≤ leo ∧ (∀ st, id ≠ self → states !! id = Some st → leo' ≤ r_leo st) ∧
    (leo' = leo ∨ id ≠ self ∧ ∃ st, states !! id = Some st ∧ leo' = r_leo st)) as (Hle & Hst & Hor).
  { unfold leo'. destruct (Z.eqb_spec id self); [split_and!; [lia|intros; congruence|by left]|].
    destruct (states !! id) as [st|]; [|split; [lia|]; split; [intros; congruence|by left]].
    destruct (Z.ltb_spec (r_leo st) leo); (split; [lia|]; split; [intros ? _ [= <-]; lia|]); [|by left].
    right. split; [done|]. by exists st. }
  split; [lia|]. split.
  - intros i st [->|Hi]%elem_of_cons Hne Hi'; [specialize (Hst st Hne Hi'); lia|by eapply H2].
  - intros n Hn Hall. apply H3.
    + destruct Hor as [->|(Hne & st & Hi & ->)]; [done|]. eapply Hall; [by left|done..].
    + intros i st Hi. apply Hall. by right.
Qed.

Lemma find_partition_set_isr partition isr t :
  find_partition (t_Partitions (set_isr partition isr t)) partition =
    (λ p, MkPart (p_ID p) (p_Leader p) (p_Replicas p) isr) <$> find_partition (t_Partitions t) partition.
Proof.
  unfold find_partition, set_isr. cbn [t_Partitions]. induction (t_Partitions t) as [|p ps IH]; [done|].
  rewrite fmap_cons, !filter_cons. destruct (Z.eqb_spec (p_ID p) partition) as [E|E].
  - by rewrite !decide_True by done.
  - by rewrite !decide_False by done.
Qed.

Lemma find_partition_Some ps i p : find_partition ps i = Some p → p ∈ ps ∧ p_ID p = i.
Proof.
  unfold find_partition. intros E. assert (p ∈ filter (λ p, p_ID p = i) ps) as Hin.
  { destruct (filter _ ps); [done|]. injection E as ->. by left. }
  apply list_elem_of_filter in Hin. tauto.
Qed.

Lemma partition_meta_ok {L D} (b : Broker L D) t p pm :
  metadata_ok b → partition_meta b t p = Some pm → part_ok pm ∧ p_ID pm = p.
Proof.
  intros Hok. unfold partition_meta. destruct (topics b !! t) as [tm|] eqn:E; [|done].
  intros [Hin ?]%find_partition_Some. split; [|done].
  pose proof (ok_parts _ (ok_topics _ Hok _ _ E)) as Ht. rewrite Forall_forall in Ht. by apply Ht.
Qed.

Lemma find_partition_unique {L D} (b : Broker L D) t tm q p pm :
  metadata_ok b → topics b !! t = Some tm → q ∈ t_Partitions tm → p_ID q = p →
  partition_meta b t p = Some pm → q = pm.
Proof.
  intros Hok Ht Hq Hid. unfold partition_meta. rewrite Ht. intros [Hpm Hpid]%find_partition_Some.
  pose proof (ok_ids _ (ok_topics _ Hok _ _ Ht)) as Hnd.
  apply list_elem_of_lookup in Hq as [i Hi], Hpm as [j Hj].
  assert (i = j) as ->; [|by simplify_eq].
  eapply (NoDup_lookup _ _ _ p Hnd); rewrite list_lookup_fmap; [rewrite Hi|rewrite Hj]; cbn; congruence.
Qed.

Section leader.
Context {L D : Type} `{LogOpener L D} `{LogLaws L}.
Implicit Types b : Broker L D.

Lemma elem_of_current_isr now b states replicas id :
  id ∈ current_isr now b states replicas ↔
  id = cfg_ID (cfg b) ∨ id ≠ cfg_ID (cfg b) ∧ id ∈ replicas ∧ in_sync now b states id = true.
Proof.
  unfold current_isr. rewrite elem_of_cons, list_elem_of_filter, Is_true_true, andb_true_iff, negb_true_iff, Z.eqb_neq.
  tauto.
Qed.

Lemma current_isr_NoDup now b states replicas : NoDup replicas → NoDup (current_isr now b states replicas).
Proof.
  intros Hnd. unfold current_isr. constructor; [|by apply NoDup_filter].
  rewrite list_elem_of_filter, Z.eqb_refl. cbn. tauto.
Qed.

(** What an operation on the partition with the log [k] leaves alone. *)
Record partition_frame (k : string) b b' : Prop := {
  fr_cfg : cfg b' = cfg b;
  fr_cluster : cluster b' = cluster b;
  fr_coordinator : coordinator b' = coordinator b;
  fr_logs k' : k' ≠ k → log_at b' k' = log_at b k';
  fr_ok : metadata_ok b → metadata_ok b';
  fr_leaders t p : p_Leader <$> partition_meta b' t p = p_Leader <$> partition_meta b t p;
  fr_counts t : length ∘ t_Partitions <$> topics b' !! t = length ∘ t_Partitions <$> topics b !! t
}.

Lemma partition_frame_refl k b : partition_frame k b b.
Proof. by split. Qed.

Lemma partition_frame_trans k b1 b2 b3 : partition_frame k b1 b2 → partition_frame k b2 b3 → partition_frame k b1 b3.
Proof.
  intros [] []. split; try congruence; [|by auto].
  intros k' Hk. rewrite fr_logs1 by done. by apply fr_logs0.
Qed.

Lemma partition_frame_set_log k l b : partition_frame k b (set_log k l b).
Proof.
  split; try done; [|by apply metadata_ok_same]. intros k' Hk. by apply log_at_set_log_ne.
Qed.

Lemma find_partition_set_isr_leader partition isr t i :
  p_Leader <$> find_partition (t_Partitions (set_isr partition isr t)) i =
    p_Leader <$> find_partition (t_Partitions t) i.
Proof. apply find_partition_leader. intros p. by case_match. Qed.

Lemma set_isr_frame k disk_ok t p isr b :
  (∀ tm q, topics b !! t = Some tm → q ∈ t_Partitions tm → p_ID q = p → part_ok q →
     part_ok (MkPart (p_ID q) (p_Leader q) (p_Replicas q) isr)) →
  partition_frame k b (persistTopics disk_ok (set_topics (alter (set_isr p isr) t (topics b)) b)).
Proof.
  intros Hisr. split; try (by destruct disk_ok); rewrite ?persistTopics_topics; cbn.
  - intros Hok. split; rewrite persistTopics_topics; cbn; intros n tm.
    all: rewrite lookup_alter_Some; intros [(-> & tm' & Htm & ->)|[_ ?]]; [|by eapply Hok].
    + exact (ok_names _ Hok _ _ Htm).
    + destruct (ok_topics _ Hok _ _ Htm) as [Hids Ht]. rewrite Forall_forall in Ht. split; cbn.
      * rewrite <- list_fmap_compose. erewrite list_fmap_ext; [exact Hids|]. intros ? q _. cbn. by case_match.
      * apply Forall_fmap, Forall_forall. intros q Hq. specialize (Ht q Hq). cbn.
        destruct (Z.eqb_spec (p_ID q) p); [|done]. by eapply Hisr.
  - intros t' p'. unfold partition_meta. rewrite persistTopics_topics. cbn.
    destruct (decide (t = t')) as [<-|Ht]; [|by rewrite lookup_alter_ne].
    rewrite lookup_alter_eq. destruct (topics b !! t) as [tm|]; [|done]. cbn [fmap option_fmap option_map].
    apply find_partition_set_isr_leader.
  - intros t'. destruct (decide (t = t')) as [<-|Ht]; [|by rewrite lookup_alter_ne].
    rewrite lookup_alter_eq. destruct (topics b !! t); [|done]. cbn. by rewrite length_fmap.
Qed.

Lemma replica_states_note now t p i leo b q id :
  id ≠ i → replica_states (noteReplica now t p i leo b) t q !! id = replica_states b t q !! id.
Proof.
  intros Hid. unfold replica_states, noteReplica. cbn.
  destruct (decide (replicaKey t p = replicaKey t q)) as [<-|Hk].
  - rewrite lookup_insert_eq. cbn. by rewrite lookup_insert_ne.
  - by rewrite lookup_insert_ne.
Qed.

Lemma replica_states_note_eq now t p i leo b :
  replica_states (noteReplica now t p i leo b) t p !! i = Some (MkReplica leo now).
Proof. unfold replica_states, noteReplica. cbn. rewrite lookup_insert_eq. cbn. apply lookup_insert_eq. Qed.

(** What [recomputeHW] does on the leader of a partition with an open log. *)
Lemma recomputeHW_spec now disk_ok t p b pm l recs :
  metadata_ok b → partition_meta b t p = Some pm → p_Leader pm = cfg_ID (cfg b) →
  log_at b (store_key t p) = Some l → log_contents l recs →
  let states := replica_states b t p in
  let isr := current_isr now b states (p_Replicas pm) in
  ∃ changed b' l' isr', recomputeHW now disk_ok t p b = (Ok changed, b') ∧
    log_at b' (store_key t p) = Some l' ∧ log_contents l' recs ∧
    op_hw l' = Z.max (op_hw l) (isr_hw (cfg_ID (cfg b)) states isr (Zlength recs)) ∧
    partition_meta b' t p = Some (MkPart (p_ID pm) (p_Leader pm) (p_Replicas pm) isr') ∧
    isr' ≡ₚ isr ∧ partition_frame (store_key t p) b b' ∧
    replicaLEO b' = replicaLEO b ∧ partitioner b' = partitioner b.
Proof.
  intros Hok Hpm Hlead Hl Hrecs states isr.
  destruct (partition_meta_ok _ _ _ _ Hok Hpm) as [[Hrep Hnd _ _] Hid].
  unfold recomputeHW. rewrite (bind_Ok _ _ _ _ _ (eq_refl : gets _ b = (Ok _, b))), Hpm.
  rewrite (bind_Ok _ _ _ _ _ (eq_refl : gets _ b = (Ok _, b))).
  rewrite (proj2 (Z.eqb_eq _ _) Hlead). cbn [negb].
  rewrite (bind_Ok _ _ _ _ _ (attempt_Ok _ _ _ _ (on_store_open _ _ _ _ Hl))).
  rewrite (bind_Ok _ _ _ _ _ (eq_refl : gets id b = (Ok b, b))). cbn zeta. fold states isr.
  rewrite (bind_Ok _ _ _ _ _ (on_log_gets _ _ _ _ Hl)), (log_leo _ _ Hrecs).
  set (h := isr_hw _ _ _ _). pose proof (isr_hw_spec (cfg_ID (cfg b)) states isr (Zlength recs)) as (Hh & _ & _).
  fold h in Hh. destruct (log_set_hw h l recs Hrecs) as [Hrecs' Hhw].
  rewrite Z.min_l in Hhw by done.
  assert (∀ (isr' : list Z) (changed : bool) b1, isr' ≡ₚ isr → log_at b1 = log_at b →
    partition_frame (store_key t p) b b1 → replicaLEO b1 = replicaLEO b → partitioner b1 = partitioner b →
    partition_meta b1 t p = Some (MkPart (p_ID pm) (p_Leader pm) (p_Replicas pm) isr') →
    ∃ changed' b' l' isr', (on_log (store_key t p) (modify (op_set_hw h));; mret changed) b1 = (Ok changed', b') ∧
    log_at b' (store_key t p) = Some l' ∧ log_contents l' recs ∧ op_hw l' = Z.max (op_hw l) h ∧
    partition_meta b' t p = Some (MkPart (p_ID pm) (p_Leader pm) (p_Replicas pm) isr') ∧
    isr' ≡ₚ isr ∧ partition_frame (store_key t p) b b' ∧
    replicaLEO b' = replicaLEO b ∧ partitioner b' = partitioner b) as Hend.
  { intros isr' changed b1 Hp Hlogs Hfr Hleo Hpart Hpm1.
    assert (log_at b1 (store_key t p) = Some l) as Hl1 by (by rewrite Hlogs).
    rewrite (bind_Ok _ _ _ _ _ (on_log_modify _ _ _ _ Hl1)).
    exists changed, (set_log (store_key t p) (op_set_hw h l) b1), (op_set_hw h l), isr'.
    split_and!; try done; [by apply log_at_set_log|].
    eapply partition_frame_trans; [exact Hfr|apply partition_frame_set_log]. }
  destruct (sameInts (p_ISR pm) isr) eqn:E; cbn [negb].
  - rewrite (bind_Ok _ _ _ _ _ (eq_refl : (mret tt : M _ _) b = (Ok tt, b))).
    apply (Hend (p_ISR pm)); try done; [|by rewrite Hpm; destruct pm].
    apply sameInts_spec in E; [done|done|by apply current_isr_NoDup].
  - rewrite (bind_Ok _ _ _ _ _ (eq_refl : modify _ b = (Ok tt, _))).
    apply (Hend isr); [done|by destruct disk_ok| |by destruct disk_ok..|].
    + apply set_isr_frame. intros tm q Htm Hq Hqid [Hqr _ Hqs Hql].
      assert (q = pm) as -> by (eapply find_partition_unique; eauto).
      split; cbn; [done|by apply current_isr_NoDup| |].
      * intros x [->|(_ & ? & _)]%elem_of_current_isr; [|done]. rewrite <- Hlead. by apply Hqs.
      * apply elem_of_current_isr. by left.
    + unfold partition_meta in *. rewrite persistTopics_topics. cbn. rewrite lookup_alter_eq.
      destruct (topics b !! t) as [tm|]; [|done]. cbn [fmap option_fmap option_map].
      by rewrite find_partition_set_isr, Hpm.
Qed.
End leader.

Section reply.
Context {L D : Type} `{LogOpener L D} `{LogLaws L}.
Implicit Types b : Broker L D.

Lemma follow_reply_run now t p all out fr b l recs :
  let k := store_key t p in
  replicable all → Forall (.∈ all) out → f_Records fr = json_record <$> toWire out →
  log_at b k = Some l → log_contents l recs → recs `prefix_of` all →
  ∃ l' recs', follow_reply now t p fr b = (Ok (MkAck (cfg_ID (cfg b)) t p (Zlength recs')), set_log k l' b) ∧
    log_contents l' recs' ∧ recs `prefix_of` recs' ∧ recs' `prefix_of` all ∧
    op_hw l' = Z.max (op_hw l) (Z.min (f_HighWatermark fr) (Zlength recs')) ∧
    (∀ r, head out = Some r → Offset r = Zlength recs → recs ++ [r] `prefix_of` recs').
Proof.
  intros k Hall Hout Hfr Hl Hrecs Hpre.
  destruct (follow_records_spec now k all out Hall Hout b l recs Hl Hrecs Hpre) as
    (l1 & recs' & Hrun & Hrecs' & Hp1 & Hp2 & Hhw1 & Hprog).
  pose proof (log_at_set_log k l1 b) as Hl1.
  destruct (log_set_hw (f_HighWatermark fr) l1 recs' Hrecs') as [Hrecs2 Hhw2].
  set (l2 := op_set_hw (f_HighWatermark fr) l1) in *. exists l2, recs'. split_and!; try done; [|by rewrite Hhw2, Hhw1].
  unfold follow_reply. cbn zeta. fold k. rewrite Hfr, (bind_Ok _ _ _ _ _ Hrun).
  rewrite (bind_Ok _ _ _ _ _ (on_log_modify k (op_set_hw (f_HighWatermark fr)) _ _ Hl1)). fold l2.
  rewrite set_log_set_log, (bind_Ok _ _ _ _ _ (on_log_gets k op_leo _ _ (log_at_set_log k l2 b))).
  by rewrite (log_leo _ _ Hrecs2).
Qed.

Lemma follow_reply_spec now t p all out fr b l recs :
  replicable all → Forall (.∈ all) out → f_Records fr = json_record <$> toWire out →
  log_at b (store_key t p) = Some l → log_contents l recs → recs `prefix_of` all →
  ∃ b' l' recs', follow_reply now t p fr b = (Ok (MkAck (cfg_ID (cfg b)) t p (Zlength recs')), b') ∧
    log_at b' (store_key t p) = Some l' ∧ log_contents l' recs' ∧
    recs `prefix_of` recs' ∧ recs' `prefix_of` all ∧ cfg b' = cfg b.
Proof.
  intros Hall Hout Hfr Hl Hrecs Hpre.
  destruct (follow_reply_run now t p all out fr b l recs Hall Hout Hfr Hl Hrecs Hpre) as (l' & recs' & ? & ? & ? & ? & _).
  exists (set_log (store_key t p) l' b), l', recs'. split_and!; try done. apply log_at_set_log.
Qed.
End reply.

(** ** Sample states over the real log *)

(** Broker 1, leading partition 0 of "orders" with five records, when broker 2
    has acked three of them. *)
Definition sample_leader : Broker (log * disk) disk :=
  let b := set_log "orders/0" (sample_log, sample_disk) (broker_with_topic 1) in
  noteReplica 900 "orders" 0 2 3 (set_cluster (MarkSeen 900 2 (cluster b)) b).

(** ** Properties *)

Section properties.
Context {L D : Type} `{LogOpener L D} `{LogLaws L}.
Implicit Types b : Broker L D.

(** C15: the leader's recomputation makes the ISR the leader and exactly the live
    replicas that acked recently; the high watermark does not retreat, never
    passes the end of the log, rises only to an offset that every member of
    that ISR has acked, and reaches every such offset. *)
Theorem high_watermark_needs_every_isr_member now disk_ok t p b pm l recs
    (Hok : metadata_ok b) (Hpm : partition_meta b t p = Some pm) (Hlead : p_Leader pm = cfg_ID (cfg b))
    (Hl : log_at b (store_key t p) = Some l) (Hrecs : log_contents l recs) :
  let self := cfg_ID (cfg b) in
  let states := replica_states b t p in
  ∃ changed b' l' pm', recomputeHW now disk_ok t p b = (Ok changed, b') ∧
    partition_meta b' t p = Some pm' ∧ log_at b' (store_key t p) = Some l' ∧ log_contents l' recs ∧
    (∀ id, id ∈ p_ISR pm' ↔ id = self ∨ id ≠ self ∧ id ∈ p_Replicas pm ∧ in_sync now b states id = true) ∧
    op_hw l ≤ op_hw l' ≤ Zlength recs ∧
    (op_hw l < op_hw l' → ∀ id, id ∈ p_ISR pm' →
       id = self ∨ ∃ st, states !! id = Some st ∧ op_hw l' ≤ r_leo st) ∧
    (∀ n, n ≤ Zlength recs →
       (∀ id st, id ∈ p_ISR pm' → id ≠ self → states !! id = Some st → n ≤ r_leo st) → n ≤ op_hw l').
Proof.
  intros self states.
  destruct (recomputeHW_spec now disk_ok t p b pm l recs Hok Hpm Hlead Hl Hrecs) as
    (changed & b' & l' & isr' & Hrun & Hl' & Hrecs' & Hhw & Hpm' & Hperm & _).
  fold self states in Hhw, Hperm. set (isr := current_isr now b states (p_Replicas pm)) in *.
  destruct (isr_hw_spec self states isr (Zlength recs)) as (Hlow & Hmin & Hmax).
  pose proof (log_hw _ _ Hrecs). eexists changed, b', l', _. split_and!; try done; cbn.
  - intros id. rewrite Hperm. apply elem_of_current_isr.
  - lia.
  - lia.
  - intros Hlt id Hid. rewrite Hperm in Hid. pose proof Hid as Hid'.
    apply elem_of_current_isr in Hid as [->|(Hne & _ & Hsync)]; [by left|right].
    unfold in_sync in Hsync. destruct (states !! id) as [st|] eqn:E; [|by rewrite andb_false_r in Hsync].
    exists st. split; [done|]. specialize (Hmin id st Hid' Hne E). lia.
  - intros n Hn Hall. rewrite Hhw. apply Z.max_le_iff. right. apply Hmax; [done|].
    intros id st Hid. apply Hall. by rewrite Hperm.
Qed.
End properties.

Lemma sample_leader_ok : metadata_ok sample_leader.
Proof. eapply metadata_ok_same; [|apply (broker_with_topic_ok 1)]. done. Qed.

Lemma high_watermark_needs_every_isr_member_witness :
  ∃ changed b' l' pm', recomputeHW 1000 true "orders" 0 sample_leader = (Ok changed, b') ∧
    partition_meta b' "orders" 0 = Some pm' ∧ log_at b' "orders/0" = Some l' ∧
    2 ∈ p_ISR pm' ∧ op_hw l' ≤ 5.
Proof.
  destruct (high_watermark_needs_every_isr_member 1000 true "orders" 0 sample_leader
    (MkPart 0 1 [1; 2] [1]) (sample_log, sample_disk) sample_records) as
    (c & b' & l' & pm' & Hrun & Hpm & Hl & _ & Hisr & Hhw & _);
    [apply sample_leader_ok|reflexivity|reflexivity|reflexivity|apply sample_holds|].
  exists c, b', l', pm'. split; [exact Hrun|]. split; [exact Hpm|]. split; [exact Hl|].
  split; [|rewrite <- sample_leo; apply Hhw].
  apply Hisr. right. split; [discriminate|]. split; [right; left|vm_compute; reflexivity].
Defined.

(** The high watermark is not the minimum over the ISR: after the leader
    alone has raised it to 5, a replica whose ack says 0 joins the ISR, and is
    then a member (and a candidate for leadership) without the records below
    the high watermark. *)
Theorem lagging_member_run :
  let b := set_log "orders/0" (sample_log, sample_disk) (broker_with_topic 1) in
  let b := snd (recomputeHW 1000 true "orders" 0 b) in
  let b := noteReplica 2000 "orders" 0 2 0 (set_cluster (MarkSeen 2000 2 (cluster b)) b) in
  let b := snd (recomputeHW 2000 true "orders" 0 b) in
  p_ISR <$> partition_meta b "orders" 0 = Some [1; 2] ∧
  op_hw <$> log_at b "orders/0" = Some 5 ∧
  r_leo <$> replica_states b "orders" 0 !! 2 = Some 0.
Proof. vm_compute. repeat split. Qed.
