(* ===== verification/Produce.v ===== *)
(** Producing and fetching: [produceLocal], [maybeSoloHW] and [serveFetch] of
    [internal/broker/handlers.go] and [replicateOffset] of [broker.go], over any
    log. *)
From S2P Require Import Prelude GoStrings Bytes RecordFmt Disk Index Segment CommitLog LogRep LogRead LogInterface.
From S2P Require Import Partitioner Cluster Store Wire BrokerState Metadata Replica.
Open Scope Z_scope.

(** ** State and operations *)

(** What one iteration of a produce request meets: the clock of the log and of
    the broker, whether [topics.json] can be written, and, while it waits for
    the high watermark, the times it looks again and what other calls did to the
    broker before. *)
Record call_env (B : Type) := CallEnv {
  ce_ts : Z;
  ce_now : Z;
  ce_disk_ok : bool;
  ce_wait : list (Z * (B → B))
}.
Arguments CallEnv {B}.
Arguments ce_ts {B}.
Arguments ce_now {B}.
Arguments ce_disk_ok {B}.
Arguments ce_wait {B}.

Section produce.
Context {L D : Type} `{LogOpener L D} `{LogOps L}.
Implicit Types b : Broker L D.

Definition my_id : M (Broker L D) Z := gets (λ b, cfg_ID (cfg b)).

(** The partition a record goes to, of [n]. *)
Definition pick_partition (req : ProduceRequest) (rec : ProduceRecord) (n : Z) : M (Broker L D) Z :=
  let pid := pr_Partition rec in
  let pid := if (0 <? rq_Partition req) && (pr_Partition rec =? 0) && bool_decide (rq_Key req = pr_Key rec)
             then rq_Partition req else pid in
  pid ← (if (pid <=? 0) && (pr_Partition rec =? 0) && (rq_Partition req <=? 0)
         then on_partitioner (Partition (pr_Key rec) n) else mret pid);
  if (pid <? 0) || (n <=? pid) then on_partitioner (Partition (pr_Key rec) n) else mret pid.

Definition maybeSoloHW (topic : string) (partition : Z) (k : string) : M (Broker L D) unit :=
  pm ← gets (λ b, partition_meta b topic partition);
  self ← my_id;
  match pm with
  | None => mret tt
  | Some pm =>
    if bool_decide (p_ISR pm = [self])
    then leo ← on_log k (gets op_leo); on_log k (modify (op_set_hw leo))
    else mret tt
  end.

(** The high watermarks seen at the looks, after what happened before each. *)
Fixpoint interfere (k : string) (env : list (Z * (Broker L D → Broker L D))) : M (Broker L D) (list (Z * Z)) :=
  match env with
  | [] => mret []
  | (t, step) :: env =>
    modify step;;
    h ← on_log k (gets op_hw);
    ws ← interfere k env;
    mret ((t, h) :: ws)
  end.

(** [Diverged]: still waiting after the last look. *)
Definition wait_hw (k : string) (offset now : Z) (env : list (Z * (Broker L D → Broker L D))) : M (Broker L D) unit :=
  timeout ← gets (λ b, ProduceTimeout (cfg b));
  h ← on_log k (gets op_hw);
  ws ← interfere k env;
  match op_wait offset timeout now h ws with
  | Some (Ok _) => mret tt
  | Some (Err e) => throw e
  | Some Panicked => panic
  | Some Diverged | None => diverge
  end.

Definition is_acks_all (acks : string) : bool := bool_decide (acks = "all"%string) || bool_decide (acks = "-1"%string).

(** One iteration up to the answer: partition, log and offset of the record. *)
Definition produce_append (env : call_env (Broker L D)) (req : ProduceRequest) (n : Z) (rec : ProduceRecord) :
    M (Broker L D) (Z * string * Z) :=
  pid ← pick_partition req rec n;
  pm ← gets (λ b, partition_meta b (rq_Topic req) pid);
  self ← my_id;
  match pm with
  | None => throw (ErrUnknownTopic (rq_Topic req))
  | Some pm =>
    if negb (p_Leader pm =? self) then throw (ErrNotLeader (p_Leader pm)) else
    k ← on_store (store_Open (rq_Topic req) pid);
    off ← on_log k (op_append (ce_ts env) (pr_Key rec) (pr_Value rec));
    leo ← on_log k (gets op_leo);
    modify (noteSelfLEO (ce_now env) (rq_Topic req) pid leo);;
    recomputeHW (ce_now env) (ce_disk_ok env) (rq_Topic req) pid;;
    mret (pid, k, off)
  end.

(** The rest of the iteration. *)
Definition answer_record (env : call_env (Broker L D)) (acks : string) (req : ProduceRequest)
    (a : Z * string * Z) : M (Broker L D) ProduceResult :=
  let '(pid, k, off) := a in
  (if is_acks_all acks then wait_hw k off (ce_now env) (ce_wait env)
   else maybeSoloHW (rq_Topic req) pid k);;
  mret (MkProduceResult pid off).

Definition produce_record (env : call_env (Broker L D)) (acks : string) (req : ProduceRequest) (n : Z)
    (rec : ProduceRecord) : M (Broker L D) ProduceResult :=
  a ← produce_append env req n rec;
  answer_record env acks req a.

(** The [i]-th record meets [env i]. *)
Fixpoint produce_records (env : nat → call_env (Broker L D)) (i : nat) (acks : string) (req : ProduceRequest)
    (n : Z) (recs : list ProduceRecord) : M (Broker L D) (list ProduceResult) :=
  match recs with
  | [] => mret []
  | rec :: recs =>
    r ← produce_record (env i) acks req n rec;
    rs ← produce_records env (S i) acks req n recs;
    mret (r :: rs)
  end.

Definition produceLocal (env : nat → call_env (Broker L D)) (req : ProduceRequest) :
    M (Broker L D) ProduceResponse :=
  t ← gets (λ b, topic b (rq_Topic req));
  match t with
  | None => throw (ErrUnknownTopic (rq_Topic req))
  | Some t =>
    let recs := match rq_Records req with
                | [] => [MkProduceRecord (rq_Key req) (rq_Value req) (rq_Partition req)]
                | recs => recs
                end in
    let acks := if bool_decide (rq_Acks req = ""%string) then "1"%string else rq_Acks req in
    rs ← produce_records env 0 acks req (Z.of_nat (length (t_Partitions t))) recs;
    mret (MkProduceResponse (rq_Topic req) rs)
  end.

(** The copy of a committed offset in [__consumer_offsets]; errors are dropped. *)
Definition string_bytes (s : string) : bytes := byte_of_ascii <$> to_chars s.

Definition replicateOffset (env : nat → call_env (Broker L D)) (groupID topic : string) (partition offset : Z) :
    M (Broker L D) unit :=
  if bool_decide (topic = offsetsTopic) then mret tt else
  let key := groupID +:+ "/" +:+ topic +:+ "/" +:+ Itoa partition in
  attempt (produceLocal env (MkProduceRequest offsetsTopic 0 (string_bytes key) (string_bytes (Itoa offset)) "1" []));;
  mret tt.

(** *** Fetching *)

Inductive fetch_answer :=
  | Fetched (fr : FetchResponse)            (* 200 *)
  | FetchNotLeader (leader : Z) (addr : string)  (* 409 *)
  | FetchUnknown                            (* 404 *)
  | FetchFailed (e : goerr).                (* 500 *)

(** The numbers are those of the query, 0 for one that is missing. [proxy] is
    the client's fetch from another broker; [None] is an error. *)
Definition serveFetch (proxy : string → string → Z → Z → Z → option FetchResponse)
    (topic : string) (part off maxBytes : Z) (replica : bool) : M (Broker L D) fetch_answer :=
  let maxBytes := if maxBytes <=? 0 then Z.shiftl 1 20 else maxBytes in
  b ← gets id;
  match partition_meta b topic part with
  | None => mret FetchUnknown
  | Some pm =>
    if negb (p_Leader pm =? cfg_ID (cfg b)) then
      let addr := peer_addr (p_Leader pm) (cluster b) in
      mret match (if negb (bool_decide (addr = ""%string)) && negb replica
                  then proxy addr topic part off maxBytes else None) with
           | Some fr => Fetched fr
           | None => FetchNotLeader (p_Leader pm) addr
           end
    else
      r ← attempt (on_store (store_Open topic part));
      match r with
      | inr e => mret (FetchFailed e)
      | inl k =>
        maxOff ← on_log k (gets (if replica then op_leo else op_hw));
        r ← attempt (on_log k (op_read off maxBytes maxOff));
        match r with
        | inr e => mret (FetchFailed e)
        | inl recs =>
          hw ← on_log k (gets op_hw);
          leo ← on_log k (gets op_leo);
          mret (Fetched (MkFetch topic part hw leo (toWire recs)))
        end
      end
  end.
End produce.

(** ** Fetching *)

Section fetch.
Context {L D : Type} `{LogOpener L D} `{LogLaws L}.
Implicit Types b : Broker L D.

Definition fetch_limit (replica : bool) (l : L) (recs : list record) : Z :=
  if replica then Zlength recs else op_hw l.

Lemma serveFetch_spec proxy t p off maxBytes replica b pm l recs :
  partition_meta b t p = Some pm → p_Leader pm = cfg_ID (cfg b) →
  log_at b (store_key t p) = Some l → log_contents l recs → 0 ≤ off →
  ∃ out, serveFetch proxy t p off maxBytes replica b =
      (Ok (Fetched (MkFetch t p (op_hw l) (Zlength recs) (toWire out))), b) ∧
    out `sublist_of` recs ∧ Forall (λ r, off ≤ Offset r < fetch_limit replica l recs) out ∧
    (off < fetch_limit replica l recs → head out = recs !! Z.to_nat off) ∧
    ∃ n h, op_read off n h l = (Ok out, l).
Proof.
  intros Hpm Hlead Hl Hrecs Hoff. pose proof (log_hw _ _ Hrecs) as Hhw. pose proof (log_leo _ _ Hrecs) as Hleo.
  set (maxOff := (if replica then op_leo else op_hw) l).
  assert (maxOff = fetch_limit replica l recs ∧ read_limit (Zlength recs) maxOff = maxOff ∧ maxOff ≤ Zlength recs)
    as (Hlim & Hread & Hmax).
  { unfold maxOff, fetch_limit, read_limit. destruct replica.
    - rewrite Hleo. unfold Zlength in *. by rewrite (proj2 (Z.ltb_ge _ _)) by lia.
    - rewrite (proj2 (Z.ltb_ge _ _)) by lia. split_and!; try done. lia. }
  rewrite <- Hlim. set (max := if maxBytes <=? 0 then Z.shiftl 1 20 else maxBytes).
  destruct (log_read off max maxOff l recs Hrecs Hoff) as (out & Hrun & Hsub & Hout).
  rewrite Hread, Z.min_r in Hout by done. exists out. split; [|split; [done|split; [done|split; [|by exists max, maxOff]]]].
  - unfold serveFetch. rewrite (bind_Ok _ _ _ _ _ (eq_refl : gets id b = (Ok b, b))), Hpm.
    rewrite (proj2 (Z.eqb_eq _ _) Hlead). cbn [negb].
    rewrite (bind_Ok _ _ _ _ _ (attempt_Ok _ _ _ _ (on_store_open _ _ _ _ Hl))).
    rewrite (bind_Ok _ _ _ _ _ (on_log_gets _ _ _ _ Hl)). fold max maxOff.
    assert (on_log (store_key t p) (op_read off max maxOff) b = (Ok out, b)) as Hr.
    { rewrite (on_log_run _ _ _ _ Hl), Hrun. cbn. by rewrite set_log_id. }
    rewrite (bind_Ok _ _ _ _ _ (attempt_Ok _ _ _ _ Hr)).
    rewrite (bind_Ok _ _ _ _ _ (on_log_gets _ _ _ _ Hl)), (bind_Ok _ _ _ _ _ (on_log_gets _ _ _ _ Hl)).
    by rewrite Hleo.
  - intros Hlt. destruct (log_read_head off max maxOff l recs Hrecs) as (r & out' & Hrun' & Hr).
    { rewrite Hread. lia. }
    rewrite Hrun in Hrun'. injection Hrun' as ->. by rewrite Hr.
Qed.

(** C21: a fetch from the leader answers with its high watermark and log end and
    with records in order from the offset asked for; a consumer gets none at or
    above the high watermark, a replica may get all; when there is something to
    get, the first record is the one at the offset. Nothing changes. *)
Theorem consumers_see_only_committed_records proxy t p off maxBytes replica b pm l recs
    (Hpm : partition_meta b t p = Some pm) (Hlead : p_Leader pm = cfg_ID (cfg b))
    (Hl : log_at b (store_key t p) = Some l) (Hrecs : log_contents l recs) (Hoff : 0 ≤ off) :
  ∃ out, serveFetch proxy t p off maxBytes replica b =
      (Ok (Fetched (MkFetch t p (op_hw l) (Zlength recs) (toWire out))), b) ∧
    out `sublist_of` recs ∧ Forall (λ r, off ≤ Offset r < fetch_limit replica l recs) out ∧
    (off < fetch_limit replica l recs → head out = recs !! Z.to_nat off).
Proof.
  destruct (serveFetch_spec proxy t p off maxBytes replica b pm l recs) as (out & ? & ? & ? & ? & _); [done..|].
  by exists out.
Qed.

(** The log a follower gets, when its leader's holds [all]. *)
Record transmissible (all : list record) : Prop := {
  tm_stamped : Forall (λ r, Timestamp r ≠ 0) all;
  tm_wf : Forall (λ r, wf_record (through_json r)) all;
  tm_max : Zlength all < 2 ^ 63
}.

Lemma transmitted_replicable all : contiguous 0 all → transmissible all → replicable (through_json <$> all).
Proof.
  intros Hc [Hts Hwf Hmax]. split.
  - intros i r. rewrite list_lookup_fmap, fmap_Some. intros (r0 & Hr0 & ->). exact (Hc _ _ Hr0).
  - by apply Forall_fmap.
  - by apply Forall_fmap.
  - apply Forall_fmap, Forall_true. intros r. apply through_json_utf8.
  - unfold Zlength in *. by rewrite length_fmap.
Qed.

(** A replication round keeps a copy a copy, of what comes through JSON. When the
    follower's log is a prefix of the leader's in that sense, then after the
    follower has applied the answer to its fetch from its log end its log still is
    one and no shorter, and strictly longer unless it was already complete; it acks
    its log end. *)
Lemma replication_round_json proxy t p (leader : Broker L D) pm lead all copy recs :
  partition_meta leader t p = Some pm → p_Leader pm = cfg_ID (cfg leader) →
  log_at leader (store_key t p) = Some lead → log_contents lead all → transmissible all →
  log_contents copy recs → recs `prefix_of` through_json <$> all →
  ∃ fr, serveFetch proxy t p (op_leo copy) (Z.shiftl 1 20) true leader = (Ok (Fetched fr), leader) ∧
    ∀ now (follower : Broker L D), log_at follower (store_key t p) = Some copy →
    ∃ copy' recs', follow_reply now t p (json_fetch fr) follower =
      (Ok (MkAck (cfg_ID (cfg follower)) t p (Zlength recs')), set_log (store_key t p) copy' follower) ∧
      log_contents copy' recs' ∧ recs `prefix_of` recs' ∧ recs' `prefix_of` through_json <$> all ∧
      (Zlength recs < Zlength all → Zlength recs < Zlength recs').
Proof.
  intros Hpm Hlead Hleader Hall Htr Hrecs Hpre. destruct (log_records _ _ Hall) as [Hc _].
  pose proof (transmitted_replicable all Hc Htr) as Hrep.
  rewrite (log_leo _ _ Hrecs). destruct (serveFetch_spec proxy t p (Zlength recs) (Z.shiftl 1 20) true
    leader pm lead all Hpm Hlead Hleader Hall) as (out & Hrun & Hsub & _ & Hhead & _); [unfold Zlength; lia|].
  assert (Forall (.∈ through_json <$> all) (through_json <$> out)) as Hin.
  { apply Forall_fmap, Forall_forall. intros r Hr. apply list_elem_of_fmap. exists r. split; [done|]. by eapply elem_of_sublist. }
  eexists. split; [exact Hrun|]. intros now follower Hfollower. set (fr := MkFetch _ _ _ _ _) in *.
  assert (f_Records (json_fetch fr) = json_record <$> toWire (through_json <$> out)) as Hfr.
  { unfold fr, json_fetch, toWire. cbn [f_Records]. rewrite <- !list_fmap_compose. apply list_fmap_ext. intros i r _.
    apply json_record_through. }
  destruct (follow_reply_run now t p _ _ (json_fetch fr) follower copy recs Hrep Hin Hfr
    Hfollower Hrecs Hpre) as (copy' & recs' & Hrun' & Hrecs' & Hp1 & Hp2 & _ & Hprog).
  exists copy', recs'. split_and!; try done. intros Hlt. cbn in Hhead. specialize (Hhead Hlt).
  destruct (lookup_lt_is_Some_2 all (length recs)) as [r Hr]; [unfold Zlength in Hlt; lia|].
  unfold Zlength in Hhead at 1. rewrite Nat2Z.id, Hr in Hhead.
  specialize (Hprog (through_json r) ltac:(by rewrite head_lookup, list_lookup_fmap, <- head_lookup, Hhead)).
  cbn [Offset through_json] in Hprog. rewrite (Hc _ _ Hr) in Hprog.
  apply prefix_length in Hprog; [|unfold Zlength; lia]. rewrite length_app in Hprog. cbn in Hprog.
  unfold Zlength. lia.
Qed.

Lemma replicable_through_json all : replicable all → through_json <$> all = all ∧ transmissible all.
Proof.
  intros [Hc Hwf Hts Hutf Hmax]. rewrite Forall_forall in Hutf.
  assert (∀ r, r ∈ all → through_json r = r) as Hsame by (intros r Hr; by apply through_json_same, Hutf).
  split.
  - rewrite <- (list_fmap_id all) at 2. apply list_fmap_ext. intros i r Hr. by eapply Hsame, list_elem_of_lookup_2.
  - split; try done. rewrite Forall_forall in *. intros r Hr. rewrite Hsame by done. by apply Hwf.
Qed.

(** UTF-8 comes through unchanged. *)
Lemma replication_round proxy t p (leader : Broker L D) pm lead all copy recs :
  partition_meta leader t p = Some pm → p_Leader pm = cfg_ID (cfg leader) →
  log_at leader (store_key t p) = Some lead → log_contents lead all → replicable all →
  log_contents copy recs → recs `prefix_of` all →
  ∃ fr, serveFetch proxy t p (op_leo copy) (Z.shiftl 1 20) true leader = (Ok (Fetched fr), leader) ∧
    ∀ now (follower : Broker L D), log_at follower (store_key t p) = Some copy →
    ∃ copy' recs', follow_reply now t p (json_fetch fr) follower =
      (Ok (MkAck (cfg_ID (cfg follower)) t p (Zlength recs')), set_log (store_key t p) copy' follower) ∧
      log_contents copy' recs' ∧ recs `prefix_of` recs' ∧ recs' `prefix_of` all ∧
      (Zlength recs < Zlength all → Zlength recs < Zlength recs').
Proof.
  intros Hpm Hlead Hleader Hall Hrep Hrecs Hpre. destruct (replicable_through_json all Hrep) as [Hsame Htr].
  rewrite <- Hsame in Hpre.
  pose proof (replication_round_json proxy t p leader pm lead all copy recs Hpm Hlead Hleader Hall Htr Hrecs Hpre) as Hround.
  by rewrite Hsame in Hround.
Qed.

(** C39: records travel to followers as JSON strings, which replaces every byte
    that is not UTF-8 by U+FFFD, whatever the leader has stored and acknowledged.
    Replication of any stamped records (whose images fit in records) keeps the
    follower's log a prefix of the leader's seen through JSON, and goes on until it
    is complete: so in the end, at every offset the follower has the leader's
    record if and only if that record's key and value are UTF-8. *)
Theorem replication_alters_invalid_utf8 proxy t p (leader : Broker L D) pm lead all copy recs
    (Hpm : partition_meta leader t p = Some pm) (Hlead : p_Leader pm = cfg_ID (cfg leader))
    (Hleader : log_at leader (store_key t p) = Some lead) (Hall : log_contents lead all) (Htr : transmissible all)
    (Hrecs : log_contents copy recs) (Hpre : recs `prefix_of` through_json <$> all) :
  ∃ fr, serveFetch proxy t p (op_leo copy) (Z.shiftl 1 20) true leader = (Ok (Fetched fr), leader) ∧
    ∀ now (follower : Broker L D), log_at follower (store_key t p) = Some copy →
    ∃ copy' recs', follow_reply now t p (json_fetch fr) follower =
      (Ok (MkAck (cfg_ID (cfg follower)) t p (Zlength recs')), set_log (store_key t p) copy' follower) ∧
      log_contents copy' recs' ∧ recs' `prefix_of` through_json <$> all ∧
      (Zlength recs < Zlength all → Zlength recs < Zlength recs') ∧
      ∀ i r, recs' !! i = Some r →
        ∃ r0, all !! i = Some r0 ∧ Offset r = Offset r0 ∧ (r = r0 ↔ utf8_record r0).
Proof.
  destruct (replication_round_json proxy t p leader pm lead all copy recs Hpm Hlead Hleader Hall Htr Hrecs Hpre) as
    (fr & Hrun & Hround).
  exists fr. split; [exact Hrun|]. intros now follower Hf.
  destruct (Hround now follower Hf) as (copy' & recs' & Hreply & Hrecs' & _ & Hpre' & Hprog).
  exists copy', recs'. split_and!; try done. intros i r Hr. pose proof (prefix_lookup_Some _ _ _ _ Hr Hpre') as Hi.
  rewrite list_lookup_fmap, fmap_Some in Hi. destruct Hi as (r0 & Hr0 & ->).
  exists r0. split; [done|]. split; [done|]. apply through_json_same.
Qed.
End fetch.

(** ** Sample states over the real log *)

(** Broker 2, following partition 0 of "orders" with an empty log. *)
Definition sample_follower : Broker (log * disk) disk :=
  set_log "orders/0" (start_state small_cfg) (broker_with_topic 2).

Definition no_proxy : string → string → Z → Z → Z → option FetchResponse := λ _ _ _ _ _, None.

Lemma sample_replicable : replicable sample_records.
Proof.
  pose proof (log_records (L:=log * disk) (sample_log, sample_disk) sample_records sample_holds) as [Hc Hwf].
  split; [exact Hc|exact Hwf|apply (bool_decide_unpack _); vm_compute; exact I..|done].
Qed.

Lemma consumers_see_only_committed_records_witness :
  ∃ out, serveFetch no_proxy "orders" 0 1 100 true sample_leader =
      (Ok (Fetched (MkFetch "orders" 0 0 5 (toWire out))), sample_leader) ∧
    head out = sample_records !! 1%nat.
Proof.
  destruct (consumers_see_only_committed_records no_proxy "orders" 0 1 100 true sample_leader
    (MkPart 0 1 [1; 2] [1]) (sample_log, sample_disk) sample_records) as (out & Hrun & _ & _ & Hhead);
    [reflexivity|reflexivity|reflexivity|apply sample_holds|lia|].
  exists out. split; [exact Hrun|]. apply Hhead. reflexivity.
Defined.

Definition log_records_at {L D} `{LogOps L} (b : Broker L D) (k : string) : option (res (list record)) :=
  (λ l, fst (op_read 0 0 (-1) l)) <$> log_at b k.

(** A record with the key 0xFF, which the leader stores, has the key U+FFFD on the
    follower. *)
Definition odd_log : log * disk := append_all [([xff], [x61])] (start_state small_cfg).
Definition odd_leader : Broker (log * disk) disk := set_log "orders/0" odd_log (broker_with_topic 1).

Theorem replication_alters_invalid_utf8_run :
  log_records_at odd_leader "orders/0" = Some (Ok [Rec 0 1000 [xff] [x61]]) ∧
  match serveFetch no_proxy "orders" 0 0 (Z.shiftl 1 20) true odd_leader with
  | (Ok (Fetched fr), _) =>
    log_records_at (snd (follow_reply 2000 "orders" 0 (json_fetch fr) sample_follower)) "orders/0" =
      Some (Ok [Rec 0 1000 [xef; xbf; xbd] [x61]])
  | _ => False
  end.
Proof. vm_compute. by split. Qed.

Lemma odd_log_holds : log_contents odd_log [Rec 0 1000 [xff] [x61]].
Proof.
  pose proof (append_all_holds [([xff], [x61])] (fst (start_state small_cfg)) (snd (start_state small_cfg)) []) as Hh.
  apply Hh; [by apply start_state_holds| |done].
  intros i k v Hi. destruct i as [|i]; [|discriminate Hi]. injection Hi as <- <-.
  apply (bool_decide_unpack _). vm_compute. exact I.
Qed.

Lemma replication_alters_invalid_utf8_witness :
  ∃ copy r, log_contents copy [r] ∧ Offset r = 0 ∧ r ≠ Rec 0 1000 [xff] [x61].
Proof.
  destruct (replication_alters_invalid_utf8 no_proxy "orders" 0 odd_leader (MkPart 0 1 [1; 2] [1]) odd_log
    [Rec 0 1000 [xff] [x61]] (start_state small_cfg) []) as (fr & _ & Hround);
    [reflexivity|reflexivity|reflexivity|apply odd_log_holds| |apply start_holds|apply prefix_nil|].
  - split; [by repeat constructor|apply Forall_singleton, (bool_decide_unpack _); vm_compute; exact I|done].
  - destruct (Hround 2000 sample_follower eq_refl) as (copy & recs & _ & Hrecs & Hpre & Hprog & Heach).
    specialize (Hprog eq_refl). destruct recs as [|r recs]; [discriminate Hprog|].
    apply prefix_length in Hpre. destruct recs as [|r' recs]; [|cbn in Hpre; lia].
    destruct (Heach 0%nat r eq_refl) as (r0 & Hr0 & Ho & Hsame). injection Hr0 as <-.
    exists copy, r. split; [exact Hrecs|]. split; [exact Ho|]. intros E. apply Hsame in E as [E _]. discriminate E.
Defined.

(** ** Producing *)

Section producing.
Context {L D : Type} `{LogOpener L D} `{LogLaws L}.
Implicit Types b : Broker L D.

(** The broker after the first looks of a wait. *)
Definition after_steps (env : list (Z * (Broker L D → Broker L D))) b : Broker L D :=
  foldl (λ b '(_, step), step b) b env.

Lemma on_log_gets_inv {A} k (f : L → A) b a b' :
  on_log k (gets f) b = (Ok a, b') → ∃ l, log_at b k = Some l ∧ a = f l ∧ b' = b.
Proof.
  unfold on_log, act. fold (log_at b k). destruct (log_at b k) as [l|] eqn:Hl; [|done].
  cbn. intros [= <- <-]. exists l. by rewrite set_log_id.
Qed.

Lemma bind_inv {St A B} (m : M St A) (f : A → M St B) s c s' :
  (m ≫= f) s = (Ok c, s') → ∃ a s1, m s = (Ok a, s1) ∧ f a s1 = (Ok c, s').
Proof. unfold mbind, M_bind. destruct (m s) as [[] s1]; try done. eauto. Qed.

Lemma interfere_spec k env b ws b' :
  interfere k env b = (Ok ws, b') →
  b' = after_steps env b ∧ ∀ w, w ∈ ws → ∃ j l, log_at (after_steps (take j env) b) k = Some l ∧ w.2 = op_hw l.
Proof.
  revert b ws. induction env as [|[t step] env IH]; intros b ws; cbn [interfere].
  { intros [= <- <-]. split; [done|]. intros w Hw. by apply elem_of_nil in Hw. }
  intros Hall. apply bind_inv in Hall as ([] & b1 & Hstep & Hall). injection Hstep as <-.
  apply bind_inv in Hall as (h & b2 & (l & Hl & -> & ->)%on_log_gets_inv & Hall).
  apply bind_inv in Hall as (ws' & b3 & Hrun & Hws). injection Hws as <- <-.
  destruct (IH _ _ Hrun) as [-> Hws]. split; [done|]. intros w [->|Hw]%elem_of_cons.
  - exists 1%nat, l. cbn. by rewrite take_0.
  - destruct (Hws w Hw) as (j & l' & Hl' & Hw'). exists (S j), l'. by split.
Qed.

(** Steps that keep the log [k] open and its high watermark from retreating. *)
Definition keeps_hw (k : string) (env : list (Z * (Broker L D → Broker L D))) : Prop :=
  Forall (λ '(_, step), ∀ b l, log_at b k = Some l →
    ∃ l', log_at (step b) k = Some l' ∧ op_hw l ≤ op_hw l') env.

Lemma after_steps_hw k env b l :
  keeps_hw k env → log_at b k = Some l → ∃ l', log_at (after_steps env b) k = Some l' ∧ op_hw l ≤ op_hw l'.
Proof.
  intros Henv. revert b l. induction Henv as [|[t step] env Hstep _ IH]; intros b l Hl; [by exists l|].
  destruct (Hstep b l Hl) as (l1 & Hl1 & Hle). destruct (IH _ _ Hl1) as (l2 & Hl2 & Hle2).
  exists l2. split; [exact Hl2|lia].
Qed.

Lemma wait_hw_spec k off now env b b' :
  keeps_hw k env → wait_hw k off now env b = (Ok tt, b') →
  ∃ l, log_at b' k = Some l ∧ off < op_hw l.
Proof.
  intros Henv. unfold wait_hw. intros Hall. apply bind_inv in Hall as (timeout & b0 & Ht & Hall). injection Ht as <- <-.
  apply bind_inv in Hall as (h & b1 & (l & Hl & -> & ->)%on_log_gets_inv & Hall).
  apply bind_inv in Hall as (ws & b2 & Hrun & Hw).
  destruct (op_wait off (ProduceTimeout (cfg b)) now (op_hw l) ws) as [[[]| | |]|] eqn:E; try done.
  injection Hw as <-. destruct (interfere_spec _ _ _ _ _ Hrun) as [-> Hws].
  apply log_wait in E as [?|(w & Hin & Hlt)].
  - destruct (after_steps_hw k env b l Henv Hl) as (l' & ? & ?). exists l'. split; [done|lia].
  - destruct (Hws w Hin) as (j & l' & Hl' & Hw').
    destruct (after_steps_hw k (drop j env) _ _ (Forall_drop _ _ _ Henv) Hl') as (l2 & Hl2 & Hle).
    exists l2. split; [|lia]. revert Hl2. unfold after_steps. by rewrite <- foldl_app, take_drop.
Qed.

Lemma produce_append_key env req n rec b pid k off b' :
  produce_append env req n rec b = (Ok (pid, k, off), b') → k = store_key (rq_Topic req) pid.
Proof.
  unfold produce_append. intros Hrun.
  apply bind_inv in Hrun as (pid' & b1 & _ & Hrun). apply bind_inv in Hrun as (pm & b2 & [= <- <-] & Hrun).
  apply bind_inv in Hrun as (self & b3 & [= <- <-] & Hrun).
  destruct (partition_meta b1 (rq_Topic req) pid') as [pm|]; [|done].
  destruct (negb _); [done|]. apply bind_inv in Hrun as (k' & b4 & Hk & Hrun).
  apply bind_inv in Hrun as (off' & b5 & _ & Hrun). apply bind_inv in Hrun as (leo & b6 & _ & Hrun).
  apply bind_inv in Hrun as (u & b7 & _ & Hrun). apply bind_inv in Hrun as (c & b8 & _ & Hrun).
  injection Hrun as <- <- <- <-. by eapply on_store_open_key.
Qed.

(** C22: with acks=all a produced record is acknowledged only once the high
    watermark of its partition is above its offset, whatever happens to the
    broker while it waits, as long as high watermarks do not retreat. *)
Theorem acks_all_waits_for_the_high_watermark env req n rec b r b'
    (Hrun : produce_record env "all" req n rec b = (Ok r, b'))
    (Henv : keeps_hw (store_key (rq_Topic req) (ps_Partition r)) (ce_wait env)) :
  ∃ l, log_at b' (store_key (rq_Topic req) (ps_Partition r)) = Some l ∧ ps_Offset r < op_hw l.
Proof.
  unfold produce_record in Hrun. apply bind_inv in Hrun as ([[pid k] off] & b1 & Happ & Hrun).
  apply produce_append_key in Happ as ->. apply bind_inv in Hrun as ([] & b9 & Hwait & [= <- <-]).
  exact (wait_hw_spec _ _ _ _ _ _ Henv Hwait).
Qed.
End producing.

Lemma set_hw_monotone h (st : log * disk) : op_hw st ≤ op_hw (op_set_hw h st).
Proof.
  destruct st as [l d]. cbn. unfold SetHighWatermark, active_segment, on_active, mbind, M_bind, act.
  destruct (segments l !! active l) as [s|] eqn:Hs; [|done]. cbn. rewrite list_insert_id by done.
  case_match; cbn; case_match eqn:Hlt; cbn; try apply Z.ltb_lt in Hlt; lia.
Qed.

(** The high watermark of [k] reaching [h] meanwhile. *)
Definition hw_reaches (k : string) (h : Z) (b : Broker (log * disk) disk) : Broker (log * disk) disk :=
  match log_at b k with Some l => set_log k (op_set_hw h l) b | None => b end.

Lemma hw_reaches_keeps k h t : keeps_hw k [(t, hw_reaches k h)].
Proof.
  constructor; [|done]. intros b l Hl. unfold hw_reaches. rewrite Hl. eexists. split; [apply log_at_set_log|].
  apply set_hw_monotone.
Qed.

Definition sample_env : call_env (Broker (log * disk) disk) :=
  CallEnv 1000 1000 true [(2000, hw_reaches "orders/0" 6)].
Definition sample_request : ProduceRequest := MkProduceRequest "orders" 0 [x61] [x01] "all" [].

Lemma acks_all_waits_for_the_high_watermark_witness :
  ∃ r b', produce_record sample_env "all" sample_request 2 (MkProduceRecord [x61] [x01] 0) sample_leader = (Ok r, b') ∧
    r = MkProduceResult 0 5 ∧ ∃ l, log_at b' "orders/0" = Some l ∧ 5 < op_hw l.
Proof.
  destruct (produce_record sample_env "all" sample_request 2 (MkProduceRecord [x61] [x01] 0) sample_leader)
    as [res b'] eqn:E.
  assert (res = Ok (MkProduceResult 0 5)) as ->.
  { apply (f_equal fst) in E. cbn [fst] in E. rewrite <- E. vm_compute. reflexivity. }
  exists (MkProduceResult 0 5), b'. split; [reflexivity|]. split; [reflexivity|].
  apply (acks_all_waits_for_the_high_watermark _ _ _ _ _ _ _ E). apply hw_reaches_keeps.
Defined.

(** ** Batches on a broker that leads the whole topic *)

Definition upd {A} (f : Z → A) (i : Z) (a : A) (j : Z) : A := if j =? i then a else f j.

(** Where a record may go: the partition it names, or the one its key hashes
    to. *)
Definition routed (req : ProduceRequest) (rec : ProduceRecord) (n pid : Z) : Prop :=
  0 ≤ pid < n ∧ (0 < pr_Partition rec < n → pid = pr_Partition rec) ∧
  (pr_Partition rec = 0 → rq_Partition req = 0 → pr_Key rec ≠ [] → pid = fnv32a (pr_Key rec) mod n).

Definition new_record (ts off : Z) (rec : ProduceRecord) : record := Rec off ts (pr_Key rec) (pr_Value rec).

(** From contents [C] of the partitions, the records are appended one by one, the
    results name partition and offset, and the contents are [C'] in the end. *)
Inductive produced (ts : nat → Z) (req : ProduceRequest) (n : Z) :
    nat → (Z → list record) → list ProduceRecord → list ProduceResult → (Z → list record) → Prop :=
  | produced_nil i C : produced ts req n i C [] [] C
  | produced_cons i C rec recs pid rs C' :
      routed req rec n pid →
      produced ts req n (S i) (upd C pid (C pid ++ [new_record (ts i) (Zlength (C pid)) rec])) recs rs C' →
      produced ts req n i C (rec :: recs) (MkProduceResult pid (Zlength (C pid)) :: rs) C'.

Section batch.
Context {L D : Type} `{LogOpener L D} `{LogLaws L}.
Implicit Types b : Broker L D.

(** The broker leads the [n] partitions of [t], whose logs hold [C]. *)
Record leading b (t : string) (n : Z) (C : Z → list record) : Prop := {
  ld_ok : metadata_ok b;
  ld_count : length ∘ t_Partitions <$> topics b !! t = Some (Z.to_nat n);
  ld_leader pid : 0 ≤ pid < n → p_Leader <$> partition_meta b t pid = Some (cfg_ID (cfg b));
  ld_log pid : 0 ≤ pid < n → ∃ l, log_at b (store_key t pid) = Some l ∧ log_contents l (C pid);
  ld_rr : 0 ≤ rr (partitioner b) < 2 ^ 64
}.

Lemma Partition_spec key n p :
  0 < n < 2 ^ 32 → 0 ≤ rr p < 2 ^ 64 →
  ∃ i p', Partition key n p = (Ok i, p') ∧ 0 ≤ i < n ∧ 0 ≤ rr p' < 2 ^ 64 ∧
    (key ≠ [] → i = fnv32a key mod n).
Proof.
  intros Hn Hp. destruct key as [|c key].
  - rewrite Partition_empty by lia. do 2 eexists. split; [done|]. pose proof (Z.mod_pos_bound (rr p) n).
    split; [lia|]. cbn. unfold u64. pose proof (Z.mod_pos_bound (rr p + 1) (2 ^ 64)). split; [lia|done].
  - unfold Partition. rewrite (proj2 (Z.leb_gt _ _)) by lia. unfold u32. rewrite (Z.mod_small n) by lia.
    rewrite (proj2 (Z.eqb_neq _ _)) by lia. do 2 eexists. split; [done|].
    pose proof (Z.mod_pos_bound (fnv32a (c :: key)) n). by split; [lia|].
Qed.

Lemma pick_partition_spec req rec n b :
  0 < n < 2 ^ 32 → 0 ≤ rr (partitioner b) < 2 ^ 64 →
  ∃ pid p', pick_partition req rec n b = (Ok pid, set_partitioner p' b) ∧ routed req rec n pid ∧
    0 ≤ rr p' < 2 ^ 64.
Proof.
  intros Hn Hp. unfold pick_partition. set (pid0 := if _ && _ && _ then _ else pr_Partition rec).
  assert (0 < pr_Partition rec → pid0 = pr_Partition rec) as Hpid0.
  { intros. unfold pid0. by rewrite (proj2 (Z.eqb_neq _ _)), andb_false_r by lia. }
  destruct (Partition_spec (pr_Key rec) n (partitioner b) Hn Hp) as (i & p' & Hrun & Hi & Hp' & Hkey).
  assert (on_partitioner (Partition (pr_Key rec) n) b = (Ok i, set_partitioner p' b)) as Hon.
  { unfold on_partitioner, zoom. by rewrite Hrun. }
  assert (b = set_partitioner (partitioner b) b) as Hid by (by destruct b).
  destruct ((pid0 <=? 0) && (pr_Partition rec =? 0) && (rq_Partition req <=? 0)) eqn:E.
  - rewrite (bind_Ok _ _ _ _ _ Hon). rewrite (proj2 (Z.ltb_ge _ _)), (proj2 (Z.leb_gt _ _)) by lia.
    exists i, p'. split; [done|]. split; [|done]. rewrite !andb_true_iff, Z.eqb_eq in E. split; [done|]. split; [lia|auto].
  - rewrite (bind_Ok _ _ _ _ _ (eq_refl : (mret pid0 : M _ _) b = (Ok pid0, b))).
    assert (rq_Partition req = 0 → pr_Partition rec = 0 → False) as Hno.
    { intros Hq Hr. unfold pid0 in E. rewrite Hq, Hr in E. done. }
    destruct ((pid0 <? 0) || (n <=? pid0)) eqn:E'.
    + exists i, p'. split; [done|]. split; [|done]. apply orb_true_iff in E' as [E'%Z.ltb_lt|E'%Z.leb_le].
      all: split; [done|split; [|by auto]]; intros Hr; rewrite Hpid0 in E' by lia; lia.
    + rewrite orb_false_iff, Z.ltb_ge, Z.leb_gt in E'. exists pid0, (partitioner b).
      split; [by rewrite <- Hid|]. split; [|done]. split; [lia|]. split; [intros; apply Hpid0; lia|]. intros. by destruct Hno.
Qed.

Lemma maybeSoloHW_spec t p k b l recs :
  log_at b k = Some l → log_contents l recs →
  ∃ l', maybeSoloHW t p k b = (Ok tt, set_log k l' b) ∧ log_contents l' recs ∧ op_hw l ≤ op_hw l' ∧
    (op_hw l < op_hw l' → p_ISR <$> partition_meta b t p = Some [cfg_ID (cfg b)]).
Proof.
  intros Hl Hrecs. unfold maybeSoloHW, my_id.
  rewrite (bind_Ok _ _ _ _ _ (eq_refl : gets _ b = (Ok _, b))).
  rewrite (bind_Ok _ _ _ _ _ (eq_refl : gets _ b = (Ok _, b))).
  assert (∃ l', (mret tt : M (Broker L D) unit) b = (Ok tt, set_log k l' b) ∧ log_contents l' recs ∧ op_hw l ≤ op_hw l' ∧
    (op_hw l < op_hw l' → p_ISR <$> partition_meta b t p = Some [cfg_ID (cfg b)])) as Hsame.
  { exists l. rewrite set_log_id by done. split_and!; try done. lia. }
  destruct (partition_meta b t p) as [pm|]; [|exact Hsame].
  case_bool_decide as Hisr; [|exact Hsame].
  rewrite (bind_Ok _ _ _ _ _ (on_log_gets k op_leo _ _ Hl)), (on_log_modify _ _ _ _ Hl).
  destruct (log_set_hw (op_leo l) l recs Hrecs) as [Hrecs' Hhw].
  eexists. split; [done|]. split; [done|]. split; [lia|]. intros _. cbn. by rewrite Hisr.
Qed.

(** Only the log of one partition changes. *)
Lemma leading_frame b b' t n C pid l recs :
  0 < n < 2 ^ 32 → leading b t n C → 0 ≤ pid < n → partition_frame (store_key t pid) b b' →
  0 ≤ rr (partitioner b') < 2 ^ 64 →
  log_at b' (store_key t pid) = Some l → log_contents l recs → leading b' t n (upd C pid recs).
Proof.
  intros Hn [Hok Hcount Hlead Hlog Hrr] Hpid [Fcfg _ _ Flogs Fok Flead Fcount] Hrr' Hl Hrecs. split; try done.
  - auto.
  - by rewrite Fcount.
  - intros q Hq. rewrite Flead, Fcfg. by apply Hlead.
  - intros q Hq. unfold upd. destruct (Z.eqb_spec q pid) as [->|Hne]; [by exists l|].
    rewrite Flogs; [by apply Hlog|]. intros E. apply (f_equal ParseKey) in E.
    rewrite !ParseKey_store_key in E by lia. congruence.
Qed.

Lemma leading_ext b t n C C' : (∀ q, C q = C' q) → leading b t n C → leading b t n C'.
Proof. intros E [Hok Hcount Hlead Hlog Hrr]. split; try done. intros q Hq. rewrite <- E. by apply Hlog. Qed.

(** The partition picked is one of the topic's. *)
Lemma Partition_range key n q : 0 < n < 2 ^ 32 → ∃ i q', Partition key n q = (Ok i, q') ∧ 0 ≤ i < n.
Proof.
  intros Hn. unfold Partition. rewrite (proj2 (Z.leb_gt _ _)) by lia. destruct key as [|c key].
  - do 2 eexists. split; [done|]. unfold u64. rewrite (Z.mod_small n) by lia. apply Z.mod_pos_bound. lia.
  - unfold u32. rewrite (Z.mod_small n) by lia. rewrite (proj2 (Z.eqb_neq _ _)) by lia. do 2 eexists. split; [done|].
    apply Z.mod_pos_bound. lia.
Qed.

Lemma pick_partition_range req rec n b :
  0 < n < 2 ^ 32 → ∃ pid q, pick_partition req rec n b = (Ok pid, set_partitioner q b) ∧ 0 ≤ pid < n.
Proof.
  intros Hn. unfold pick_partition. cbv zeta.
  assert (∀ b, ∃ i q, on_partitioner (Partition (pr_Key rec) n) b = (Ok i, set_partitioner q b) ∧ 0 ≤ i < n) as Hon.
  { intros b1. unfold on_partitioner, zoom. destruct (Partition_range (pr_Key rec) n (partitioner b1) Hn) as (i & q & -> & Hi).
    by exists i, q. }
  assert (∀ pid b1, (∃ q, b1 = set_partitioner q b) →
    ∃ i q, (if (pid <? 0) || (n <=? pid) then on_partitioner (Partition (pr_Key rec) n) else mret pid) b1 =
      (Ok i, set_partitioner q b) ∧ 0 ≤ i < n) as Hlast.
  { intros pid b1 [q ->]. destruct (_ || _) eqn:E; [destruct (Hon (set_partitioner q b)) as (i & q' & -> & Hi); by exists i, q'|].
    exists pid, q. split; [done|]. apply orb_false_iff in E as [?%Z.ltb_ge ?%Z.leb_gt]. lia. }
  match goal with |- context[(if ?c then on_partitioner _ else mret ?x) ≫= _] => destruct c; [|set (pid := x)] end.
  - destruct (Hon b) as (i & q & Hrun & _). rewrite (bind_Ok _ _ _ _ _ Hrun). apply Hlast. by exists q.
  - rewrite (bind_Ok _ _ _ _ _ (eq_refl : (mret pid : M _ _) b = (Ok pid, b))). apply Hlast.
    exists (partitioner b). by destruct b.
Qed.

(** The record fits on disk. *)
Definition fits (ts : Z) (rec : ProduceRecord) : Prop :=
  is_i64 ts ∧ EncodedSize (new_record ts 0 rec) ≤ 8 + Z.shiftl 64 20.

(** Appending a record whose partition has been picked, on the leader of that
    partition: the log grows, and then the high watermark is looked at. *)
Lemma produce_append_split env req n rec b pid p' pm l recs :
  let k := store_key (rq_Topic req) pid in
  pick_partition req rec n b = (Ok pid, set_partitioner p' b) →
  fits (ce_ts env) rec → Zlength recs + 1 < 2 ^ 63 →
  partition_meta b (rq_Topic req) pid = Some pm → p_Leader pm = cfg_ID (cfg b) →
  log_at b k = Some l → log_contents l recs →
  ∃ b1 l1, produce_append env req n rec b =
      (c ← recomputeHW (ce_now env) (ce_disk_ok env) (rq_Topic req) pid; mret (pid, k, Zlength recs)) b1 ∧
    log_at b1 k = Some l1 ∧ log_contents l1 (recs ++ [new_record (ce_ts env) (Zlength recs) rec]) ∧ op_hw l1 = op_hw l ∧
    topics b1 = topics b ∧ partition_frame k b b1 ∧ partitioner b1 = p' ∧
    (∀ q id, id ≠ cfg_ID (cfg b) →
       replica_states b1 (rq_Topic req) q !! id = replica_states b (rq_Topic req) q !! id).
Proof.
  intros k Hpick [Hts Hsize] Hmax Hpm Hlead Hl Hrecs. set (t := rq_Topic req) in *.
  set (b1 := set_partitioner p' b) in *. set (r := new_record (ce_ts env) (Zlength recs) rec).
  pose proof (log_append (ce_ts env) (pr_Key rec) (pr_Value rec) l recs) as Happ. cbn zeta in Happ.
  assert (stamp (ce_ts env) (Rec (Zlength recs) (ce_ts env) (pr_Key rec) (pr_Value rec)) = r) as Hstamp.
  { unfold stamp, r, new_record. cbn. by case_match. }
  rewrite Hstamp in Happ. destruct Happ as (l2 & Hrun2 & Hrecs2 & Hhw2); [done| |done|].
  { split; [|by split]. cbn. unfold is_i64, Zlength in *. lia. }
  set (b2 := set_log k l2 b1). exists (noteSelfLEO (ce_now env) t pid (op_leo l2) b2), l2.
  split_and!; [|apply (log_at_set_log k l2 b1)|done|done|done| |done|].
  - unfold produce_append, my_id. rewrite (bind_Ok _ _ _ _ _ Hpick). fold t b1.
    rewrite (bind_Ok _ _ _ _ _ (eq_refl : gets (λ b, partition_meta b t pid) b1 = (Ok (partition_meta b t pid), b1))), Hpm.
    rewrite (bind_Ok _ _ _ _ _ (eq_refl : gets (λ b, cfg_ID (cfg b)) b1 = (Ok (cfg_ID (cfg b1)), b1))).
    rewrite (proj2 (Z.eqb_eq _ (cfg_ID (cfg b1))) Hlead). cbn [negb].
    rewrite (bind_Ok _ _ _ _ _ (on_store_open t pid b1 l Hl)).
    assert (on_log k (op_append (ce_ts env) (pr_Key rec) (pr_Value rec)) b1 = (Ok (Zlength recs), b2)) as Ha.
    { rewrite (on_log_run _ _ b1 l Hl), Hrun2. done. }
    fold k. rewrite (bind_Ok _ _ _ _ _ Ha).
    by rewrite (bind_Ok _ _ _ _ _ (on_log_gets k op_leo b2 l2 (log_at_set_log _ _ _))).
  - split; try done; [|by apply metadata_ok_same]. intros k' Hk. by apply (log_at_set_log_ne k k' l2 b1).
  - intros q id Hid. by apply (replica_states_note (ce_now env) t pid (cfg_ID (cfg b)) (op_leo l2) b2 q id).
Qed.

Lemma produce_append_run env req n rec b pid p' pm l recs :
  let k := store_key (rq_Topic req) pid in
  pick_partition req rec n b = (Ok pid, set_partitioner p' b) →
  fits (ce_ts env) rec → Zlength recs + 1 < 2 ^ 63 → metadata_ok b →
  partition_meta b (rq_Topic req) pid = Some pm → p_Leader pm = cfg_ID (cfg b) →
  log_at b k = Some l → log_contents l recs →
  ∃ b' l', produce_append env req n rec b = (Ok (pid, k, Zlength recs), b') ∧
    log_at b' k = Some l' ∧ log_contents l' (recs ++ [new_record (ce_ts env) (Zlength recs) rec]) ∧
    partition_frame k b b' ∧ partitioner b' = p' ∧
    (∀ q id, id ≠ cfg_ID (cfg b) →
       replica_states b' (rq_Topic req) q !! id = replica_states b (rq_Topic req) q !! id).
Proof.
  intros k Hpick Hfits Hmax Hok Hpm Hlead Hl Hrecs.
  destruct (produce_append_split env req n rec b pid p' pm l recs Hpick Hfits Hmax Hpm Hlead Hl Hrecs) as
    (b1 & l1 & Hrun & Hl1 & Hrecs1 & _ & Htopics & Hfr1 & Hpart1 & Hst1).
  assert (partition_meta b1 (rq_Topic req) pid = Some pm) as Hpm1 by (unfold partition_meta; by rewrite Htopics).
  assert (p_Leader pm = cfg_ID (cfg b1)) as Hlead1 by (by rewrite (fr_cfg _ _ _ Hfr1)).
  destruct (recomputeHW_spec (ce_now env) (ce_disk_ok env) (rq_Topic req) pid b1 pm l1 _
    (fr_ok _ _ _ Hfr1 Hok) Hpm1 Hlead1 Hl1 Hrecs1) as
    (changed & b4 & l4 & isr & Hrun4 & Hl4 & Hrecs4 & _ & _ & _ & Hfr4 & Hleo4 & Hpart4).
  exists b4, l4. split_and!; [|done|done| |congruence|].
  - by rewrite Hrun, (bind_Ok _ _ _ _ _ Hrun4).
  - eapply partition_frame_trans; [exact Hfr1|exact Hfr4].
  - intros q id Hid. rewrite <- Hst1 by done. unfold replica_states. by rewrite Hleo4.
Qed.

(** Without acks=all the answer follows at once. *)
Lemma produce_record_run env acks req n rec b pid p' pm l recs :
  let k := store_key (rq_Topic req) pid in
  pick_partition req rec n b = (Ok pid, set_partitioner p' b) →
  is_acks_all acks = false → fits (ce_ts env) rec → Zlength recs + 1 < 2 ^ 63 → metadata_ok b →
  partition_meta b (rq_Topic req) pid = Some pm → p_Leader pm = cfg_ID (cfg b) →
  log_at b k = Some l → log_contents l recs →
  ∃ b' l', produce_record env acks req n rec b = (Ok (MkProduceResult pid (Zlength recs)), b') ∧
    log_at b' k = Some l' ∧ log_contents l' (recs ++ [new_record (ce_ts env) (Zlength recs) rec]) ∧
    partition_frame k b b' ∧ partitioner b' = p' ∧
    (∀ q id, id ≠ cfg_ID (cfg b) →
       replica_states b' (rq_Topic req) q !! id = replica_states b (rq_Topic req) q !! id).
Proof.
  intros k Hpick Hacks Hfits Hmax Hok Hpm Hlead Hl Hrecs.
  destruct (produce_append_run env req n rec b pid p' pm l recs Hpick Hfits Hmax Hok Hpm Hlead Hl Hrecs) as
    (b4 & l4 & Hrun4 & Hl4 & Hrecs4 & Hfr4 & Hpart4 & Hst4).
  destruct (maybeSoloHW_spec (rq_Topic req) pid k b4 l4 _ Hl4 Hrecs4) as (l5 & Hrun5 & Hrecs5 & _).
  exists (set_log k l5 b4), l5. split_and!; [|apply log_at_set_log|done| |done|done].
  - unfold produce_record. rewrite (bind_Ok _ _ _ _ _ Hrun4). unfold answer_record. rewrite Hacks.
    by rewrite (bind_Ok _ _ _ _ _ Hrun5).
  - eapply partition_frame_trans; [exact Hfr4|apply partition_frame_set_log].
Qed.

(** The same for the leader of the whole topic. *)
Lemma produce_append_leading env req n rec b C :
  let t := rq_Topic req in
  0 < n < 2 ^ 32 → fits (ce_ts env) rec →
  (∀ pid, 0 ≤ pid < n → Zlength (C pid) + 1 < 2 ^ 63) → leading b t n C →
  ∃ pid b1, 0 ≤ pid < n ∧ routed req rec n pid ∧
    produce_append env req n rec b =
      (c ← recomputeHW (ce_now env) (ce_disk_ok env) t pid; mret (pid, store_key t pid, Zlength (C pid))) b1 ∧
    leading b1 t n (upd C pid (C pid ++ [new_record (ce_ts env) (Zlength (C pid)) rec])) ∧
    cfg b1 = cfg b ∧ topics b1 = topics b ∧
    (∀ q, 0 ≤ q < n → op_hw <$> log_at b1 (store_key t q) = op_hw <$> log_at b (store_key t q)) ∧
    (∀ q id, id ≠ cfg_ID (cfg b) → replica_states b1 t q !! id = replica_states b t q !! id).
Proof.
  intros t Hn Hfits Hmax Hb.
  destruct (pick_partition_spec req rec n b Hn (ld_rr _ _ _ _ Hb)) as (pid & p' & Hpick & Hroute & Hp').
  pose proof Hroute as [Hpid _]. destruct (ld_log _ _ _ _ Hb pid Hpid) as (l & Hl & Hrecs).
  pose proof (ld_leader _ _ _ _ Hb pid Hpid) as Hlead.
  destruct (partition_meta b t pid) as [pm|] eqn:Hpm; [|done]. injection Hlead as Hlead.
  destruct (produce_append_split env req n rec b pid p' pm l (C pid) Hpick Hfits (Hmax pid Hpid) Hpm Hlead Hl Hrecs) as
    (b1 & l1 & Hrun & Hl1 & Hrecs1 & Hhw & Htopics & Hfr & Hpart & Hst).
  exists pid, b1. do 3 (split; [done|]). split; [|split; [apply (fr_cfg _ _ _ Hfr)|split; [done|split; [|done]]]].
  - eapply leading_frame; [done|done|done|exact Hfr|by rewrite Hpart|done|done].
  - intros q Hq. destruct (decide (q = pid)) as [->|Hne]; [rewrite Hl; unfold t; rewrite Hl1; cbn; by rewrite Hhw|].
    rewrite (fr_logs _ _ _ Hfr); [done|]. intros E. apply (f_equal ParseKey) in E.
    rewrite !ParseKey_store_key in E by lia. congruence.
Qed.

Lemma produce_append_spec env req n rec b C :
  0 < n < 2 ^ 32 → fits (ce_ts env) rec →
  (∀ pid, 0 ≤ pid < n → Zlength (C pid) + 1 < 2 ^ 63) → leading b (rq_Topic req) n C →
  ∃ pid b', produce_append env req n rec b = (Ok (pid, store_key (rq_Topic req) pid, Zlength (C pid)), b') ∧
    routed req rec n pid ∧
    leading b' (rq_Topic req) n (upd C pid (C pid ++ [new_record (ce_ts env) (Zlength (C pid)) rec])) ∧
    cfg b' = cfg b ∧
    (∀ q id, id ≠ cfg_ID (cfg b) →
       replica_states b' (rq_Topic req) q !! id = replica_states b (rq_Topic req) q !! id).
Proof.
  intros Hn Hfits Hmax Hb.
  destruct (pick_partition_spec req rec n b Hn (ld_rr _ _ _ _ Hb)) as (pid & p' & Hpick & Hroute & Hp').
  pose proof Hroute as [Hpid _]. destruct (ld_log _ _ _ _ Hb pid Hpid) as (l & Hl & Hrecs).
  pose proof (ld_leader _ _ _ _ Hb pid Hpid) as Hlead.
  destruct (partition_meta b (rq_Topic req) pid) as [pm|] eqn:Hpm; [|done]. injection Hlead as Hlead.
  destruct (produce_append_run env req n rec b pid p' pm l (C pid) Hpick Hfits (Hmax pid Hpid)
    (ld_ok _ _ _ _ Hb) Hpm Hlead Hl Hrecs) as (b' & l' & Hrun & Hl' & Hrecs' & Hfr & Hpart & Hst).
  exists pid, b'. split_and!; [done|done| |apply (fr_cfg _ _ _ Hfr)|done].
  eapply leading_frame; [done|done|done|exact Hfr|by rewrite Hpart|done|done].
Qed.

Lemma maybeSoloHW_leading t n q b C :
  0 < n < 2 ^ 32 → 0 ≤ q < n → leading b t n C →
  ∃ b', maybeSoloHW t q (store_key t q) b = (Ok tt, b') ∧ leading b' t n C ∧ cfg b' = cfg b ∧
    replicaLEO b' = replicaLEO b.
Proof.
  intros Hn Hq Hb. destruct (ld_log _ _ _ _ Hb q Hq) as (l & Hl & Hrecs).
  destruct (maybeSoloHW_spec t q (store_key t q) b l (C q) Hl Hrecs) as (l' & Hrun & Hrecs' & _).
  eexists. split; [exact Hrun|]. split; [|done].
  eapply leading_ext; [|eapply leading_frame; [exact Hn|exact Hb|exact Hq|apply partition_frame_set_log| | |exact Hrecs']].
  - intros i. unfold upd. by destruct (Z.eqb_spec i q) as [->|].
  - apply (ld_rr _ _ _ _ Hb).
  - apply log_at_set_log.
Qed.

Lemma produce_record_spec env acks req n rec b C :
  0 < n < 2 ^ 32 → is_acks_all acks = false → fits (ce_ts env) rec →
  (∀ pid, 0 ≤ pid < n → Zlength (C pid) + 1 < 2 ^ 63) → leading b (rq_Topic req) n C →
  ∃ pid b', produce_record env acks req n rec b = (Ok (MkProduceResult pid (Zlength (C pid))), b') ∧
    routed req rec n pid ∧
    leading b' (rq_Topic req) n (upd C pid (C pid ++ [new_record (ce_ts env) (Zlength (C pid)) rec])) ∧
    cfg b' = cfg b ∧
    (∀ q id, id ≠ cfg_ID (cfg b) →
       replica_states b' (rq_Topic req) q !! id = replica_states b (rq_Topic req) q !! id).
Proof.
  intros Hn Hacks Hfits Hmax Hb.
  destruct (produce_append_spec env req n rec b C Hn Hfits Hmax Hb) as (pid & b1 & Hrun & Hroute & Hb1 & Hcfg & Hst).
  destruct (maybeSoloHW_leading (rq_Topic req) n pid b1 _ Hn (proj1 Hroute) Hb1) as (b2 & Hrun2 & Hb2 & Hcfg2 & Hleo).
  exists pid, b2. split_and!; [|done|done|by rewrite Hcfg2|].
  - unfold produce_record. rewrite (bind_Ok _ _ _ _ _ Hrun). unfold answer_record. rewrite Hacks.
    by rewrite (bind_Ok _ _ _ _ _ Hrun2).
  - intros q id Hid. rewrite <- Hst by done. unfold replica_states. by rewrite Hleo.
Qed.

Lemma produce_records_spec envs acks req n recs :
  0 < n < 2 ^ 32 → is_acks_all acks = false →
  ∀ i b C, (∀ j rec, recs !! j = Some rec → fits (ce_ts (envs (i + j)%nat)) rec) →
  (∀ pid, 0 ≤ pid < n → Zlength (C pid) + Zlength recs < 2 ^ 63) → leading b (rq_Topic req) n C →
  ∃ rs b' C', produce_records envs i acks req n recs b = (Ok rs, b') ∧
    produced (λ i, ce_ts (envs i)) req n i C recs rs C' ∧ leading b' (rq_Topic req) n C'.
Proof.
  intros Hn Hacks. induction recs as [|rec recs IH]; intros i b C Hfits Hmax Hb.
  { exists [], b, C. split; [done|]. split; [constructor|done]. }
  destruct (produce_record_spec (envs i) acks req n rec b C Hn Hacks) as
    (pid & b1 & Hrun & Hroute & Hb1 & _); [| |done|].
  - specialize (Hfits 0%nat rec eq_refl). by rewrite Nat.add_0_r in Hfits.
  - intros q Hq. specialize (Hmax q Hq). unfold Zlength in *. cbn [length] in Hmax. lia.
  - edestruct (IH (S i) b1) as (rs & b2 & C' & Hrun2 & Hprod & Hb2); [| |exact Hb1|].
    + intros j r Hj. specialize (Hfits (S j) r Hj). by rewrite <- Nat.add_succ_comm in Hfits.
    + intros q Hq. specialize (Hmax q Hq). unfold upd, Zlength in *. cbn [length] in Hmax.
      case_match eqn:E; [apply Z.eqb_eq in E as ->; rewrite length_app; cbn; lia|lia].
    + exists (MkProduceResult pid (Zlength (C pid)) :: rs), b2, C'. split; [|split; [|done]].
      * cbn [produce_records]. by rewrite (bind_Ok _ _ _ _ _ Hrun), (bind_Ok _ _ _ _ _ Hrun2).
      * by constructor.
Qed.

(** The records a request carries. *)
Definition request_records (req : ProduceRequest) : list ProduceRecord :=
  match rq_Records req with
  | [] => [MkProduceRecord (rq_Key req) (rq_Value req) (rq_Partition req)]
  | recs => recs
  end.

(** C13: a produce request with acks other than all, to the leader of the whole
    topic, whose records fit, succeeds: its records are appended in order, each at
    the end of the log of one partition, and the results name partition and offset
    of each; the partition is the one the record names, or, when neither it nor the
    request names one, the one its key hashes to; the other partitions keep their
    contents.  (With acks=all the wait for the high watermark may time out and the
    request fail with some of its records appended.) *)
Theorem produce_appends_every_record envs req n b C
    (Hn : 0 < n < 2 ^ 32) (Hacks : is_acks_all (rq_Acks req) = false)
    (Hfits : ∀ j rec, request_records req !! j = Some rec → fits (ce_ts (envs j)) rec)
    (Hmax : ∀ pid, 0 ≤ pid < n → Zlength (C pid) + Zlength (request_records req) < 2 ^ 63)
    (Hb : leading b (rq_Topic req) n C) :
  ∃ rs b' C', produceLocal envs req b = (Ok (MkProduceResponse (rq_Topic req) rs), b') ∧
    produced (λ i, ce_ts (envs i)) req n 0 C (request_records req) rs C' ∧ leading b' (rq_Topic req) n C'.
Proof.
  set (acks := if bool_decide (rq_Acks req = ""%string) then "1"%string else rq_Acks req).
  assert (is_acks_all acks = false) as Hacks' by (unfold acks; by case_bool_decide).
  destruct (produce_records_spec envs acks req n (request_records req) Hn Hacks' 0 b C Hfits Hmax Hb) as
    (rs & b' & C' & Hrun & Hprod & Hb').
  exists rs, b', C'. split; [|by split]. unfold produceLocal.
  rewrite (bind_Ok _ _ _ _ _ (eq_refl : gets _ b = (Ok _, b))). unfold topic.
  pose proof (ld_count _ _ _ _ Hb) as Hc. destruct (topics b !! rq_Topic req) as [tm|]; [|done].
  injection Hc as Hc. cbn in Hc. rewrite Hc, Z2Nat.id by lia. fold (request_records req) acks.
  by rewrite (bind_Ok _ _ _ _ _ Hrun).
Qed.
End batch.

(** A broker that leads both partitions of "orders". *)
Definition sole_leader : Broker (log * disk) disk :=
  set_log "orders/0" (sample_log, sample_disk) (set_log "orders/1" (start_state small_cfg)
    (set_topics {["orders"%string := MkTopic "orders" [MkPart 0 1 [1] [1]; MkPart 1 1 [1] [1]]]} (sample_broker 1))).

Lemma sole_leader_leads : leading sole_leader "orders" 2 (λ pid, if pid =? 0 then sample_records else []).
Proof.
  split; [|done| | |by cbn].
  - apply (metadata_ok_one _ (MkTopic "orders" [MkPart 0 1 [1] [1]; MkPart 1 1 [1] [1]])); [done|].
    split; [apply (bool_decide_unpack _); exact I|].
    apply Forall_cons_2; [|apply Forall_singleton]; apply part_ok_alone; apply (bool_decide_unpack _); exact I.
  - intros pid Hpid. assert (pid = 0 ∨ pid = 1) as [-> | ->] by lia; reflexivity.
  - intros pid Hpid. assert (pid = 0 ∨ pid = 1) as [-> | ->] by lia; cbn [Z.eqb].
    + exists (sample_log, sample_disk). split; [reflexivity|apply sample_holds].
    + exists (start_state small_cfg). split; [reflexivity|apply start_holds].
Qed.

Definition env_at (ts : Z) : nat → call_env (Broker (log * disk) disk) := λ _, CallEnv ts ts true [].

Lemma produce_appends_every_record_witness :
  let req := MkProduceRequest "orders" 0 [] [] "1" [MkProduceRecord [x61] [x01] 0; MkProduceRecord [] [x02] 1] in
  ∃ rs b' C', produceLocal (env_at 1000) req sole_leader = (Ok (MkProduceResponse "orders" rs), b') ∧
    produced (λ _, 1000) req 2 0 (λ pid, if pid =? 0 then sample_records else []) (request_records req) rs C' ∧
    leading b' "orders" 2 C'.
Proof.
  intros req. apply (produce_appends_every_record (env_at 1000) req 2 sole_leader).
  - lia.
  - reflexivity.
  - intros [|[|j]] rec Hrec; [injection Hrec as <-|injection Hrec as <-|discriminate].
    all: apply (bool_decide_unpack _); vm_compute; exact I.
  - intros pid Hpid. assert (pid = 0 ∨ pid = 1) as [-> | ->] by lia; reflexivity.
  - apply sole_leader_leads.
Defined.

(** A batch for several leaders is half appended: a broker that leads
    partition 0 but not 1 appends the first record of this batch and then
    refuses the batch with the leader of the second; the answer does not mention
    the record it has stored, so a client that retries stores it again. *)
Theorem batch_can_be_half_appended :
  let b := set_log "orders/0" (start_state small_cfg) (broker_with_topic 1) in
  let req := MkProduceRequest "orders" 0 [] [] "1" [MkProduceRecord [x61] [x01] 0; MkProduceRecord [x62] [x02] 1] in
  let '(r, b') := produceLocal (env_at 1000) req b in
  r = Err (ErrNotLeader 2) ∧
  log_records_at b' "orders/0" = Some (Ok [Rec 0 1000 [x61] [x01]]) ∧
  log_records_at (snd (produceLocal (env_at 1001) req b')) "orders/0" =
    Some (Ok [Rec 0 1000 [x61] [x01]; Rec 1 1001 [x61] [x01]]).
Proof. vm_compute. by split_and!. Qed.
