(* ===== verification/Handlers.v ===== *)
(** The HTTP handlers, [internal/broker/handlers.go], and the background tick of
    [broker.go], over any log.  A handler is given the decoded request and
    returns its answer; what it asks of other brokers is an argument. *)
From S2P Require Import Prelude GoStrings Bytes RecordFmt LogInterface Assignor Coordinator.
From S2P Require Import Partitioner Cluster Store Wire BrokerState Metadata Replica Produce.
Open Scope Z_scope.

(** ** Answers *)

Inductive create_answer :=
  | NameRequired            (* 400 *)
  | ControllerUnavailable   (* 503 *)
  | BadGateway              (* 502 *)
  | ForwardedCreate         (* 200 *)
  | TopicExists             (* 200 *)
  | TopicCreated.           (* 200 *)

Inductive produce_answer :=
  | Produced (resp : ProduceResponse)              (* 200 *)
  | ProduceNotLeader (leader : Z) (addr : string)  (* 409 *)
  | ProduceUnknown (name : string)                 (* 404 *)
  | ProduceFailed (e : goerr).                     (* 500 *)

(** A group request is answered here or proxied to the controller. *)
Inductive group_answer (A : Type) :=
  | Here (a : A)
  | Proxied (addr : string)
  | NoController.
Arguments Here {A}.
Arguments Proxied {A}.
Arguments NoController {A}.

Section handlers.
Context {L D : Type} `{LogOpener L D} `{LogOps L}.
Implicit Types b : Broker L D.

(** An operation that may panic; the flag asks for a metadata push. *)
Definition flagged (f : Broker L D → option (bool * Broker L D)) : M (Broker L D) bool := act $ λ b,
  match f b with
  | None => (Panicked, b)
  | Some (c, b') => (Ok c, b')
  end.

(** *** Topics *)

(** [forward]: the client's call to the controller. *)
Definition handleCreateTopic (now : Z) (disk_ok : bool) (forward : string → CreateTopicRequest → bool)
    (req : CreateTopicRequest) : M (Broker L D) create_answer :=
  let name := cr_Name req in
  if bool_decide (name = ""%string) then mret NameRequired else
  b ← gets id;
  if negb (IsController now (cluster b)) then
    let addr := peer_addr (ControllerID now (cluster b)) (cluster b) in
    if bool_decide (addr = ""%string) || bool_decide (addr = Advertise (cfg b)) then mret ControllerUnavailable
    else mret (if forward addr req then ForwardedCreate else BadGateway)
  else
  match topic b name with
  | Some _ => mret TopicExists
  | None => flagged (createTopic disk_ok name (cr_Partitions req) (cr_ReplicationFactor req));; mret TopicCreated
  end.

Definition partition_info b (name : string) (p : partitionMeta) : PartitionInfo :=
  let '(hw, leo) := match Get name (p_ID p) (store b) with
                    | Some l => (op_hw l, op_leo l)
                    | None => (0, 0)
                    end in
  MkPartitionInfo (p_ID p) (p_Leader p) (p_Replicas p) (p_ISR p) hw leo.

Definition publicMetadata (now : Z) b : Metadata := {|
  md_Controller := ControllerID now (cluster b);
  md_Brokers := (λ p, MkBrokerInfo (ID p) (Addr p) (IsAlive now (ID p) (cluster b))) <$> All (cluster b);
  md_Topics := (λ t, MkTopicInfo (t_Name t) (partition_info b (t_Name t) <$> t_Partitions t)) <$> snapshotTopics b
|}.

(** *** Producing *)

(** [inr]: the leader to proxy to, and its address. *)
Definition produce_or_proxy (env : nat → call_env (Broker L D)) (req : ProduceRequest) :
    M (Broker L D) (produce_answer + Z * string) :=
  r ← attempt (produceLocal env req);
  match r with
  | inl resp => mret (inl (Produced resp))
  | inr (ErrNotLeader leader) =>
    b ← gets id;
    let addr := peer_addr leader (cluster b) in
    mret (if negb (bool_decide (addr = ""%string)) && negb (bool_decide (addr = Advertise (cfg b)))
          then inr (leader, addr) else inl (ProduceNotLeader leader addr))
  | inr (ErrUnknownTopic name) => mret (inl (ProduceUnknown name))
  | inr e => mret (inl (ProduceFailed e))
  end.

(** The answer after the client's produce to the leader; [None] is an error. *)
Definition after_proxy (leader : Z) (addr : string) (r : option ProduceResponse) : produce_answer :=
  match r with
  | Some resp => Produced resp
  | None => ProduceNotLeader leader addr
  end.

Definition handleProduce (proxy : string → ProduceRequest → option ProduceResponse)
    (env : nat → call_env (Broker L D)) (req : ProduceRequest) : M (Broker L D) produce_answer :=
  r ← produce_or_proxy env req;
  mret match r with
       | inl a => a
       | inr (leader, addr) => after_proxy leader addr (proxy addr req)
       end.

(** *** Messages between brokers *)

(** Answers with the broker's id and controller. *)
Definition handlePeerHeartbeat (now : Z) (req : HeartbeatPeerRequest) : M (Broker L D) (Z * Z) :=
  modify (λ b, if negb (hp_BrokerID req =? 0) then set_cluster (MarkSeen now (hp_BrokerID req) (cluster b)) b else b);;
  gets (λ b, (cfg_ID (cfg b), ControllerID now (cluster b))).

(** Returns the follower loops it starts. *)
Definition handleMetadataPush (now : Z) (disk_ok : bool) (push : MetadataPush) b :
    list (string * Z * Z) * Broker L D :=
  syncFollowers (applyTopics now disk_ok (pushed_topics push) b).

Definition handleReplicaAck (now : Z) (disk_ok : bool) (ack : ReplicaAckRequest) : M (Broker L D) bool :=
  modify (noteReplica now (a_Topic ack) (a_Partition ack) (a_BrokerID ack) (a_LEO ack));;
  recomputeHW now disk_ok (a_Topic ack) (a_Partition ack).

(** *** Groups *)

Definition group_error_text (e : group_error) : string :=
  match e with
  | ErrUnknownMember => "unknown member"
  | ErrGenerationMismatch => "generation mismatch"
  | ErrRebalanceInProgress => "rebalance in progress"
  | ErrUnknownGroup => "unknown group"
  end.

(** A call on the coordinator, which sees the broker's topics. *)
Definition on_groups {A} (f : Coordinator → A * Coordinator) : M (Broker L D) A := act $ λ b,
  let c := coordinator b in
  let c := {| groups := groups c; offsets := offsets c; saved := saved c; sessionTimeout := sessionTimeout c;
              rebalanceWait := rebalanceWait c; partitionsOf := Some (topicPartitions b); hooked := hooked c |} in
  let '(a, c) := f c in (Ok a, set_coordinator c b).

Definition forwardGroup {A} (now : Z) (m : M (Broker L D) A) : M (Broker L D) (group_answer A) :=
  b ← gets id;
  if IsController now (cluster b) then a ← m; mret (Here a) else
  let addr := peer_addr (ControllerID now (cluster b)) (cluster b) in
  if bool_decide (addr = ""%string) then mret NoController else mret (Proxied addr).

Definition join_response (r : JoinResult) : JoinResponse :=
  MkJoinResponse (jr_MemberID r) (jr_Generation r) (jr_LeaderID r) (jr_Members r) (jr_State r).

Definition handleJoin (now : Z) (fresh group : string) (req : JoinRequest) : M (Broker L D) (group_answer JoinResponse) :=
  forwardGroup now (
    res ← on_groups (Join now fresh group (jq_MemberID req) (jq_Topics req));
    mret (join_response res)).

(** [inr]: the body of a [409]. *)
Definition handleSync (now : Z) (group : string) (req : SyncRequest) :
    M (Broker L D) (group_answer (SyncResponse + HeartbeatResponse)) :=
  forwardGroup now (
    r ← on_groups (Sync now group (sq_MemberID req) (sq_Generation req));
    let '(asg, gen, st) := r in
    mret match asg with
         | inr e => inr (MkHeartbeatResponse (group_error_text e) st)
         | inl asg => inl (MkSyncResponse gen asg st)
         end).

(** The flag: [200] and not [409]. *)
Definition handleHeartbeat (now : Z) (group : string) (req : HeartbeatRequest) :
    M (Broker L D) (group_answer (bool * HeartbeatResponse)) :=
  forwardGroup now (
    r ← on_groups (Heartbeat now group (hq_MemberID req) (hq_Generation req));
    let '(err, st) := r in
    mret match err with
         | Some e => (false, MkHeartbeatResponse (group_error_text e) st)
         | None => (true, MkHeartbeatResponse "" st)
         end).

Definition handleLeave (now : Z) (group : string) (req : LeaveRequest) : M (Broker L D) (group_answer unit) :=
  forwardGroup now (on_groups (λ c, (tt, Leave now group (lv_MemberID req) c))).

Fixpoint run_hooks (env : nat → nat → call_env (Broker L D)) (i : nat) (calls : list HookCall) : M (Broker L D) unit :=
  match calls with
  | [] => mret tt
  | c :: calls =>
    replicateOffset (env i) (hc_Group c) (hc_Topic c) (hc_Partition c) (hc_Offset c);;
    run_hooks env (S i) calls
  end.

(** The member and the generation in the request are not looked at.  The hooks
    run inside [Commit]; they do not touch the coordinator.  [false] is a [500]. *)
Definition handleCommitOffsets (now : Z) (disk_ok : bool) (env : nat → nat → call_env (Broker L D)) (group : string)
    (req : OffsetCommitRequest) : M (Broker L D) (group_answer bool) :=
  forwardGroup now (
    r ← on_groups (Commit disk_ok group
          ((λ o, Build_CommittedOffset (oc_Topic o) (oc_Partition o) (oc_Offset o)) <$> oq_Offsets req));
    run_hooks env 0 (snd r);;
    mret (fst r)).

Definition handleFetchOffsets (now : Z) (group topic : string) : M (Broker L D) (group_answer OffsetFetchResponse) :=
  forwardGroup now (
    offs ← on_groups (λ c, (FetchOffsets group topic c, c));
    mret (MkOffsetFetch ((λ o, MkOffsetCommit (co_Topic o) (co_Partition o) (co_Offset o)) <$> offs))).

Definition handleHealth (now : Z) b : Z * Z := (cfg_ID (cfg b), ControllerID now (cluster b)).

(** *** The background tick *)

(** [n] times. *)
Fixpoint times {S} (n : nat) (m : M S unit) : M S unit :=
  match n with
  | O => mret tt
  | Datatypes.S n => m;; times n m
  end.

(** [here] runs the broker's own calls; [heartbeats] are the messages to the
    peers and [broadcast] the push of the metadata, which the code runs at once
    for a change of leaders, and in the background for the offsets topic and once
    for every ISR that changed.
    Returns the follower loops it starts. *)
Definition tick_with {S} (here : ∀ A, M (Broker L D) A → M S A) (heartbeats broadcast : M S unit)
    (now : Z) (disk_ok : bool) : M S (list (string * Z * Z)) :=
  let push (changed : bool) := if changed then broadcast else mret tt in
  here unit (modify (λ b, set_cluster (MarkSeen now (cfg_ID (cfg b)) (cluster b)) b));;
  heartbeats;;
  here unit (on_groups (λ c, (tt, Expire now c)));;
  b ← here _ (gets id);
  (if IsController now (cluster b)
   then changed ← here bool (flagged (controllerTick now disk_ok));
        push changed;;
        created ← here bool (flagged (ensureOffsetsTopic disk_ok));
        push created
   else mret tt);;
  changed ← here nat (recomputeAllHW now disk_ok);
  times changed broadcast;;
  here _ (act (λ b, let '(started, b) := syncFollowers b in (Ok started, b))).

(** A tick as the broker itself sees it: what it sends only matters to others. *)
Definition tick (now : Z) (disk_ok : bool) : M (Broker L D) (list (string * Z * Z)) :=
  tick_with (λ A m, m) (mret tt) (mret tt) now disk_ok.
End handlers.
