(* ===== verification/Net.v ===== *)
(** Several brokers and the requests they send one another on behalf of a
    client: produce requests are proxied to the leader with the Go client, group
    requests to the controller. *)
From S2P Require Import Prelude GoStrings Bytes RecordFmt Disk CommitLog LogRep LogOpen LogRead LogInterface.
From S2P Require Import Assignor Coordinator Partitioner Cluster Store Wire BrokerState Metadata Client Replica Produce Handlers.
Open Scope Z_scope.

(** ** Requests *)

(** A group request: the answer, [503] or, when the controller cannot be
    reached, [502]. *)
Inductive group_reply (A : Type) :=
  | Answered (a : A)
  | Unavailable
  | Unreachable.
Arguments Answered {A}.
Arguments Unavailable {A}.
Arguments Unreachable {A}.

Section net.
Context {L D : Type} `{LogOpener L D} `{LogOps L}.

(** The running brokers by their address. *)
Abbreviation net := (gmap string (Broker L D)).

(** A call on the broker at an address; [None] when there is none. *)
Definition at_broker {A} (addr : string) (m : M (Broker L D) A) : M net (option A) := act $ λ w,
  match w !! addr with
  | None => (Ok None, w)
  | Some b =>
    let '(r, b') := m b in
    (match r with Ok a => Ok (Some a) | Err e => Err e | Panicked => Panicked | Diverged => Diverged end,
     <[addr := b']> w)
  end.

(** The text of an error that is neither of the broker's own. *)
Context (err_text : goerr → string).

Definition no_error : ErrorBody := MkErrorBody "" 0 "".

(** The status and body of an answer. *)
Definition produce_reply (a : produce_answer) : reply ProduceResponse :=
  match a with
  | Produced resp => MkReply 200 "" no_error (Some resp)
  | ProduceNotLeader leader addr => MkReply 409 "" (MkErrorBody "not_leader" leader addr) None
  | ProduceUnknown name => MkReply 404 "" (MkErrorBody ("unknown topic: " +:+ name) 0 "") None
  | ProduceFailed e => MkReply 500 "" (MkErrorBody (err_text e) 0 "") None
  end.

(** A produce request sent to the broker at [addr], which may proxy it with its
    client; [hops] bounds the nesting of proxied requests. *)
Fixpoint net_produce (hops : nat) (env : string → nat → call_env (Broker L D)) (req : ProduceRequest)
    (addr : string) : M net (option (reply ProduceResponse)) :=
  match hops with
  | O => diverge
  | S hops =>
    let req := json_request req in
    r ← at_broker addr (produce_or_proxy (env addr) req);
    match r with
    | None => mret None
    | Some (inl a) => mret (Some (produce_reply a))
    | Some (inr (leader, leader_addr)) =>
      r ← Client.Produce (net_produce hops env req) [] leader_addr;
      mret (Some (produce_reply (after_proxy leader leader_addr
        match r with inl resp => Some resp | inr _ => None end)))
    end
  end.

(** A group request sent to the broker at [addr]; [h] is its handler there. *)
Fixpoint net_group {A} (hops : nat) (h : string → M (Broker L D) (group_answer A)) (addr : string) :
    M net (group_reply A) :=
  match hops with
  | O => diverge
  | S hops =>
    r ← at_broker addr (h addr);
    match r with
    | None => mret Unreachable
    | Some (Here a) => mret (Answered a)
    | Some NoController => mret Unavailable
    | Some (Proxied addr) => net_group hops h addr
    end
  end.
End net.

(** ** Brokers that agree *)

Section agreement.
Context {L D : Type} `{LogOpener L D} `{LogLaws L}.
Implicit Types (w : gmap string (Broker L D)) (b : Broker L D).

(** All brokers have topic [t] with [n] partitions and [lead] leads them. *)
Record agreed w (t : string) (n : Z) (lead : Z → Z) : Prop := {
  ag_count addr b : w !! addr = Some b → length ∘ t_Partitions <$> topics b !! t = Some (Z.to_nat n);
  ag_leader addr b pid : w !! addr = Some b → 0 ≤ pid < n → p_Leader <$> partition_meta b t pid = Some (lead pid)
}.

(** Every broker knows the address of the leaders and is at the address it
    advertises. *)
Record addressed w (n : Z) (lead : Z → Z) (leader_at : Z → string) : Prop := {
  ad_leader addr b pid : w !! addr = Some b → 0 ≤ pid < n →
    peer_addr (lead pid) (cluster b) = leader_at pid ∧ leader_at pid ≠ ""%string;
  ad_self addr b pid : w !! addr = Some b → 0 ≤ pid < n →
    Advertise (cfg b) = addr ∧ (cfg_ID (cfg b) = lead pid ↔ addr = leader_at pid)
}.

Definition single (t : string) (key value : bytes) (acks : string) : ProduceRequest :=
  MkProduceRequest t 0 key value acks [].

Lemma produceLocal_single env t key value acks b n :
  length ∘ t_Partitions <$> topics b !! t = Some (Z.to_nat n) → 0 ≤ n →
  produceLocal env (single t key value acks) b =
    (r ← produce_record (env 0%nat) (if bool_decide (acks = ""%string) then "1"%string else acks)
           (single t key value acks) n (MkProduceRecord key value 0);
     mret (MkProduceResponse t [r])) b.
Proof.
  intros Hc Hn. unfold produceLocal. rewrite (bind_Ok _ _ _ _ _ (eq_refl : gets _ b = (Ok _, b))). unfold topic.
  cbn [rq_Topic single]. destruct (topics b !! t) as [tm|]; [|done]. injection Hc as Hc. cbn in Hc.
  rewrite Hc, Z2Nat.id by done. cbn [rq_Records single produce_records rq_Acks rq_Key rq_Value rq_Partition].
  unfold mbind, M_bind. by destruct (produce_record _ _ _ _ _ b) as [[] ?].
Qed.

Lemma pick_keyed t key value acks n b :
  0 < n < 2 ^ 32 → 0 ≤ rr (partitioner b) < 2 ^ 64 → key ≠ [] →
  ∃ p', pick_partition (single t key value acks) (MkProduceRecord key value 0) n b =
    (Ok (fnv32a key mod n), set_partitioner p' b) ∧ 0 ≤ fnv32a key mod n < n ∧ 0 ≤ rr p' < 2 ^ 64.
Proof.
  intros Hn Hp Hk.
  destruct (pick_partition_spec (single t key value acks) (MkProduceRecord key value 0) n b Hn Hp) as
    (pid & p' & Hrun & (Hpid & _ & Hkey) & Hp').
  rewrite (Hkey eq_refl eq_refl Hk) in *. by exists p'.
Qed.

(** A broker that does not lead the partition says who does. *)
Lemma produce_or_proxy_elsewhere env t key value acks n b lead addr :
  0 < n < 2 ^ 32 → 0 ≤ rr (partitioner b) < 2 ^ 64 → key ≠ [] →
  length ∘ t_Partitions <$> topics b !! t = Some (Z.to_nat n) →
  p_Leader <$> partition_meta b t (fnv32a key mod n) = Some lead → lead ≠ cfg_ID (cfg b) →
  peer_addr lead (cluster b) = addr → addr ≠ ""%string → addr ≠ Advertise (cfg b) →
  ∃ p', produce_or_proxy env (single t key value acks) b = (Ok (inr (lead, addr)), set_partitioner p' b).
Proof.
  intros Hn Hp Hk Hc Hlead Hne <- Haddr Hadv. destruct (pick_keyed t key value acks n b Hn Hp Hk) as (p' & Hpick & Hpid & _).
  exists p'. unfold produce_or_proxy.
  destruct (partition_meta b t (fnv32a key mod n)) as [pm|] eqn:Hpm; [|done]. injection Hlead as <-.
  assert (produceLocal env (single t key value acks) b = (Err (ErrNotLeader (p_Leader pm)), set_partitioner p' b)) as Hl.
  { rewrite (produceLocal_single _ _ _ _ _ _ n Hc) by lia. do 2 apply bind_Err. unfold produce_append, my_id.
    rewrite (bind_Ok _ _ _ _ _ Hpick).
    rewrite (bind_Ok _ _ _ _ _ (eq_refl : gets (λ b, partition_meta b t (fnv32a key mod n)) (set_partitioner p' b) =
      (Ok (partition_meta b t (fnv32a key mod n)), set_partitioner p' b))), Hpm.
    rewrite (bind_Ok _ _ _ _ _ (eq_refl : gets (λ b, cfg_ID (cfg b)) (set_partitioner p' b) =
      (Ok (cfg_ID (cfg b)), set_partitioner p' b))).
    by rewrite (proj2 (Z.eqb_neq _ _) Hne). }
  rewrite (bind_Ok _ _ _ _ _ (attempt_Err _ _ _ _ Hl)). cbv beta iota zeta.
  rewrite (bind_Ok _ _ _ _ _ (eq_refl : gets id (set_partitioner p' b) = (Ok (set_partitioner p' b), _))).
  change (cluster (set_partitioner p' b)) with (cluster b). change (cfg (set_partitioner p' b)) with (cfg b).
  by rewrite !bool_decide_false.
Qed.

(** The leader appends. *)
Lemma produce_or_proxy_here env t key value acks n b l recs :
  let pid := fnv32a key mod n in let k := store_key t pid in
  0 < n < 2 ^ 32 → 0 ≤ rr (partitioner b) < 2 ^ 64 → key ≠ [] → is_acks_all acks = false →
  metadata_ok b → length ∘ t_Partitions <$> topics b !! t = Some (Z.to_nat n) →
  p_Leader <$> partition_meta b t pid = Some (cfg_ID (cfg b)) →
  fits (ce_ts (env 0%nat)) (MkProduceRecord key value 0) → Zlength recs + 1 < 2 ^ 63 →
  log_at b k = Some l → log_contents l recs →
  ∃ b' l', produce_or_proxy env (single t key value acks) b =
      (Ok (inl (Produced (MkProduceResponse t [MkProduceResult pid (Zlength recs)]))), b') ∧
    log_at b' k = Some l' ∧ log_contents l' (recs ++ [Rec (Zlength recs) (ce_ts (env 0%nat)) key value]).
Proof.
  intros pid k Hn Hp Hk Hacks Hok Hc Hlead Hfits Hmax Hl Hrecs.
  destruct (pick_keyed t key value acks n b Hn Hp Hk) as (p' & Hpick & Hpid & _). fold pid in Hpick.
  destruct (partition_meta b t pid) as [pm|] eqn:Hpm; [|done]. injection Hlead as Hlead.
  destruct (produce_record_run (env 0%nat) (if bool_decide (acks = ""%string) then "1"%string else acks)
    (single t key value acks) n (MkProduceRecord key value 0) b pid p' pm l recs Hpick) as
    (b' & l' & Hrun & Hl' & Hrecs' & _); try done; [by case_bool_decide|].
  assert (produceLocal env (single t key value acks) b =
    (Ok (MkProduceResponse t [MkProduceResult pid (Zlength recs)]), b')) as Hlocal.
  { rewrite (produceLocal_single _ _ _ _ _ _ n Hc) by lia. by rewrite (bind_Ok _ _ _ _ _ Hrun). }
  exists b', l'. split; [|done]. unfold produce_or_proxy. by rewrite (bind_Ok _ _ _ _ _ (attempt_Ok _ _ _ _ Hlocal)).
Qed.

Lemma at_broker_run {A} addr (m : M (Broker L D) A) w b a b' :
  w !! addr = Some b → m b = (Ok a, b') → at_broker addr m w = (Ok (Some a), <[addr := b']> w).
Proof. intros Hw Hm. unfold at_broker, act. by rewrite Hw, Hm. Qed.

Lemma json_single t key value acks :
  valid_utf8 key = true → valid_utf8 value = true → json_request (single t key value acks) = single t key value acks.
Proof. intros Hk Hv. unfold json_request, single. cbn [rq_Topic rq_Partition rq_Key rq_Value rq_Acks rq_Records]. by rewrite !json_string_valid. Qed.

(** Whichever broker a client asks, a keyed record is appended once, by the
    leader of its partition, when the brokers agree on the leaders: the broker
    asked answers itself or proxies to the leader, two requests at most, and the
    answer names the partition and the offset. *)
Theorem keyed_produce_reaches_the_leader err_text hops env w t n lead leader_at addr key value acks pid b0 bl l recs
    (Hn : 0 < n < 2 ^ 32) (Hagree : agreed w t n lead) (Haddr : addressed w n lead leader_at)
    (Hpartitioners : ∀ addr b, w !! addr = Some b → 0 ≤ rr (partitioner b) < 2 ^ 64)
    (Hokl : ∀ bl, w !! leader_at pid = Some bl → metadata_ok bl) (Hpid : pid = fnv32a key mod n)
    (Hkey : key ≠ []) (Hutf : valid_utf8 key = true ∧ valid_utf8 value = true) (Hacks : is_acks_all acks = false)
    (Hb0 : w !! addr = Some b0) (Hbl : w !! leader_at pid = Some bl)
    (Hl : log_at bl (store_key t pid) = Some l) (Hrecs : log_contents l recs) (Hmax : Zlength recs + 1 < 2 ^ 63)
    (Hfits : fits (ce_ts (env (leader_at pid) 0%nat)) (MkProduceRecord key value 0)) :
  let resp := MkProduceResponse t [MkProduceResult pid (Zlength recs)] in
  ∃ w' bl' l', net_produce err_text (S (S hops)) env (single t key value acks) addr w =
      (Ok (Some (produce_reply err_text (Produced resp))), w') ∧
    w' !! leader_at pid = Some bl' ∧ log_at bl' (store_key t pid) = Some l' ∧
    log_contents l' (recs ++ [Rec (Zlength recs) (ce_ts (env (leader_at pid) 0%nat)) key value]) ∧
    (∀ a, a ≠ leader_at pid → store <$> w' !! a = store <$> w !! a).
Proof.
  intros resp. destruct Hutf as [Hk Hv].
  assert (0 ≤ pid < n) as Hp by (rewrite Hpid; apply Z.mod_pos_bound; lia).
  specialize (Hokl _ Hbl). pose proof (Hpartitioners _ _ Hbl) as Hrrl. pose proof (Hpartitioners _ _ Hb0) as Hrr0.
  pose proof (ag_count _ _ _ _ Hagree _ _ Hbl) as Hcl. pose proof (ag_count _ _ _ _ Hagree _ _ Hb0) as Hc0.
  pose proof (ag_leader _ _ _ _ Hagree _ _ pid Hbl Hp) as Hll.
  pose proof (ag_leader _ _ _ _ Hagree _ _ pid Hb0 Hp) as Hl0.
  destruct (ad_leader _ _ _ _ Haddr _ _ pid Hb0 Hp) as [Haddr0 Hne].
  destruct (ad_self _ _ _ _ Haddr _ _ pid Hbl Hp) as [_ Hself].
  assert (cfg_ID (cfg bl) = lead pid) as Hid by (by apply Hself).
  destruct (ad_self _ _ _ _ Haddr _ _ pid Hb0 Hp) as [Hadv Hself0].
  assert (∀ h w1, w1 !! leader_at pid = Some bl → ∃ bl' l',
    net_produce err_text (S h) env (single t key value acks) (leader_at pid) w1 =
      (Ok (Some (produce_reply err_text (Produced resp))), <[leader_at pid := bl']> w1) ∧
    log_at bl' (store_key t pid) = Some l' ∧
    log_contents l' (recs ++ [Rec (Zlength recs) (ce_ts (env (leader_at pid) 0%nat)) key value])) as Hhere.
  { intros h w1 Hw1. rewrite <- Hid in Hll. subst pid.
    destruct (produce_or_proxy_here (env (leader_at (fnv32a key mod n))) t key value acks n bl l recs) as
      (bl' & l' & Hrun & Hl' & Hrecs'); try done.
    exists bl', l'. split; [|done]. cbn [net_produce]. rewrite json_single by done.
    by rewrite (bind_Ok _ _ _ _ _ (at_broker_run _ _ _ _ _ _ Hw1 Hrun)). }
  destruct (decide (addr = leader_at pid)) as [->|Hother].
  - destruct (Hhere (S hops) w Hbl) as (bl' & l' & Hrun & Hl' & Hrecs'). exists (<[leader_at pid := bl']> w), bl', l'.
    split; [done|]. rewrite lookup_insert_eq. split_and!; try done. intros a Ha. by rewrite lookup_insert_ne.
  - destruct (produce_or_proxy_elsewhere (env addr) t key value acks n b0 (lead pid) (leader_at pid)) as (p' & Hrun);
      try done; [by rewrite <- Hpid|intros E; by apply Hother, Hself0|congruence|].
    set (w1 := <[addr := set_partitioner p' b0]> w).
    destruct (Hhere hops w1) as (bl' & l' & Hrun' & Hl' & Hrecs'); [by unfold w1; rewrite lookup_insert_ne|].
    exists (<[leader_at pid := bl']> w1), bl', l'. split; [|rewrite lookup_insert_eq; split_and!; try done].
    + remember (S hops) as h. cbn [net_produce]. rewrite json_single by done.
      rewrite (bind_Ok _ _ _ _ _ (at_broker_run _ _ _ _ _ _ Hb0 Hrun)).
      assert (Client.Produce (net_produce err_text h env (single t key value acks)) [] (leader_at pid) w1 =
        (Ok (inl resp), <[leader_at pid := bl']> w1)) as Hcli; [|by rewrite (bind_Ok _ _ _ _ _ Hcli)].
      unfold Client.Produce. rewrite bool_decide_false by done. cbn [Produce_loop].
      by rewrite (bind_Ok _ _ _ _ _ Hrun').
    + intros a Ha. rewrite lookup_insert_ne by done. unfold w1. destruct (decide (a = addr)) as [->|].
      * rewrite lookup_insert_eq, Hb0. done.
      * by rewrite lookup_insert_ne.
Qed.
End agreement.

(** ** Group requests *)

Section groups.
Context {L D : Type} `{LogOpener L D} `{LogOps L}.
Implicit Types (w : gmap string (Broker L D)) (b : Broker L D).

(** Brokers and addresses go together, and ids are not negative: the broker at [addr] is broker
    [id_at addr], and so is the peer that others know by that address. *)
Record named w (id_at : string → Z) : Prop := {
  nm_wf addr b : w !! addr = Some b → cluster_wf (cluster b);
  nm_self addr b : w !! addr = Some b → ID (Self (cluster b)) = id_at addr ∧ 0 ≤ id_at addr;
  nm_peer addr b id p : w !! addr = Some b → Peers (cluster b) !! id = Some p → Addr p ≠ ""%string →
    id_at (Addr p) = id ∧ 0 ≤ id
}.

Lemma at_broker_keeps {A} addr (m : M (Broker L D) A) w b a :
  w !! addr = Some b → m b = (Ok a, b) → at_broker addr m w = (Ok (Some a), w).
Proof. intros Hw Hm. rewrite (at_broker_run _ _ _ _ _ _ Hw Hm). by rewrite insert_id. Qed.

(** A broker that is not the controller proxies to a lower one, if it knows its
    address. *)
Lemma forwardGroup_elsewhere {A} now (m : M (Broker L D) A) b :
  cluster_wf (cluster b) → IsController now (cluster b) = false →
  ∃ r, forwardGroup now m b = (Ok r, b) ∧
    match r with
    | Here _ => False
    | NoController => True
    | Proxied addr => addr ≠ ""%string ∧
        ∃ id p, Peers (cluster b) !! id = Some p ∧ Addr p = addr ∧ id < ID (Self (cluster b))
    end.
Proof.
  intros Hwf Hc. unfold forwardGroup. rewrite (bind_Ok _ _ _ _ _ (eq_refl : gets id b = (Ok b, b))), Hc.
  case_bool_decide as E; (eexists; split; [reflexivity|]); [done|]. split; [done|].
  revert E. unfold peer_addr. destruct (Peers (cluster b) !! _) as [p|] eqn:Hp; [|done]. intros _.
  exists (ControllerID now (cluster b)), p. split_and!; [done|done|].
  pose proof (ControllerID_le_self now _ Hwf). unfold IsController in Hc. apply Z.eqb_neq in Hc. lia.
Qed.

Lemma forwardGroup_here {A} now (m : M (Broker L D) A) b a b' :
  IsController now (cluster b) = true → m b = (Ok a, b') → forwardGroup now m b = (Ok (Here a), b').
Proof.
  intros Hc Hm. unfold forwardGroup. rewrite (bind_Ok _ _ _ _ _ (eq_refl : gets id b = (Ok b, b))), Hc.
  by rewrite (bind_Ok _ _ _ _ _ Hm).
Qed.

(** C25: group requests are not proxied in circles. Whatever each broker believes
    about who is alive, and at whatever time each of them looks, a request is
    handled after at most as many hops as the id of the broker asked: every hop
    goes to a broker with a lower id, and it is answered, if it is, by one that
    considers itself the controller, the only one whose state changes. *)
Theorem group_requests_stop_at_a_controller {A} (now : string → Z) (m : string → M (Broker L D) A) id_at hops w addr b0
    (Hnamed : named w id_at) (Hb0 : w !! addr = Some b0) (Hhops : (Z.to_nat (id_at addr) < hops)%nat)
    (Hm : ∀ addr b, w !! addr = Some b → ∃ a b', m addr b = (Ok a, b')) :
  ∃ r w', net_group hops (λ addr, forwardGroup (now addr) (m addr)) addr w = (Ok r, w') ∧
    match r with
    | Answered a => ∃ addr' b b', w !! addr' = Some b ∧ id_at addr' ≤ id_at addr ∧
        IsController (now addr') (cluster b) = true ∧ m addr' b = (Ok a, b') ∧ w' = <[addr' := b']> w
    | _ => w' = w
    end.
Proof.
  revert addr b0 Hb0 Hhops. induction hops as [|hops IH]; intros addr b0 Hb0 Hhops; [lia|].
  destruct (nm_self _ _ Hnamed _ _ Hb0) as [Hid Hpos]. pose proof (nm_wf _ _ Hnamed _ _ Hb0) as Hwf.
  cbn [net_group]. destruct (IsController (now addr) (cluster b0)) eqn:Hc.
  - destruct (Hm addr b0 Hb0) as (a & b' & Hrun). exists (Answered a), (<[addr := b']> w).
    rewrite (bind_Ok _ _ _ _ _ (at_broker_run _ _ _ _ _ _ Hb0 (forwardGroup_here _ _ _ _ _ Hc Hrun))).
    split; [done|]. exists addr, b0, b'. split_and!; done || lia.
  - destruct (forwardGroup_elsewhere (now addr) (m addr) b0 Hwf Hc) as (r & Hrun & Hr).
    rewrite (bind_Ok _ _ _ _ _ (at_broker_keeps _ _ _ _ _ Hb0 Hrun)). destruct r as [?|addr'|]; [done| |by exists Unavailable, w].
    destruct Hr as (Hne & id & p & Hp & <- & Hlt). 
    destruct (nm_peer _ _ Hnamed _ _ _ _ Hb0 Hp Hne) as [Hid' Hpos'].
    destruct (w !! Addr p) as [b1|] eqn:Hb1.
    + destruct (IH (Addr p) b1 Hb1) as (r & w' & Hrun' & Hr); [lia|]. exists r, w'. split; [done|].
      destruct r as [a| |]; [|done..]. destruct Hr as (addr' & b & b' & ? & ? & ? & ? & ?). exists addr', b, b'.
      split_and!; done || lia.
    + destruct hops; [lia|]. exists Unreachable, w. split; [|done]. cbn [net_group].
      unfold at_broker, act, mbind, M_bind. by rewrite Hb1.
Qed.
End groups.

(** ** Sample brokers *)

(** Two brokers that agree that broker 1 leads the only partition. *)
Definition net_peers : list Peer := [{| ID := 1; Addr := "a:9092" |}; {| ID := 2; Addr := "b:9092" |}].
Definition net_broker (id leader : Z) (addr : string) : Broker (log * disk) disk :=
  set_log "orders/0" (start_state small_cfg)
    (MkBroker _ _ (with_defaults (MkConfig id "" addr "" net_peers 0 0 0 0 0 0 0 0 0))
      (Cluster.New 0 {| ID := id; Addr := addr |} net_peers 0) (Store.New "data" 0 1048576 4096 ∅)
      (Coordinator.New ∅ 0 0 None) {| rr := 0 |} {["orders"%string := MkTopic "orders" [MkPart 0 leader [1; 2] [1]]]}
      [] ∅ ∅).
Definition net_sample : gmap string (Broker (log * disk) disk) :=
  {["a:9092"%string := net_broker 1 1 "a:9092"; "b:9092"%string := net_broker 2 1 "b:9092"]}.

Lemma net_broker_ok id addr : metadata_ok (net_broker id 1 addr).
Proof.
  apply (metadata_ok_one _ (MkTopic "orders" [MkPart 0 1 [1; 2] [1]])); [done|].
  apply topic_ok_alone; apply (bool_decide_unpack _); exact I.
Qed.

Lemma net_sample_inv addr b :
  net_sample !! addr = Some b →
  (addr = "a:9092"%string ∧ b = net_broker 1 1 "a:9092") ∨ (addr = "b:9092"%string ∧ b = net_broker 2 1 "b:9092").
Proof.
  unfold net_sample. rewrite lookup_insert_Some, lookup_singleton_Some. intros [[<- <-]|(_ & <- & <-)]; auto.
Qed.

Lemma net_sample_agreed : agreed net_sample "orders" 1 (λ _, 1).
Proof.
  split.
  - intros addr b [[-> ->]|[-> ->]]%net_sample_inv; reflexivity.
  - intros addr b pid [[-> ->]|[-> ->]]%net_sample_inv Hp; assert (pid = 0) as -> by lia; by vm_compute.
Qed.

Lemma net_sample_addressed : addressed net_sample 1 (λ _, 1) (λ _, "a:9092"%string).
Proof. by split; intros addr b pid [[-> ->]|[-> ->]]%net_sample_inv _; vm_compute. Qed.

Definition net_env : string → nat → call_env (Broker (log * disk) disk) := λ _ _, CallEnv 1000 1000 true [].

Lemma keyed_produce_reaches_the_leader_witness :
  ∃ w', net_produce (λ _, ""%string) 2 net_env (single "orders" [x61] [x01] "1") "b:9092" net_sample =
    (Ok (Some (produce_reply (λ _, ""%string) (Produced (MkProduceResponse "orders" [MkProduceResult 0 0])))), w').
Proof.
  destruct (keyed_produce_reaches_the_leader (λ _, ""%string) 0 net_env net_sample "orders" 1 (λ _, 1)
    (λ _, "a:9092"%string) "b:9092" [x61] [x01] "1" 0 (net_broker 2 1 "b:9092") (net_broker 1 1 "a:9092")
    (start_state small_cfg) []) as (w' & _ & _ & Hrun & _);
    [done|apply net_sample_agreed|apply net_sample_addressed| | |reflexivity|done|done|done|reflexivity|reflexivity
    |reflexivity|apply start_holds|done|by vm_compute|].
  - intros addr b [[_ ->]|[_ ->]]%net_sample_inv; by vm_compute.
  - intros bl [[_ ->]|[_ ->]]%net_sample_inv; apply net_broker_ok.
  - by exists w'.
Defined.

(** Broker 2 has not heard from broker 1 and answers itself. *)
Lemma group_requests_stop_at_a_controller_witness :
  ∃ r w', net_group 3 (λ _, forwardGroup 1000 (on_groups (Heartbeat 1000 "g" "m" 0))) "b:9092" net_sample = (Ok r, w').
Proof.
  destruct (group_requests_stop_at_a_controller (λ _, 1000) (λ _, on_groups (Heartbeat 1000 "g" "m" 0))
    (λ a, if bool_decide (a = "a:9092"%string) then 1 else 2) 3 net_sample "b:9092" (net_broker 2 1 "b:9092"))
    as (r & w' & Hrun & _); [| |vm_compute; lia| |exists r, w'; exact Hrun].
  - split.
    + intros addr b [[-> ->]|[-> ->]]%net_sample_inv; apply New_wf.
    + intros addr b [[-> ->]|[-> ->]]%net_sample_inv; by vm_compute.
    + intros addr b id p Hb. assert (Peers (cluster b) = Peers (cluster (net_broker 1 1 "a:9092"))) as ->.
      { apply net_sample_inv in Hb as [[-> ->]|[-> ->]]; by vm_compute. }
      intros Hp _. assert (id = 1 ∨ id = 2) as Hid.
      { destruct (decide (id = 1)); [by left|]. destruct (decide (id = 2)); [by right|]. exfalso. revert Hp. cbn.
        rewrite !lookup_insert_ne by done. by rewrite lookup_empty. }
      destruct Hid as [-> | ->]; vm_compute in Hp; injection Hp as <-; by vm_compute.
  - by vm_compute.
  - intros addr b _. unfold on_groups, act. destruct (Heartbeat _ _ _ _ _) as [a c]. eauto.
Defined.

(** *** Two brokers that each take the other for the leader *)

Definition crossed : gmap string (Broker (log * disk) disk) :=
  {["a:9092"%string := net_broker 1 2 "a:9092"; "b:9092"%string := net_broker 2 1 "b:9092"]}.

(** C40: a produce request carries no mark that it was proxied. While two brokers
    each take the other for the leader of a partition, as they do when the push
    of a change of leader has reached only one, a request for it bounces between
    them as long as it is let. *)
Theorem produce_can_bounce_between_brokers hops addr (Haddr : is_Some (crossed !! addr)) :
  net_produce (λ _, ""%string) hops net_env (single "orders" [x61] [x01] "1") addr crossed = (Diverged, crossed).
Proof.
  revert addr Haddr. induction hops as [|hops IH]; intros addr [b Hb]; [done|].
  assert (∃ next, at_broker addr (produce_or_proxy (net_env addr) (json_request (single "orders" [x61] [x01] "1")))
    crossed = (Ok (Some (inr next)), crossed) ∧ is_Some (crossed !! next.2) ∧ next.2 ≠ ""%string) as Hstep.
  { revert Hb. unfold crossed at 1. rewrite lookup_insert_Some, lookup_singleton_Some.
    intros [[<- _]|(_ & <- & _)]; eexists (_, _); (split; [vm_compute; reflexivity|split; [by eexists|done]]). }
  destruct Hstep as ([l next] & Hrun & Hnext & Hne). cbn [net_produce].
  rewrite (bind_Ok _ _ _ _ _ Hrun). unfold Client.Produce. rewrite bool_decide_false by done.
  cbn [Produce_loop]. unfold mbind at 1 2, M_bind. rewrite json_single by done. by rewrite (IH next Hnext).
Qed.

Lemma produce_can_bounce_between_brokers_witness :
  net_produce (λ _, ""%string) 100 net_env (single "orders" [x61] [x01] "1") "a:9092" crossed = (Diverged, crossed).
Proof. apply (produce_can_bounce_between_brokers 100 "a:9092"). by eexists. Defined.
