(* ===== verification/Follow.v ===== *)
(** The follower loop, [followLoop] of [internal/broker/replica.go], on a net of
    brokers: rounds of fetch, append and ack until the copy is complete, and the
    leader's high watermark with it. *)
From S2P Require Import Prelude GoStrings Bytes RecordFmt Disk CommitLog LogRep LogOpen LogRead LogInterface.
From S2P Require Import Assignor Coordinator Partitioner Cluster Store Wire BrokerState Metadata Client Replica Produce Handlers Net.
Open Scope Z_scope.

(** ** The loop *)

(** What one iteration meets: what others did to the brokers since the last one,
    whether the loop is told to stop, at its top or in the pause after an empty
    answer, the clocks of the follower and the leader, and whether the leader can
    write [topics.json]. *)
Record iteration (N : Type) := Iter {
  it_between : N → N;
  it_stop : bool;
  it_stop_pause : bool;
  it_now : Z;
  it_leader_now : Z;
  it_disk_ok : bool
}.
Arguments it_between {N}.
Arguments it_stop {N}.
Arguments it_stop_pause {N}.
Arguments it_now {N}.
Arguments it_leader_now {N}.
Arguments it_disk_ok {N}.

(** [Later]: no address or a failed fetch, after which the loop sleeps. *)
Inductive round := Ended | Later | Fetched_records (n : nat).

Section loop.
Context {L D : Type} `{LogOpener L D} `{LogOps L} (err_text : goerr → string).

Abbreviation net := (gmap string (Broker L D)).

Definition fetch_reply (a : fetch_answer) : reply FetchResponse :=
  match a with
  | Fetched fr => MkReply 200 "" no_error (Some (json_fetch fr))
  | FetchNotLeader leader addr => MkReply 409 "" (MkErrorBody "not_leader" leader addr) None
  | FetchUnknown => MkReply 404 "" (MkErrorBody "unknown topic/partition" 0 "") None
  | FetchFailed e => MkReply 500 "" (MkErrorBody (err_text e) 0 "") None
  end.

(** A replica's fetch is never proxied. *)
Definition ReplicaFetch (addr topic : string) (partition offset : Z) : M net (FetchResponse + client_error) :=
  Client.Fetch (λ addr,
    r ← at_broker addr (serveFetch (λ _ _ _ _ _, None) topic partition offset (Z.shiftl 1 20) true);
    mret (fetch_reply <$> r)) [] addr.

Definition ReplicaAck (now : Z) (disk_ok : bool) (addr : string) (ack : ReplicaAckRequest) : M net bool :=
  delivered (λ addr,
    r ← at_broker addr (handleReplicaAck now disk_ok ack);
    mret ((λ _, MkReply 200 "" no_error (Some tt)) <$> r)) addr.

(** One iteration, from the look at the metadata to the ack; [me] is the
    follower's own address. *)
Definition follow_round (e : iteration net) (me topic : string) (partition : Z) : M net round :=
  r ← at_broker me (follow_request topic partition);
  match r with
  | None | Some None => mret Ended
  | Some (Some None) => mret Later
  | Some (Some (Some (addr, leo))) =>
    fr ← ReplicaFetch addr topic partition leo;
    match fr with
    | inr _ => mret Later
    | inl fr =>
      ack ← at_broker me (follow_reply (it_now e) topic partition fr);
      match ack with
      | None => mret Ended
      | Some ack =>
        ReplicaAck (it_leader_now e) (it_disk_ok e) addr ack;;
        mret (Fetched_records (length (f_Records fr)))
      end
    end
  end.

(** [true]: the loop has ended; [false]: it goes on. *)
Fixpoint follow_rounds (env : list (iteration net)) (me topic : string) (partition : Z) : M net bool :=
  match env with
  | [] => mret false
  | e :: env =>
    modify (it_between e);;
    if it_stop e then mret true else
    r ← follow_round e me topic partition;
    match r with
    | Ended => mret true
    | Fetched_records O => if it_stop_pause e then mret true else follow_rounds env me topic partition
    | _ => follow_rounds env me topic partition
    end
  end.

Definition followLoop (env : list (iteration net)) (me topic : string) (partition : Z) : M net bool :=
  r ← at_broker me (attempt (on_store (store_Open topic partition)));
  match r with
  | Some (inl _) => follow_rounds env me topic partition
  | _ => mret true
  end.
End loop.

Section rounds.
Context {L D : Type} `{LogOpener L D} `{LogOps L} (err_text : goerr → string).
Implicit Types w : gmap string (Broker L D).

(** An iteration that is not told to stop. *)
Lemma follow_rounds_cons e env me t p w n w' :
  it_stop e = false → it_stop_pause e = false →
  follow_round err_text e me t p (it_between e w) = (Ok (Fetched_records n), w') →
  follow_rounds err_text (e :: env) me t p w = follow_rounds err_text env me t p w'.
Proof.
  intros Hstop Hpause Hrun. cbn [follow_rounds].
  rewrite (bind_Ok _ _ _ _ _ (eq_refl : modify (it_between e) w = (Ok tt, it_between e w))), Hstop.
  rewrite (bind_Ok _ _ _ _ _ Hrun), Hpause. by destruct n.
Qed.

End rounds.

(** ** Catching up *)

Section catching_up.
Context {L D : Type} `{LogOpener L D} `{LogLaws L}.
Implicit Types (b : Broker L D) (w : gmap string (Broker L D)).
Context (err_text : goerr → string) (t : string) (p : Z) (la fa : string) (all : list record).
#[local] Abbreviation k := (store_key t p).

(** [b] leads the partition, whose records are [all]. *)
Record leads_with b : Prop := {
  lw_ok : metadata_ok b;
  lw_meta : p_Leader <$> partition_meta b t p = Some (cfg_ID (cfg b));
  lw_log : ∃ l, log_at b k = Some l ∧ log_contents l all
}.

(** [b] is a replica, has [recs] in its log and takes the broker at [la] for the
    leader. *)
Record follows_with b (recs : list record) : Prop := {
  fw_meta : ∃ pm, partition_meta b t p = Some pm ∧ p_Leader pm ≠ cfg_ID (cfg b) ∧
    cfg_ID (cfg b) ∈ p_Replicas pm ∧ peer_addr (p_Leader pm) (cluster b) = la;
  fw_log : ∃ l, log_at b k = Some l ∧ log_contents l recs
}.

(** Every replica the leader [bl] knows of, but [bf], has acked everything. *)
Definition others_done (bl bf : Broker L D) : Prop :=
  ∀ id st, replica_states bl t p !! id = Some st → id ≠ cfg_ID (cfg bl) → id ≠ cfg_ID (cfg bf) → Zlength all ≤ r_leo st.

(** Between the iterations nobody touches the two brokers, and the loop is not
    told to stop. *)
Definition quiet (e : iteration (gmap string (Broker L D))) : Prop :=
  it_stop e = false ∧ it_stop_pause e = false ∧ ∀ w, it_between e w !! la = w !! la ∧ it_between e w !! fa = w !! fa.

Lemma follow_request_runs b recs :
  follows_with b recs → la ≠ ""%string → follow_request t p b = (Ok (Some (Some (la, Zlength recs))), b).
Proof.
  intros [(pm & Hpm & Hne & Hin & Haddr) (l & Hl & Hrecs)] Hla. unfold follow_request.
  rewrite (bind_Ok _ _ _ _ _ (eq_refl : gets id b = (Ok b, b))), Hpm.
  rewrite (proj2 (Z.eqb_neq _ _) Hne), (proj2 (contains_spec _ _) Hin). cbn [negb orb]. cbv zeta.
  rewrite Haddr, bool_decide_false by done.
  rewrite (bind_Ok _ _ _ _ _ (on_log_gets k op_leo _ _ Hl)). by rewrite (log_leo _ _ Hrecs).
Qed.

Lemma follows_with_log b l' recs recs' :
  follows_with b recs → log_contents l' recs' → follows_with (set_log k l' b) recs'.
Proof.
  intros [Hpm _] Hl'. split; [exact Hpm|]. exists l'. split; [apply log_at_set_log|done].
Qed.

(** The high watermark of the partition is at least [h]. *)
Definition hw_from (h : Z) b : Prop := ∃ l, log_at b k = Some l ∧ h ≤ op_hw l.

(** The leader takes the follower's ack. *)
Lemma ack_runs now disk_ok b id n :
  leads_with b →
  ∃ c b' l, handleReplicaAck now disk_ok (MkAck id t p n) b = (Ok c, b') ∧ leads_with b' ∧
    cfg b' = cfg b ∧ log_at b' k = Some l ∧ (∀ h, hw_from h b → hw_from h b') ∧
    (∀ i, replica_states b' t p !! i = if decide (i = id) then Some (MkReplica n now) else replica_states b t p !! i) ∧
    ((∀ i st, replica_states b' t p !! i = Some st → i ≠ cfg_ID (cfg b) → Zlength all ≤ r_leo st) →
       op_hw l = Zlength all).
Proof.
  intros [Hok Hlead (l & Hl & Hrecs)]. set (b1 := noteReplica now t p id n b).
  destruct (partition_meta b t p) as [pm|] eqn:Hpm; [|done]. injection Hlead as Hlead.
  destruct (recomputeHW_spec now disk_ok t p b1 pm l all) as
    (c & b' & l' & isr & Hrun & Hl' & Hrecs' & Hhw & Hpm' & _ & Hfr & Hleo & _); [by apply (metadata_ok_same b)|done..|].
  exists c, b', l'.
  assert (∀ i, replica_states b' t p !! i =
    if decide (i = id) then Some (MkReplica n now) else replica_states b t p !! i) as Hst.
  { intros i. assert (replica_states b' t p = replica_states b1 t p) as -> by (unfold replica_states; by rewrite Hleo).
    unfold b1. case_decide as E; [subst; apply replica_states_note_eq|by apply replica_states_note]. }
  split_and!; [|split| |done| |exact Hst|].
  - unfold handleReplicaAck. cbn [a_Topic a_Partition a_BrokerID a_LEO].
    by rewrite (bind_Ok _ _ _ _ _ (eq_refl : modify (noteReplica now t p id n) b = (Ok tt, b1))).
  - apply (fr_ok _ _ _ Hfr). by apply (metadata_ok_same b).
  - rewrite Hpm', (fr_cfg _ _ _ Hfr). cbn. by rewrite Hlead.
  - by exists l'.
  - apply (fr_cfg _ _ _ Hfr).
  - intros h (l0 & Hl0 & Hh). rewrite Hl in Hl0. injection Hl0 as <-. exists l'. split; [done|]. lia.
  - intros Hall. pose proof (log_hw _ _ Hrecs') as Hb. rewrite Hhw in *.
    destruct (isr_hw_spec (cfg_ID (cfg b1)) (replica_states b1 t p)
      (current_isr now b1 (replica_states b1 t p) (p_Replicas pm)) (Zlength all)) as (_ & _ & Hge).
    assert (replica_states b' t p = replica_states b1 t p) as E by (unfold replica_states; by rewrite Hleo).
    rewrite E in Hall. assert (Zlength all ≤ isr_hw (cfg_ID (cfg b1)) (replica_states b1 t p)
      (current_isr now b1 (replica_states b1 t p) (p_Replicas pm)) (Zlength all)); [|lia].
    apply Hge; [done|]. intros i st _ Hi Hist. by eapply Hall.
Qed.

(** One round, given what the leader answers and what the follower makes of it. *)
Lemma follow_round_run e w bl bf bf' recs fr n :
  w !! la = Some bl → w !! fa = Some bf → la ≠ fa → la ≠ ""%string → leads_with bl → follows_with bf recs →
  serveFetch (λ _ _ _ _ _, None) t p (Zlength recs) (Z.shiftl 1 20) true bl = (Ok (Fetched fr), bl) →
  follow_reply (it_now e) t p (json_fetch fr) bf = (Ok (MkAck (cfg_ID (cfg bf)) t p n), bf') →
  ∃ bl' l, follow_round err_text e fa t p w = (Ok (Fetched_records (length (f_Records fr))), <[la := bl']> (<[fa := bf']> w)) ∧
    leads_with bl' ∧ log_at bl' k = Some l ∧ (∀ h, hw_from h bl → hw_from h bl') ∧
    (others_done bl bf → others_done bl' bf ∧ (n = Zlength all → op_hw l = Zlength all)).
Proof.
  intros Hwl Hwf Hne Hla Hl Hf Hfetch Hreply. set (w1 := <[fa := bf']> w).
  destruct (ack_runs (it_leader_now e) (it_disk_ok e) bl (cfg_ID (cfg bf)) n Hl) as
    (c & bl' & l & Hack & Hl' & Hcfg & Hll & Hkeep & Hst & Hhw).
  assert (w1 !! la = Some bl) as Hw1 by (unfold w1; by rewrite lookup_insert_ne).
  exists bl', l. split; [|split; [done|split; [done|split; [done|]]]].
  - unfold follow_round. rewrite (bind_Ok _ _ _ _ _ (at_broker_keeps _ _ _ _ _ Hwf (follow_request_runs bf recs Hf Hla))).
    assert (ReplicaFetch err_text la t p (Zlength recs) w = (Ok (inl (json_fetch fr)), w)) as Hcli.
    { unfold ReplicaFetch, Client.Fetch. rewrite bool_decide_false by done.
      by rewrite (bind_Ok _ _ _ _ _ (bind_Ok _ _ _ _ _ (at_broker_keeps _ _ _ _ _ Hwl Hfetch))). }
    rewrite (bind_Ok _ _ _ _ _ Hcli), (bind_Ok _ _ _ _ _ (at_broker_run _ _ _ _ _ _ Hwf Hreply)). fold w1.
    assert (ReplicaAck (it_leader_now e) (it_disk_ok e) la (MkAck (cfg_ID (cfg bf)) t p n) w1 =
      (Ok true, <[la := bl']> w1)) as Hd.
    { unfold ReplicaAck, delivered.
      by rewrite (bind_Ok _ _ _ _ _ (bind_Ok _ _ _ _ _ (at_broker_run _ _ _ _ _ _ Hw1 Hack))). }
    rewrite (bind_Ok _ _ _ _ _ Hd). unfold json_fetch. cbn [f_Records]. by rewrite length_fmap.
  - intros Ho. split.
    + intros i st. rewrite Hst, Hcfg. intros Hi Hi1 Hi2. rewrite decide_False in Hi by done. by eapply Ho.
    + intros ->. apply Hhw. intros i st. rewrite Hst. case_decide; [by intros [= <-]; cbn; lia|].
      intros Hi Hi1. by eapply Ho.
Qed.

(** The copy grows; once it is complete and the others are done, the high watermark
    is the log end. *)
Lemma follow_round_progress e w bl bf recs :
  w !! la = Some bl → w !! fa = Some bf → la ≠ fa → la ≠ ""%string → replicable all →
  leads_with bl → follows_with bf recs → recs `prefix_of` all →
  ∃ n bl' bf' recs' l, follow_round err_text e fa t p w = (Ok (Fetched_records n), <[la := bl']> (<[fa := bf']> w)) ∧
    leads_with bl' ∧ follows_with bf' recs' ∧
    recs `prefix_of` recs' ∧ recs' `prefix_of` all ∧ (Zlength recs < Zlength all → Zlength recs < Zlength recs') ∧
    log_at bl' k = Some l ∧
    (others_done bl bf → others_done bl' bf' ∧ (Zlength recs' = Zlength all → op_hw l = Zlength all)).
Proof.
  intros Hwl Hwf Hne Hla Hrep Hl Hf Hpre.
  destruct (fw_log _ _ Hf) as (copy & Hcopy & Hrecs). destruct (lw_log _ Hl) as (lead & Hlead & Hall).
  pose proof (lw_meta _ Hl) as Hm. destruct (partition_meta bl t p) as [pm|] eqn:Hpm; [|done]. injection Hm as Hpl.
  destruct (replication_round (λ _ _ _ _ _, None) t p bl pm lead all copy recs Hpm Hpl Hlead Hall Hrep Hrecs Hpre)
    as (fr & Hfetch & Hround). rewrite (log_leo _ _ Hrecs) in Hfetch.
  destruct (Hround (it_now e) bf Hcopy) as (copy' & recs' & Hreply & Hrecs' & Hp1 & Hp2 & Hprog).
  destruct (follow_round_run e w bl bf _ recs fr _ Hwl Hwf Hne Hla Hl Hf Hfetch Hreply) as (bl' & l & Hrun & Hl' & Hll & _ & Hend).
  exists (length (f_Records fr)), bl', (set_log k copy' bf), recs', l. split_and!; try done.
  by apply (follows_with_log bf copy' recs).
Qed.

(** A follower whose log is no shorter than the leader's copies nothing. *)
Lemma follow_round_idle e w bl bf recs :
  w !! la = Some bl → w !! fa = Some bf → la ≠ fa → la ≠ ""%string →
  leads_with bl → follows_with bf recs → Zlength all ≤ Zlength recs →
  ∃ bl' bf', follow_round err_text e fa t p w = (Ok (Fetched_records 0), <[la := bl']> (<[fa := bf']> w)) ∧
    leads_with bl' ∧ follows_with bf' recs ∧ (∀ h, hw_from h bl → hw_from h bl').
Proof.
  intros Hwl Hwf Hne Hla Hl Hf Hlen.
  destruct (fw_log _ _ Hf) as (copy & Hcopy & Hrecs). destruct (lw_log _ Hl) as (lead & Hlead & Hall).
  pose proof (lw_meta _ Hl) as Hm. destruct (partition_meta bl t p) as [pm|] eqn:Hpm; [|done]. injection Hm as Hpl.
  destruct (serveFetch_spec (λ _ _ _ _ _, None) t p (Zlength recs) (Z.shiftl 1 20) true bl pm lead all Hpm Hpl Hlead Hall)
    as (out & Hfetch & _ & Hout & _); [unfold Zlength; lia|].
  assert (out = []) as ->.
  { destruct out as [|r out]; [done|]. apply Forall_cons in Hout as [Hr _]. cbn in Hr. lia. }
  set (fr := MkFetch _ _ _ _ _) in *. set (copy' := op_set_hw (f_HighWatermark fr) copy).
  destruct (log_set_hw (f_HighWatermark fr) copy recs Hrecs) as [Hrecs' _]. fold copy' in Hrecs'.
  assert (follow_reply (it_now e) t p (json_fetch fr) bf =
    (Ok (MkAck (cfg_ID (cfg bf)) t p (Zlength recs)), set_log k copy' bf)) as Hreply.
  { unfold follow_reply. cbn [fr json_fetch f_Records toWire fmap list_fmap follow_records].
    rewrite (bind_Ok _ _ _ _ _ (eq_refl : (mret tt : M _ _) bf = (Ok tt, bf))).
    rewrite (bind_Ok _ _ _ _ _ (on_log_modify k _ bf copy Hcopy)). fold copy'.
    rewrite (bind_Ok _ _ _ _ _ (on_log_gets k op_leo _ _ (log_at_set_log k copy' bf))). by rewrite (log_leo _ _ Hrecs'). }
  destruct (follow_round_run e w bl bf _ recs fr _ Hwl Hwf Hne Hla Hl Hf Hfetch Hreply) as (bl' & l & Hrun & Hl' & _ & Hkeep & _).
  exists bl', (set_log k copy' bf). split_and!; [exact Hrun|done| |done]. by apply (follows_with_log bf copy' recs).
Qed.

Lemma follow_rounds_idle env w bl bf recs :
  w !! la = Some bl → w !! fa = Some bf → la ≠ fa → la ≠ ""%string →
  leads_with bl → follows_with bf recs → Zlength all ≤ Zlength recs → Forall quiet env →
  ∃ w' bl' bf', follow_rounds err_text env fa t p w = (Ok false, w') ∧
    w' !! la = Some bl' ∧ w' !! fa = Some bf' ∧ leads_with bl' ∧ follows_with bf' recs ∧
    (∀ h, hw_from h bl → hw_from h bl').
Proof.
  intros Hwl Hwf Hne Hla Hl Hf Hlen Henv. revert w bl bf Hwl Hwf Hl Hf.
  induction Henv as [|e env (Hstop & Hpause & Hq) Henv IH]; intros w bl bf Hwl Hwf Hl Hf; [by exists w, bl, bf|].
  destruct (Hq w) as [Hql Hqf]. rewrite <- Hql in Hwl. rewrite <- Hqf in Hwf.
  destruct (follow_round_idle e _ bl bf recs Hwl Hwf Hne Hla Hl Hf Hlen) as (bl' & bf' & Hrun & Hl' & Hf' & Hkeep).
  rewrite (follow_rounds_cons err_text e env fa t p w 0 _ Hstop Hpause Hrun).
  destruct (IH (<[la := bl']> (<[fa := bf']> (it_between e w))) bl' bf') as (w' & bl2 & bf2 & ? & ? & ? & ? & ? & ?);
    [apply lookup_insert_eq|by rewrite lookup_insert_ne, lookup_insert_eq by done|done..|].
  exists w', bl2, bf2. split_and!; auto.
Qed.

Lemma follow_rounds_run env w bl bf recs :
  w !! la = Some bl → w !! fa = Some bf → la ≠ fa → la ≠ ""%string → replicable all →
  leads_with bl → follows_with bf recs → recs `prefix_of` all →
  Forall quiet env → Zlength all - Zlength recs < Zlength env →
  ∃ w' bl' bf' l, follow_rounds err_text env fa t p w = (Ok false, w') ∧
    w' !! la = Some bl' ∧ w' !! fa = Some bf' ∧ leads_with bl' ∧ follows_with bf' all ∧
    log_at bl' k = Some l ∧ (others_done bl bf → op_hw l = Zlength all).
Proof.
  intros Hwl Hwf Hne Hla Hrep Hl Hf Hpre Henv. revert w bl bf recs Hwl Hwf Hl Hf Hpre.
  induction Henv as [|e env (Hstop & Hpause & Hq) Henv IH]; intros w bl bf recs Hwl Hwf Hl Hf Hpre Hlen.
  { pose proof (prefix_length _ _ Hpre). unfold Zlength in *. cbn [length] in Hlen. lia. }
  destruct (Hq w) as [Hql Hqf]. rewrite <- Hql in Hwl. rewrite <- Hqf in Hwf.
  destruct (follow_round_progress e _ bl bf recs Hwl Hwf Hne Hla Hrep Hl Hf Hpre) as
    (n & bl' & bf' & recs' & l & Hrun & Hl' & Hf' & Hp & Hpre' & Hprog & Hll & Hhw).
  set (w2 := <[la := bl']> (<[fa := bf']> (it_between e w))) in *.
  assert (w2 !! la = Some bl') as Hw2l by apply lookup_insert_eq.
  assert (w2 !! fa = Some bf') as Hw2f by (unfold w2; rewrite lookup_insert_ne, lookup_insert_eq by done; done).
  rewrite (follow_rounds_cons err_text e env fa t p w n w2 Hstop Hpause Hrun).
  apply prefix_length in Hp as Hlen1. apply prefix_length in Hpre' as Hlen2. apply prefix_length in Hpre as Hlen3.
  destruct env as [|e' env'].
  - assert (length all ≤ length recs')%nat as E by (unfold Zlength in *; cbn [length] in Hlen; lia).
    assert (recs' = all) as -> by (by apply prefix_length_eq).
    exists w2, bl', bf', l. split_and!; try done. intros Ho. by apply Hhw.
  - destruct (IH w2 bl' bf' recs') as (w' & bl2 & bf2 & l2 & ? & ? & ? & ? & ? & ? & Hend); try done.
    { unfold Zlength in *. cbn [length] in *.
      destruct (decide (length recs < length all)%nat); [|lia]. specialize (Hprog ltac:(lia)). lia. }
    exists w', bl2, bf2, l2. split_and!; try done. intros Ho. by apply Hend, Hhw.
Qed.

(** C11: a follower catches up. Its log is a prefix of the leader's, whose records
    have UTF-8 keys and values and are stamped ([replicable]: JSON alters other
    bytes, and the follower stamps a record without a time anew). While nobody else
    touches the leader and the follower, the follower's loop goes on, and after one round for every record it lacks and
    one more its log holds exactly the leader's records. If moreover the other
    replicas the leader has heard of have acked everything, the leader's high
    watermark is then the end of the log, so that every acks=all request for these
    records is answered. *)
Theorem follower_catches_up env w bl bf recs
    (Hwl : w !! la = Some bl) (Hwf : w !! fa = Some bf) (Hne : la ≠ fa) (Hla : la ≠ ""%string)
    (Hrep : replicable all) (Hl : leads_with bl) (Hf : follows_with bf recs) (Hpre : recs `prefix_of` all)
    (Hquiet : Forall quiet env) (Henough : Zlength all - Zlength recs < Zlength env) :
  ∃ w' bl' bf' lead copy, followLoop err_text env fa t p w = (Ok false, w') ∧
    w' !! la = Some bl' ∧ w' !! fa = Some bf' ∧
    log_at bf' k = Some copy ∧ log_contents copy all ∧
    log_at bl' k = Some lead ∧ log_contents lead all ∧ (others_done bl bf → op_hw lead = Zlength all).
Proof.
  destruct (follow_rounds_run env w bl bf recs) as (w' & bl' & bf' & l & Hrun & Hl1 & Hf1 & Hl' & Hf' & Hll & Hhw);
    try done.
  destruct (fw_log _ _ Hf') as (copy & ? & ?). destruct (lw_log _ Hl') as (lead & Hlead & ?).
  rewrite Hll in Hlead. injection Hlead as <-. exists w', bl', bf', l, copy. split_and!; try done.
  destruct (fw_log _ _ Hf) as (copy0 & Hcopy0 & _). unfold followLoop.
  by rewrite (bind_Ok _ _ _ _ _ (at_broker_keeps _ _ _ _ _ Hwf (attempt_Ok _ _ _ _ (on_store_open _ _ _ _ Hcopy0)))).
Qed.
End catching_up.

(** *** A sample: five records to copy, six rounds *)

Definition follow_net : gmap string (Broker (log * disk) disk) :=
  {["a:9092"%string := set_log "orders/0" (sample_log, sample_disk) (net_broker 1 1 "a:9092");
    "b:9092"%string := net_broker 2 1 "b:9092"]}.

Definition quiet_iteration (now : Z) : iteration (gmap string (Broker (log * disk) disk)) :=
  {| it_between := id; it_stop := false; it_stop_pause := false; it_now := now; it_leader_now := now; it_disk_ok := true |}.

Lemma follower_catches_up_witness :
  ∃ w' bl' bf' lead copy, followLoop (λ _, ""%string) (quiet_iteration <$> [1; 2; 3; 4; 5; 6]) "b:9092" "orders" 0
      follow_net = (Ok false, w') ∧
    w' !! "a:9092"%string = Some bl' ∧ w' !! "b:9092"%string = Some bf' ∧
    log_at bf' "orders/0" = Some copy ∧ log_contents copy sample_records ∧
    log_at bl' "orders/0" = Some lead ∧ log_contents lead sample_records ∧ op_hw lead = 5.
Proof.
  destruct (follower_catches_up (λ _, ""%string) "orders" 0 "a:9092" "b:9092" sample_records
    (quiet_iteration <$> [1; 2; 3; 4; 5; 6]) follow_net
    (set_log "orders/0" (sample_log, sample_disk) (net_broker 1 1 "a:9092")) (net_broker 2 1 "b:9092") [])
    as (w' & bl' & bf' & lead & copy & Hrun & ? & ? & ? & ? & ? & ? & Hhw);
    [reflexivity|reflexivity|done|done|apply sample_replicable| | |apply prefix_nil| |by vm_compute|].
  - split; [apply (metadata_ok_same (net_broker 1 1 "a:9092")); [reflexivity|apply net_broker_ok]|reflexivity|].
    exists (sample_log, sample_disk). split; [reflexivity|apply sample_holds].
  - split; [|exists (start_state small_cfg); split; [reflexivity|apply start_holds]].
    exists (MkPart 0 1 [1; 2] [1]). split_and!; [reflexivity|done|apply (bool_decide_unpack _); exact I|reflexivity].
  - apply Forall_fmap, Forall_forall. intros n _. by repeat split.
  - exists w', bl', bf', lead, copy. split; [exact Hrun|]. do 6 (split; [done|]). apply Hhw.
    intros id st Hst. exfalso. assert (replica_states (set_log "orders/0" (sample_log, sample_disk)
      (net_broker 1 1 "a:9092")) "orders" 0 = ∅) as E by reflexivity. rewrite E, lookup_empty in Hst. done.
Defined.
