(* ===== verification/Background.v ===== *)
(** The background work of the brokers on a net, [internal/broker/broker.go]:
    start, heartbeats, metadata pushes and ticks; how a push spreads the leaders,
    and what happens when a leader returns. *)
From S2P Require Import Prelude GoStrings Bytes RecordFmt Disk CommitLog LogRep LogOpen LogRead LogInterface.
From S2P Require Import Assignor Coordinator Partitioner Cluster Store Wire BrokerState Metadata Client Replica Produce.
From S2P Require Import Handlers Net Follow.
Open Scope Z_scope.

(** ** Start and close *)

Section start.
Context {L D : Type} `{LogOpener L D}.
Implicit Types b : Broker L D.

(** A broker without an address to advertise takes the listener's. *)
Definition advertise (laddr : string) b : Broker L D :=
  if negb (bool_decide (Advertise (cfg b) = ""%string)) then b else
  let c := cfg b in
  let self := {| ID := ID (Self (cluster b)); Addr := laddr |} in
  let cl := {| Self := self; Peers := <[cfg_ID c := self]> (Peers (cluster b));
               lastSeen := lastSeen (cluster b); SessionTimeout := SessionTimeout (cluster b) |} in
  MkBroker L D (MkConfig (cfg_ID c) (Bind c) laddr (DataDir c) (cfg_Peers c) (cfg_SessionTimeout c) (GroupSession c)
      (RebalanceWait c) (ReplicaLagTime c) (cfg_FsyncEvery c) (cfg_MaxSegmentBytes c) (cfg_IndexInterval c)
      (MinISR c) (ProduceTimeout c))
    cl (store b) (coordinator b) (partitioner b) (topics b) (topics_json b) (replicaLEO b) (following b).

(** [listen] is the listener's address, or the error; returns the follower loops
    it starts. *)
Definition broker_Start (listen : string + goerr) : M (Broker L D) (list (string * Z * Z)) :=
  match listen with
  | inr e => throw e
  | inl laddr =>
    modify (advertise laddr);;
    act (λ b, let '(started, b) := syncFollowers b in (Ok started, b))
  end.

(** The error of [store.Close] is dropped. *)
Definition broker_Close : M (Broker L D) unit := attempt (on_store store_Close);; mret tt.
End start.

(** ** Messages between the brokers *)

Section background.
Context {L D : Type} `{LogOpener L D} `{LogOps L}.
Abbreviation net := (gmap string (Broker L D)).

(** The clocks of the brokers, and whether they can write [topics.json]. *)
Context (clock : string → Z) (disk_ok : bool).

Definition ok_reply : reply unit := MkReply 200 "" no_error (Some tt).

Definition PeerHeartbeat (addr : string) (id : Z) : M net bool :=
  delivered (λ addr,
    r ← at_broker addr (handlePeerHeartbeat (clock addr) (MkPeerHeartbeat id));
    mret ((λ _, ok_reply) <$> r)) addr.

Definition PushMetadata (addr : string) (push : MetadataPush) : M net bool :=
  delivered (λ addr,
    r ← at_broker addr (act (λ b, let '(started, b) := handleMetadataPush (clock addr) disk_ok push b in (Ok started, b)));
    mret ((λ _, ok_reply) <$> r)) addr.

(** Failures are not looked at. *)
Fixpoint to_each (f : Peer → M net bool) (ps : list Peer) : M net unit :=
  match ps with
  | [] => mret tt
  | p :: ps => f p;; to_each f ps
  end.

(** A call of the broker at [me] on itself; it is running. *)
Definition here (me : string) (A : Type) (m : M (Broker L D) A) : M net A :=
  r ← at_broker me m;
  match r with Some a => mret a | None => panic end.

Definition heartbeats (me : string) : M net unit :=
  b ← here me _ (gets id);
  to_each (λ p, PeerHeartbeat (Addr p) (cfg_ID (cfg b))) (OtherPeers (cluster b)).

Definition broadcastMetadata (me : string) : M net unit :=
  b ← here me _ (gets id);
  to_each (λ p, PushMetadata (Addr p) (metadataPush (clock me) b)) (OtherPeers (cluster b)).

Definition net_tick (me : string) : M net (list (string * Z * Z)) :=
  tick_with (here me) (heartbeats me) (broadcastMetadata me) (clock me) disk_ok.
End background.

(** ** A push spreads the leaders *)

Section spreading.
Context {L D : Type} `{LogOpener L D} `{LogOps L} (clock : string → Z) (disk_ok : bool).
Implicit Types (w : gmap string (Broker L D)) (b : Broker L D).

(** Messages to several brokers: [f] takes a broker it reaches with [P] to one
    with [Q], related by [R]; every broker it reaches ends with [Q]. *)
Lemma to_each_run f me (P : string → Broker L D → Prop) (R : relation (Broker L D)) `{!PreOrder R}
    (Q : string → Broker L D → Prop) ps w :
  (∀ q w b, w !! Addr q = Some b → Addr q ≠ me → P (Addr q) b →
     ∃ r b', f q w = (Ok r, <[Addr q := b']> w) ∧ R b b' ∧ Q (Addr q) b') →
  (∀ q w, w !! Addr q = None → ∃ r, f q w = (Ok r, w)) →
  (∀ addr b b', R b b' → P addr b → P addr b') →
  (∀ addr b, w !! addr = Some b → addr ≠ me → P addr b) → Forall (λ q, Addr q ≠ me) ps →
  ∃ w', to_each f ps w = (Ok tt, w') ∧ w' !! me = w !! me ∧
    (∀ addr, is_Some (w' !! addr) → is_Some (w !! addr)) ∧
    (∀ addr b, w !! addr = Some b → ∃ b', w' !! addr = Some b' ∧ R b b' ∧
       (addr ∈ (Addr <$> ps) ∨ Q addr b → Q addr b')).
Proof.
  intros Hf Habs HP HPw Hps. revert w HPw. induction Hps as [|q ps Hq Hps IH]; intros w HPw; cbn [to_each].
  { exists w. split_and!; try done. intros addr b Hb. exists b. split_and!; try done. by intros [?%elem_of_nil|?]. }
  destruct (w !! Addr q) as [bq|] eqn:Hbq.
  - destruct (Hf q w bq Hbq Hq (HPw _ _ Hbq Hq)) as (r & bq' & Hrun & Hfr & HQ).
    rewrite (bind_Ok _ _ _ _ _ Hrun). set (w1 := <[Addr q := bq']> w).
    destruct (IH w1) as (w' & Hrun' & Hme & Hdom & Hall).
    { intros addr b. unfold w1. rewrite lookup_insert_Some. intros [[<- <-]|[_ ?]] Hne; [|by apply HPw].
      eapply HP; [exact Hfr|by apply HPw]. }
    exists w'. split_and!; [done|unfold w1 in Hme; by rewrite lookup_insert_ne in Hme| |].
    + intros addr [b Hb]%Hdom. unfold w1 in Hb. apply lookup_insert_Some in Hb as [[<- _]|[_ ?]]; by eexists.
    + intros addr b Hb. destruct (decide (Addr q = addr)) as [<-|Hne].
      * simplify_eq. destruct (Hall (Addr q) bq') as (b' & Hb' & Hfr' & Hl'); [apply lookup_insert_eq|].
        exists b'. split_and!; [done|by etrans|]. intros _. apply Hl'. by right.
      * destruct (Hall addr b) as (b' & Hb' & Hfr' & Hl'); [unfold w1; by rewrite lookup_insert_ne|].
        exists b'. split_and!; try done. intros [[->|?]%elem_of_cons|?]; [done|apply Hl'; by left|apply Hl'; by right].
  - destruct (Habs q w Hbq) as [r Hrun]. rewrite (bind_Ok _ _ _ _ _ Hrun).
    destruct (IH w HPw) as (w' & Hrun' & Hme & Hdom & Hall). exists w'. split_and!; try done.
    intros addr b Hb. destruct (Hall addr b Hb) as (b' & Hb' & Hfr' & Hl'). exists b'. split_and!; try done.
    intros [[->|?]%elem_of_cons|?]; [congruence|apply Hl'; by left|apply Hl'; by right].
Qed.

(** [b] has the topics of [a], with as many partitions and the same leaders. *)
Definition has_leaders (a b : Broker L D) : Prop :=
  ∀ name t, topics a !! name = Some t →
    length ∘ t_Partitions <$> topics b !! name = Some (length (t_Partitions t)) ∧
    ∀ pid, p_Leader <$> partition_meta b name pid = p_Leader <$> partition_meta a name pid.

(** Only metadata changed. *)
Record metadata_frame b b' : Prop := {
  mf_cfg : cfg b' = cfg b;
  mf_cluster : cluster b' = cluster b;
  mf_store : store b' = store b;
  mf_partitioner : partitioner b' = partitioner b
}.

#[export] Instance metadata_frame_preorder : PreOrder metadata_frame.
Proof. split; [by split|]. intros b1 b2 b3 [] []. by split; etrans. Qed.

Lemma push_run now addr (a b : Broker L D) w :
  metadata_ok a → w !! addr = Some b → IsController (clock addr) (cluster b) = false →
  ∃ b', PushMetadata clock disk_ok addr (metadataPush now a) w = (Ok true, <[addr := b']> w) ∧
    metadata_frame b b' ∧ has_leaders a b'.
Proof.
  intros Hok Hb Hc. exists (snd (handleMetadataPush (clock addr) disk_ok (metadataPush now a) b)). split_and!.
  - unfold PushMetadata, delivered. set (m := act _ : M (Broker L D) _).
    assert (m b = (Ok (fst (handleMetadataPush (clock addr) disk_ok (metadataPush now a) b)), _)) as Hm by reflexivity.
    by rewrite (bind_Ok _ _ _ _ _ (bind_Ok _ _ _ _ _ (at_broker_run _ _ _ _ _ _ Hb Hm))).
  - unfold handleMetadataPush. rewrite pushed_topics_push. unfold applyTopics, persistTopics. by destruct disk_ok.
  - intros name t Ht. unfold handleMetadataPush. rewrite pushed_topics_push.
    by apply (apply_snapshot_leaders (clock addr) disk_ok a b name t).
Qed.

Lemma push_absent addr push w :
  w !! addr = None → PushMetadata (L:=L) (D:=D) clock disk_ok addr push w = (Ok false, w).
Proof. intros Hw. unfold PushMetadata, delivered, at_broker, act, mbind, M_bind. by rewrite Hw. Qed.

(** Every broker pushed to is not the controller by its own account. *)
Definition subjects (me : string) w : Prop :=
  ∀ addr b, w !! addr = Some b → addr ≠ me → IsController (clock addr) (cluster b) = false.

Lemma to_each_push now a me ps w :
  metadata_ok a → subjects me w → Forall (λ q, Addr q ≠ me) ps →
  ∃ w', to_each (λ q, PushMetadata clock disk_ok (Addr q) (metadataPush now a)) ps w = (Ok tt, w') ∧
    w' !! me = w !! me ∧
    (∀ addr, is_Some (w' !! addr) → is_Some (w !! addr)) ∧
    (∀ addr b, w !! addr = Some b → ∃ b', w' !! addr = Some b' ∧ metadata_frame b b' ∧
       (addr ∈ (Addr <$> ps) ∨ has_leaders a b → has_leaders a b')).
Proof.
  intros Hok Hsub Hps. apply (to_each_run _ me (λ addr b, IsController (clock addr) (cluster b) = false)
    metadata_frame (λ _, has_leaders a)); [| | |done|done].
  - intros q w' b Hb _ Hc. destruct (push_run now (Addr q) a b w' Hok Hb Hc) as (b' & ? & ? & ?). by exists true, b'.
  - intros q w' Hw. exists false. by apply push_absent.
  - intros addr b b' Hfr. by rewrite (mf_cluster _ _ Hfr).
Qed.

(** [b] has a live peer below itself, so that it does not take itself for the
    controller. *)
Lemma not_controller now b id :
  cluster_wf (cluster b) → is_Some (Peers (cluster b) !! id) → IsAlive now id (cluster b) = true →
  id < ID (Self (cluster b)) → IsController now (cluster b) = false.
Proof.
  intros Hwf Hp Ha Hlt. unfold IsController. apply Z.eqb_neq.
  destruct (ControllerID_least now _ Hwf) as [_ Hmin]. specialize (Hmin id). rewrite elem_of_AliveIDs in Hmin.
  specialize (Hmin ltac:(done)). lia.
Qed.

(** A metadata push makes the brokers agree. When the controller, the lowest
    broker, pushes its metadata to brokers that have lately heard from it, and
    every broker is one of its peers, then afterwards all of them have each of
    its topics, with as many partitions, and the leaders it has chosen; where
    they also know the addresses, a keyed produce request sent to any of them
    reaches the leader. Logs and membership are untouched. *)
Theorem broadcast_makes_brokers_agree w me bc t n lead leader_at
    (Hc : w !! me = Some bc) (Hok : metadata_ok bc)
    (Hcount : length ∘ t_Partitions <$> topics bc !! t = Some (Z.to_nat n))
    (Hlead : ∀ pid, 0 ≤ pid < n → p_Leader <$> partition_meta bc t pid = Some (lead pid))
    (Hpeers : ∀ addr, is_Some (w !! addr) → addr ≠ me → addr ∈ (Addr <$> OtherPeers (cluster bc)))
    (Hself : me ∉ (Addr <$> OtherPeers (cluster bc)))
    (Hheard : ∀ addr b, w !! addr = Some b → addr ≠ me → cluster_wf (cluster b) ∧
       is_Some (Peers (cluster b) !! cfg_ID (cfg bc)) ∧
       IsAlive (clock addr) (cfg_ID (cfg bc)) (cluster b) = true ∧ cfg_ID (cfg bc) < ID (Self (cluster b)))
    (Haddr : addressed w n lead leader_at) :
  ∃ w', broadcastMetadata clock disk_ok me w = (Ok tt, w') ∧ agreed w' t n lead ∧ addressed w' n lead leader_at ∧
    (∀ addr, is_Some (w' !! addr) → ∃ b b', w !! addr = Some b ∧ w' !! addr = Some b' ∧ metadata_frame b b').
Proof.
  destruct (to_each_push (clock me) bc me (OtherPeers (cluster bc)) w Hok) as (w' & Hrun & Hme & Hdom & Hall).
  { intros addr b Hb Hne. destruct (Hheard addr b Hb Hne) as (? & ? & ? & ?). by eapply not_controller. }
  { apply Forall_forall. intros q Hq E. apply Hself. rewrite <- E. by apply list_elem_of_fmap_2. }
  assert (∀ addr b', w' !! addr = Some b' → ∃ b, w !! addr = Some b ∧ metadata_frame b b' ∧ has_leaders bc b') as Hafter.
  { intros addr b' Hb'. destruct (Hdom addr) as [b Hb]; [by eexists|]. exists b. split; [done|].
    destruct (Hall addr b Hb) as (b1 & Hb1 & Hfr & Hl). rewrite Hb' in Hb1. injection Hb1 as <-. split; [done|].
    destruct (decide (addr = me)) as [->|Hne]; apply Hl; [right|left; by apply Hpeers].
    rewrite Hc in Hb. injection Hb as <-. intros name tm Htm. by rewrite Htm. }
  destruct (topics bc !! t) as [tm|] eqn:Htm; [|done]. injection Hcount as Hcount. cbn in Hcount.
  exists w'. split_and!.
  - unfold broadcastMetadata, here.
    by rewrite (bind_Ok _ _ _ _ _ (bind_Ok _ _ _ _ _ (at_broker_keeps me (gets id) w bc bc Hc eq_refl))).
  - split.
    + intros addr b' (b & _ & _ & Hl)%Hafter. destruct (Hl t tm Htm) as [-> _]. by rewrite Hcount.
    + intros addr b' pid (b & _ & _ & Hl)%Hafter Hp. destruct (Hl t tm Htm) as [_ ->]. by apply Hlead.
  - split; intros addr b' pid (b & Hb & [Ec Ek _ _] & _)%Hafter Hp; rewrite ?Ec, ?Ek.
    + by eapply ad_leader.
    + by eapply ad_self.
  - intros addr [b' Hb']. destruct (Hafter addr b' Hb') as (b & Hb & Hfr & _). by exists b, b'.
Qed.
End spreading.

(** Broker 2 has heard from broker 1, the controller, but not that it leads. *)
Definition heard (now id : Z) {L D} (b : Broker L D) : Broker L D := set_cluster (MarkSeen now id (cluster b)) b.
Definition stale_net : gmap string (Broker (log * disk) disk) :=
  {["a:9092"%string := net_broker 1 1 "a:9092"; "b:9092"%string := heard 500 1 (net_broker 2 2 "b:9092")]}.

Lemma broadcast_makes_brokers_agree_witness :
  ∃ w', broadcastMetadata (λ _, 1000) true "a:9092" stale_net = (Ok tt, w') ∧
    agreed w' "orders" 1 (λ _, 1) ∧ addressed w' 1 (λ _, 1) (λ _, "a:9092"%string).
Proof.
  assert (∀ addr b, stale_net !! addr = Some b →
    (addr = "a:9092"%string ∧ b = net_broker 1 1 "a:9092") ∨
    (addr = "b:9092"%string ∧ b = heard 500 1 (net_broker 2 2 "b:9092"))) as Hinv.
  { intros addr b. unfold stale_net. rewrite lookup_insert_Some, lookup_singleton_Some.
    intros [[<- <-]|(_ & <- & <-)]; auto. }
  destruct (broadcast_makes_brokers_agree (λ _, 1000) true stale_net "a:9092" (net_broker 1 1 "a:9092") "orders" 1
    (λ _, 1) (λ _, "a:9092"%string)) as (w' & H1 & H2 & H3 & _).
  - reflexivity.
  - apply net_broker_ok.
  - reflexivity.
  - intros pid Hp. assert (pid = 0) as -> by lia. reflexivity.
  - intros addr [b Hb] Hne. apply Hinv in Hb as [[-> _]|[-> _]]; [done|].
    apply (bool_decide_unpack _). vm_compute. exact I.
  - apply (bool_decide_unpack _). vm_compute. exact I.
  - intros addr b [[-> _]|[-> ->]]%Hinv Hne; [done|]. split; [apply MarkSeen_wf, New_wf|].
    split; [by eexists|]. split; [reflexivity|]. reflexivity.
  - split; intros addr b pid [[-> ->]|[-> ->]]%Hinv _; by vm_compute.
  - by exists w'.
Defined.

(** ** A leader returns *)

Definition member_config (id : Z) (addr : string) : BrokerState.Config :=
  MkConfig id "" addr "data" net_peers 0 0 0 0 0 0 0 0 0.

(** [topics.json] of both brokers: broker 1 leads, and both are in sync. *)
Definition both_in_sync : list topicMeta := [MkTopic "orders" [MkPart 0 1 [1; 2] [1; 2]]].

(** A broker as it starts on an empty log. *)
Definition fresh_broker (now id : Z) (addr : string) : option (Broker (log * disk) disk) :=
  match broker_New now (member_config id addr) ∅ [("orders"%string, ["0"%string])] ∅ (inl both_in_sync) with
  | Ok b => Some b
  | _ => None
  end.

Definition returned (now : Z) (w : gmap string (Broker (log * disk) disk)) : gmap string (Broker (log * disk) disk) :=
  match fresh_broker now 1 "a:9092" with Some b => <["a:9092"%string := b]> w | None => w end.

Definition ask (now : Z) (addr : string) (key value : bytes) :
    M (gmap string (Broker (log * disk) disk)) (option (reply ProduceResponse)) :=
  net_produce (λ _, ""%string) 2 (λ _, env_at now) (single "orders" key value "all") addr.

(** Broker 2 takes over from broker 1, acknowledges a record, broker 1 starts
    again, ticks once and acknowledges a record. *)
Definition leader_returns : M (gmap string (Broker (log * disk) disk)) _ :=
  net_tick (λ _, 4 * second) true "b:9092";;
  r1 ← ask (4 * second) "b:9092" [x61] [x01];
  modify (returned (5 * second));;
  net_tick (λ _, 5 * second + 200000000) true "a:9092";;
  r2 ← ask (6 * second) "b:9092" [x61] [x02];
  mret (r1, r2).

(** Broker 2 follows for [n] rounds, and then a consumer reads. *)
Definition later_reads (n : nat) : M (gmap string (Broker (log * disk) disk)) (option fetch_answer) :=
  follow_rounds (λ _, ""%string) (replicate n (quiet_iteration (7 * second))) "b:9092" "orders" 0;;
  at_broker "a:9092" (serveFetch no_proxy "orders" 0 0 0 false).

Definition without_leader : gmap string (Broker (log * disk) disk) :=
  match fresh_broker 0 2 "b:9092" with Some b => {["b:9092"%string := b]} | None => ∅ end.


Definition returned_net : gmap string (Broker (log * disk) disk) := snd (leader_returns without_leader).

(** The log of a member after one record, with high watermark [h]. *)
Definition first_record (now : Z) (value : bytes) : record := Rec 0 now [x61] value.
Definition member_log (now h : Z) (value : bytes) : log * disk :=
  op_set_hw h (snd (op_append now [x61] value (start_state (Cfg (Z.shiftl 1 20) 4096 0)))).

Lemma member_log_holds now h value :
  now ≠ 0 → wf_record (first_record now value) → log_contents (member_log now h value) [first_record now value].
Proof.
  intros Hnow Hwf. set (st := start_state (Cfg (Z.shiftl 1 20) 4096 0)).
  assert (log_contents st []) as Hh by by apply start_state_holds.
  destruct (log_append (L:=log * disk) now [x61] value st [] Hh) as (l & Hrun & Hrecs & _); [by rewrite stamp_id|done|].
  unfold member_log. fold st. rewrite Hrun. rewrite stamp_id in Hrecs by done. exact (proj1 (log_set_hw h _ _ Hrecs)).
Qed.

(** What the two brokers are like once the second record is acknowledged. *)
Lemma returned_leader : ∃ b, returned_net !! "a:9092"%string = Some b ∧
  leads_with "orders" 0 [first_record (6 * second) [x02]] b ∧ hw_from "orders" 0 1 b.
Proof.
  assert ((λ b, (bool_decide (map_Forall (λ name t, t_Name t = name ∧ topic_ok t) (topics b)),
      p_Leader <$> partition_meta b "orders" 0, cfg_ID (cfg b), log_at b "orders/0")) <$> returned_net !! "a:9092"%string =
    Some (true, Some 1, 1, Some (member_log (6 * second) 1 [x02]))) as E by (vm_compute; reflexivity).
  destruct (returned_net !! "a:9092"%string) as [b|]; [|done]. injection E as Hok Hlead Hid Hl.
  assert (log_at b (store_key "orders" 0) = Some (member_log (6 * second) 1 [x02])) as Hlog by exact Hl.
  exists b. split; [done|]. split; [split|].
  - by apply metadata_ok_check.
  - by rewrite Hid.
  - eexists. split; [exact Hlog|]. apply member_log_holds; [done|]. apply (bool_decide_unpack _). by vm_compute.
  - eexists. split; [exact Hlog|by vm_compute].
Qed.

Lemma returned_follower : ∃ b, returned_net !! "b:9092"%string = Some b ∧
  follows_with "orders" 0 "a:9092" b [first_record (4 * second) [x01]].
Proof.
  assert ((λ b, (partition_meta b "orders" 0, cfg_ID (cfg b), peer_addr 1 (cluster b), log_at b "orders/0")) <$>
      returned_net !! "b:9092"%string =
    Some (Some (MkPart 0 1 [1; 2] [1]), 2, "a:9092"%string, Some (member_log (4 * second) 1 [x01]))) as E
    by (vm_compute; reflexivity).
  destruct (returned_net !! "b:9092"%string) as [b|]; [|done]. injection E as Hpm Hid Haddr Hl.
  exists b. split; [done|]. split.
  - eexists. split; [exact Hpm|]. rewrite Hid. split_and!; [done|apply (bool_decide_unpack _); exact I|done].
  - eexists. split; [exact Hl|]. apply member_log_holds; [done|]. apply (bool_decide_unpack _). by vm_compute.
Qed.

Definition accepted : option (reply ProduceResponse) :=
  Some (MkReply 200 "" no_error (Some (MkProduceResponse "orders" [MkProduceResult 0 0]))).

(** C35: a leader that returns hides acknowledged records, without any network
    partition or unclean election. While broker 1 is away, broker 2, which was in
    sync, leads and acknowledges a record with acks=all. Broker 1 starts again
    with its own [topics.json], in which it leads; its first tick pushes that, and
    broker 2 steps down. The next record is acknowledged with acks=all at the
    same offset; however long broker 2 then follows, consumers only get the second
    record, while broker 2 keeps the first: the logs have diverged. *)
Theorem returning_leader_hides_acknowledged_records n :
  ∃ w w' bf l, leader_returns without_leader = (Ok (accepted, accepted), w) ∧
    later_reads n w = (Ok (Some (Fetched (MkFetch "orders" 0 1 1 (toWire [first_record (6 * second) [x02]])))), w') ∧
    w' !! "b:9092"%string = Some bf ∧ log_at bf "orders/0" = Some l ∧
    log_contents l [first_record (4 * second) [x01]].
Proof.
  destruct returned_leader as (bl & Hwl & Hl & Hhw). destruct returned_follower as (bf & Hwf & Hf).
  destruct (follow_rounds_idle (λ _, ""%string) "orders" 0 "a:9092" "b:9092" [first_record (6 * second) [x02]]
    (replicate n (quiet_iteration (7 * second))) returned_net bl bf [first_record (4 * second) [x01]]) as
    (w' & bl' & bf' & Hrun & Hwl' & Hwf' & Hl' & Hf' & Hkeep);
    [exact Hwl|exact Hwf|discriminate|discriminate|exact Hl|exact Hf|discriminate| |].
  { apply Forall_replicate. by repeat split. }
  destruct (fw_log _ _ _ _ _ Hf') as (l & Hlog & Hrecs).
  exists returned_net, w', bf', l. split; [|split; [|exact (conj Hwf' (conj Hlog Hrecs))]].
  - unfold returned_net. destruct (leader_returns without_leader) as [r w] eqn:E. cbn. f_equal.
    change r with (fst (r, w)). rewrite <- E. vm_compute. reflexivity.
  - unfold later_reads. rewrite (bind_Ok _ _ _ _ _ Hrun). eapply at_broker_keeps; [exact Hwl'|].
    destruct (Hkeep 1 Hhw) as (lead & Hlead & Hone). destruct (lw_log _ _ _ _ Hl') as (lead' & Hlead' & Hall).
    rewrite Hlead in Hlead'. injection Hlead' as <-.
    pose proof (lw_meta _ _ _ _ Hl') as Hm. destruct (partition_meta bl' "orders" 0) as [pm|] eqn:Hpm; [|done].
    injection Hm as Hm. pose proof (log_hw _ _ Hall) as Hle. assert (op_hw lead = 1) as Eh by (change (Zlength [_]) with 1 in Hle; lia).
    destruct (serveFetch_spec no_proxy "orders" 0 0 0 false bl' pm lead _ Hpm Hm Hlead Hall) as
      (out & Hfetch & Hsub & _ & Hhead & _); [done|]. cbn [fetch_limit] in Hhead. rewrite Eh in *.
    specialize (Hhead ltac:(lia)). rewrite Hfetch. destruct out as [|r out]; [done|]. injection Hhead as ->.
    apply sublist_length in Hsub. destruct out; [done|cbn in Hsub; lia].
Qed.
