(* ===== verification/Failover.v ===== *)
(** Failover on a net of brokers: a tick of the controller after the death of
    leaders, from the heartbeats to the metadata pushes, leaves all brokers
    agreeing on live leaders. *)
From S2P Require Import Prelude GoStrings Bytes RecordFmt Disk CommitLog LogRep LogOpen LogRead LogInterface.
From S2P Require Import Assignor Coordinator Partitioner Cluster Store Wire BrokerState Metadata Client Replica Produce.
From S2P Require Import Handlers Net Follow Background.
Open Scope Z_scope.

(** ** Membership *)

(** A broker is always alive to itself, so that marking itself seen changes
    nothing. *)
Lemma IsAlive_mark_self now id c : IsAlive now id (MarkSeen now (ID (Self c)) c) = IsAlive now id c.
Proof. unfold IsAlive, MarkSeen. cbn. destruct (Z.eqb_spec id (ID (Self c))); [done|]. by rewrite lookup_insert_ne. Qed.

Lemma IsController_mark_self now c : IsController now (MarkSeen now (ID (Self c)) c) = IsController now c.
Proof.
  unfold IsController, ControllerID, AliveIDs. cbn [Self Peers MarkSeen].
  erewrite (filter_ext_in _ (λ id, alive_in now c id)); [done|].
  intros id _. by rewrite (IsAlive_mark_self now id c : alive_in _ _ _ = alive_in _ _ _).
Qed.

Lemma IsAlive_marked now id c : 0 < SessionTimeout c → IsAlive now id (MarkSeen now id c) = true.
Proof. intros Ht. unfold IsAlive, MarkSeen. cbn. case_match; [done|]. rewrite lookup_insert_eq. apply Z.ltb_lt. lia. Qed.

Section failover.
Context {L D : Type} `{LogOpener L D} `{LogLaws L}.
Implicit Types (w : gmap string (Broker L D)) (b : Broker L D).

(** ** The controller's own steps *)

(** What ticks and recomputed high watermarks leave alone. *)
Record same_broker b b' : Prop := {
  sb_cfg : cfg b' = cfg b;
  sb_cluster : cluster b' = cluster b;
  sb_partitioner : partitioner b' = partitioner b
}.
#[local] Instance same_broker_preorder : PreOrder same_broker.
Proof. split; [by split|]. intros b1 b2 b3 [] []. by split; etrans. Qed.

(** The logs of the partitions the broker leads are open and healthy. *)
Definition led_logs b : Prop := ∀ t p pm,
  partition_meta b t p = Some pm → p_Leader pm = cfg_ID (cfg b) →
  ∃ l recs, log_at b (store_key t p) = Some l ∧ log_contents l recs.

Lemma ticked_find (alive : Z → bool) ps ps' i :
  Forall2 (ticked alive) ps ps' → option_Forall2 (ticked alive) (find_partition ps i) (find_partition ps' i).
Proof.
  unfold find_partition. induction 1 as [|p p' ps ps' Hp _ IH]; [constructor|]. rewrite !filter_cons.
  pose proof (tk_id _ _ _ Hp). do 2 case_decide; [by constructor|congruence..|done].
Qed.

(** Only who is alive matters, not the function that says so. *)
Lemma ticked_ext (f g : Z → bool) p p' : (∀ id, f id = g id) → ticked f p p' → ticked g p p'.
Proof.
  intros Hfg [? ? ? Ha Hst Hk Hadd].
  assert (firstAlive (p_Replicas p) f = firstAlive (p_Replicas p) g) as E.
  { unfold firstAlive. by rewrite (filter_ext_in (λ id, f id) (λ id, g id)) by (intros id _; by rewrite Hfg). }
  setoid_rewrite Hfg in Ha. setoid_rewrite Hfg in Hk. rewrite Hfg in Hst. split; try done.
  intros id ?. rewrite <- Hfg, <- E. by apply Hadd.
Qed.

Lemma controllerTick_run now disk_ok b :
  metadata_ok b →
  (∀ t p pm, partition_meta b t p = Some pm → cfg_ID (cfg b) ∈ p_Replicas pm →
     ∃ l recs, log_at b (store_key t p) = Some l ∧ log_contents l recs) →
  ∃ changed b', flagged (controllerTick now disk_ok) b = (Ok changed, b') ∧ same_broker b b' ∧
    metadata_ok b' ∧ led_logs b' ∧
    (∀ t, length ∘ t_Partitions <$> topics b' !! t = length ∘ t_Partitions <$> topics b !! t) ∧
    (∀ t p, option_Forall2 (ticked (alive_at now b)) (partition_meta b t p) (partition_meta b' t p)) ∧
    (changed = false → topics b' = topics b).
Proof.
  intros Hok Hlogs. destruct (controllerTick_spec now disk_ok b Hok) as (changed & b' & E & Hdom & Ht & Hsame).
  pose proof (controllerTick_ok _ _ _ _ _ Hok E) as Hok'.
  assert (same_broker b b' ∧ store b' = store b) as [Hs Hst].
  { unfold controllerTick in E. case_decide; [|done]. injection E as _ <-. case_match; [destruct disk_ok|]; done. }
  assert (∀ t p, option_Forall2 (ticked (alive_at now b)) (partition_meta b t p) (partition_meta b' t p)) as Hpm.
  { intros t p. unfold partition_meta. destruct (topics b !! t) as [tm|] eqn:Htm.
    - destruct (Ht t tm Htm) as (tm' & -> & _ & Hps). by apply ticked_find.
    - assert (topics b' !! t = None) as ->; [|constructor].
      apply not_elem_of_dom. rewrite Hdom. by apply not_elem_of_dom. }
  exists changed, b'. split_and!; try done.
  - unfold flagged, act. by rewrite E.
  - intros t p pm' Hpm' Hl. specialize (Hpm t p). rewrite Hpm' in Hpm. inversion Hpm as [pm ? Hp Epm|]; subst.
    unfold log_at. rewrite Hst. apply (Hlogs t p pm); [done|].
    destruct (tk_ok _ _ _ Hp) as [_ _ Hsub Hin]. rewrite <- (tk_replicas _ _ _ Hp), <- (sb_cfg _ _ Hs), <- Hl. by apply Hsub.
  - intros t. destruct (topics b !! t) as [tm|] eqn:Htm.
    + destruct (Ht t tm Htm) as (tm' & -> & _ & Hps). cbn. by rewrite (Forall2_length _ _ _ Hps).
    + assert (topics b' !! t = None) as ->; [|done].
      apply not_elem_of_dom. rewrite Hdom. by apply not_elem_of_dom.
Qed.

(** The leaders stay when high watermarks are recomputed. *)
Record same_leaders b b' : Prop := {
  sl_broker : same_broker b b';
  sl_ok : metadata_ok b → metadata_ok b';
  sl_logs : led_logs b → led_logs b';
  sl_leaders t p : p_Leader <$> partition_meta b' t p = p_Leader <$> partition_meta b t p;
  sl_counts t : length ∘ t_Partitions <$> topics b' !! t = length ∘ t_Partitions <$> topics b !! t
}.
#[export] Instance same_leaders_preorder : PreOrder same_leaders.
Proof.
  split; [by split|]. intros b1 b2 b3 [?? ? Hl1 Hc1] [?? ? Hl2 Hc2]. split; [by etrans|by auto..| |].
  - intros t p. by rewrite Hl2.
  - intros t. by rewrite Hc2.
Qed.

Lemma recomputeHW_run now disk_ok t p b :
  metadata_ok b → led_logs b → ∃ c b', recomputeHW now disk_ok t p b = (Ok c, b') ∧ same_leaders b b'.
Proof.
  intros Hok Hlogs. destruct (partition_meta b t p) as [pm|] eqn:Hpm.
  2: { exists false, b. unfold recomputeHW, gets, mbind, M_bind. by rewrite Hpm. }
  destruct (decide (p_Leader pm = cfg_ID (cfg b))) as [Hl|Hl].
  2: { exists false, b. unfold recomputeHW, gets, mbind, M_bind. by rewrite Hpm, (proj2 (Z.eqb_neq _ _) Hl). }
  destruct (Hlogs t p pm Hpm Hl) as (l & recs & Hlog & Hrecs).
  destruct (recomputeHW_spec now disk_ok t p b pm l recs Hok Hpm Hl Hlog Hrecs)
    as (c & b' & l' & isr & Hrun & Hl' & Hrecs' & _ & _ & _ & Hfr & _ & Hpart).
  exists c, b'. split; [done|]. split; try apply Hfr; [by split; try apply Hfr|].
  intros _ t' p' pm' Hpm' Hlead. destruct (decide (store_key t' p' = store_key t p)) as [->|Hne]; [by exists l', recs|].
  rewrite (fr_logs _ _ _ Hfr _ Hne). pose proof (fr_leaders _ _ _ Hfr t' p') as E. rewrite Hpm' in E.
  destruct (partition_meta b t' p') as [pm0|] eqn:Hpm0; [|done]. injection E as E.
  apply (Hlogs t' p' pm0 Hpm0). rewrite <- (fr_cfg _ _ _ Hfr). congruence.
Qed.

Lemma recompute_each_run now disk_ok ps b :
  metadata_ok b → led_logs b → ∃ c b', recompute_each now disk_ok ps b = (Ok c, b') ∧ same_leaders b b'.
Proof.
  revert b. induction ps as [|[t p] ps IH]; intros b Hok Hlogs; cbn [recompute_each]; [by exists O, b|].
  rewrite (bind_Ok _ _ _ _ _ (eq_refl : gets _ b = (Ok _, b))).
  assert (∃ c b', (if p_Leader p =? cfg_ID (cfg b) then recomputeHW now disk_ok t (p_ID p) else mret false) b = (Ok c, b') ∧
    same_leaders b b') as (c & b1 & Hrun & Hs).
  { case_match; [by apply recomputeHW_run|by exists false, b]. }
  rewrite (bind_Ok _ _ _ _ _ Hrun).
  destruct (IH b1) as (cs & b2 & Hrun' & Hs'); [by eapply sl_ok|by eapply sl_logs|].
  rewrite (bind_Ok _ _ _ _ _ Hrun'). exists ((if c then 1 else 0) + cs)%nat, b2. split; [done|by etrans].
Qed.

Lemma has_leaders_same a b b' : same_leaders b b' → has_leaders a b → has_leaders a b'.
Proof.
  intros Hs Hb name t Ht. destruct (Hb name t Ht) as [Hc Hl].
  rewrite (sl_counts _ _ Hs). split; [done|]. intros pid. by rewrite (sl_leaders _ _ Hs).
Qed.
End failover.

(** ** Messages *)

Section messages.
Context {L D : Type} `{LogOpener L D} `{LogLaws L} (clock : string → Z) (disk_ok : bool).
Implicit Types (w : gmap string (Broker L D)) (b : Broker L D).

Lemma here_run {A} me (m : M (Broker L D) A) w b a b' :
  w !! me = Some b → m b = (Ok a, b') → here me A m w = (Ok a, <[me := b']> w).
Proof. intros Hw Hm. unfold here. by rewrite (bind_Ok _ _ _ _ _ (at_broker_run _ _ _ _ _ _ Hw Hm)). Qed.

Lemma here_get me w b : w !! me = Some b → here me _ (gets id) w = (Ok b, w).
Proof. intros Hw. rewrite (here_run me (gets id) w b b b Hw eq_refl). by rewrite insert_id. Qed.

(** A heartbeat changes only when brokers were last seen. *)
Record seen_frame b b' : Prop := {
  sf_cfg : cfg b' = cfg b;
  sf_topics : topics b' = topics b;
  sf_self : Self (cluster b') = Self (cluster b);
  sf_peers : Peers (cluster b') = Peers (cluster b);
  sf_timeout : SessionTimeout (cluster b') = SessionTimeout (cluster b);
  sf_partitioner : partitioner b' = partitioner b
}.
#[local] Instance seen_frame_preorder : PreOrder seen_frame.
Proof. split; [by split|]. intros b1 b2 b3 [] []. by split; etrans. Qed.

Lemma heartbeats_run me w bc :
  w !! me = Some bc → cfg_ID (cfg bc) ≠ 0 → me ∉ (Addr <$> OtherPeers (cluster bc)) →
  (∀ addr b, w !! addr = Some b → addr ≠ me → 0 < SessionTimeout (cluster b)) →
  ∃ w', heartbeats clock me w = (Ok tt, w') ∧ w' !! me = Some bc ∧
    (∀ addr, is_Some (w' !! addr) → is_Some (w !! addr)) ∧
    (∀ addr b, w !! addr = Some b → ∃ b', w' !! addr = Some b' ∧ seen_frame b b' ∧
       (addr ∈ (Addr <$> OtherPeers (cluster bc)) → IsAlive (clock addr) (cfg_ID (cfg bc)) (cluster b') = true)).
Proof.
  intros Hc Hnz Hself Htime. unfold heartbeats. rewrite (bind_Ok _ _ _ _ _ (here_get me w bc Hc)).
  destruct (to_each_run (λ p, PeerHeartbeat clock (Addr p) (cfg_ID (cfg bc))) me
    (λ _ b, 0 < SessionTimeout (cluster b)) seen_frame
    (λ addr b, IsAlive (clock addr) (cfg_ID (cfg bc)) (cluster b) = true) (OtherPeers (cluster bc)) w)
    as (w' & Hrun & Hme & Hdom & Hall).
  - intros q w' b Hb _ Ht. exists true. eexists. split; [|split].
    + unfold PeerHeartbeat, delivered.
      by rewrite (bind_Ok _ _ _ _ _ (bind_Ok _ _ _ _ _ (at_broker_run _ _ _ _ _ _ Hb eq_refl))).
    + cbn. by rewrite (proj2 (Z.eqb_neq _ _) Hnz).
    + cbn. rewrite (proj2 (Z.eqb_neq _ _) Hnz). by apply IsAlive_marked.
  - intros q w' Hw. exists false. unfold PeerHeartbeat, delivered, at_broker, act, mbind, M_bind. by rewrite Hw.
  - intros addr b b' Hfr. by rewrite (sf_timeout _ _ Hfr).
  - done.
  - apply Forall_forall. intros q Hq E. apply Hself. rewrite <- E. by apply list_elem_of_fmap_2.
  - exists w'. split_and!; [done|by rewrite Hme|done|]. intros addr b Hb.
    destruct (Hall addr b Hb) as (b' & ? & ? & HQ). exists b'. split_and!; [done..|]. intros ?. apply HQ. by left.
Qed.

Lemma broadcast_run me w a :
  w !! me = Some a → metadata_ok a → subjects clock me w → me ∉ (Addr <$> OtherPeers (cluster a)) →
  ∃ w', broadcastMetadata clock disk_ok me w = (Ok tt, w') ∧ w' !! me = Some a ∧
    (∀ addr, is_Some (w' !! addr) → is_Some (w !! addr)) ∧
    (∀ addr b, w !! addr = Some b → ∃ b', w' !! addr = Some b' ∧ metadata_frame b b' ∧
       (addr ∈ (Addr <$> OtherPeers (cluster a)) → has_leaders a b')).
Proof.
  intros Hme Hok Hsub Hself. unfold broadcastMetadata. rewrite (bind_Ok _ _ _ _ _ (here_get me w a Hme)).
  destruct (to_each_push clock disk_ok (clock me) a me (OtherPeers (cluster a)) w Hok Hsub) as (w' & Hrun & Hw & Hdom & Hall).
  { apply Forall_forall. intros q Hq E. apply Hself. rewrite <- E. by apply list_elem_of_fmap_2. }
  exists w'. split_and!; [exact Hrun|by rewrite Hw|done|]. intros addr b Hb.
  destruct (Hall addr b Hb) as (b' & ? & ? & HQ). exists b'. split_and!; [done..|]. intros ?. apply HQ. by left.
Qed.

Lemma has_leaders_trans (a b c : Broker L D) : has_leaders a b → has_leaders b c → has_leaders a c.
Proof.
  intros Hab Hbc name t Ht. destruct (Hab name t Ht) as [Hc Hl].
  destruct (topics b !! name) as [t'|] eqn:Ht'; [|done]. destruct (Hbc name t' Ht') as [Hc' Hl'].
  cbn in Hc. injection Hc as Hc. rewrite Hc', Hc. split; [done|]. intros pid. by rewrite Hl'.
Qed.

Lemma same_has_leaders (a b : Broker L D) : same_leaders a b → has_leaders a b.
Proof. intros Hs. apply (has_leaders_same a a b Hs). intros name t ->. done. Qed.

(** *** After the first push *)

(** All brokers of [w0] have the leaders of [a], which the broker at [me] has
    chosen. *)
Record spread (me : string) a w0 w : Prop := {
  sp_dom addr : is_Some (w !! addr) → is_Some (w0 !! addr);
  sp_me : ∃ b, w !! me = Some b ∧ same_leaders a b;
  sp_others addr b : w0 !! addr = Some b → addr ≠ me →
    ∃ b', w !! addr = Some b' ∧ metadata_frame b b' ∧ has_leaders a b'
}.

Lemma spread_subjects me a w0 w : subjects clock me w0 → spread me a w0 w → subjects clock me w.
Proof.
  intros Hsub [Hdom _ Hoth] addr b Hb Hne. destruct (Hdom addr) as [b0 Hb0]; [by eexists|].
  destruct (Hoth addr b0 Hb0 Hne) as (b' & Hb' & Hfr & _). assert (b' = b) as -> by congruence. rewrite (mf_cluster _ _ Hfr). by eapply Hsub.
Qed.

(** The broker at [me] goes on by itself, without changing its leaders. *)
Lemma spread_step {A} me a w0 w b (m : M (Broker L D) A) x b' :
  spread me a w0 w → w !! me = Some b → m b = (Ok x, b') → same_leaders b b' →
  here me A m w = (Ok x, <[me := b']> w) ∧ spread me a w0 (<[me := b']> w).
Proof.
  intros [Hdom (b1 & Hb1 & Hs1) Hoth] Hb Hm Hs. assert (b1 = b) as -> by congruence. split; [by apply (here_run _ _ _ b)|]. split.
  - intros addr [c Hc]. apply Hdom. apply lookup_insert_Some in Hc as [[<- _]|[_ ?]]; by eexists.
  - exists b'. split; [apply lookup_insert_eq|by etrans].
  - intros addr c Hc Hne. rewrite lookup_insert_ne by done. by apply Hoth.
Qed.

Lemma spread_push me a w0 w (changed : bool) :
  subjects clock me w0 → metadata_ok a → me ∉ (Addr <$> OtherPeers (cluster a)) →
  (∀ addr, is_Some (w0 !! addr) → addr ≠ me → addr ∈ (Addr <$> OtherPeers (cluster a))) →
  spread me a w0 w →
  ∃ w', (if changed then broadcastMetadata clock disk_ok me else mret tt) w = (Ok tt, w') ∧ w' !! me = w !! me ∧
    spread me a w0 w'.
Proof.
  intros Hsub Hok Hself Hpeers Hsp. destruct changed; [|by exists w].
  pose proof (spread_subjects _ _ _ _ Hsub Hsp) as Hsub'. destruct Hsp as [Hdom (b & Hb & Hs) Hoth].
  rewrite <- (sb_cluster _ _ (sl_broker _ _ Hs)) in Hself, Hpeers.
  destruct (broadcast_run me w b Hb (sl_ok _ _ Hs Hok) Hsub' Hself) as (w' & Hrun & Hme & Hdom' & Hall).
  exists w'. split; [done|]. split; [by rewrite Hme, Hb|]. split; [by auto|by exists b|].
  intros addr c Hc Hne. destruct (Hoth addr c Hc Hne) as (c1 & Hc1 & Hfr1 & Hl1).
  destruct (Hall addr c1 Hc1) as (c2 & Hc2 & Hfr2 & Hl2). exists c2. split; [done|]. split; [by etrans|].
  eapply has_leaders_trans; [by apply same_has_leaders|]. apply Hl2, Hpeers; [by eexists|done].
Qed.

Lemma spread_pushes me a w0 w n :
  subjects clock me w0 → metadata_ok a → me ∉ (Addr <$> OtherPeers (cluster a)) →
  (∀ addr, is_Some (w0 !! addr) → addr ≠ me → addr ∈ (Addr <$> OtherPeers (cluster a))) →
  spread me a w0 w →
  ∃ w', times n (broadcastMetadata clock disk_ok me) w = (Ok tt, w') ∧ w' !! me = w !! me ∧ spread me a w0 w'.
Proof.
  intros Hsub Hok Hself Hpeers. revert w. induction n as [|n IH]; intros w Hsp; [by exists w|].
  destruct (spread_push me a w0 w true Hsub Hok Hself Hpeers Hsp) as (w1 & Hrun & Hme & Hsp1).
  destruct (IH w1 Hsp1) as (w' & Hrun' & Hme' & Hsp'). exists w'. cbn [times].
  rewrite (bind_Ok _ _ _ _ _ Hrun), Hrun'. by rewrite Hme', Hme.
Qed.

(** The first push, from the broker's own choice. *)
Lemma spread_first me a w :
  w !! me = Some a → metadata_ok a → subjects clock me w → me ∉ (Addr <$> OtherPeers (cluster a)) →
  (∀ addr, is_Some (w !! addr) → addr ≠ me → addr ∈ (Addr <$> OtherPeers (cluster a))) →
  ∃ w', broadcastMetadata clock disk_ok me w = (Ok tt, w') ∧ w' !! me = Some a ∧ spread me a w w'.
Proof.
  intros Ha Hok Hsub Hself Hpeers.
  destruct (broadcast_run me w a Ha Hok Hsub Hself) as (w' & Hrun & Hme & Hdom & Hall).
  exists w'. split; [done|]. split; [done|]. split; [done|by exists a|].
  intros addr b Hb Hne. destruct (Hall addr b Hb) as (b' & Hb' & Hfr & Hl). exists b'. split_and!; [done..|].
  apply Hl, Hpeers; [by eexists|done].
Qed.
End messages.

(** ** A tick of the controller *)

Section controller.
Context {L D : Type} `{LogOpener L D} `{LogLaws L} (clock : string → Z) (disk_ok : bool).
Implicit Types (w : gmap string (Broker L D)) (b : Broker L D).

(** The broker at [me] is in charge of the net: it is the controller by its own
    account, knows every running broker, and is the lowest of them and known to
    them; the partitions it replicates have open logs, and the offsets topic has
    been created. *)
Record in_charge (me : string) w b : Prop := {
  ic_here : w !! me = Some b;
  ic_ok : metadata_ok b;
  ic_id : ID (Self (cluster b)) = cfg_ID (cfg b);
  ic_positive : cfg_ID (cfg b) ≠ 0;
  ic_controller : IsController (clock me) (cluster b) = true;
  ic_logs t p pm : partition_meta b t p = Some pm → cfg_ID (cfg b) ∈ p_Replicas pm →
    ∃ l recs, log_at b (store_key t p) = Some l ∧ log_contents l recs;
  ic_offsets : is_Some (topics b !! offsetsTopic);
  ic_self : me ∉ (Addr <$> OtherPeers (cluster b));
  ic_peers addr : is_Some (w !! addr) → addr ≠ me → addr ∈ (Addr <$> OtherPeers (cluster b));
  ic_known addr b' : w !! addr = Some b' → addr ≠ me →
    cluster_wf (cluster b') ∧ 0 < SessionTimeout (cluster b') ∧
    is_Some (Peers (cluster b') !! cfg_ID (cfg b)) ∧ cfg_ID (cfg b) < ID (Self (cluster b'))
}.

(** The controller believes some leader dead, and a replica alive. *)
Definition leader_lost (me : string) b : Prop := ∃ t p pm,
  partition_meta b t p = Some pm ∧ alive_at (clock me) b (p_Leader pm) = false ∧
  Exists (λ id, alive_at (clock me) b id = true) (p_Replicas pm).

(** What the tick leaves: [a] is the controller once it has chosen, [w0] the net
    just before it pushes. *)
Record chosen (me : string) w b a w0 : Prop := {
  ch_cfg : cfg a = cfg b;
  ch_peers : Peers (cluster a) = Peers (cluster b);
  ch_ok : metadata_ok a;
  ch_here : w0 !! me = Some a;
  ch_counts t : length ∘ t_Partitions <$> topics a !! t = length ∘ t_Partitions <$> topics b !! t;
  ch_ticked t p : option_Forall2 (ticked (alive_at (clock me) b)) (partition_meta b t p) (partition_meta a t p);
  ch_others addr b0 : w0 !! addr = Some b0 → addr ≠ me → ∃ b', w !! addr = Some b' ∧ seen_frame b' b0
}.

Lemma seen_subject b b' now i :
  cluster_wf (cluster b) → is_Some (Peers (cluster b) !! i) → i < ID (Self (cluster b)) →
  seen_frame b b' → IsAlive now i (cluster b') = true → IsController now (cluster b') = false.
Proof.
  intros [Hself Hids] Hp Hlt Hfr Ha. apply (not_controller now b' i); [|by rewrite (sf_peers _ _ Hfr)|done|].
  - split; [by rewrite (sf_peers _ _ Hfr), (sf_self _ _ Hfr)|intros id p; rewrite (sf_peers _ _ Hfr); apply Hids].
  - by rewrite (sf_self _ _ Hfr).
Qed.

(** Up to the choice of leaders. *)
Lemma choose_run me w b :
  in_charge me w b → leader_lost me b →
  ∃ a w0, chosen me w b a w0 ∧ led_logs a ∧ subjects clock me w0 ∧
    (∀ addr, is_Some (w0 !! addr) → is_Some (w !! addr)) ∧
    OtherPeers (cluster a) = OtherPeers (cluster b) ∧
    net_tick clock disk_ok me w =
      (broadcastMetadata clock disk_ok me;;
       created ← here me bool (flagged (ensureOffsetsTopic disk_ok));
       (if created : bool then broadcastMetadata clock disk_ok me else mret tt);;
       changed ← here me nat (recomputeAllHW (clock me) disk_ok);
       times changed (broadcastMetadata clock disk_ok me);;
       here me _ (act (λ b, let '(started, b) := syncFollowers b in (Ok started, b)))) w0.
Proof.
  intros [Hc Hok Hid Hnz Hctl Hlogs _ Hself Hpeers Hknown] (t0 & p0 & pm0 & Hpm0 & Hdead & Hlive).
  set (b1 := set_cluster (MarkSeen (clock me) (cfg_ID (cfg b)) (cluster b)) b).
  destruct (heartbeats_run clock me (<[me := b1]> w) b1) as (w2 & Hrun2 & Hme2 & Hdom2 & Hall2);
    [apply lookup_insert_eq|done|done| |].
  { intros addr c. rewrite lookup_insert_Some. intros [[<- _]|[_ Hb]] Hne; [done|]. by apply (Hknown addr c). }
  set (b3 := snd (on_groups (λ c, (tt, Expire (clock me) c)) b1)).
  assert (∀ id, alive_at (clock me) b3 id = alive_at (clock me) b id) as Halive.
  { intros id. unfold alive_at. cbn. rewrite <- Hid. apply IsAlive_mark_self. }
  destruct (controllerTick_run (clock me) disk_ok b3) as (changed & a & Hrun4 & Hs & Hoka & Hled & Hcount & Htick & Hsame);
    [exact (metadata_ok_same b b3 eq_refl Hok)|exact Hlogs|].
  assert (∀ t p, option_Forall2 (ticked (alive_at (clock me) b)) (partition_meta b t p) (partition_meta a t p)) as Htick'.
  { intros t p. change (partition_meta b t p) with (partition_meta b3 t p). destruct (Htick t p); constructor. by apply (ticked_ext (alive_at (clock me) b3)). }
  assert (changed = true) as ->.
  { destruct changed; [done|]. specialize (Htick' t0 p0). specialize (Hsame eq_refl).
    assert (partition_meta a t0 p0 = partition_meta b t0 p0) as E by (unfold partition_meta; by rewrite Hsame).
    rewrite E, Hpm0 in Htick'. inversion Htick' as [? ? Hp|]; subst.
    destruct (tk_alive _ _ _ Hp Hlive) as [Ha _]. congruence. }
  assert (cluster a = cluster b3) as Hcl by apply (sb_cluster _ _ Hs).
  assert (∀ addr c, (<[me := a]> (<[me := b3]> w2)) !! addr = Some c → addr ≠ me →
    ∃ b', w !! addr = Some b' ∧ seen_frame b' c ∧ IsAlive (clock addr) (cfg_ID (cfg b)) (cluster c) = true) as Hoth.
  { intros addr c Hcc Hne. rewrite !lookup_insert_ne in Hcc by done.
    destruct (Hdom2 addr) as [c0 Hc0]; [by eexists|]. rewrite lookup_insert_ne in Hc0 by done.
    destruct (Hall2 addr c0) as (c1 & Hc1 & Hfr & Ha); [by rewrite lookup_insert_ne|].
    assert (c1 = c) as -> by congruence. exists c0. split_and!; [done..|]. apply Ha, Hpeers; [by eexists|done]. }
  exists a, (<[me := a]> (<[me := b3]> w2)). split_and!; [split| | | | |]; try done.
  - by rewrite (sb_cfg _ _ Hs).
  - by rewrite Hcl.
  - apply lookup_insert_eq.
  - intros addr c Hcc Hne. destruct (Hoth addr c Hcc Hne) as (b' & ? & ? & _). by exists b'.
  - intros addr c Hcc Hne. destruct (Hoth addr c Hcc Hne) as (b' & Hb' & Hfr & Ha).
    destruct (Hknown addr b' Hb' Hne) as (? & _ & ? & ?). by eapply seen_subject.
  - intros addr [c Hcc]. destruct (decide (addr = me)) as [->|Hne]; [by eexists|].
    destruct (Hoth addr c Hcc Hne) as (b' & ? & _). by eexists.
  - unfold OtherPeers, All. by rewrite Hcl.
  - unfold net_tick, tick_with. cbv zeta.
    rewrite (bind_Ok _ _ w tt (<[me := b1]> w)) by (by apply (here_run _ _ _ b)). rewrite (bind_Ok _ _ _ _ _ Hrun2).
    rewrite (bind_Ok _ _ w2 tt (<[me := b3]> w2)) by (apply (here_run _ _ _ b1); [done|reflexivity]).
    rewrite (bind_Ok _ _ _ _ _ (here_get me _ b3 (lookup_insert_eq _ _ _))).
    assert (IsController (clock me) (cluster b3) = true) as ->.
    { cbn. rewrite <- Hid. by rewrite IsController_mark_self. }
    rewrite bind_bind, (bind_Ok _ _ _ _ _ (here_run me _ _ b3 true a (lookup_insert_eq _ _ _) Hrun4)).
    cbv beta. rewrite bind_bind. apply bind_ext. intros ? w'. by rewrite bind_bind.
Qed.

(** The whole tick. *)
Lemma net_tick_run me w b :
  in_charge me w b → leader_lost me b →
  ∃ loops a w0 w', net_tick clock disk_ok me w = (Ok loops, w') ∧ chosen me w b a w0 ∧ spread me a w0 w'.
Proof.
  intros Hic Hlost. destruct (choose_run me w b Hic Hlost) as (a & w0 & Hch & Hled & Hsub & Hdom & Hoth & Hrun).
  pose proof Hch as [Hcfg Hpe Hok Ha Hcount Htick Hothers].
  assert (me ∉ (Addr <$> OtherPeers (cluster a))) as Hself by (rewrite Hoth; apply Hic).
  assert (∀ addr, is_Some (w0 !! addr) → addr ≠ me → addr ∈ (Addr <$> OtherPeers (cluster a))) as Hpeers.
  { intros addr Hd Hne. rewrite Hoth. eapply ic_peers; eauto. }
  destruct (spread_first clock disk_ok me a w0 Ha Hok Hsub Hself Hpeers) as (w1 & Hrun1 & Hme1 & Hsp1).
  assert (flagged (ensureOffsetsTopic disk_ok) a = (Ok false, a)) as Hens.
  { destruct (ic_offsets _ _ _ Hic) as [tm Htm]. specialize (Hcount offsetsTopic). rewrite Htm in Hcount.
    unfold flagged, act, ensureOffsetsTopic, topic. by destruct (topics a !! offsetsTopic). }
  destruct (spread_step me a w0 w1 a _ false a Hsp1 Hme1 Hens (reflexivity a)) as [Hrun2 Hsp2].
  destruct (recompute_each_run (clock me) disk_ok (all_partitions (snapshotTopics a)) a Hok Hled)
    as (changed & a' & Hrec & Hsame).
  destruct (spread_step me a w0 _ a (recomputeAllHW (clock me) disk_ok) changed a' Hsp2 (lookup_insert_eq _ _ _))
    as [Hrun3 Hsp3]; [done|done|].
  destruct (spread_pushes clock disk_ok me a w0 _ changed Hsub Hok Hself Hpeers Hsp3) as (w4 & Hrun4 & Hme4 & Hsp4).
  rewrite lookup_insert_eq in Hme4.
  destruct (spread_step me a w0 w4 a' (act (λ b, let '(started, b) := syncFollowers b in (Ok started, b)))
    (fst (syncFollowers a')) (snd (syncFollowers a')) Hsp4 Hme4) as [Hrun5 Hsp5]; [done| |].
  { split; [by split|by apply metadata_ok_same|done..]. }
  do 4 eexists. split; [|split; [exact Hch|exact Hsp5]].
  rewrite Hrun, (bind_Ok _ _ _ _ _ Hrun1), (bind_Ok _ _ _ _ _ Hrun2).
  rewrite (bind_Ok _ _ _ _ _ (eq_refl : (mret tt : M _ _) _ = (Ok tt, _))), (bind_Ok _ _ _ _ _ Hrun3).
  by rewrite (bind_Ok _ _ _ _ _ Hrun4).
Qed.

Lemma find_partition_In ps p : NoDup (p_ID <$> ps) → p ∈ ps → find_partition ps (p_ID p) = Some p.
Proof.
  unfold find_partition. induction ps as [|q ps IH]; intros Hnd Hp; [by apply elem_of_nil in Hp|].
  rewrite fmap_cons in Hnd. apply NoDup_cons in Hnd as [Hq Hnd]. rewrite filter_cons.
  apply elem_of_cons in Hp as [->|Hp]; [by rewrite decide_True|]. rewrite decide_False; [by apply IH|].
  intros E. apply Hq. rewrite E. by apply list_elem_of_fmap_2.
Qed.

(** What the brokers are like afterwards. *)
Lemma spread_all me w b a w0 w' addr b' :
  w !! me = Some b → chosen me w b a w0 → spread me a w0 w' → w' !! addr = Some b' →
  has_leaders a b' ∧
  ∃ b0, w !! addr = Some b0 ∧ cfg b' = cfg b0 ∧ Peers (cluster b') = Peers (cluster b0).
Proof.
  intros Hb Hch [Hdom (bm & Hbm & Hsame) Hoth] Hb'. destruct (decide (addr = me)) as [->|Hne].
  - assert (bm = b') as -> by congruence. split; [by apply same_has_leaders|]. exists b.
    destruct (sl_broker _ _ Hsame) as [-> -> _]. destruct Hch. done.
  - destruct (Hdom addr) as [b1 Hb1]; [by eexists|]. destruct (Hoth addr b1 Hb1 Hne) as (b2 & Hb2 & Hfr & Hl).
    assert (b2 = b') as -> by congruence. split; [done|].
    destruct (ch_others _ _ _ _ _ Hch addr b1 Hb1 Hne) as (b0 & Hb0 & Hseen). exists b0. split; [done|].
    by rewrite (mf_cfg _ _ Hfr), (mf_cluster _ _ Hfr), (sf_cfg _ _ Hseen), (sf_peers _ _ Hseen).
Qed.

(** C12: failover. When the broker in charge believes the leader of some partition
    dead, one tick of it, heartbeats, controller tick, pushes and recomputed high
    watermarks included, ends without an error and leaves every running broker
    with the same leader for every partition of every topic; a partition with a
    live replica has a live leader among its replicas, and a live leader is
    replaced by the preferred replica only. Addresses are as before, so that keyed
    produce requests to any broker reach the new leaders. *)
Theorem failover_elects_live_leaders me w b t tm
    (Hcharge : in_charge me w b) (Hlost : leader_lost me b)
    (Htm : topics b !! t = Some tm) (Hids : p_ID <$> t_Partitions tm = seqZ 0 (Zlength (t_Partitions tm))) :
  let n := Zlength (t_Partitions tm) in
  ∃ loops w' lead, net_tick clock disk_ok me w = (Ok loops, w') ∧ agreed w' t n lead ∧
    (∀ p, p ∈ t_Partitions tm →
       let alive id := alive_at (clock me) b id = true in
       lead (p_ID p) ∈ p_Replicas p ∧
       (Exists alive (p_Replicas p) → alive (lead (p_ID p))) ∧
       (alive (p_Leader p) → lead (p_ID p) = p_Leader p ∨ head (p_Replicas p) = Some (lead (p_ID p)))) ∧
    (∀ leader_at, addressed w n lead leader_at → addressed w' n lead leader_at) ∧
    (∀ addr b', w' !! addr = Some b' → is_Some (w !! addr)).
Proof.
  intros n. destruct (net_tick_run me w b Hcharge Hlost) as (loops & a & w0 & w' & Hrun & Hch & Hsp).
  pose proof (ic_here _ _ _ Hcharge) as Hme.
  assert (∀ p, p ∈ t_Partitions tm → ∃ p', partition_meta a t (p_ID p) = Some p' ∧ ticked (alive_at (clock me) b) p p') as Hpart.
  { intros p Hp. pose proof (ch_ticked _ _ _ _ _ Hch t (p_ID p)) as Ht.
    assert (partition_meta b t (p_ID p) = Some p) as Epm.
    { unfold partition_meta. rewrite Htm. apply find_partition_In; [|done]. rewrite Hids. apply NoDup_seqZ. }
    rewrite Epm in Ht. inversion Ht as [? p' Hp' E1 E2|]; subst. by exists p'. }
  exists loops, w', (λ pid, default 0 (p_Leader <$> partition_meta a t pid)).
  assert (∃ ta, topics a !! t = Some ta ∧ length (t_Partitions ta) = Z.to_nat n) as (ta & Hta & Hlen).
  { pose proof (ch_counts _ _ _ _ _ Hch t) as E. rewrite Htm in E. destruct (topics a !! t) as [ta|]; [|done].
    exists ta. split; [done|]. injection E as E. unfold compose in E. rewrite E. unfold n, Zlength. lia. }
  split_and!; [done| | | |].
  - split.
    + intros addr b' Hb'. destruct (spread_all _ _ _ _ _ _ _ _ Hme Hch Hsp Hb') as [Hl _].
      destruct (Hl t ta Hta) as [-> _]. by rewrite Hlen.
    + intros addr b' pid Hb' Hp. destruct (spread_all _ _ _ _ _ _ _ _ Hme Hch Hsp Hb') as [Hl _].
      destruct (Hl t ta Hta) as [_ ->].
      assert (pid ∈ p_ID <$> t_Partitions tm) as (p & -> & Hin)%list_elem_of_fmap.
      { rewrite Hids. by apply elem_of_seqZ. }
      by destruct (Hpart p Hin) as (p' & -> & _).
  - intros p Hin alive. destruct (Hpart p Hin) as (p' & -> & Htk). cbn. split_and!.
    + destruct (tk_ok _ _ _ Htk) as [_ _ Hsub Hl]. rewrite <- (tk_replicas _ _ _ Htk). by apply Hsub.
    + intros He. by apply (tk_alive _ _ _ Htk).
    + apply (tk_stays _ _ _ Htk).
  - intros leader_at Had. split; intros addr b' pid Hb' Hp;
      destruct (spread_all _ _ _ _ _ _ _ _ Hme Hch Hsp Hb') as (_ & b0 & Hb0 & Ec & Epeers).
    + unfold peer_addr. rewrite Epeers. exact (ad_leader _ _ _ _ Had addr b0 pid Hb0 Hp).
    + rewrite Ec. exact (ad_self _ _ _ _ Had addr b0 pid Hb0 Hp).
  - intros addr b' Hb'. destruct (spread_all _ _ _ _ _ _ _ _ Hme Hch Hsp Hb') as (_ & b0 & Hb0 & _). by eexists.
Qed.
End controller.

(** ** A leader dies *)

(** Broker 1 of three is gone; it led partition 0. Broker 2 is in charge and has
    heard from broker 3. *)
Definition failover_peers : list Peer :=
  [{| ID := 1; Addr := "a:9092" |}; {| ID := 2; Addr := "b:9092" |}; {| ID := 3; Addr := "c:9092" |}].
Definition failover_topics : gmap string topicMeta :=
  {["orders"%string := MkTopic "orders" [MkPart 0 1 [1; 2] [1; 2]; MkPart 1 3 [3; 2] [3; 2]];
    offsetsTopic := MkTopic offsetsTopic [MkPart 0 2 [2; 3] [2; 3]]]}.
Definition failover_broker (id : Z) (addr : string) : Broker (log * disk) disk :=
  set_log "orders/0" (start_state small_cfg) $ set_log "orders/1" (start_state small_cfg) $
  set_log "__consumer_offsets/0" (start_state small_cfg) $
  MkBroker _ _ (with_defaults (MkConfig id "" addr "" failover_peers 0 0 0 0 0 0 0 0 0))
    (MarkSeen (9 * second) (5 - id) (Cluster.New 0 {| ID := id; Addr := addr |} failover_peers 0))
    (Store.New "data" 0 1048576 4096 ∅) (Coordinator.New ∅ 0 0 None) {| rr := 0 |} failover_topics [] ∅ ∅.
Definition failover_net : gmap string (Broker (log * disk) disk) :=
  {["b:9092"%string := failover_broker 2 "b:9092"; "c:9092"%string := failover_broker 3 "c:9092"]}.

Lemma failover_net_inv addr b :
  failover_net !! addr = Some b →
  (addr = "b:9092"%string ∧ b = failover_broker 2 "b:9092") ∨ (addr = "c:9092"%string ∧ b = failover_broker 3 "c:9092").
Proof.
  unfold failover_net. rewrite lookup_insert_Some, lookup_singleton_Some. intros [[<- <-]|(_ & <- & <-)]; auto.
Qed.

Lemma failover_logs t p pm : partition_meta (failover_broker 2 "b:9092") t p = Some pm →
  ∃ l recs, log_at (failover_broker 2 "b:9092") (store_key t p) = Some l ∧ log_contents l recs.
Proof.
  intros Hpm. exists (start_state small_cfg), []. split; [|apply start_holds].
  unfold partition_meta in Hpm. destruct (topics _ !! t) as [tm|] eqn:Ht; [|done].
  apply find_partition_Some in Hpm as [Hin <-]. change (failover_topics !! t = Some tm) in Ht.
  unfold failover_topics in Ht. rewrite lookup_insert_Some, lookup_singleton_Some in Ht.
  destruct Ht as [[<- <-]|(_ & <- & <-)]; cbn [t_Partitions] in Hin;
    repeat (apply elem_of_cons in Hin as [->|Hin]; [by vm_compute|]); by apply elem_of_nil in Hin.
Qed.

Lemma failover_in_charge : in_charge (λ _, 10 * second) "b:9092" failover_net (failover_broker 2 "b:9092").
Proof.
  split.
  - reflexivity.
  - apply metadata_ok_check. by vm_compute.
  - reflexivity.
  - discriminate.
  - by vm_compute.
  - intros t p pm Hpm _. by eapply failover_logs.
  - apply (bool_decide_unpack _). vm_compute. exact I.
  - apply (bool_decide_unpack _). vm_compute. exact I.
  - intros addr [b Hb] Hne. apply failover_net_inv in Hb as [[-> _]|[-> _]]; [done|].
    apply (bool_decide_unpack _). vm_compute. exact I.
  - intros addr b [[-> _]|[-> ->]]%failover_net_inv Hne; [done|].
    split; [apply MarkSeen_wf, New_wf|]. split; [reflexivity|]. split; [by eexists|reflexivity].
Qed.

Lemma failover_elects_live_leaders_witness :
  ∃ loops w' lead, net_tick (λ _, 10 * second) true "b:9092" failover_net = (Ok loops, w') ∧
    agreed w' "orders" 2 lead ∧ (lead 0 = 1 ∨ lead 0 = 2) ∧ lead 0 ≠ 1.
Proof.
  destruct (failover_elects_live_leaders (λ _, 10 * second) true "b:9092" failover_net (failover_broker 2 "b:9092") "orders"
    (MkTopic "orders" [MkPart 0 1 [1; 2] [1; 2]; MkPart 1 3 [3; 2] [3; 2]])) as (loops & w' & lead & Hrun & Hag & Hlead & _).
  - apply failover_in_charge.
  - exists "orders"%string, 0, (MkPart 0 1 [1; 2] [1; 2]). split; [reflexivity|]. split; [by vm_compute|].
    apply Exists_cons_tl, Exists_cons_hd. by vm_compute.
  - reflexivity.
  - reflexivity.
  - exists loops, w', lead. split; [exact Hrun|]. split; [exact Hag|].
    destruct (Hlead (MkPart 0 1 [1; 2] [1; 2])) as (Hin & Halive & _); [by left|]. cbn [p_ID p_Replicas] in *.
    assert (alive_at (10 * second) (failover_broker 2 "b:9092") (lead 0) = true) as Ha.
    { apply Halive, Exists_cons_tl, Exists_cons_hd. by vm_compute. }
    rewrite !elem_of_cons, elem_of_nil in Hin. destruct Hin as [E|[E|[]]]; rewrite E in Ha |- *; [by vm_compute in Ha|by auto].
Defined.
