(* ===== verification/Divergence.v ===== *)
(** A concrete run of three brokers in which a record acknowledged with acks=all
    by the whole ISR is lost when a member of the ISR takes over, since a
    follower that is ahead of a new leader never drops what the leader does not
    have. *)
From S2P Require Import Prelude GoStrings Bytes RecordFmt Disk CommitLog LogRep LogOpen LogRead LogInterface.
From S2P Require Import Assignor Coordinator Partitioner Cluster Store Wire BrokerState Metadata Client Replica Produce.
From S2P Require Import Handlers Net Follow Background Failover.
Open Scope Z_scope.

(** Brokers 1, 2 and 3 as they start, all in sync on the empty partition 0 of
    "orders", which broker 1 leads. *)
Definition trio_topics : list topicMeta := [MkTopic "orders" [MkPart 0 1 [1; 2; 3] [1; 2; 3]]].
Definition trio_broker (id : Z) (addr : string) : option (Broker (log * disk) disk) :=
  match broker_New 0 (MkConfig id "" addr "data" failover_peers 0 0 0 0 0 0 0 0 0) ∅
    [("orders"%string, ["0"%string])] ∅ (inl trio_topics) with
  | Ok b => Some b
  | _ => None
  end.

Abbreviation net := (gmap string (Broker (log * disk) disk)).

Definition trio_net : net :=
  omap (λ x : Z * string, trio_broker (fst x) (snd x))
    {["a:9092"%string := (1, "a:9092"%string); "b:9092"%string := (2, "b:9092"%string); "c:9092"%string := (3, "c:9092"%string)]}.

(** A tick of one broker, a round of a follower, a produce request, and the ISR
    by one broker's account, at some time in tenths of a second. *)
Definition at_tenths (n : Z) : Z := n * 100000000.
Definition ticks (n : Z) (addr : string) : M net (list (string * Z * Z)) := net_tick (λ _, at_tenths n) true addr.
Definition follows (n : Z) (addr : string) : M net round :=
  follow_round (λ _, ""%string) (quiet_iteration (at_tenths n)) addr "orders" 0.
Definition produces (n : Z) (addr acks : string) (value : bytes) : M net (option (reply ProduceResponse)) :=
  net_produce (λ _, ""%string) 3 (λ _, env_at (at_tenths n)) (single "orders" [x61] value acks) addr.
Definition isr_at (addr : string) : M net (option (list Z)) :=
  w ← gets id; mret (w !! addr ≫= λ b, p_ISR <$> partition_meta b "orders" 0).
Definition dies (addr : string) : M net unit := modify (delete addr).

(** Broker 1 appends a record that only broker 3 copies, and dies. *)
Definition first_era : M net (option (list Z)) :=
  ticks 10 "a:9092";; ticks 10 "b:9092";; ticks 10 "c:9092";;
  follows 11 "b:9092";; follows 11 "c:9092";;
  produces 12 "a:9092" "1" [x01];;
  follows 13 "c:9092";;
  isr ← isr_at "a:9092";
  dies "a:9092";;
  mret isr.

(** Broker 2 takes over and acknowledges another record with acks=all. *)
Definition second_era : M net (option (list Z) * option (reply ProduceResponse) * option (list Z)) :=
  ticks 30 "b:9092";; ticks 30 "c:9092";; ticks 44 "c:9092";; ticks 45 "b:9092";;
  follows 46 "c:9092";;
  isr ← isr_at "b:9092";
  r ← produces 47 "b:9092" "all" [x02];
  follows 48 "c:9092";;
  isr' ← isr_at "b:9092";
  mret (isr, r, isr').

(** Broker 2 dies, broker 3 takes over, and a consumer reads from the start. *)
Definition third_era : M net (option fetch_answer) :=
  dies "b:9092";;
  ticks 80 "c:9092";;
  at_broker "c:9092" (serveFetch no_proxy "orders" 0 0 0 false).

Definition eras : M net _ :=
  isr ← first_era;
  r ← second_era;
  read ← third_era;
  mret (isr, r, read).

(** A record acknowledged with acks=all is lost although every leader comes
    from the ISR and no network partition happens. Broker 1 has all three brokers
    in its ISR; broker 3 copies a record that broker 2 does not yet have, and
    broker 1 dies. Broker 2 takes over; the fetches of broker 3, which is ahead,
    bring nothing, but its acks count: the next record, at the same offset, is
    acknowledged with acks=all while the ISR is 2 and 3. Broker 3 keeps its own
    record, and when broker 2 dies and broker 3 takes over, a consumer gets that
    one in place of the acknowledged record. *)
Theorem diverged_replica_loses_acknowledged_record :
  fst (eras trio_net) = Ok (Some [1; 2; 3], (Some [2; 3], accepted, Some [2; 3]),
    Some (Fetched (MkFetch "orders" 0 1 1 (toWire [first_record (at_tenths 12) [x01]])))).
Proof. vm_compute. reflexivity. Qed.
