(* ===== verification/Routes.v ===== *)
(** From a client's call to the handler that serves it: the routes of
    [Broker.Start] ([internal/broker/broker.go]) in [net/http]'s mux, the requests
    the client sends ([internal/client/client.go]), the query parameters the
    handlers read, and the request [forwardGroup] ([handlers.go]) sends on. *)
From S2P Require Import Prelude GoStrings GoPath GoURL Bytes Wire Produce.
Open Scope Z_scope.

(** ** The mux *)

Inductive route :=
  | Health | GetMetadata | CreateTopic | ProduceRecords | FetchRecords
  | Join | Sync | Heartbeat | Leave | CommitOffsets | FetchOffsets
  | PeerHeartbeat | MetadataPush | ReplicaFetch | ReplicaAck.

Inductive segment := Lit (s : string) | Wild.

(** Method, path and handler, in the order of [Start]; no path is a special case
    of another's. *)
Definition patterns : list (string * list segment * route) := [
  ("GET", [Lit "health"], Health);
  ("GET", [Lit "metadata"], GetMetadata);
  ("POST", [Lit "topics"], CreateTopic);
  ("POST", [Lit "produce"], ProduceRecords);
  ("GET", [Lit "fetch"], FetchRecords);
  ("POST", [Lit "groups"; Wild; Lit "join"], Join);
  ("POST", [Lit "groups"; Wild; Lit "sync"], Sync);
  ("POST", [Lit "groups"; Wild; Lit "heartbeat"], Heartbeat);
  ("POST", [Lit "groups"; Wild; Lit "leave"], Leave);
  ("POST", [Lit "groups"; Wild; Lit "offsets"], CommitOffsets);
  ("GET", [Lit "groups"; Wild; Lit "offsets"], FetchOffsets);
  ("POST", [Lit "internal"; Lit "heartbeat"], PeerHeartbeat);
  ("POST", [Lit "internal"; Lit "metadata"], MetadataPush);
  ("GET", [Lit "internal"; Lit "replica"; Lit "fetch"], ReplicaFetch);
  ("POST", [Lit "internal"; Lit "replica"; Lit "ack"], ReplicaAck)]%string.

(** The wildcards' values. *)
Fixpoint match_segments (pat : list segment) (segs : list chars) : option (list string) :=
  match pat, segs with
  | [], [] => Some []
  | Lit s :: pat, x :: segs => if bool_decide (to_chars s = x) then match_segments pat segs else None
  | Wild :: pat, x :: segs => cons (of_chars x) <$> match_segments pat segs
  | _, _ => None
  end.

(** "GET" also serves "HEAD". *)
Definition method_matches (pat method : string) : bool :=
  bool_decide (pat = method) || bool_decide (pat = "GET"%string) && bool_decide (method = "HEAD"%string).

Fixpoint find_route (ps : list (string * list segment * route)) (method : option string) (segs : list chars) :
    option (route * list string) :=
  match ps with
  | [] => None
  | (m, pat, r) :: ps =>
    if match method with None => true | Some method => method_matches m method end then
      match match_segments pat segs with
      | Some vs => Some (r, vs)
      | None => find_route ps method segs
      end
    else find_route ps method segs
  end.

Definition cleanPath (p : chars) : chars :=
  let p := match p with [] => [slash] | c :: _ => if Ascii.eqb c slash then p else slash :: p end in
  let np := to_chars (Clean (of_chars p)) in
  if bool_decide (last p = Some slash) && negb (bool_decide (np = [slash])) then np ++ [slash] else np.

(** The segments of an escaped path, each unescaped where it can be. *)
Definition segments (p : chars) : list chars :=
  (λ s, default s (unescape encodePath s)) <$> tail (split_at slash p).

Inductive answer :=
  | Handled (r : route) (wildcards : list string) (query : string)
  | MovedPermanently (location : chars)
  | NotFound
  | MethodNotAllowed
  | BadRequest.

(** The server, for the target in the request line. *)
Definition serve (method : string) (target : chars) : answer :=
  if existsb (Ascii.eqb " ") target then BadRequest else
  match ParseRequestURI target with
  | None => BadRequest
  | Some u =>
    let escaped := EscapedPath u in
    let path := cleanPath escaped in
    if bool_decide (path = escaped) then
      match find_route patterns (Some method) (segments path) with
      | Some (r, vs) => Handled r vs (of_chars (u_RawQuery u))
      | None => match find_route patterns None (segments path) with
                | Some _ => MethodNotAllowed
                | None => NotFound
                end
      end
    else MovedPermanently (with_query (escape encodePath path) (u_RawQuery u))
  end.

(** ** Requests *)

(** [http.NewRequest] and [http.Client.Do] for a path at some host; [None] when
    the URL is not valid. A redirect is followed with a GET, ten times at most. *)
Fixpoint send (hops : nat) (method : string) (path : chars) : option answer :=
  match Parse path with
  | None => None
  | Some u =>
    match hops, serve method (RequestURI u) with
    | S hops, MovedPermanently location =>
      send hops (if bool_decide (method = "HEAD"%string) then method else "GET") location
    | _, a => Some a
    end
  end.

Definition Do (method : string) (path : chars) : option answer := send 10 method path.

(** *** The client *)

Inductive call :=
  | c_Health
  | c_Metadata
  | c_CreateTopic
  | c_Produce
  | c_Fetch (topic : string) (partition offset maxBytes : Z) (replica : bool)
  | c_Join (group : string)
  | c_Sync (group : string)
  | c_Heartbeat (group : string)
  | c_Leave (group : string)
  | c_CommitOffsets (group : string)
  | c_FetchOffsets (group topic : string)
  | c_PeerHeartbeat
  | c_PushMetadata
  | c_ReplicaAck.

(** The query of [Fetch], in the order of its keys. *)
Definition fetch_query (topic : string) (partition offset maxBytes : Z) (replica : bool) : chars :=
  Encode ([("max_bytes"%string, Itoa maxBytes); ("offset"%string, Itoa offset); ("partition"%string, Itoa partition)] ++
          (if replica then [("replica", "1")%string] else []) ++ [("topic"%string, topic)]).

Definition group_path (group action : string) : chars :=
  to_chars "/groups/" ++ PathEscape group ++ to_chars ("/" +:+ action).

(** The posts to a group: [Join], [Sync], [Heartbeat], [Leave], [CommitOffsets]. *)
Definition group_post (group action : string) : string * chars := ("POST"%string, group_path group action).

Definition fetch_offsets_request (group topic : string) : string * chars :=
  ("GET"%string, group_path group "offsets" ++
    (if bool_decide (topic = ""%string) then [] else to_chars "?topic=" ++ QueryEscape topic)).

(** Method and path, with the query, of each call. *)
Definition client_request (c : call) : string * chars :=
  match c with
  | c_Health => ("GET"%string, to_chars "/health")
  | c_Metadata => ("GET"%string, to_chars "/metadata")
  | c_CreateTopic => ("POST"%string, to_chars "/topics")
  | c_Produce => ("POST"%string, to_chars "/produce")
  | c_Fetch t p off n r => ("GET"%string, to_chars "/fetch?" ++ fetch_query t p off n r)
  | c_Join g => group_post g "join"
  | c_Sync g => group_post g "sync"
  | c_Heartbeat g => group_post g "heartbeat"
  | c_Leave g => group_post g "leave"
  | c_CommitOffsets g => group_post g "offsets"
  | c_FetchOffsets g t => fetch_offsets_request g t
  | c_PeerHeartbeat => ("POST"%string, to_chars "/internal/heartbeat")
  | c_PushMetadata => ("POST"%string, to_chars "/internal/metadata")
  | c_ReplicaAck => ("POST"%string, to_chars "/internal/replica/ack")
  end.

(** *** The parameters the handlers read *)

(** Topic, partition, offset, byte limit and whether a replica asks; [None] is 0. *)
Definition fetch_params (query : string) : string * Z * Z * Z * bool :=
  let q := ParseQuery (to_chars query) in
  (Get "topic" q, number (Get "partition" q), number (Get "offset" q), number (Get "max_bytes" q),
   bool_decide (Get "replica" q = "1"%string)).

(** A produce request whose body is not JSON is read from the query; [None] is a
    [400]. *)
Definition produce_from_query (query : string) : option ProduceRequest :=
  let q := ParseQuery (to_chars query) in
  if bool_decide (Get "topic" q = ""%string) then None else
  Some (MkProduceRequest (Get "topic" q) 0 (string_bytes (Get "key" q)) (string_bytes (Get "value" q)) (Get "acks" q) []).

(** *** A group request sent on to the controller *)

(** The URL is rebuilt from the decoded path. *)
Definition forward_path (u : URL) : chars := with_query (u_Path u) (u_RawQuery u).

(** A group request to a broker that is not the controller; [None] is a [502]. *)
Definition forwarded (method : string) (path : chars) : option answer :=
  match Parse path with
  | None => None
  | Some u => u ← ParseRequestURI (RequestURI u); Do method (forward_path u)
  end.

(** ** Encoded paths *)

(** Characters of an escaped path or query. *)
Definition target_char (c : ascii) : bool := negb (is_ctl c) && negb (one_of " #" c).
Definition path_char (c : ascii) : bool :=
  target_char c && negb (Ascii.eqb c "?") && valid_char c.

(** [e] is a path element and decodes to [raw]. *)
Record encoded (e raw : chars) : Prop := {
  en_simple : simple_name e;
  en_chars : Forall path_char e;
  en_raw : unescape encodePath e = Some raw
}.

Definition rooted (es : list chars) : chars := slash :: join_with slash es.

Lemma unescape_app m a a' b : unescape m a = Some a' → unescape m (a ++ b) = (a' ++.) <$> unescape m b.
Proof.
  assert (∀ n a a', (length a ≤ n)%nat → unescape m a = Some a' → unescape m (a ++ b) = (a' ++.) <$> unescape m b) as H.
  { clear a a'. induction n as [|n IH]; intros [|c a] a' Hn; cbn [length] in Hn; try lia; cbn [unescape app];
      try (intros [= <-]; by destruct (unescape m b)).
    destruct (Ascii.eqb c "%").
    - destruct a as [|x [|y a]]; [done..|]. cbn [app length] in *. destruct (unhex x), (unhex y); try done.
      destruct (unescape m a) as [r|] eqn:E; [|done]. intros [= <-]. rewrite (IH a r) by (done || lia).
      by destruct (unescape m b).
    - destruct (unescape m a) as [r|] eqn:E; [|done]. intros [= <-]. rewrite (IH a r) by (done || lia).
      by destruct (unescape m b). }
  by apply (H (length a)).
Qed.

Lemma unescape_rooted es raws :
  Forall2 encoded es raws → unescape encodePath (rooted es) = Some (rooted raws).
Proof.
  unfold rooted. intros Hall. cbn [unescape]. change (Ascii.eqb slash "%") with false. cbv iota. cbn [plus_char].
  assert (unescape encodePath (join_with slash es) = Some (join_with slash raws)) as ->; [|done].
  induction Hall as [|e r es raws He Hall IH]; [done|]. pose proof (en_raw _ _ He) as Hr.
  destruct Hall as [|e' r' es raws He' Hall]; [done|].
  change (join_with slash (e :: e' :: es)) with (e ++ slash :: join_with slash (e' :: es)).
  rewrite (unescape_app _ _ _ _ Hr). cbn [unescape]. change (Ascii.eqb slash "%") with false. cbv iota.
  by rewrite IH.
Qed.

Lemma rooted_chars es raws : Forall2 encoded es raws → Forall path_char (rooted es).
Proof.
  intros Hall. constructor; [done|]. induction Hall as [|e r es raws He Hall IH]; [constructor|].
  pose proof (en_chars _ _ He) as Hc. destruct Hall as [|e' r' es raws He' Hall]; [done|].
  change (join_with slash (e :: e' :: es)) with (e ++ slash :: join_with slash (e' :: es)).
  apply Forall_app_2; [done|]. by constructor.
Qed.

Lemma Forall_absent (P : ascii → bool) c l : Forall P l → P c = false → c ∉ l.
Proof. intros Hall Hc Hin. rewrite Forall_forall in Hall. specialize (Hall c Hin). by rewrite Hc in Hall. Qed.

Lemma Forall_existsb (P : ascii → bool) f l : Forall P l → (∀ c, P c → f c = false) → existsb f l = false.
Proof. intros Hall Hf. induction Hall as [|c l Hc _ IH]; [done|]. cbn. by rewrite Hf, IH. Qed.

Lemma path_target c : path_char c → target_char c.
Proof. unfold path_char. intros [[? _]%andb_prop_elim _]%andb_prop_elim. done. Qed.

Lemma target_not_ctl c : target_char c → is_ctl c = false.
Proof. unfold target_char. by destruct (is_ctl c). Qed.

Lemma target_not_space c : target_char c → Ascii.eqb " " c = false.
Proof. destruct (Ascii.eqb_spec " " c) as [<-|]; [by vm_compute|done]. Qed.

Lemma with_query_chars es raws q :
  Forall2 encoded es raws → Forall target_char q → Forall target_char (with_query (rooted es) q).
Proof.
  intros Hall Hq. assert (Forall target_char (rooted es)) as Hr.
  { eapply Forall_impl; [by eapply rooted_chars|apply path_target]. }
  unfold with_query. destruct q; [done|]. apply Forall_app_2; [done|]. by constructor.
Qed.

(** Such a target is parsed and printed back. *)
Lemma parse_encoded es raws q :
  Forall2 encoded es raws → Forall target_char q →
  ∃ u, ParseRequestURI (with_query (rooted es) q) = Some u ∧ EscapedPath u = rooted es ∧
    u_Path u = rooted raws ∧ u_RawQuery u = q.
Proof.
  intros Hall Hq. pose proof (rooted_chars _ _ Hall) as Hchars. pose proof (unescape_rooted _ _ Hall) as Hraw.
  exists (MkURL (rooted raws) (if bool_decide (rooted es = escape encodePath (rooted raws)) then [] else rooted es) q).
  split; [|split; [|done]].
  - unfold ParseRequestURI. rewrite (Forall_existsb target_char) by eauto using with_query_chars, target_not_ctl.
    assert ("?"%char ∉ rooted es) as Hno by (by eapply Forall_absent).
    assert (default (with_query (rooted es) q, []) (cut_at "?" (with_query (rooted es) q)) = (rooted es, q)) as ->.
    { unfold with_query. destruct q; [by rewrite cut_at_none|by rewrite cut_at_app]. }
    cbv beta iota. by rewrite Hraw.
  - unfold EscapedPath. cbn [u_RawPath u_Path]. destruct (bool_decide (rooted es = escape encodePath (rooted raws))) eqn:E.
    + apply bool_decide_eq_true in E. rewrite (bool_decide_true ([] = [])) by done. cbn [negb andb].
      by rewrite (bool_decide_false (rooted raws = ["*"%char])).
    + rewrite (bool_decide_false (rooted es = [])) by done.
      assert (validEncoded (rooted es) = true) as ->.
      { apply forallb_forall. intros c Hc%list_elem_of_In. rewrite Forall_forall in Hchars. specialize (Hchars c Hc).
        unfold path_char in Hchars. apply andb_prop_elim in Hchars as [_ Hc']. by apply Is_true_true. }
      by rewrite bool_decide_true.
Qed.

Lemma simple_names es raws : Forall2 encoded es raws → Forall simple_name es.
Proof. induction 1 as [|e r es raws He _ IH]; constructor; [apply He|done]. Qed.

Lemma split_rooted es : es ≠ [] → Forall simple_name es → split_at slash (rooted es) = [] :: es.
Proof.
  intros Hne Hes. unfold rooted. change (slash :: join_with slash es) with ([] ++ slash :: join_with slash es).
  rewrite split_at_app, split_join; [done|done| |apply not_elem_of_nil].
  eapply Forall_impl; [exact Hes|]. by intros e [].
Qed.

Lemma join_last es : es ≠ [] → Forall simple_name es → last (join_with slash es) ≠ Some slash ∧ join_with slash es ≠ [].
Proof.
  intros Hne Hes. induction Hes as [|e es He Hes IH]; [done|]. destruct He as (Hs & He & _).
  destruct es as [|e' es].
  - split; [|done]. intros Hl. apply Hs. by apply last_Some_elem_of.
  - destruct IH as [Hl Hn]; [done|]. change (join_with slash (e :: e' :: es)) with (e ++ slash :: join_with slash (e' :: es)).
    split; [|by destruct e]. rewrite last_app_cons. by destruct (join_with slash (e' :: es)).
Qed.

Lemma cleanPath_rooted es : es ≠ [] → Forall simple_name es → cleanPath (rooted es) = rooted es.
Proof.
  intros Hne Hes. destruct (join_last es Hne Hes) as [Hlast Hjoin].
  assert (to_chars (Clean (of_chars (rooted es))) = rooted es) as Hclean.
  { unfold Clean. cbv zeta. rewrite !to_of_chars. change (is_rooted (rooted es)) with true. cbv iota.
    unfold clean_elements. change (is_rooted (rooted es)) with true. rewrite split_rooted by done.
    change (foldl (clean_step true) [] ([] :: es)) with (foldl (clean_step true) [] es).
    rewrite clean_fold_simple by done.
    by rewrite app_nil_r, rev_involutive. }
  unfold cleanPath. change (match rooted es with [] => [slash] | c :: _ => if Ascii.eqb c slash then rooted es else slash :: rooted es end)
    with (rooted es). cbv zeta. rewrite Hclean.
  rewrite (bool_decide_false (last (rooted es) = Some slash)); [done|].
  unfold rooted. by destruct (join_with slash es).
Qed.

Lemma segments_rooted es raws : es ≠ [] → Forall2 encoded es raws → segments (rooted es) = raws.
Proof.
  intros Hne Hall. unfold segments. rewrite split_rooted by eauto using simple_names. cbn [tail]. clear Hne.
  induction Hall as [|e r es raws He _ IH]; [done|]. rewrite fmap_cons, IH. by rewrite (en_raw _ _ He).
Qed.

(** The server looks for a handler for the decoded elements. *)
Lemma serve_encoded m es raws q :
  es ≠ [] → Forall2 encoded es raws → Forall target_char q →
  serve m (with_query (rooted es) q) =
    match find_route patterns (Some m) raws with
    | Some (r, vs) => Handled r vs (of_chars q)
    | None => match find_route patterns None raws with Some _ => MethodNotAllowed | None => NotFound end
    end.
Proof.
  intros Hne Hall Hq. destruct (parse_encoded es raws q Hall Hq) as (u & Hu & He & _ & Hquery).
  unfold serve. rewrite (Forall_existsb target_char) by eauto using with_query_chars, target_not_space.
  rewrite Hu, He. cbv zeta. rewrite cleanPath_rooted by eauto using simple_names. rewrite bool_decide_true by done.
  by rewrite (segments_rooted es raws), Hquery.
Qed.

Lemma Parse_free l : "#"%char ∉ l → Parse l = ParseRequestURI l.
Proof. intros Hl. unfold Parse. by rewrite cut_at_none. Qed.

(** A request for an encoded path gets there. *)
Lemma send_encoded hops m es raws q r vs :
  es ≠ [] → Forall2 encoded es raws → Forall target_char q → find_route patterns (Some m) raws = Some (r, vs) →
  send (S hops) m (with_query (rooted es) q) = Some (Handled r vs (of_chars q)).
Proof.
  intros Hne Hall Hq Hroute. destruct (parse_encoded es raws q Hall Hq) as (u & Hu & He & _ & Hquery).
  cbn [send]. rewrite Parse_free, Hu.
  2:{ apply (Forall_absent target_char); [by eapply with_query_chars|done]. }
  assert (RequestURI u = with_query (rooted es) q) as -> by (unfold RequestURI; by rewrite He, Hquery).
  by rewrite (serve_encoded m es raws q Hne Hall Hq), Hroute.
Qed.

Lemma Do_encoded m es raws q r vs :
  es ≠ [] → Forall2 encoded es raws → Forall target_char q → find_route patterns (Some m) raws = Some (r, vs) →
  Do m (with_query (rooted es) q) = Some (Handled r vs (of_chars q)).
Proof. apply send_encoded. Qed.

(** ** The client's requests *)

(** A literal element of a pattern. *)
Definition literal (s : string) : bool := bool_decide (simple_name (to_chars s)) && forallb (λ c, is_alnum c) (to_chars s).

Lemma alnum_path c : is_alnum c = true → path_char c.
Proof. each_ascii c; vm_compute; done. Qed.

Lemma literal_encoded s : literal s = true → encoded (to_chars s) (to_chars s).
Proof.
  unfold literal. rewrite andb_true_iff, bool_decide_eq_true, forallb_forall. intros [Hs Hc].
  assert (∀ c, c ∈ to_chars s → is_alnum c = true) as Hal by (intros c ?%list_elem_of_In; by apply Hc).
  split; [done|apply Forall_forall; intros c Hin; by apply alnum_path, Hal|]. clear Hs Hc.
  induction (to_chars s) as [|c l IH]; [done|]. cbn [unescape].
  assert (Ascii.eqb c "%" = false) as ->.
  { destruct (Ascii.eqb_spec c "%") as [->|]; [|done]. specialize (Hal "%"%char ltac:(by left)). done. }
  rewrite IH; [done|]. intros x Hx. apply Hal. by right.
Qed.

(** Names that a path cannot carry as an element. *)
Definition special (g : string) : bool := existsb (String.eqb g) ["."; ".."; ""]%string.

Lemma not_special_chars g : special g = false → to_chars g ≠ [] ∧ to_chars g ≠ dot ∧ to_chars g ≠ dotdot.
Proof.
  intros Hg. by split_and!; intros E; apply (f_equal of_chars) in E; rewrite of_to_chars in E; rewrite E in Hg.
Qed.

Lemma escaped_encoded m x :
  x ≠ [] → x ≠ dot → x ≠ dotdot → same_plus m encodePath = true →
  Forall path_char (escape m x) → slash ∉ escape m x → encoded (escape m x) x.
Proof.
  intros H1 H2 H3 Hm Hchars Hslash. pose proof (unescape_escape m encodePath x Hm) as Hun. split; [|done|done].
  split; [done|]. split_and!; intros E; rewrite E in Hun; by injection Hun as Hun.
Qed.

Lemma PathEscape_encoded g : special g = false → encoded (PathEscape g) (to_chars g).
Proof.
  intros Hg. destruct (not_special_chars g Hg) as (H1 & H2 & H3). apply escaped_encoded; [done..| |].
  - apply escape_Forall, Forall_true. intros c. apply (bool_decide_unpack _). each_ascii c; vm_compute; exact I.
  - apply (Forall_absent (λ c, negb (Ascii.eqb c slash))); [|done].
    apply escape_Forall, Forall_true. intros c. apply (bool_decide_unpack _). each_ascii c; vm_compute; exact I.
Qed.

Lemma QueryEscape_chars s : Forall target_char (QueryEscape s).
Proof. apply escape_Forall, Forall_true. intros c. apply (bool_decide_unpack _). each_ascii c; vm_compute; exact I. Qed.

Lemma Encode_chars values : Forall target_char (Encode values).
Proof.
  unfold Encode. induction values as [|kv values IH]; [constructor|].
  assert (Forall target_char (encode_pair kv)) as Hkv.
  { unfold encode_pair. apply Forall_app_2; [apply QueryEscape_chars|]. constructor; [done|apply QueryEscape_chars]. }
  destruct values as [|kv' values]; [done|].
  change (join_with "&" (encode_pair <$> kv :: kv' :: values))
    with (encode_pair kv ++ "&"%char :: join_with "&" (encode_pair <$> kv' :: values)).
  apply Forall_app_2; [done|]. by constructor.
Qed.

(** The handler a call is meant for, the group it names and its query. *)
Definition intended (c : call) : route * list string :=
  match c with
  | c_Health => (Health, [])
  | c_Metadata => (GetMetadata, [])
  | c_CreateTopic => (CreateTopic, [])
  | c_Produce => (ProduceRecords, [])
  | c_Fetch _ _ _ _ _ => (FetchRecords, [])
  | c_Join g => (Join, [g])
  | c_Sync g => (Sync, [g])
  | c_Heartbeat g => (Heartbeat, [g])
  | c_Leave g => (Leave, [g])
  | c_CommitOffsets g => (CommitOffsets, [g])
  | c_FetchOffsets g _ => (FetchOffsets, [g])
  | c_PeerHeartbeat => (PeerHeartbeat, [])
  | c_PushMetadata => (MetadataPush, [])
  | c_ReplicaAck => (ReplicaAck, [])
  end.

(** What the handler reads from the query is what the caller gave. *)
Definition understood (c : call) (query : string) : Prop :=
  match c with
  | c_Fetch t p off n r =>
    is_i64 p → is_i64 off → is_i64 n → fetch_params query = (t, p, off, n, r)
  | c_FetchOffsets _ t => Get "topic" (ParseQuery (to_chars query)) = t
  | _ => query = ""%string
  end.

Fixpoint first_value (key : string) (values : list (string * string)) : string :=
  match values with
  | [] => ""
  | (k, v) :: values => if String.eqb k key then v else first_value key values
  end.

Lemma Get_fmap key values :
  Get key ((λ kv : string * string, (to_chars kv.1, to_chars kv.2)) <$> values) = first_value key values.
Proof.
  unfold Get. induction values as [|[k v] values IH]; [done|]. rewrite fmap_cons, filter_cons. cbn [fst snd first_value].
  destruct (String.eqb_spec k key) as [->|Hne].
  - rewrite decide_True by done. apply of_to_chars.
  - rewrite decide_False by (intros E; by apply Hne, to_chars_inj). exact IH.
Qed.

Lemma fetch_params_query t p off n r :
  is_i64 p → is_i64 off → is_i64 n → fetch_params (of_chars (fetch_query t p off n r)) = (t, p, off, n, r).
Proof.
  intros Hp Hoff Hn. unfold fetch_params, fetch_query. cbv zeta. rewrite to_of_chars.
  rewrite ParseQuery_Encode; [|done|].
  2:{ destruct r; cbn; repeat (constructor; [done|]); constructor. }
  rewrite !Get_fmap. destruct r; cbn -[number Itoa]; by rewrite !number_Itoa.
Qed.

Lemma offsets_topic_query t : Get "topic" (ParseQuery (to_chars "topic=" ++ QueryEscape t)) = t.
Proof.
  change (to_chars "topic=" ++ QueryEscape t) with (Encode [("topic"%string, t)]).
  rewrite ParseQuery_Encode; [|done|by repeat constructor]. rewrite Get_fmap. done.
Qed.

(** A group's path, with or without a query. *)
Lemma Do_group m g action q r :
  special g = false →
  literal action = true →
  find_route patterns (Some m) [to_chars "groups"; to_chars g; to_chars action] = Some (r, [of_chars (to_chars g)]) →
  Forall target_char q → Do m (with_query (group_path g action) q) = Some (Handled r [g] (of_chars q)).
Proof.
  intros Hg Ha Hr Hq. rewrite of_to_chars in Hr.
  apply (Do_encoded m [to_chars "groups"; PathEscape g; to_chars action] [to_chars "groups"; to_chars g; to_chars action]);
    [done| |done|done].
  constructor; [by apply literal_encoded|]. constructor; [by apply PathEscape_encoded|].
  constructor; [by apply literal_encoded|constructor].
Qed.

(** C18: the client and the brokers agree on the paths: every call of the client
    reaches the handler it is meant for, with the group it names, whatever the
    bytes of the name, other than the names ".", ".." and the empty one; and the
    query is read back, the topic, the numbers and the replica flag of a fetch and
    the topic of an offset fetch. *)
Theorem client_calls_reach_their_handlers c (Hc : Forall (λ g, special g = false) (intended c).2) :
  ∃ query, Do (client_request c).1 (client_request c).2 = Some (Handled (intended c).1 (intended c).2 query) ∧
    understood c query.
Proof.
  assert (∀ m g action r, special g = false →
    literal action = true →
    find_route patterns (Some m) [to_chars "groups"; to_chars g; to_chars action] = Some (r, [of_chars (to_chars g)]) →
    ∃ query, Do m (group_path g action) = Some (Handled r [g] query) ∧ query = ""%string) as Hgroup.
  { intros m g action r Hg Ha Hr. exists ""%string. split; [|done]. by apply (Do_group m g action [] r). }
  destruct c as [| | | |t p off n r|g|g|g|g|g|g t| | |]; cbn [intended fst snd client_request group_post fetch_offsets_request understood] in *.
  all: lazymatch type of Hc with
       | Forall _ [] => idtac
       | _ => apply Forall_inv in Hc; try (apply Hgroup; [exact Hc|vm_compute; reflexivity|reflexivity])
       end.
  all: lazymatch goal with
       | |- context [fetch_query] => idtac
       | |- context [QueryEscape] => idtac
       | _ => exists ""%string; split; [vm_compute; reflexivity|reflexivity]
       end.
  - exists (of_chars (fetch_query t p off n r)). split; [|by apply fetch_params_query].
    assert (to_chars "/fetch?" ++ fetch_query t p off n r = with_query (rooted [to_chars "fetch"]) (fetch_query t p off n r)) as ->
      by done.
    apply (Do_encoded "GET" [to_chars "fetch"] [to_chars "fetch"]); [done| |apply Encode_chars|done].
    constructor; [by apply literal_encoded|constructor].
  - destruct (decide (t = ""%string)) as [->|Hne].
    + rewrite bool_decide_true, app_nil_r by done. exists ""%string.
      split; [by apply (Do_group "GET" g "offsets" [] FetchOffsets)|by vm_compute].
    + rewrite bool_decide_false by done. exists (of_chars (to_chars "topic=" ++ QueryEscape t)).
      split; [|rewrite to_of_chars; apply offsets_topic_query].
      apply (Do_group "GET" g "offsets" (to_chars "topic=" ++ QueryEscape t) FetchOffsets); try done.
      apply Forall_app_2; [apply (bool_decide_unpack _); by vm_compute|apply QueryEscape_chars].
Qed.

Lemma client_calls_reach_their_handlers_witness :
  ∃ query, Do "GET" (client_request (c_FetchOffsets "a/b 50%" "x&y")).2 = Some (Handled FetchOffsets ["a/b 50%"%string] query) ∧
    Get "topic" (ParseQuery (to_chars query)) = "x&y"%string.
Proof. apply (client_calls_reach_their_handlers (c_FetchOffsets "a/b 50%" "x&y")). repeat constructor. Defined.

(** ** Group requests sent on *)

(** Characters that survive in a URL that is not escaped. *)
Definition plain_char (c : ascii) : bool := negb (is_ctl c) && negb (one_of "/?#%" c).

Record plain (x : chars) : Prop := {
  pl_simple : simple_name x;
  pl_chars : Forall plain_char x
}.

Lemma unescape_plain l : "%"%char ∉ l → unescape encodePath l = Some l.
Proof.
  induction l as [|c l IH]; [done|]. rewrite not_elem_of_cons. intros [Hc Hl]. cbn [unescape].
  destruct (Ascii.eqb_spec c "%") as [->|]; [done|]. by rewrite IH.
Qed.

Lemma rooted_absent c raws :
  Ascii.eqb c slash = false → plain_char c = false → Forall plain raws → c ∉ rooted raws.
Proof.
  intros Hc Hp Hraws. unfold rooted. rewrite not_elem_of_cons. split; [by intros ->|].
  induction Hraws as [|x raws [_ Hx] Hraws IH]; [apply not_elem_of_nil|].
  pose proof (Forall_absent plain_char c x Hx Hp) as Hx'. destruct raws as [|y raws]; [done|].
  change (join_with slash (x :: y :: raws)) with (x ++ slash :: join_with slash (y :: raws)).
  rewrite not_elem_of_app, not_elem_of_cons. split_and!; [done|by intros ->|done].
Qed.

Lemma escape_rooted raws : escape encodePath (rooted raws) = rooted (escape encodePath <$> raws).
Proof.
  unfold rooted. change (slash :: join_with slash raws) with ([slash] ++ join_with slash raws). rewrite escape_app. cbn.
  f_equal. induction raws as [|x raws IH]; [done|]. destruct raws as [|y raws]; [done|].
  change (join_with slash (x :: y :: raws)) with (x ++ [slash] ++ join_with slash (y :: raws)).
  rewrite !escape_app, IH. done.
Qed.

Lemma plain_escaped x : plain x → encoded (escape encodePath x) x.
Proof.
  intros [(_ & H1 & H2 & H3) Hx]. apply escaped_encoded; try done.
  - apply escape_Forall. eapply Forall_impl; [exact Hx|]. intros c Hc. apply (bool_decide_unpack _).
    revert Hc. by each_ascii c; vm_compute; intros [].
  - apply (Forall_absent (λ c, negb (Ascii.eqb c slash))); [|done].
    apply escape_Forall. eapply Forall_impl; [exact Hx|]. intros c Hc. apply (bool_decide_unpack _).
    revert Hc. by each_ascii c; vm_compute; intros [].
Qed.

Lemma plain_valid x : plain x → Forall valid_char x → encoded x x.
Proof.
  intros [Hs Hx] Hv. split; [done| |by apply unescape_plain, (Forall_absent plain_char)].
  assert (Forall (λ c, plain_char c ∧ valid_char c) x) as H by (by apply Forall_and).
  eapply Forall_impl; [exact H|]. intros c. cbn. each_ascii c; vm_compute; tauto.
Qed.

(** A URL made of plain elements, not escaped: they are escaped where needed when
    it is sent. *)
Lemma parse_plain raws q :
  Forall plain raws → Forall target_char q →
  ∃ u es, Parse (with_query (rooted raws) q) = Some u ∧ u_RawQuery u = q ∧ EscapedPath u = rooted es ∧ Forall2 encoded es raws.
Proof.
  intros Hraws Hq. set (l := rooted raws).
  assert (∀ c, Ascii.eqb c slash = false → plain_char c = false → c ∉ l) as Hno by (intros; by apply rooted_absent).
  assert (Forall (λ c, negb (is_ctl c)) (with_query l q)) as Hctl.
  { assert (Forall (λ c, negb (is_ctl c)) l) as Hl.
    { apply Forall_forall. intros c Hc. destruct (is_ctl c) eqn:E; [|done]. exfalso. revert Hc. apply Hno.
      - by destruct (Ascii.eqb_spec c slash) as [->|].
      - unfold plain_char. by rewrite E. }
    assert (Forall (λ c, negb (is_ctl c)) q).
    { eapply Forall_impl; [exact Hq|]. intros c Hc. by rewrite (target_not_ctl c Hc). }
    unfold with_query. destruct q; [done|]. apply Forall_app_2; [done|by constructor]. }
  assert ("#"%char ∉ with_query l q) as Hhash.
  { unfold with_query. pose proof (Forall_absent target_char "#" q Hq eq_refl). destruct q; [by apply Hno|].
    rewrite not_elem_of_app, not_elem_of_cons. split_and!; [by apply Hno|done|done]. }
  exists (MkURL l (if bool_decide (l = escape encodePath l) then [] else l) q).
  exists (if negb (bool_decide (l = escape encodePath l)) && validEncoded l then raws else escape encodePath <$> raws).
  split; [|split; [done|split]].
  - rewrite Parse_free by done. unfold ParseRequestURI.
    rewrite (Forall_existsb (λ c, negb (is_ctl c))) by (done || by intros c; destruct (is_ctl c)).
    assert (default (with_query l q, []) (cut_at "?" (with_query l q)) = (l, q)) as ->.
    { unfold with_query. destruct q; [by rewrite cut_at_none by (by apply Hno)|by rewrite cut_at_app by (by apply Hno)]. }
    cbv beta iota. by rewrite unescape_plain by (by apply Hno).
  - unfold EscapedPath. cbn [u_RawPath u_Path]. rewrite (bool_decide_false (l = ["*"%char])) by done.
    destruct (bool_decide (l = escape encodePath l)); cbn [negb andb].
    + by rewrite (bool_decide_true ([] = [])), <- escape_rooted by done.
    + rewrite (bool_decide_false (l = [])), (unescape_plain l) by (done || by apply Hno).
      rewrite (bool_decide_true (Some l = Some l)), andb_true_r by done. cbn [negb andb].
      destruct (validEncoded l); [done|]. by rewrite <- escape_rooted.
  - destruct (negb _ && validEncoded l) eqn:E.
    + apply andb_true_iff in E as [_ Hv]. apply Forall_Forall2_diag. apply Forall_forall. intros x Hx.
      rewrite Forall_forall in Hraws. apply plain_valid; [by apply Hraws|]. apply Forall_forall. intros c Hc.
      apply Is_true_true. unfold validEncoded in Hv. rewrite forallb_forall in Hv. apply Hv, list_elem_of_In.
      unfold l, rooted. apply elem_of_cons. right. clear -Hx Hc. induction raws as [|y raws IH]; [by apply elem_of_nil in Hx|].
      destruct raws as [|z raws]; [apply list_elem_of_singleton in Hx; by subst|].
      change (join_with slash (y :: z :: raws)) with (y ++ slash :: join_with slash (z :: raws)).
      apply elem_of_app. apply elem_of_cons in Hx as [->|Hx]; [by left|right]. apply elem_of_cons. right. by apply IH.
    + clear -Hraws. induction Hraws; constructor; [by apply plain_escaped|done].
Qed.

Lemma Do_plain m raws q r vs :
  raws ≠ [] → Forall plain raws → Forall target_char q → find_route patterns (Some m) raws = Some (r, vs) →
  Do m (with_query (rooted raws) q) = Some (Handled r vs (of_chars q)).
Proof.
  intros Hne Hraws Hq Hroute. destruct (parse_plain raws q Hraws Hq) as (u & es & Hu & Hquery & He & Hall).
  assert (es ≠ []) as Hes by (by intros ->; inversion Hall; subst).
  change (Do m (with_query (rooted raws) q)) with (send (S 9) m (with_query (rooted raws) q)). generalize 9%nat as hops.
  intros hops. cbn [send]. rewrite Hu.
  assert (RequestURI u = with_query (rooted es) q) as -> by (unfold RequestURI; by rewrite He, Hquery).
  by rewrite (serve_encoded m es raws q Hes Hall Hq), Hroute.
Qed.

Lemma plain_literal s : literal s = true → plain (to_chars s).
Proof.
  unfold literal. rewrite andb_true_iff, bool_decide_eq_true, forallb_forall. intros [Hs Hc]. split; [done|].
  apply Forall_forall. intros c Hin%list_elem_of_In%Hc. revert Hin. each_ascii c; vm_compute; done.
Qed.

Lemma forwarded_group m g action q r :
  plain (to_chars g) →
  literal action = true →
  find_route patterns (Some m) [to_chars "groups"; to_chars g; to_chars action] = Some (r, [of_chars (to_chars g)]) →
  Forall target_char q → forwarded m (with_query (group_path g action) q) = Some (Handled r [g] (of_chars q)).
Proof.
  intros Hg Ha Hr Hq. rewrite of_to_chars in Hr. set (raws := [to_chars "groups"; to_chars g; to_chars action]) in *.
  assert (special g = false) as Hs.
  { unfold special. cbn. destruct Hg as [(_ & H1 & H2 & H3) _].
    destruct (String.eqb_spec g "."); [by subst|]. destruct (String.eqb_spec g ".."); [by subst|].
    by destruct (String.eqb_spec g ""); [subst|]. }
  assert (Forall2 encoded [to_chars "groups"; PathEscape g; to_chars action] raws) as Hall.
  { constructor; [by apply literal_encoded|]. constructor; [by apply PathEscape_encoded|].
    constructor; [by apply literal_encoded|constructor]. }
  change (group_path g action) with (rooted [to_chars "groups"; PathEscape g; to_chars action]).
  destruct (parse_encoded _ _ q Hall Hq) as (u & Hu & He & Hpath & Hquery). unfold forwarded.
  rewrite Parse_free, Hu.
  2:{ apply (Forall_absent target_char); [by eapply with_query_chars|done]. }
  assert (RequestURI u = with_query (rooted [to_chars "groups"; PathEscape g; to_chars action]) q) as ->
    by (unfold RequestURI; by rewrite He, Hquery).
  rewrite Hu. cbn [mbind option_bind]. unfold forward_path. rewrite Hpath, Hquery.
  apply Do_plain; [done| |done|done].
  constructor; [by apply plain_literal|]. constructor; [done|]. constructor; [by apply plain_literal|constructor].
Qed.

(** C32: what a broker that is not the controller sends on keeps the group, for
    plain names: those without "/", "?", "#", "%" and control characters (and not
    ".", ".." or empty). Such a request reaches the same handler there, for the
    same group and with the same query, although the URL is rebuilt from the
    decoded path. *)
Theorem forwarding_keeps_plain_groups c g (Hgroup : (intended c).2 = [g]) (Hplain : plain (to_chars g)) :
  ∃ query, forwarded (client_request c).1 (client_request c).2 = Some (Handled (intended c).1 [g] query) ∧
    understood c query.
Proof.
  destruct c as [| | | |t p off n r|g'|g'|g'|g'|g'|g' t| | |]; cbn [intended fst snd client_request group_post fetch_offsets_request understood] in *;
    try discriminate; injection Hgroup as ->.
  1-5: exists ""%string; split; [|reflexivity]; apply (forwarded_group _ g _ []); done.
  destruct (decide (t = ""%string)) as [->|Hne].
  - rewrite bool_decide_true, app_nil_r by done. exists ""%string.
    split; [by apply (forwarded_group "GET" g "offsets" [] FetchOffsets)|by vm_compute].
  - rewrite bool_decide_false by done. exists (of_chars (to_chars "topic=" ++ QueryEscape t)).
    split; [|rewrite to_of_chars; apply offsets_topic_query].
    apply (forwarded_group "GET" g "offsets" (to_chars "topic=" ++ QueryEscape t) FetchOffsets); try done.
    apply Forall_app_2; [apply (bool_decide_unpack _); by vm_compute|apply QueryEscape_chars].
Qed.

Lemma forwarding_keeps_plain_groups_witness :
  ∃ query, forwarded "POST" (client_request (c_Join "my group [1]")).2 = Some (Handled Join ["my group [1]"%string] query) ∧
    query = ""%string.
Proof.
  apply (forwarding_keeps_plain_groups (c_Join "my group [1]") "my group [1]"); [reflexivity|].
  split; apply (bool_decide_unpack _); vm_compute; exact I.
Defined.

(** A name that looks like an escaped one: the path sent on is that of the name
    it decodes to. *)
Lemma escaped_not_special g : special g = false → special (of_chars (PathEscape g)) = false.
Proof.
  intros Hg. destruct (en_simple _ _ (PathEscape_encoded g Hg)) as (_ & H1 & H2 & H3). unfold special. cbn [existsb].
  rewrite orb_false_r. apply orb_false_iff. split; [|apply orb_false_iff; split]; apply String.eqb_neq; intros E;
    apply (f_equal to_chars) in E; rewrite to_of_chars in E; done.
Qed.

Lemma forwarded_escaped m g action q r :
  special g = false → literal action = true →
  find_route patterns (Some m) [to_chars "groups"; to_chars g; to_chars action] = Some (r, [of_chars (to_chars g)]) →
  Forall target_char q →
  forwarded m (with_query (group_path (of_chars (PathEscape g)) action) q) = Some (Handled r [g] (of_chars q)).
Proof.
  intros Hg Ha Hr Hq. set (g' := of_chars (PathEscape g)).
  assert (Forall2 encoded [to_chars "groups"; PathEscape g'; to_chars action] [to_chars "groups"; PathEscape g; to_chars action]) as Hall.
  { constructor; [by apply literal_encoded|]. constructor.
    - rewrite <- (to_of_chars (PathEscape g)). by apply PathEscape_encoded, escaped_not_special.
    - constructor; [by apply literal_encoded|constructor]. }
  change (group_path g' action) with (rooted [to_chars "groups"; PathEscape g'; to_chars action]).
  destruct (parse_encoded _ _ q Hall Hq) as (u & Hu & He & Hpath & Hquery). unfold forwarded. rewrite Parse_free, Hu.
  2:{ apply (Forall_absent target_char); [by eapply with_query_chars|done]. }
  assert (RequestURI u = with_query (rooted [to_chars "groups"; PathEscape g'; to_chars action]) q) as ->
    by (unfold RequestURI; by rewrite He, Hquery).
  rewrite Hu. cbn [mbind option_bind]. unfold forward_path. rewrite Hpath, Hquery. by apply Do_group.
Qed.

(** C38: for other names the group depends on the broker asked, because the path
    sent on is decoded but not escaped again. Take any name [g] (other than ".",
    ".." and the empty one): every call for the group named as [g] is when escaped
    is handled for that group on the controller, but for the group [g] through any
    other broker, by the same handler and with the same query. The two names differ
    as soon as [g] has a character that has to be escaped, like "/". *)
Theorem forwarding_changes_groups c g
    (Hg : special g = false) (Hgroup : (intended c).2 = [of_chars (PathEscape g)]) :
  (∃ query, Do (client_request c).1 (client_request c).2 = Some (Handled (intended c).1 [of_chars (PathEscape g)] query) ∧
     understood c query) ∧
  (∃ query, forwarded (client_request c).1 (client_request c).2 = Some (Handled (intended c).1 [g] query) ∧
     understood c query).
Proof.
  pose proof (escaped_not_special g Hg) as Hg'.
  assert (∀ m action r q, literal action = true →
    (∀ x, find_route patterns (Some m) [to_chars "groups"; x; to_chars action] = Some (r, [of_chars x])) → Forall target_char q →
    Do m (with_query (group_path (of_chars (PathEscape g)) action) q) = Some (Handled r [of_chars (PathEscape g)] (of_chars q)) ∧
    forwarded m (with_query (group_path (of_chars (PathEscape g)) action) q) = Some (Handled r [g] (of_chars q))) as Hboth.
  { intros m action r q Ha Hr Hq. split; [by apply Do_group|by apply forwarded_escaped]. }
  destruct c as [| | | |t p off n r|g'|g'|g'|g'|g'|g' t| | |]; cbn [intended fst snd client_request group_post fetch_offsets_request understood] in *;
    try discriminate; injection Hgroup as ->.
  1: destruct (Hboth "POST"%string "join"%string Join []) as [H1 H2]; [done..|].
  2: destruct (Hboth "POST"%string "sync"%string Sync []) as [H1 H2]; [done..|].
  3: destruct (Hboth "POST"%string "heartbeat"%string Heartbeat []) as [H1 H2]; [done..|].
  4: destruct (Hboth "POST"%string "leave"%string Leave []) as [H1 H2]; [done..|].
  5: destruct (Hboth "POST"%string "offsets"%string CommitOffsets []) as [H1 H2]; [done..|].
  1-5: split; exists ""%string; by split.
  destruct (decide (t = ""%string)) as [->|Hne].
  - rewrite bool_decide_true, app_nil_r by done. destruct (Hboth "GET"%string "offsets"%string FetchOffsets []) as [H1 H2]; [done..|].
    split; exists ""%string; (split; [done|by vm_compute]).
  - rewrite bool_decide_false by done.
    destruct (Hboth "GET"%string "offsets"%string FetchOffsets (to_chars "topic=" ++ QueryEscape t)) as [H1 H2]; [done..| |].
    { apply Forall_app_2; [apply (bool_decide_unpack _); by vm_compute|apply QueryEscape_chars]. }
    split; exists (of_chars (to_chars "topic=" ++ QueryEscape t)); (split; [done|]); rewrite to_of_chars; apply offsets_topic_query.
Qed.

Lemma forwarding_changes_groups_witness :
  (∃ query, Do "POST" (client_request (c_Join "a%2Fb")).2 = Some (Handled Join ["a%2Fb"%string] query)) ∧
  (∃ query, forwarded "POST" (client_request (c_Join "a%2Fb")).2 = Some (Handled Join ["a/b"%string] query)).
Proof.
  destruct (forwarding_changes_groups (c_Join "a%2Fb") "a/b") as [(q1 & H1 & _) (q2 & H2 & _)]; [reflexivity..|].
  split; [exists q1; exact H1|exists q2; exact H2].
Defined.

(** Three names: "a%2Fb" becomes "a/b", which itself is not found through another
    broker, and "50%" is not even sent on. *)
Theorem forwarding_changes_groups_run :
  let join g := client_request (c_Join g) in
  (Do "POST" (join "a%2Fb").2 = Some (Handled Join ["a%2Fb"] "") ∧
   forwarded "POST" (join "a%2Fb").2 = Some (Handled Join ["a/b"] ""))%string ∧
  (Do "POST" (join "a/b").2 = Some (Handled Join ["a/b"] "") ∧ forwarded "POST" (join "a/b").2 = Some NotFound)%string ∧
  (Do "POST" (join "50%").2 = Some (Handled Join ["50%"] "") ∧ forwarded "POST" (join "50%").2 = None)%string.
Proof. vm_compute. by split_and!. Qed.
