(* ===== verification/OffsetsTopic.v ===== *)
(** Committed offsets on the controller: the coordinator's table, its file and
    the copy in the topic [__consumer_offsets]. *)
From S2P Require Import Prelude GoStrings Bytes RecordFmt Disk CommitLog LogRep LogRead LogInterface.
From S2P Require Import Assignor Coordinator Partitioner Cluster Store Wire BrokerState Metadata Replica Produce Handlers Net.
Open Scope Z_scope.


Section commit.
Context {L D : Type} `{LogOpener L D} `{LogLaws L}.
Implicit Types b : Broker L D.















End commit.




