(* ===== verification/CommandLine.v ===== *)
(** The command lines, [cmd/logship/main.go], [cmd/logship-cli/main.go] and
    [cmd/bench/main.go]: environment, broker lists and the configuration of a
    broker.  [getenv] is the environment, empty where a variable is not set;
    flags are given as [flag.Parse] leaves them. *)
From S2P Require Import Prelude GoStrings GoPath Bytes Cluster Wire Client BrokerState.
Open Scope Z_scope.

(** ** The environment *)

Section environment.
Context (getenv : string → string).

Definition env (k def : string) : string := if bool_decide (getenv k = ""%string) then def else getenv k.

Definition envInt (k : string) (def : Z) : Z :=
  if bool_decide (getenv k = ""%string) then def else default def (Atoi (getenv k)).

Definition envInt64 (k : string) (def : Z) : Z :=
  if bool_decide (getenv k = ""%string) then def else default def (ParseInt (getenv k)).

(** The flags of the broker; the environment gives their defaults. *)
Record flags := Flags {
  fl_id : Z;
  fl_bind : string;
  fl_advertise : string;
  fl_data : string;
  fl_peers : string;
  fl_fsync_every : Z;
  fl_segment_bytes : Z;
  fl_index_interval : Z;
  fl_min_isr : Z
}.

Definition default_flags : flags := {|
  fl_id := envInt "LOGSHIP_ID" 1;
  fl_bind := env "LOGSHIP_BIND" "0.0.0.0:9092";
  fl_advertise := env "LOGSHIP_ADVERTISE" "";
  fl_data := env "LOGSHIP_DATA" "./data";
  fl_peers := env "LOGSHIP_PEERS" "";
  fl_fsync_every := envInt "LOGSHIP_FSYNC_EVERY" 0;
  fl_segment_bytes := envInt64 "LOGSHIP_SEGMENT_BYTES" (Z.shiftl 1 20);
  fl_index_interval := envInt64 "LOGSHIP_INDEX_INTERVAL" 4096;
  fl_min_isr := envInt "LOGSHIP_MIN_ISR" 1
|}.
End environment.

(** [None]: the peers do not parse, and the program exits. *)
Definition broker_config (f : flags) : option Config :=
  plist ← ParsePeers (fl_peers f);
  Some {|
    cfg_ID := fl_id f;
    Bind := fl_bind f;
    Advertise := fl_advertise f;
    DataDir := fl_data f;
    cfg_Peers := plist;
    cfg_FsyncEvery := fl_fsync_every f;
    cfg_MaxSegmentBytes := fl_segment_bytes f;
    cfg_IndexInterval := fl_index_interval f;
    MinISR := fl_min_isr f;
    cfg_SessionTimeout := 3 * second;
    GroupSession := 10 * second;
    RebalanceWait := 2 * second;
    ReplicaLagTime := 5 * second;
    ProduceTimeout := 5 * second
  |}.

(** ** The client's command line *)

(** The comma-separated list of brokers. *)
Definition split (s : string) : list string := filter (λ p, p ≠ ""%string) (TrimSpace <$> Split s ",").

Definition shiftTopic (args : list string) : string * list string :=
  match args with
  | a :: args' => if negb (HasPrefix a "-") then (a, args') else (""%string, args)
  | [] => (""%string, args)
  end.

(** [arg] is the first argument after the flags; [None] is the usage message. *)
Definition produce_request (topic arg : string) (key value : bytes) (acks : string) : option ProduceRequest :=
  let topic := if bool_decide (topic = ""%string) then arg else topic in
  if bool_decide (topic = ""%string) || bool_decide (value = []) then None
  else Some (MkProduceRequest topic 0 key value acks []).

(** ** Lists of peers and of brokers *)

(** What [Itoa] writes. *)
Lemma Itoa_chars n : Forall (λ c, c = "-"%char ∨ ∃ d, 0 ≤ d < 10 ∧ c = digit d) (to_chars (Itoa n)).
Proof.
  assert (∀ w m, Forall (λ c, c = "-"%char ∨ ∃ d, 0 ≤ d < 10 ∧ c = digit d) (fixed_digits w m)) as Hd.
  { intros w m. induction w as [|w IH]; constructor; [|exact IH]. right. eexists. split; [|done].
    apply Z.mod_pos_bound. lia. }
  unfold Itoa. rewrite to_of_chars. case_match; [|apply Hd]. constructor; [by left|apply Hd].
Qed.

(** A byte some white space starts or ends with. *)
Definition is_space (c : ascii) : bool :=
  existsb (λ sp, bool_decide (head sp = Some c) || bool_decide (last sp = Some c)) spaces.

(** Characters of a host and a port: no white space, no comma. *)
Definition plain (l : chars) : Prop := Forall (λ c, is_space c = false ∧ c ≠ ","%char) l.

Lemma digit_plain d : 0 ≤ d < 10 → is_space (digit d) = false ∧ digit d ≠ ","%char ∧ digit d ≠ "="%char.
Proof.
  intros Hd. assert (d = 0 ∨ d = 1 ∨ d = 2 ∨ d = 3 ∨ d = 4 ∨ d = 5 ∨ d = 6 ∨ d = 7 ∨ d = 8 ∨ d = 9) as H by lia.
  by repeat destruct H as [->|H]; try subst d.
Qed.

Lemma Itoa_plain n : plain (to_chars (Itoa n)) ∧ "="%char ∉ to_chars (Itoa n).
Proof.
  pose proof (Itoa_chars n) as H. split.
  - eapply Forall_impl; [exact H|]. intros c [->|(d & Hd & ->)]; [done|]. by apply digit_plain in Hd as (? & ? & ?).
  - intros Hin. rewrite Forall_forall in H. destruct (H _ Hin) as [?|(d & Hd & E)]; [done|].
    by apply digit_plain in Hd as (? & ? & ?).
Qed.

Lemma plain_no_comma l : plain l → ","%char ∉ l.
Proof. intros Hl Hin. unfold plain in Hl. rewrite Forall_forall in Hl. by destruct (Hl _ Hin). Qed.

(** Nothing to trim. *)
Lemma trim_prefix_id sps n l :
  (∀ sp c, sp ∈ sps → head sp = Some c → head l ≠ Some c) → Forall (λ sp, sp ≠ []) sps → trim_prefix sps n l = l.
Proof.
  intros Hl Hne. destruct n as [|n]; [done|]. cbn [trim_prefix].
  destruct (find _ sps) as [sp|] eqn:E; [|done]. exfalso. apply find_some in E as [Hin%list_elem_of_In E%bool_decide_eq_true].
  rewrite Forall_forall in Hne. specialize (Hne sp Hin). destruct sp as [|c sp]; [done|].
  apply (Hl _ c Hin eq_refl). destruct l as [|x l]; [done|]. cbn in E. by injection E as ->.
Qed.

Lemma spaces_nonempty : Forall (λ sp, sp ≠ []) spaces.
Proof. apply (bool_decide_unpack _). by vm_compute. Qed.

Lemma is_space_false c sp : is_space c = false → sp ∈ spaces → head sp ≠ Some c ∧ last sp ≠ Some c.
Proof.
  unfold is_space. intros Hc Hin. split; intros E; apply not_true_iff_false in Hc; apply Hc, existsb_exists; exists sp;
    (split; [by apply list_elem_of_In|]); rewrite (bool_decide_true _ E); [done|by rewrite orb_true_r].
Qed.

Lemma TrimSpace_id s :
  (∀ c, head (to_chars s) = Some c → is_space c = false) →
  (∀ c, last (to_chars s) = Some c → is_space c = false) → TrimSpace s = s.
Proof.
  intros Hh Hl. unfold TrimSpace, trim_left, trim_right. rewrite (trim_prefix_id spaces); [|intros sp c Hin Hsp E|apply spaces_nonempty].
  - rewrite trim_prefix_id, reverse_involutive; [apply of_to_chars| |].
    + intros sp c (sp' & -> & Hin)%list_elem_of_fmap. rewrite !head_reverse. intros Hsp E.
      by destruct (is_space_false c sp' (Hl c E) Hin).
    + apply Forall_fmap. eapply Forall_impl; [apply spaces_nonempty|]. intros sp Hsp E. apply Hsp.
      by apply (f_equal reverse) in E; rewrite reverse_involutive in E.
  - by destruct (is_space_false c sp (Hh c E) Hin).
Qed.

Lemma TrimSpace_samples :
  TrimSpace " a b	" = "a b"%string ∧
  TrimSpace (of_chars (map ascii_of_nat [226; 128; 137; 97; 194; 160; 32]%nat)) = "a"%string ∧
  TrimSpace (of_chars (map ascii_of_nat [160; 97]%nat)) = of_chars (map ascii_of_nat [160; 97]%nat).
Proof. by vm_compute. Qed.

Lemma TrimSpace_plain l : plain l → TrimSpace (of_chars l) = of_chars l.
Proof.
  unfold plain. rewrite Forall_forall. intros H. apply TrimSpace_id; rewrite to_of_chars; intros c Hc; apply H.
  - by apply head_Some_elem_of.
  - by apply last_Some_elem_of.
Qed.

Lemma Split_join ps : ps ≠ [] → Forall plain ps → Split (of_chars (join_with "," ps)) "," = of_chars <$> ps.
Proof.
  intros Hne Hps. unfold Split. rewrite to_of_chars, split_join; [done|done|].
  eapply Forall_impl; [exact Hps|]. apply plain_no_comma.
Qed.

(** The flag [--peers]. *)
Definition peer_text (p : Peer) : chars := to_chars (Itoa (ID p)) ++ "="%char :: to_chars (Addr p).
Definition peers_text (ps : list Peer) : string := of_chars (join_with "," (peer_text <$> ps)).

Definition good_peer (p : Peer) : Prop := - 2 ^ 63 ≤ ID p < 2 ^ 63 ∧ plain (to_chars (Addr p)).

Lemma peer_text_plain p : good_peer p → plain (peer_text p).
Proof. intros [_ Ha]. apply Forall_app. split; [apply Itoa_plain|]. by apply Forall_cons_2. Qed.

Lemma parse_peer_text p : good_peer p → parse_peer (of_chars (peer_text p)) = Some p.
Proof.
  intros Hp. unfold parse_peer. rewrite TrimSpace_plain by by apply peer_text_plain. unfold Cut.
  rewrite to_of_chars. unfold peer_text. rewrite cut_at_app by apply Itoa_plain.
  rewrite !of_to_chars, Atoi_Itoa by apply Hp. by destruct p.
Qed.

Lemma join_ends (ps : list chars) :
  ps ≠ [] → Forall plain ps → Forall (λ p, p ≠ []) ps →
  (∀ c, head (join_with "," ps) = Some c → is_space c = false) ∧
  (∀ c, last (join_with "," ps) = Some c → is_space c = false).
Proof.
  intros Hne Hps Hn. assert (Forall (λ c, is_space c = false) (join_with "," ps)) as Hall.
  { clear Hne Hn. induction Hps as [|p ps Hp Hps IH]; [constructor|].
    assert (Forall (λ c, is_space c = false) p) as Hp' by (eapply Forall_impl; [exact Hp|]; by intros c []).
    destruct ps; [done|]. cbn. apply Forall_app. split; [done|]. by apply Forall_cons_2. }
  rewrite Forall_forall in Hall. split; intros c Hc; apply Hall; [by apply head_Some_elem_of|by apply last_Some_elem_of].
Qed.

(** *** The property *)

(** The membership flag is read as it is written: a list of peers printed as
    [id=host:port], separated by commas, parses to the same peers, and so does
    the list of brokers of the command line; a broker started with it has
    exactly these peers. *)
Theorem peers_parse_as_written f ps addrs
    (Hps : Forall good_peer ps) (Hf : fl_peers f = peers_text ps)
    (Haddrs : Forall (λ a, plain (to_chars a) ∧ a ≠ ""%string) addrs) :
  ParsePeers (peers_text ps) = Some ps ∧ cfg_Peers <$> broker_config f = Some ps ∧
  split (Join_strings "," addrs) = addrs.
Proof.
  assert (ParsePeers (peers_text ps) = Some ps) as Hparse.
  { destruct ps as [|p ps]; [done|].
    assert (Forall plain (peer_text <$> p :: ps)) as Hplain.
    { apply Forall_fmap. eapply Forall_impl; [exact Hps|]. apply peer_text_plain. }
    assert (Forall (λ l : chars, l ≠ []) (peer_text <$> p :: ps)) as Hne.
    { apply Forall_fmap, Forall_true. intros q E. by apply app_nil in E as [_ ?]. }
    destruct (join_ends (peer_text <$> p :: ps)) as [Hh Hl]; [done..|].
    unfold ParsePeers. rewrite TrimSpace_id by (unfold peers_text; rewrite to_of_chars; assumption).
    rewrite bool_decide_false.
    2: { unfold peers_text. intros E%(f_equal to_chars). rewrite to_of_chars in E. change (to_chars "") with (@nil ascii) in E.
         apply (Forall_inv Hne). destruct ps; [exact E|]. by apply app_nil in E as [_ ?]. }
    unfold peers_text. rewrite Split_join by done. rewrite <- list_fmap_compose.
    apply mapM_Some, Forall2_fmap_l, Forall_Forall2_diag. eapply Forall_impl; [exact Hps|]. apply parse_peer_text. }
  split; [done|]. split; [unfold broker_config; by rewrite Hf, Hparse|].
  unfold split, Join_strings. destruct (decide (addrs = [])) as [->|Hne]; [done|].
  rewrite Split_join; [|by intros ?%fmap_nil_inv|apply Forall_fmap; eapply Forall_impl; [exact Haddrs|]; by intros x []].
  rewrite <- !list_fmap_compose. rewrite (list_fmap_ext _ id).
  - rewrite list_fmap_id. clear Hne. induction Haddrs as [|x xs [_ Hx] _ IH]; [done|]. rewrite filter_cons_True by done. by f_equal.
  - intros i x Hx. cbn. rewrite Forall_forall in Haddrs. destruct (Haddrs x) as [Hx' _]; [by eapply list_elem_of_lookup_2|].
    by rewrite TrimSpace_plain, of_to_chars.
Qed.

Definition sample_flags : flags :=
  Flags 1 "" "a:9092" "" "1=a:9092,2=b:9092" 0 0 0 1.

Lemma peers_parse_as_written_witness :
  ParsePeers "1=a:9092,2=b:9092" = Some [{| ID := 1; Addr := "a:9092" |}; {| ID := 2; Addr := "b:9092" |}] ∧
  split "a:9092,b:9092" = ["a:9092"; "b:9092"]%string.
Proof.
  destruct (peers_parse_as_written sample_flags [{| ID := 1; Addr := "a:9092" |}; {| ID := 2; Addr := "b:9092" |}]
    ["a:9092"; "b:9092"]%string) as (H1 & _ & H2); [|reflexivity| |by split].
  - repeat (apply Forall_cons_2; [|]); [| |apply Forall_nil_2]; (split; [by cbn|]); repeat constructor; done.
  - repeat (apply Forall_cons_2; [|]); [| |apply Forall_nil_2]; (split; [repeat constructor; done|done]).
Defined.
