(* ===== verification/ErrorText.v ===== *)
(** Errors as text: [handleProduce] of [internal/broker/handlers.go] tells the
    errors of [produceLocal] apart by what their texts look like, which is what
    [produce_or_proxy] does by their constructors. *)
From S2P Require Import Prelude GoStrings GoPath CommandLine.
Open Scope Z_scope.

(** [strings.Contains]. *)
Fixpoint contains_chars (sub l : chars) : bool :=
  bool_decide (take (length sub) l = sub) || match l with [] => false | _ :: l => contains_chars sub l end.

Definition Contains (s sub : string) : bool := contains_chars (to_chars sub) (to_chars s).

(** The texts; [os_text] is the text of the errors of other packages. *)
Definition topicError (name : string) : string := "unknown topic: " +:+ name.
Definition notLeaderError (leader : Z) : string := "not_leader:" +:+ Itoa leader.

Definition error_text (os_text : goerr → string) (e : goerr) : string :=
  match e with
  | ErrUnknownTopic name => topicError name
  | ErrNotLeader leader => notLeaderError leader
  | e => os_text e
  end.

(** What the handler makes of a text.  A leader that is not a number would be 0. *)
Inductive produce_error := LedElsewhere (leader : Z) | NoTopic (text : string) | Failed (text : string).

Definition read_error (text : string) : produce_error :=
  if HasPrefix text "not_leader:" then LedElsewhere (default 0 (Split text ":" !! 1%nat ≫= Atoi))
  else if Contains text "unknown topic" then NoTopic text
  else Failed text.

(** ** Texts tell errors apart *)

Lemma Itoa_no_colon n : ":"%char ∉ to_chars (Itoa n).
Proof.
  intros Hin. pose proof (Itoa_chars n) as H. rewrite Forall_forall in H. destruct (H _ Hin) as [?|(d & Hd & E)]; [done|].
  assert (d = 0 ∨ d = 1 ∨ d = 2 ∨ d = 3 ∨ d = 4 ∨ d = 5 ∨ d = 6 ∨ d = 7 ∨ d = 8 ∨ d = 9) as Hc by lia.
  by repeat destruct Hc as [->|Hc]; try subst d.
Qed.

Lemma contains_prefix sub l : take (length sub) l = sub → contains_chars sub l = true.
Proof. intros E. destruct l; cbn [contains_chars]; by rewrite bool_decide_true. Qed.

Lemma read_notLeader leader : - 2 ^ 63 ≤ leader < 2 ^ 63 → read_error (notLeaderError leader) = LedElsewhere leader.
Proof.
  intros Hl. unfold read_error, notLeaderError, HasPrefix. rewrite to_chars_app, take_app_length, bool_decide_true by done.
  unfold Split. rewrite to_chars_app.
  assert (to_chars "not_leader:" = to_chars "not_leader" ++ [":"%char]) as -> by done.
  rewrite <- app_assoc. cbn [app]. rewrite split_at_app by (apply (bool_decide_unpack _); exact I).
  rewrite split_at_none by apply Itoa_no_colon. cbn. by rewrite of_to_chars, Atoi_Itoa.
Qed.

Lemma read_topicError name : read_error (topicError name) = NoTopic (topicError name).
Proof.
  unfold read_error, topicError, HasPrefix, Contains. rewrite to_chars_app, bool_decide_false; [|by vm_compute].
  rewrite contains_prefix; [done|]. cbn. done.
Qed.

(** The handler's reading of an error's text is the error: it proxies to the leader
    the error names, answers 404 for the topic it names, and 500 for anything
    else, provided texts of other packages do not look like these. *)
Theorem error_texts_are_told_apart os_text e
    (Hint : ∀ leader, e = ErrNotLeader leader → - 2 ^ 63 ≤ leader < 2 ^ 63)
    (Hos : ∀ e, HasPrefix (os_text e) "not_leader:" = false ∧ Contains (os_text e) "unknown topic" = false) :
  read_error (error_text os_text e) =
    match e with
    | ErrNotLeader leader => LedElsewhere leader
    | ErrUnknownTopic name => NoTopic (topicError name)
    | e => Failed (os_text e)
    end.
Proof.
  assert (∀ e, read_error (os_text e) = Failed (os_text e)) as Hother.
  { intros e'. unfold read_error. by destruct (Hos e') as [-> ->]. }
  destruct e; cbn [error_text]; try apply Hother; [apply read_topicError|by apply read_notLeader, Hint].
Qed.

(** A failed file operation on a topic whose name contains "unknown topic" is
    answered with 404. *)
Lemma error_texts_are_told_apart_witness :
  read_error (error_text (λ _, "disk"%string) (ErrNotLeader 3)) = LedElsewhere 3 ∧
  read_error (error_text (λ _, "open data/unknown topic-0/0.log: permission denied"%string) ErrIO) =
    NoTopic "open data/unknown topic-0/0.log: permission denied".
Proof.
  split; [|by vm_compute]. rewrite (error_texts_are_told_apart (λ _, "disk"%string) (ErrNotLeader 3)); [done| |by intros; split; vm_compute].
  intros leader [= <-]. lia.
Defined.
