(* ===== verification/Commands.v ===== *)
(** The commands: [main] of [cmd/logship] and [cmd/logship-cli], with the flags of
    each, on top of the client's calls and the broker. *)
From S2P Require Import Prelude GoStrings GoPath GoURL GoFlag Bytes RecordFmt Disk CommitLog LogRep LogInterface.
From S2P Require Import Assignor Coordinator Partitioner Cluster Store Wire BrokerState Metadata Client Consumer Replica.
From S2P Require Import Produce Handlers Net Background CommandLine.
Open Scope Z_scope.

(** ** The client's commands *)

(** What a command ends with: an exit code, or what it prints last. *)
Inductive outcome :=
  | Exit (code : Z)
  | Created (name : string)
  | PrintedProduce (resp : ProduceResponse)
  | PrintedFetch (fr : FetchResponse)
  | PrintedMetadata (md : Metadata)
  | Consumed (trace : list event).

(** The client's methods the commands use. *)
Record cli_calls (W : Type) := CliCalls {
  cc_calls : calls W;
  cc_CreateTopic : string → Z → Z → M W (unit + client_error);
  cc_Produce : ProduceRequest → M W (ProduceResponse + client_error)
}.
Arguments CliCalls {W}.
Arguments cc_calls {W}.
Arguments cc_CreateTopic {W}.
Arguments cc_Produce {W}.

Section commands.
Context {W : Type} (client : list string → cli_calls W).

(** [must], and what to print when there is no error. *)
Definition must {A} (m : M W (A + client_error)) (print : A → outcome) : M W outcome :=
  r ← m;
  mret match r with inl a => print a | inr _ => Exit 1 end.

Definition topic_flags : FlagSet := {["partitions"%string := VInt 3; "rf"%string := VInt 3]}.

Definition topicCmd (brokers : string) (args : list string) : M W outcome :=
  match args with
  | a :: name :: rest =>
    if negb (bool_decide (a = "create"%string)) then mret (Exit 2) else
    match Parse topic_flags rest with
    | Exits code => mret (Exit code)
    | Parsed fs _ =>
      must (cc_CreateTopic (client (split brokers)) name (int_flag fs "partitions") (int_flag fs "rf"))
        (λ _, Created name)
    end
  | _ => mret (Exit 2)
  end.

Definition produce_flags : FlagSet :=
  {["key"%string := VString ""; "value"%string := VString ""; "acks"%string := VString "1"]}.

Definition produceCmd (brokers : string) (args : list string) : M W outcome :=
  let '(topic, args) := shiftTopic args in
  match Parse produce_flags args with
  | Exits code => mret (Exit code)
  | Parsed fs rest =>
    match produce_request topic (Arg0 rest) (string_bytes (string_flag fs "key")) (string_bytes (string_flag fs "value"))
            (string_flag fs "acks") with
    | None => mret (Exit 2)
    | Some req => must (cc_Produce (client (split brokers)) req) PrintedProduce
    end
  end.

(** The topic named before the flags, or the first argument after them. *)
Definition topic_or (topic : string) (rest : list string) : string :=
  if bool_decide (topic = ""%string) then Arg0 rest else topic.

Definition fetch_flags : FlagSet := {["partition"%string := VInt 0; "offset"%string := VInt 0]}.

Definition fetchCmd (brokers : string) (args : list string) : M W outcome :=
  let '(topic, args) := shiftTopic args in
  match Parse fetch_flags args with
  | Exits code => mret (Exit code)
  | Parsed fs rest =>
    let topic := topic_or topic rest in
    if bool_decide (topic = ""%string) then mret (Exit 2) else
    must (cl_Fetch (cc_calls (client (split brokers))) topic (int_flag fs "partition") (int_flag fs "offset") (Z.shiftl 1 20))
      PrintedFetch
  end.

Definition consume_flags : FlagSet :=
  {["group"%string := VString ""; "from-beginning"%string := VBool false; "max"%string := VInt 0]}.

(** [fuel] bounds the rounds of the consumer. *)
Definition consume_command (fuel : nat) (brokers : string) (args : list string) : M W outcome :=
  let '(topic, args) := shiftTopic args in
  match Parse consume_flags args with
  | Exits code => mret (Exit code)
  | Parsed fs rest =>
    let topic := topic_or topic rest in
    let group := string_flag fs "group" in
    if bool_decide (topic = ""%string) || bool_decide (group = ""%string) then mret (Exit 2) else
    λ w,
      let '(r, (w', trace)) :=
        consumeCmd (cc_calls (client (split brokers))) group topic (bool_flag fs "from-beginning") (int_flag fs "max")
          fuel (w, []) in
      (match r with
       | Ok ok => Ok (if ok : bool then Consumed trace else Exit 1)
       | Err e => Err e
       | Panicked => Panicked
       | Diverged => Diverged
       end, w')
  end.

(** [main]; [args] are the arguments after the program's name. *)
Definition cli_main (fuel : nat) (getenv : string → string) (args : list string) : M W outcome :=
  match args with
  | [] => mret (Exit 2)
  | command :: args =>
    let brokers := env getenv "LOGSHIP_BROKERS" "127.0.0.1:9092" in
    if bool_decide (command = "topic"%string) then topicCmd brokers args
    else if bool_decide (command = "produce"%string) then produceCmd brokers args
    else if bool_decide (command = "fetch"%string) then fetchCmd brokers args
    else if bool_decide (command = "consume"%string) then consume_command fuel brokers args
    else if bool_decide (command = "metadata"%string) then must (cl_Metadata (cc_calls (client (split brokers)))) PrintedMetadata
    else mret (Exit 2)
  end.
End commands.

(** ** The broker's command *)

(** The flag set, with the defaults the environment gives. *)
Definition broker_flag_set (d : flags) : FlagSet := {[
  "id"%string := VInt (fl_id d); "bind"%string := VString (fl_bind d); "advertise"%string := VString (fl_advertise d);
  "data"%string := VString (fl_data d); "peers"%string := VString (fl_peers d);
  "fsync-every"%string := VInt (fl_fsync_every d); "segment-bytes"%string := VInt (fl_segment_bytes d);
  "index-interval"%string := VInt (fl_index_interval d); "min-isr"%string := VInt (fl_min_isr d)]}.

Definition flags_of (fs : FlagSet) : flags := {|
  fl_id := int_flag fs "id";
  fl_bind := string_flag fs "bind";
  fl_advertise := string_flag fs "advertise";
  fl_data := string_flag fs "data";
  fl_peers := string_flag fs "peers";
  fl_fsync_every := int_flag fs "fsync-every";
  fl_segment_bytes := int_flag fs "segment-bytes";
  fl_index_interval := int_flag fs "index-interval";
  fl_min_isr := int_flag fs "min-isr"
|}.

Section broker_command.
Context {L D : Type} `{LogOpener L D}.

(** The configuration, or the exit code. *)
Definition command_config (getenv : string → string) (args : list string) : BrokerState.Config + Z :=
  match Parse (broker_flag_set (default_flags getenv)) args with
  | Exits code => inr code
  | Parsed fs _ => match broker_config (flags_of fs) with Some c => inl c | None => inr 1 end
  end.

(** [main]: what [New] finds on disk, the listener, and [life], what happens to the
    broker until it is told to stop. *)
Definition broker_main (getenv : string → string) (args : list string) (now : Z) (dirs : gmap string D)
    (ents : list (string * list string)) (offs : gmap string Z) (stored : list topicMeta + goerr)
    (listen : string + goerr) (life : list (string * Z * Z) → Broker L D → Broker L D) : res (Broker L D + Z) :=
  match command_config getenv args with
  | inr code => Ok (inr code)
  | inl c =>
    match broker_New now c dirs ents offs stored with
    | Err _ => Ok (inr 1)
    | Panicked => Panicked
    | Diverged => Diverged
    | Ok b =>
      match broker_Start listen b with
      | (Err _, _) => Ok (inr 1)
      | (Panicked, _) => Panicked
      | (Diverged, _) => Diverged
      | (Ok loops, b) =>
        match broker_Close (life loops b) with
        | (Ok _, b) => Ok (inl b)
        | (Err _, b) => Ok (inl b)
        | (Panicked, _) => Panicked
        | (Diverged, _) => Diverged
        end
      end
    end
  end.
End broker_command.

(** ** What the commands ask for *)

Section asking.
Context {W : Type} (client : list string → cli_calls W).

(** Rendered flags start with a dash. *)
Lemma render_dash s : HasPrefix (default ""%string (head (render s))) "-" = true.
Proof.
  assert (∀ x y, HasPrefix ((if st_long s then "--" else "-") +:+ x +:+ y) "-" = true) as H.
  { intros x y. unfold HasPrefix. rewrite to_chars_app. by destruct (st_long s). }
  unfold render. destruct (st_equals s); [|destruct (st_value s)]; cbn [head option_map default].
  1: rewrite append_app; apply H.
  all: rewrite <- (append_nil_r (st_name s)); apply H.
Qed.

(** The topic is written before the flags or after them. *)
Inductive spelled (t : string) (ss : list setting) : list string → Prop :=
  | topic_first : spelled t ss (t :: concat (render <$> ss))
  | topic_last : ss ≠ [] → spelled t ss (concat (render <$> ss) ++ [t]).

(** Both ways are understood. *)
Lemma shiftTopic_Parse fs t ss args :
  HasPrefix t "-" = false → t ≠ ""%string → Forall (settable fs) ss → spelled t ss args →
  ∃ rest, Parse fs (shiftTopic args).2 = Parsed (foldl apply_setting fs ss) rest ∧
    topic_or (shiftTopic args).1 rest = t.
Proof.
  intros Ht Hne Hss Hsp. destruct Hsp as [|Hss'].
  - cbn [shiftTopic]. rewrite Ht. cbn [negb fst snd]. exists []. split; [|unfold topic_or; by rewrite bool_decide_false].
    rewrite <- (app_nil_r (concat _)). by rewrite Parse_settings.
  - assert (shiftTopic (concat (render <$> ss) ++ [t]) = (""%string, concat (render <$> ss) ++ [t])) as ->.
    { destruct ss as [|s ss]; [done|]. rewrite fmap_cons. cbn [concat]. pose proof (render_dash s) as Hd.
      unfold render in *. destruct (st_equals s); [|destruct (st_value s)]; cbn in Hd |- *; by rewrite Hd. }
    cbn [fst snd]. exists [t]. split; [|done]. rewrite Parse_settings by done. cbn [Parse].
    by rewrite read_argument_plain.
Qed.

Lemma produceCmd_run brokers t ss args :
  let fs := foldl apply_setting produce_flags ss in
  HasPrefix t "-" = false → t ≠ ""%string → Forall (settable produce_flags) ss → spelled t ss args →
  string_flag fs "value" ≠ ""%string →
  produceCmd client brokers args =
    must (cc_Produce (client (split brokers))
      (single t (string_bytes (string_flag fs "key")) (string_bytes (string_flag fs "value")) (string_flag fs "acks")))
      PrintedProduce.
Proof.
  intros fs Ht Hne Hss Hsp Hv. destruct (shiftTopic_Parse _ _ _ _ Ht Hne Hss Hsp) as (rest & Hp & Htopic).
  unfold produceCmd. destruct (shiftTopic args) as [topic args'] eqn:E. cbn [fst snd] in *. rewrite Hp. fold fs.
  unfold produce_request. unfold topic_or in Htopic. rewrite Htopic.
  assert (string_bytes (string_flag fs "value") ≠ []) as Hv'.
  { unfold string_bytes. intros Hn%fmap_nil_inv. apply Hv, to_chars_inj. done. }
  by rewrite !bool_decide_false by done.
Qed.

(** The commands ask the brokers for what their arguments say: however the
    flags are spelled and wherever the topic is, [fetch] makes one fetch of the
    topic, partition and offset given, [consume] starts the consumer of the topic
    and group, [topic create] creates the topic named, with the flags' defaults
    where a flag is not given; without topic or group they only print the usage. *)
Theorem commands_ask_what_they_say brokers t ss args
    (Ht : HasPrefix t "-" = false) (Hne : t ≠ ""%string) (Hsp : spelled t ss args) :
  (Forall (settable fetch_flags) ss → let fs := foldl apply_setting fetch_flags ss in
   fetchCmd client brokers args =
     must (cl_Fetch (cc_calls (client (split brokers))) t (int_flag fs "partition") (int_flag fs "offset") 1048576) PrintedFetch) ∧
  (Forall (settable consume_flags) ss → let fs := foldl apply_setting consume_flags ss in
   ∀ fuel w, consume_command client fuel brokers args w =
     if bool_decide (string_flag fs "group" = ""%string) then (Ok (Exit 2), w) else
     let '(r, (w', trace)) := consumeCmd (cc_calls (client (split brokers))) (string_flag fs "group") t
        (bool_flag fs "from-beginning") (int_flag fs "max") fuel (w, []) in
     (match r with Ok true => Ok (Consumed trace) | Ok false => Ok (Exit 1) | Err e => Err e
      | Panicked => Panicked | Diverged => Diverged end, w')) ∧
  (Forall (settable topic_flags) ss → let fs := foldl apply_setting topic_flags ss in
   topicCmd client brokers ("create"%string :: t :: concat (render <$> ss)) =
     must (cc_CreateTopic (client (split brokers)) t (int_flag fs "partitions") (int_flag fs "rf")) (λ _, Created t)).
Proof.
  split_and!; intros Hss fs.
  - destruct (shiftTopic_Parse _ _ _ _ Ht Hne Hss Hsp) as (rest & Hp & Htopic).
    unfold fetchCmd. destruct (shiftTopic args) as [topic args'] eqn:E. cbn [fst snd] in *. rewrite Hp. fold fs.
    rewrite Htopic. by rewrite bool_decide_false.
  - intros fuel w. destruct (shiftTopic_Parse _ _ _ _ Ht Hne Hss Hsp) as (rest & Hp & Htopic).
    unfold consume_command. destruct (shiftTopic args) as [topic args'] eqn:E. cbn [fst snd] in *. rewrite Hp. fold fs.
    cbv zeta. rewrite Htopic, (bool_decide_false (t = ""%string)) by done. cbn [orb].
    case_bool_decide; [done|]. destruct (consumeCmd _ _ _ _ _ _ _) as [[[]| | |] [w' tr]]; done.
  - unfold topicCmd. rewrite bool_decide_true by done. cbn [negb].
    rewrite <- (app_nil_r (concat _)). by rewrite Parse_settings.
Qed.
End asking.

Lemma commands_ask_what_they_say_witness :
  let client (_ : list string) : cli_calls unit := CliCalls (Calls _ (λ _ _, panic) (λ _ _, panic) (λ _ _, panic) (λ _ _, panic)
    (λ _ _, panic) panic (λ _ _ _ _, mret (inr NoBrokers))) (λ _ _ _, mret (inl tt)) (λ _, panic) in
  fetchCmd client "a:9092" ["-offset=7"; "orders"]%string tt = (Ok (Exit 1), tt) ∧
  topicCmd client "a:9092" ["create"; "orders"; "-offset=7"]%string tt = (Ok (Exit 2), tt).
Proof.
  intros client. split; [|done].
  destruct (commands_ask_what_they_say client "a:9092" "orders" [Setting "offset" (VInt 7) false true] ["-offset=7"; "orders"]%string)
    as [Hfetch _]; [done|done|by apply (topic_last "orders" [Setting "offset" (VInt 7) false true])|].
  rewrite Hfetch; [done|]. apply Forall_singleton. split; [done|by eexists|cbn; lia].
Defined.

(** ** A produce command against a cluster *)

Section producing.
Context {L D : Type} `{LogOpener L D} `{LogLaws L} (err_text : goerr → string).
Implicit Types (w : gmap string (Broker L D)) (b : Broker L D).

(** The client of a command, on a net of brokers; its other calls do not matter
    here. *)
Definition net_client (hops : nat) (env : string → nat → call_env (Broker L D))
    (others : list string → calls (gmap string (Broker L D)))
    (create : list string → string → Z → Z → M (gmap string (Broker L D)) (unit + client_error))
    (brokers : list string) : cli_calls (gmap string (Broker L D)) :=
  CliCalls (others brokers) (create brokers) (λ req, Client.Produce (net_produce err_text hops env req) brokers "").

(** C10: from the command line to the log. [logship-cli produce], with acks other
    than all, a topic, a key and a value that are UTF-8 and not empty, however the
    flags are spelled, against brokers that agree on the leaders and know their
    addresses: whichever broker is the first of LOGSHIP_BROKERS, the record is
    appended once, with its key and value, at the end of the log of the leader of
    the key's partition, the command prints that partition and offset, and no
    other broker's logs change.  With acks=all the leader may give up waiting after
    the record is appended, and nothing of this is claimed. *)
Theorem produce_command_reaches_the_leader fuel hops env others create getenv ss args
    w t n lead leader_at addr b0 bl l recs
    (Ht : HasPrefix t "-" = false) (Hne : t ≠ ""%string)
    (Hss : Forall (settable produce_flags) ss) (Hargs : spelled t ss args) :
  let fs := foldl apply_setting produce_flags ss in
  let key := string_bytes (string_flag fs "key") in
  let value := string_bytes (string_flag fs "value") in
  let pid := fnv32a key mod n in
  ∀ (Hkey : key ≠ []) (Hvalue : value ≠ []) (Hutf : valid_utf8 key = true ∧ valid_utf8 value = true)
    (Hacks : is_acks_all (string_flag fs "acks") = false)
    (Hfirst : head (split (CommandLine.env getenv "LOGSHIP_BROKERS" "127.0.0.1:9092")) = Some addr)
    (Hn : 0 < n < 2 ^ 32) (Hagree : agreed w t n lead) (Haddr : addressed w n lead leader_at)
    (Hpartitioners : ∀ addr b, w !! addr = Some b → 0 ≤ rr (partitioner b) < 2 ^ 64)
    (Hok : metadata_ok bl) (Hb0 : w !! addr = Some b0) (Hbl : w !! leader_at pid = Some bl)
    (Hl : log_at bl (store_key t pid) = Some l) (Hrecs : log_contents l recs) (Hmax : Zlength recs + 1 < 2 ^ 63)
    (Hfits : fits (ce_ts (env (leader_at pid) 0%nat)) (MkProduceRecord key value 0)),
  ∃ w' bl' l',
    cli_main (net_client (S (S hops)) env others create) fuel getenv ("produce"%string :: args) w =
      (Ok (PrintedProduce (MkProduceResponse t [MkProduceResult pid (Zlength recs)])), w') ∧
    w' !! leader_at pid = Some bl' ∧ log_at bl' (store_key t pid) = Some l' ∧
    log_contents l' (recs ++ [Rec (Zlength recs) (ce_ts (env (leader_at pid) 0%nat)) key value]) ∧
    (∀ a, a ≠ leader_at pid → store <$> w' !! a = store <$> w !! a).
Proof.
  intros fs key value pid **.
  destruct (keyed_produce_reaches_the_leader err_text hops env w t n lead leader_at addr key value (string_flag fs "acks")
    pid b0 bl l recs) as (w' & bl' & l' & Hrun & Hrest); try done.
  { intros b Hb. by assert (b = bl) as -> by congruence. }
  exists w', bl', l'. split; [|exact Hrest].
  change (cli_main ?c fuel getenv ("produce"%string :: args))
    with (produceCmd c (CommandLine.env getenv "LOGSHIP_BROKERS" "127.0.0.1:9092") args).
  assert (string_flag fs "value" ≠ ""%string) as Hv by (intros E; apply Hvalue; unfold value; by rewrite E).
  rewrite (produceCmd_run _ _ t ss) by done. fold fs key value.
  unfold must. cbn [cc_Produce net_client]. unfold Client.Produce. rewrite bool_decide_true by done.
  unfold pick. rewrite Hfirst. cbn [default Produce_loop].
  by rewrite (bind_Ok _ _ _ _ _ (bind_Ok _ _ _ _ _ Hrun)).
Qed.
End producing.

(** Broker 2 of [net_sample] is asked, broker 1 leads. *)
Lemma produce_command_reaches_the_leader_witness :
  ∃ w', cli_main (net_client (λ _, ""%string) 2 net_env
      (λ _, Calls _ (λ _ _, panic) (λ _ _, panic) (λ _ _, panic) (λ _ _, panic) (λ _ _, panic) panic (λ _ _ _ _, panic))
      (λ _ _ _ _, panic)) 0 (λ _, "b:9092"%string) ["produce"; "--key=a"; "-value"; "-v-"; "orders"]%string net_sample =
    (Ok (PrintedProduce (MkProduceResponse "orders" [MkProduceResult 0 0])), w').
Proof.
  destruct (produce_command_reaches_the_leader (λ _, ""%string) 0 0 net_env
    (λ _, Calls _ (λ _ _, panic) (λ _ _, panic) (λ _ _, panic) (λ _ _, panic) (λ _ _, panic) panic (λ _ _ _ _, panic))
    (λ _ _ _ _, panic) (λ _, "b:9092"%string)
    [Setting "key" (VString "a") true true; Setting "value" (VString "-v-") false false]
    ["--key=a"; "-value"; "-v-"; "orders"]%string net_sample "orders" 1 (λ _, 1) (λ _, "a:9092"%string) "b:9092"
    (net_broker 2 1 "b:9092") (net_broker 1 1 "a:9092") (start_state small_cfg) []) as (w' & _ & _ & Hrun & _).
  - done.
  - done.
  - repeat (apply Forall_cons_2; [by split; [|eexists|]|]). apply Forall_nil_2.
  - by apply (topic_last "orders" [Setting "key" (VString "a") true true; Setting "value" (VString "-v-") false false]).
  - by vm_compute.
  - by vm_compute.
  - by vm_compute.
  - by vm_compute.
  - by vm_compute.
  - done.
  - apply net_sample_agreed.
  - apply net_sample_addressed.
  - intros addr b [[_ ->]|[_ ->]]%net_sample_inv; by vm_compute.
  - apply net_broker_ok.
  - reflexivity.
  - reflexivity.
  - reflexivity.
  - apply start_holds.
  - done.
  - by vm_compute.
  - by exists w'.
Defined.
