(* ===== verification/Consuming.v ===== *)
(** The consumer against the brokers: what it prints and commits whatever
    consistent brokers do, a broker as such, and runs of both together. *)
From S2P Require Import Prelude GoStrings Bytes RecordFmt Disk Index CommitLog LogRep LogRead LogInterface.
From S2P Require Import Assignor Coordinator Cluster Store Wire BrokerState Metadata Client Consumer.
From S2P Require Import Replica Produce Handlers.
Open Scope Z_scope.

(** ** A broker as the consumer sees it

    A client that knows only this broker, at a fixed time; a request the broker
    would pass on to another one fails. *)

Section broker_calls.
Context {L D : Type} `{LogOpener L D} `{LogOps L}.
Context (now : Z) (fresh : string) (env : nat → nat → call_env (Broker L D)).

Definition conflict (e : HeartbeatResponse) : client_error := HTTPStatus StatusConflict (hp_Error e).

Definition answered {A B} (f : A → B + client_error) (m : M (Broker L D) (group_answer A)) :
    M (Broker L D) (B + client_error) :=
  r ← m; mret match r with Here a => f a | _ => inr NetworkError end.

Definition broker_calls : calls (Broker L D) := {|
  cl_Join g q := answered inl (handleJoin now fresh g q);
  cl_Sync g q := answered (λ r, match r with inl a => inl a | inr e => inr (conflict e) end) (handleSync now g q);
  cl_Heartbeat g q := answered (λ '(ok, r), if (ok : bool) then inl r else inr (conflict r)) (handleHeartbeat now g q);
  cl_CommitOffsets g q := answered (λ ok, if (ok : bool) then inl tt else inr (HTTPStatus 500 ""))
    (handleCommitOffsets now true env g q);
  cl_FetchOffsets g t := answered inl (handleFetchOffsets now g t);
  cl_Metadata := gets (λ b, inl (publicMetadata now b));
  cl_Fetch t p off n :=
    r ← serveFetch (λ _ _ _ _ _, None) t p off n false;
    mret match r with
         | Fetched fr => inl (json_fetch fr)
         | FetchNotLeader _ _ => inr (HTTPStatus StatusConflict "")
         | FetchUnknown => inr (HTTPStatus 404 "")
         | FetchFailed _ => inr (HTTPStatus 500 "")
         end
|}.
End broker_calls.

Section honest_broker.
Context {L D : Type} `{LogOpener L D} `{LogLaws L}.
Context (now : Z) (fresh : string) (env : nat → nat → call_env (Broker L D)).
Implicit Types b : Broker L D.

(** Logs that are [good] answer reads in the order [rel]. *)
Context (good : L → Prop) (rel : Z → Z → Prop).
Context (Hgood : ∀ l recs off n h out, good l → log_contents l recs → Zlength recs < 2 ^ 63 → 0 ≤ off →
  op_read off n h l = (Ok out, l) → rising rel off (Offset <$> out)).

(** The logs are healthy and good, those the broker leads are open, committed
    offsets are not negative, and there is no offsets topic yet. *)
Record serving b : Prop := {
  sv_logs k l : log_at b k = Some l → good l ∧ ∃ recs, log_contents l recs ∧ Zlength recs < 2 ^ 63;
  sv_led t p pm :
    partition_meta b t p = Some pm → p_Leader pm = cfg_ID (cfg b) → is_Some (log_at b (store_key t p));
  sv_offsets k o : offsets (coordinator b) !! k = Some o → 0 ≤ o;
  sv_topics : topics b !! offsetsTopic = None
}.

Lemma serving_set_coordinator c b :
  (∀ k o, offsets c !! k = Some o → 0 ≤ o) → serving b → serving (set_coordinator c b).
Proof. by intros Hc [Hl Hled _ Ht]; split. Qed.

(** Calls of the coordinator that leave the offsets alone. *)
Lemma on_groups_safe {A} (f : Coordinator → A * Coordinator) (Q : A → Prop) :
  (∀ c, offsets (snd (f c)) = offsets c ∧ ((∀ k o, offsets c !! k = Some o → 0 ≤ o) → Q (fst (f c)))) →
  safe serving (on_groups f) Q.
Proof.
  intros Hf b Hb. unfold on_groups, act. cbv zeta. set (c := Build_Coordinator _ _ _ _ _ _ _).
  destruct (Hf c) as [Ho HQ]. destruct (f c) as [a c']. cbn in *. pose proof (sv_offsets _ Hb) as Hoff.
  split; [|by apply HQ]. apply serving_set_coordinator; [by rewrite Ho|done].
Qed.

Lemma safe_bind {W A B} (I : W → Prop) (m : M W A) (f : A → M W B) P Q :
  safe I m P → (∀ a, P a → safe I (f a) Q) → safe I (m ≫= f) Q.
Proof.
  intros Hm Hf w Hw. specialize (Hm w Hw). unfold mbind, M_bind. destruct (m w) as [[a| | |] w']; try done.
  destruct Hm as [Hw' HP]. by apply Hf.
Qed.

Lemma safe_ret {W A} (I : W → Prop) (a : A) (Q : A → Prop) : Q a → safe I (mret a) Q.
Proof. by intros HQ w Hw. Qed.

Lemma answered_safe {A B} (f : A → B + client_error) (m : M (Broker L D) A) P Q :
  safe serving m P → (∀ a, P a → Q (f a)) → (∀ e, Q (inr e)) →
  safe serving (answered f (forwardGroup now m)) Q.
Proof.
  intros Hm Hf He. unfold answered.
  apply (safe_bind _ _ _ (λ r, match r with Here a => P a | _ => True end)).
  - unfold forwardGroup. apply (safe_bind _ _ _ (λ _, True)); [by intros b Hb|]. intros b _.
    destruct (IsController _ _); [eapply safe_bind; [exact Hm|]; intros a Ha; by apply safe_ret|].
    case_bool_decide; by apply safe_ret.
  - intros [a| |] Ha; apply safe_ret; auto.
Qed.

Lemma Join_offsets fr g m ts c : offsets (snd (Join now fr g m ts c)) = offsets c.
Proof. done. Qed.

Lemma Sync_offsets g m gen c : offsets (snd (Sync now g m gen c)) = offsets c.
Proof. unfold Sync. by repeat case_match. Qed.

Lemma Heartbeat_offsets g m gen c : offsets (snd (Heartbeat now g m gen c)) = offsets c.
Proof. unfold Heartbeat. by repeat case_match. Qed.

Lemma FetchOffsets_nonneg g t c :
  (∀ k o, offsets c !! k = Some o → 0 ≤ o) → Forall (λ o, 0 ≤ co_Offset o) (FetchOffsets g t c).
Proof.
  intros Hc. unfold FetchOffsets. apply Forall_forall. intros o. rewrite merge_sort_Permutation, list_elem_of_omap.
  intros ([k v] & Hkv%elem_of_map_to_list & E). repeat case_match; simplify_eq/=; by apply (Hc k).
Qed.

Lemma commit_all_nonneg g os c :
  Forall (λ o, 0 ≤ co_Offset o) os → (∀ k o, offsets c !! k = Some o → 0 ≤ o) →
  ∀ k o, offsets (snd (commit_all g os c)) !! k = Some o → 0 ≤ o.
Proof.
  intros Hos. revert c. induction Hos as [|o os Ho _ IH]; intros c Hc; [done|]. cbn [commit_all]. cbv zeta.
  set (c1 := set_offsets _ c). assert (∀ k o, offsets c1 !! k = Some o → 0 ≤ o) as Hc1.
  { intros k o'. cbn. intros [[_ <-]|[_ H']]%lookup_insert_Some; [done|by apply (Hc k)]. }
  specialize (IH c1 Hc1). by destruct (commit_all g os c1).
Qed.

Lemma Commit_safe g os :
  Forall (λ o, 0 ≤ co_Offset o) os → safe serving (on_groups (Commit true g os)) (λ _, True).
Proof.
  intros Hos b Hb. unfold on_groups, act. cbv zeta. set (c := Build_Coordinator _ _ _ _ _ _ _). unfold Commit.
  pose proof (commit_all_nonneg g os c Hos (sv_offsets _ Hb)) as Hc.
  destruct (commit_all g os c) as [calls c1]. cbn in *. split; [|done]. by apply serving_set_coordinator.
Qed.

Lemma run_hooks_safe i hs : safe serving (run_hooks env i hs) (λ _, True).
Proof.
  revert i. induction hs as [|h hs IH]; intros i; [by apply safe_ret|]. cbn [run_hooks].
  apply (safe_bind _ _ _ (λ _, True)); [|intros; apply IH].
  unfold replicateOffset. case_bool_decide; [by apply safe_ret|].
  intros b Hb. assert (∀ env' key v, produceLocal env' (MkProduceRequest offsetsTopic 0 key v "1" []) b =
    (Err (ErrUnknownTopic offsetsTopic), b)) as Hp.
  { intros. unfold produceLocal. rewrite (bind_Ok _ _ _ _ _ (eq_refl : gets _ b = (Ok _, b))). cbn [rq_Topic].
    unfold topic. by rewrite (sv_topics _ Hb). }
  by rewrite (bind_Ok _ _ _ _ _ (attempt_Err _ _ _ _ (Hp _ _ _))).
Qed.

Lemma json_fetch_offsets fr : w_Offset <$> f_Records (json_fetch fr) = w_Offset <$> f_Records fr.
Proof. unfold json_fetch. cbn. rewrite <- list_fmap_compose. by apply list_fmap_ext. Qed.

Lemma toWire_offsets recs : w_Offset <$> toWire recs = Offset <$> recs.
Proof. unfold toWire. rewrite <- list_fmap_compose. by apply list_fmap_ext. Qed.

Lemma fetch_safe t p off n :
  0 ≤ off → safe serving (cl_Fetch (broker_calls now fresh env) t p off n) (λ r,
    match r with inl fr => rising rel off (w_Offset <$> f_Records fr) | inr _ => True end).
Proof using Hgood.
  intros Hoff b Hb. cbn [cl_Fetch broker_calls].
  destruct (partition_meta b t p) as [pm|] eqn:Hpm.
  - destruct (Z.eqb_spec (p_Leader pm) (cfg_ID (cfg b))) as [Hlead|Hne].
    + destruct (sv_led _ Hb _ _ _ Hpm Hlead) as [l Hl]. destruct (sv_logs _ Hb _ _ Hl) as (Hg & recs & Hrecs & Hlen).
      destruct (serveFetch_spec (λ _ _ _ _ _, None) t p off n false b pm l recs Hpm Hlead Hl Hrecs Hoff)
        as (out & Hrun & _ & _ & _ & n' & h & Hread).
      rewrite (bind_Ok _ _ _ _ _ Hrun). split; [done|]. rewrite json_fetch_offsets. cbn [f_Records].
      rewrite toWire_offsets. by eapply Hgood.
    + unfold serveFetch. cbv zeta. unfold gets, mbind, M_bind, id. rewrite Hpm, (proj2 (Z.eqb_neq _ _) Hne). cbn [negb].
      rewrite andb_true_r. by destruct (negb _).
  - unfold serveFetch. cbv zeta. unfold gets, mbind, M_bind, id. by rewrite Hpm.
Qed.

Lemma metadata_safe : safe serving (cl_Metadata (broker_calls now fresh env)) (λ r, match r with
  | inl md => Forall (λ t, Forall (λ pi, 0 ≤ pi_HW pi) (ti_Partitions t)) (md_Topics md)
  | inr _ => True
  end).
Proof.
  intros b Hb. split; [done|]. cbn. apply Forall_fmap, Forall_forall. intros t _. cbn.
  apply Forall_fmap, Forall_forall. intros p _. cbn. unfold partition_info, Get.
  destruct (logs (store b) !! _) as [l|] eqn:Hl; cbn; [|done].
  destruct (sv_logs _ Hb _ _ Hl) as (_ & recs & Hrecs & _). apply log_hw in Hrecs. lia.
Qed.

(** The broker gives the consumer what it relies on. *)
Lemma broker_honest : honest rel (broker_calls now fresh env) serving.
Proof using Hgood.
  split; try apply fetch_safe; try apply metadata_safe; intros g q; cbn.
  - eapply answered_safe; [|done..]. eapply safe_bind; [|intros a _; by apply (safe_ret _ _ (λ _, True))].
    apply (on_groups_safe _ (λ _, True)). by split.
  - eapply answered_safe; [|done..]. eapply safe_bind; [|intros [[asg gen] st] _; by apply (safe_ret _ _ (λ _, True))].
    apply (on_groups_safe _ (λ _, True)). split; [apply Sync_offsets|done].
  - eapply answered_safe; [|done..]. eapply safe_bind; [|intros [err st] _; by apply (safe_ret _ _ (λ _, True))].
    apply (on_groups_safe _ (λ _, True)). split; [apply Heartbeat_offsets|done].
  - intros Hq. eapply answered_safe; [|done..]. eapply safe_bind; [apply Commit_safe; by apply Forall_fmap|].
    intros r _. eapply safe_bind; [apply run_hooks_safe|]. intros _ _. by apply (safe_ret _ _ (λ _, True)).
  - apply answered_safe with (P := λ fo, Forall (λ o, 0 ≤ oc_Offset o) (of_Offsets fo)); [|done..].
    eapply safe_bind; [apply (on_groups_safe _ (Forall (λ o, 0 ≤ co_Offset o)))|].
    + intros c. split; [done|]. apply FetchOffsets_nonneg.
    + intros a Ha. apply safe_ret. cbn. by apply Forall_fmap.
Qed.
End honest_broker.

(** ** Reads in order, and reads without gaps *)

Section reads.
Context {L D : Type} `{LogOpener L D} `{LogLaws L}.

Lemma sublist_rising (recs out : list record) off base :
  contiguous base recs → 0 ≤ base → base + Zlength recs < 2 ^ 63 → out `sublist_of` recs →
  Forall (λ r, off ≤ Offset r) out → rising Z.le off (Offset <$> out).
Proof.
  intros Hc Hb Hlen Hsub. revert base off Hc Hb Hlen.
  induction Hsub as [|r out recs Hsub IH|r out recs _ IH]; intros base off Hc Hb Hlen Hout; [done|..];
    apply contiguous_cons in Hc as [Hr Hc];
    unfold Zlength in Hlen; cbn [length] in Hlen; rewrite Nat2Z.inj_succ in Hlen; fold (Zlength recs) in Hlen;
    assert (0 ≤ Zlength recs) by (unfold Zlength; lia).
  - apply Forall_cons in Hout as [Ho Hout]. cbn. split_and!; [lia..|].
    apply (IH (base + 1)); [done|lia..|]. apply Forall_forall. intros x Hx.
    assert (x ∈ recs) as Hin by (by eapply elem_of_sublist). pose proof (contiguous_bounds _ _ _ Hc Hin). lia.
  - apply (IH (base + 1)); [done|lia..|done].
Qed.

(** Every log reads in order. *)
Lemma reads_in_order l recs off n h out :
  True → log_contents l recs → Zlength recs < 2 ^ 63 → 0 ≤ off →
  op_read off n h l = (Ok out, l) → rising Z.le off (Offset <$> out).
Proof.
  intros _ Hrecs Hlen Hoff Hrun. destruct (log_read off n h l recs Hrecs Hoff) as (out' & Hrun' & Hsub & Hout).
  rewrite Hrun in Hrun'. injection Hrun' as <-. destruct (log_records _ _ Hrecs) as [Hc _].
  apply (sublist_rising recs out off 0); [done|lia..|done|]. eapply Forall_impl; [exact Hout|]. cbn. lia.
Qed.

(** The consumer can rely on any healthy broker for the order, and (below) on
    one whose logs have at most two segments for every record. *)
Lemma healthy_broker_honest now fresh env :
  honest Z.le (broker_calls now fresh env) (serving (D:=D) (λ _ : L, True)).
Proof. apply broker_honest, reads_in_order. Qed.
End reads.

(** A log of at most two segments, which reads without gaps. *)
Definition two_segments (st : log * disk) : Prop := (length (segments (fst st)) ≤ 2)%nat.

Lemma prefix_rising (recs out : list record) off base :
  contiguous base recs → 0 ≤ base ≤ off → base + Zlength recs < 2 ^ 63 →
  out `prefix_of` drop (Z.to_nat (off - base)) recs → rising eq off (Offset <$> out).
Proof.
  intros Hc Hb Hlen Hpre.
  assert (contiguous off out ∧ (out ≠ [] → off + Zlength out < 2 ^ 63)) as [Hout Hmax].
  { split.
    - intros i r Hi. destruct Hpre as [rest E]. assert (drop (Z.to_nat (off - base)) recs !! i = Some r) as Hr.
      { rewrite E. by apply lookup_app_l_Some. }
      rewrite lookup_drop in Hr. rewrite (Hc _ _ Hr). lia.
    - intros Hne. apply prefix_length in Hpre. rewrite length_drop in Hpre. unfold Zlength in *.
      destruct out; [done|]. cbn [length] in *. lia. }
  assert (0 ≤ off) as Hoff by lia. clear Hc Hb Hlen Hpre. revert off Hout Hmax Hoff.
  induction out as [|r out IH]; intros off Hout Hmax Hoff; [done|]. apply contiguous_cons in Hout as [Hr Hout].
  specialize (Hmax ltac:(done)). unfold Zlength in *. cbn [length] in Hmax. cbn. rewrite Hr.
  split_and!; [lia..|]. apply IH; [done|intros; lia|lia].
Qed.

Lemma reads_without_gaps (l : log * disk) recs off n h out :
  two_segments l → log_contents l recs → Zlength recs < 2 ^ 63 → 0 ≤ off →
  op_read off n h l = (Ok out, l) → rising eq off (Offset <$> out).
Proof.
  destruct l as [l d]. intros Hseg Hrecs Hlen Hoff Hrun.
  assert (penultimate_base l = 0) as Hbase.
  { destruct Hrecs as (ss & s & rss & rs & Hrep & _). cbn [fst snd] in Hrep. rewrite (rep_penultimate _ _ _ _ _ _ Hrep).
    unfold two_segments in Hseg. cbn in Hseg. rewrite (lr_segments _ _ _ _ _ _ Hrep), length_app in Hseg.
    rewrite length_app, (sealed_length _ _ _ _ _ _ (lr_sealed _ _ _ _ _ _ Hrep)).
    cbn [length] in *. by replace (length ss + 1 - 2)%nat with 0%nat by lia. }
  destruct (read_contiguous_in_last_two_segments l d recs off n h Hrecs Hoff) as (out' & Hrun' & Hpre); [lia|].
  cbn in Hrun. rewrite Hrun in Hrun'. injection Hrun' as <-.
  destruct (log_records (L:=log * disk) (l, d) recs Hrecs) as [Hc _].
  apply (prefix_rising recs out off 0); [done|lia..|]. by rewrite Z.sub_0_r.
Qed.

(** ** A sample broker *)

(** Broker 1 leads "orders", one partition of five records in one segment, the
    first four below the high watermark; group "g" has committed offset 2. *)
Definition one_segment : log * disk := append_all sample_kvs (start_state (Cfg 1048576 4096 0)).
Definition consumer_broker : Broker (log * disk) disk :=
  let b := set_log "orders/0" (op_set_hw 4 one_segment)
             (set_topics {["orders"%string := MkTopic "orders" [MkPart 0 1 [1] [1]]]} (sample_broker 1)) in
  set_coordinator (Coordinator.New {["g/orders/0"%string := 2]} 0 0 None) b.

Definition consumer_env : nat → nat → call_env (Broker (log * disk) disk) := λ _ _, CallEnv 1000 1000 true [].

Lemma consumer_broker_serving : serving two_segments consumer_broker.
Proof.
  assert (log_contents (op_set_hw 4 one_segment) sample_records) as Hlog.
  { by apply (log_set_hw (L:=log * disk) 4 one_segment sample_records), (sample_state_holds (Cfg 1048576 4096 0)). }
  split; [| | |reflexivity].
  - intros k l. unfold consumer_broker, log_at, set_log. cbn -[op_set_hw one_segment].
    rewrite lookup_insert_Some. intros [[_ <-]|[_ H]]; [|by rewrite lookup_empty in H].
    split; [apply (bool_decide_unpack _); vm_compute; exact I|]. exists sample_records. by split.
  - intros t p pm. unfold partition_meta, consumer_broker, set_log. cbn -[op_set_hw one_segment].
    destruct (decide (t = "orders"%string)) as [->|Hne]; [|by rewrite lookup_singleton_ne].
    rewrite lookup_singleton_eq. intros [->%list_elem_of_singleton <-]%find_partition_Some _. by eexists.
  - intros k o. cbn. rewrite lookup_singleton_Some. intros [_ <-]. done.
Qed.

(** ** Properties *)

(** C20: the command-line consumer is a set of cursors. Whatever the brokers
    answer, as long as fetched records come in the order [rel] says and offsets
    are not negative, and however often the group rebalances, the consumer's
    trace is one of the cursors: an assignment sets the cursors of its
    partitions, to the committed offsets where the coordinator knew them, it
    prints only records its cursor allows, moving it behind them, and commits
    only the cursor. *)
Theorem consumer_implements_cursors {W} rel (cli : calls W) I groupID topic fromBeg max fuel w
    (Hcli : honest rel cli I) (Hw : I w) :
  let '(_, (w', tr)) := consumeCmd cli groupID topic fromBeg max fuel (w, []) in
  I w' ∧ ∃ st, cursor_run rel tr st.
Proof.
  pose proof (consume_refines rel cli I Hcli groupID topic fromBeg max fuel ""%string 0 ([], ∅) (w, [])) as H.
  unfold consumeCmd. destruct (consume _ _ _ _ _ _ _ _ _) as [[a| | |] [w' tr]];
    destruct H as (st & [Hw' Hrun] & _) || destruct H as (st & [Hw' Hrun]); try (split; [done|apply run_start]); eauto.
Qed.

(** C9: at least once. In a run of the consumer, from an assignment that starts
    partition [p] at [s] to a later commit of [o] for it, the consumer has
    printed records of [p] in strictly increasing order, none twice, all from
    [s] on and below [o]; and when fetches leave no gaps, exactly those at [s],
    [s + 1], ..., [o - 1], so that nothing is committed that was not printed.
    [s] is the committed offset when the coordinator could be asked and had
    one. *)
Theorem committed_offsets_are_printed {W} rel (cli : calls W) I groupID topic fromBeg max fuel w
    pre parts known start mid p o post r w'
    (Hrel : ∀ c o, rel c o → c ≤ o) (Hcli : honest rel cli I) (Hw : I w)
    (Hrun : consumeCmd cli groupID topic fromBeg max fuel (w, []) =
       (r, (w', pre ++ Assigned parts known start :: mid ++ Committed p o :: post)))
    (Hmid : Forall (λ e, reassigns e = false) mid) :
  let s := offset_at start p in
  p ∈ parts ∧ StronglySorted Z.lt (printed_offsets p mid) ∧ Forall (λ k, s ≤ k < o) (printed_offsets p mid) ∧
  (gap_free rel → printed_offsets p mid = seqZ s (o - s)) ∧
  (∀ os c, known = Some os → commit_table os !! p = Some c → s = c).
Proof.
  intros s.
  pose proof (consume_refines rel cli I Hcli groupID topic fromBeg max fuel ""%string 0 ([], ∅) (w, [])) as H.
  unfold consumeCmd in Hrun. rewrite Hrun in H.
  assert (∃ st, cursor_run rel (pre ++ Assigned parts known start :: mid ++ Committed p o :: post) st) as [st Hst].
  { assert (tracked rel I ([], ∅) (w, [])) as Hw0 by (split; [done|apply run_start]). specialize (H Hw0).
    destruct r; destruct H as (st & [_ Hst] & _) || destruct H as (st & [_ Hst]); eauto. }
  assert (pre ++ Assigned parts known start :: mid ++ Committed p o :: post =
    ((pre ++ Assigned parts known start :: mid) ++ [Committed p o]) ++ post) as E by (by rewrite <- !app_assoc).
  rewrite E in Hst. apply cursor_run_app in Hst as [st1 Hst]. apply cursor_run_snoc in Hst as (st0 & Hst & Hstep).
  destruct (assignment_run rel pre parts known start mid st0 Hrel Hst Hmid) as (Hparts & Hknown & Hp).
  destruct (Hp p) as (Hle & Hsort & Hall & Hseq). inversion Hstep; subst. cbn [fst snd] in *. split_and!; try done.
  intros os c Hos Hc. unfold s, offset_at. specialize (Hknown os Hos). by rewrite (lookup_weaken _ _ _ _ Hc Hknown).
Qed.

(** C36: a failure to ask for the committed offsets loses records. At any point of
    a run at which the consumer, not told to start from the beginning, joins and
    gets partitions but cannot get the committed offsets, it starts every
    partition at the high watermark in the metadata, whatever the group has
    committed; until the next assignment it prints nothing below that and commits
    nothing less. The records from the committed offset up to there are skipped,
    and the next commit makes that final. *)
Theorem failed_offset_fetch_skips_records {W} rel (cli : calls W) I groupID topic max fuel member printed
    w0 w1 w2 w3 tr st jr sr e md
    (Hrel : ∀ c o, rel c o → c ≤ o) (Hcli : honest rel cli I) (Hw : I w0) (Htr : cursor_run rel tr st)
    (Hjoin : cl_Join cli groupID (MkJoinRequest member [topic]) w0 = (Ok (inl jr), w1))
    (Hsync : cl_Sync cli groupID (MkSyncRequest (jp_MemberID jr) (jp_Generation jr)) w1 = (Ok (inl sr), w2))
    (Hfail : cl_FetchOffsets cli groupID topic w2 = (Ok (inr e), w3))
    (Hmd : cl_Metadata cli w3 = (Ok (inl md), w3)) :
  let parts := default [] (sp_Assignment sr !! topic) in
  ∃ start rest r w', consume cli groupID topic false max (S fuel) member printed (w0, tr) =
      (r, (w', tr ++ Assigned parts None start :: rest)) ∧
    (∀ p, p ∈ parts → start !! p = Some (latest topic p md)) ∧
    ∀ mid post, rest = mid ++ post → Forall (λ e, reassigns e = false) mid →
      (∀ p r, Printed p r ∈ mid → p ∈ parts ∧ latest topic p md ≤ w_Offset r) ∧
      (∀ p o, Committed p o ∈ mid → p ∈ parts ∧ latest topic p md ≤ o).
Proof.
  intros parts.
  destruct (start_offsets_latest cli topic md w3 tr parts ∅ Hmd) as (start & Hstart & _ & Hall).
  set (tail := res ← session cli groupID topic max (S fuel) (jp_MemberID jr) (sp_Generation sr) parts start printed 0;
    match res with None => mret true | Some printed => consume cli groupID topic false max fuel (jp_MemberID jr) printed end).
  assert (consume cli groupID topic false max (S fuel) member printed (w0, tr) =
    tail (w3, tr ++ [Assigned parts None start])) as Hrun.
  { cbn [consume].
    assert (∀ A (m : M W A) a w w', m w = (Ok a, w') → call m (w, tr) = (Ok a, (w', tr))) as Hc.
    { intros A m a w w' E. unfold call, zoom. cbn. by rewrite E. }
    rewrite (bind_Ok _ _ _ _ _ (Hc _ _ _ _ _ Hjoin)). cbv zeta. rewrite (bind_Ok _ _ _ _ _ (Hc _ _ _ _ _ Hsync)).
    fold parts. rewrite (bind_Ok _ _ _ _ _ (Hc _ _ _ _ _ Hfail)). cbn [default].
    change (commit_table []) with (∅ : gmap Z Z). rewrite (bind_Ok _ _ _ _ _ Hstart). reflexivity. }
  assert (grows tail) as Hgrows.
  { apply grows_bind; [apply grows_session|]. intros [n|]; [apply grows_consume|apply grows_ret]. }
  specialize (Hgrows (w3, tr ++ [Assigned parts None start])). destruct (tail _) as [r [w' tr']] eqn:Etail.
  destruct Hgrows as [rest E]. cbn [fst snd] in E. rewrite <- app_assoc in E. subst tr'.
  exists start, rest, r, w'. split; [exact Hrun|]. split; [intros p Hp; by apply Hall|].
  intros mid post -> Hmid.
  assert (∃ st', cursor_run rel (tr ++ Assigned parts None start :: mid ++ post) st') as [st' Hst'].
  { assert (I w3) as Hw3.
    { pose proof (h_Join _ _ _ Hcli groupID (MkJoinRequest member [topic]) w0 Hw) as H1. rewrite Hjoin in H1. destruct H1 as [H1 _].
      pose proof (h_Sync _ _ _ Hcli groupID (MkSyncRequest (jp_MemberID jr) (jp_Generation jr)) w1 H1) as H2. rewrite Hsync in H2. destruct H2 as [H2 _].
      pose proof (h_FetchOffsets _ _ _ Hcli groupID topic w2 H2) as H3. rewrite Hfail in H3. by destruct H3. }
    pose proof (start_offsets_refines rel cli I Hcli topic false st parts ∅) as Hs.
    specialize (Hs ltac:(intros q; unfold offset_at; by rewrite lookup_empty) (w3, tr) (conj Hw3 Htr)).
    rewrite Hstart in Hs. destruct Hs as (st0 & Htracked & -> & Hnn & _ & Hsome).
    assert (refines rel I tail (parts, start) (λ _ _, True)) as Href.
    { eapply refines_bind; [by apply session_refines|]. intros [n|] st1 _; [by apply consume_refines|by apply refines_ret]. }
    specialize (Href (w3, tr ++ [Assigned parts None start])). rewrite Etail in Href.
    assert (tracked rel I (parts, start) (w3, tr ++ [Assigned parts None start])) as Ht.
    { split; [done|]. eapply run_step; [exact Htr|]. by apply cursor_assigned. }
    specialize (Href Ht).
    destruct r; destruct Href as (st' & [_ Hst'] & _) || destruct Href as (st' & [_ Hst']); eauto. }
  assert (∀ e', e' ∈ mid → ∃ cs cs', cursor_step rel (parts, cs) e' cs' ∧ ∀ p, offset_at start p ≤ offset_at cs p) as Hstep.
  { intros e' (m1 & m2 & ->)%list_elem_of_split. apply Forall_app in Hmid as [Hm1 _].
    assert (tr ++ Assigned parts None start :: (m1 ++ e' :: m2) ++ post =
      ((tr ++ Assigned parts None start :: m1) ++ [e']) ++ m2 ++ post) as E by (by rewrite <- !app_assoc).
    rewrite E in Hst'. apply cursor_run_app in Hst' as [st1 Hst1]. apply cursor_run_snoc in Hst1 as (st0 & Hst0 & Hstep).
    destruct (assignment_run rel tr parts None start m1 st0 Hrel Hst0 Hm1) as (Hparts & _ & Hp).
    destruct st0 as [ps cs]. cbn [fst snd] in *. subst ps. exists cs, st1. split; [exact Hstep|]. intros p. apply Hp. }
  assert (∀ p, p ∈ parts → offset_at start p = latest topic p md) as Hlat.
  { intros p Hp. unfold offset_at. by rewrite Hall. }
  split; [intros p x Hin|intros p o Hin]; destruct (Hstep _ Hin) as (cs & cs' & Hs & Hle); specialize (Hle p);
    inversion Hs; subst; (split; [done|]); rewrite <- Hlat by done; [|done].
  etrans; [exact Hle|by apply Hrel].
Qed.

Lemma consumer_implements_cursors_witness :
  let '(_, (_, tr)) := consumeCmd (broker_calls 1000 "m1" consumer_env) "g" "orders" false 2 10 (consumer_broker, []) in
  ∃ st, cursor_run eq tr st.
Proof.
  pose proof (consumer_implements_cursors eq (broker_calls 1000 "m1" consumer_env) (serving two_segments) "g" "orders" false 2 10
    consumer_broker (broker_honest _ _ _ _ _ reads_without_gaps) consumer_broker_serving) as H.
  destruct (consumeCmd _ _ _ _ _ _ _) as [r [w' tr]]. by destruct H.
Defined.

(** The records the sample consumer prints. *)
Definition wire_at (k : nat) : WireRecord := default (MkWire 0 0 [] []) (toWire sample_records !! k).

Lemma committed_offsets_are_printed_witness :
  let '(_, (_, tr)) := consumeCmd (broker_calls 1000 "m1" consumer_env) "g" "orders" false 2 10 (consumer_broker, []) in
  ∃ start mid, tr = Assigned [0] (Some [MkOffsetCommit "orders" 0 2]) start :: mid ++ [Committed 0 4] ∧
    mid = [Printed 0 (wire_at 2); Printed 0 (wire_at 3)] ∧ printed_offsets 0 mid = seqZ 2 (4 - 2).
Proof.
  destruct (consumeCmd _ _ _ _ _ _ _) as [r [w' tr]] eqn:E.
  assert (tr = [] ++ Assigned [0] (Some [MkOffsetCommit "orders" 0 2]) {[0 := 2]} ::
    [Printed 0 (wire_at 2); Printed 0 (wire_at 3)] ++ Committed 0 4 :: []) as ->.
  { apply (f_equal (snd ∘ snd)) in E. cbn [fst snd compose] in E. rewrite <- E. vm_compute. reflexivity. }
  exists {[0 := 2]}, [Printed 0 (wire_at 2); Printed 0 (wire_at 3)]. split; [reflexivity|]. split; [reflexivity|].
  destruct (committed_offsets_are_printed eq (broker_calls 1000 "m1" consumer_env) (serving two_segments) "g" "orders" false 2 10
    consumer_broker [] [0] (Some [MkOffsetCommit "orders" 0 2]) {[0 := 2]} _ 0 4 [] r w'
    (λ c o H, Z.eq_le_incl c o H) (broker_honest _ _ _ _ _ reads_without_gaps) consumer_broker_serving E)
    as (_ & _ & _ & H & _); [repeat constructor|]. apply H. by intros c o'.
Defined.

(** The same brokers, when the committed offsets cannot be asked for, and the
    high watermark reaches 5 while the consumer polls. *)
Definition offsets_unreachable (cli : calls (Broker (log * disk) disk)) : calls (Broker (log * disk) disk) := {|
  cl_Join := cl_Join cli;
  cl_Sync := cl_Sync cli;
  cl_Heartbeat g q := modify (hw_reaches "orders/0" 5);; cl_Heartbeat cli g q;
  cl_CommitOffsets := cl_CommitOffsets cli;
  cl_FetchOffsets _ _ := mret (inr NetworkError);
  cl_Metadata := cl_Metadata cli;
  cl_Fetch := cl_Fetch cli
|}.

(** With offset 2 committed and records up to 4, of which the high watermark is at
    4, the consumer prints only record 4 and commits 5; records 2 and 3 are never
    delivered to the group. *)
Theorem failed_offset_fetch_run :
  let cli := offsets_unreachable (broker_calls 1000 "m1" consumer_env) in
  let '(_, (b, tr)) := consumeCmd cli "g" "orders" false 1 10 (consumer_broker, []) in
  FetchOffsets "g" "orders" (coordinator consumer_broker) = [Build_CommittedOffset "orders" 0 2] ∧
  tr = [Assigned [0] None {[0 := 4]}; Printed 0 (wire_at 4); Committed 0 5] ∧
  FetchOffsets "g" "orders" (coordinator b) = [Build_CommittedOffset "orders" 0 5].
Proof. vm_compute. by split. Qed.

(** The sample broker, when the committed offsets cannot be asked for. *)
Definition offsets_fail (cli : calls (Broker (log * disk) disk)) : calls (Broker (log * disk) disk) := {|
  cl_Join := cl_Join cli;
  cl_Sync := cl_Sync cli;
  cl_Heartbeat := cl_Heartbeat cli;
  cl_CommitOffsets := cl_CommitOffsets cli;
  cl_FetchOffsets _ _ := mret (inr NetworkError);
  cl_Metadata := cl_Metadata cli;
  cl_Fetch := cl_Fetch cli
|}.

Lemma offsets_fail_honest rel cli I : honest rel cli I → honest rel (offsets_fail cli) I.
Proof. by intros []; split. Qed.

Definition failing_calls : calls (Broker (log * disk) disk) := offsets_fail (broker_calls 1000 "m1" consumer_env).
Definition has_joined : Broker (log * disk) disk :=
  snd (cl_Join failing_calls "g" (MkJoinRequest "" ["orders"%string]) consumer_broker).
Definition has_synced : Broker (log * disk) disk := snd (cl_Sync failing_calls "g" (MkSyncRequest "m1" 1) has_joined).

Lemma failed_offset_fetch_skips_records_witness :
  FetchOffsets "g" "orders" (coordinator consumer_broker) = [Build_CommittedOffset "orders" 0 2] ∧
  ∃ start rest r w', consumeCmd failing_calls "g" "orders" false 1 10 (consumer_broker, []) =
      (r, (w', Assigned [0] None start :: rest)) ∧ start !! 0 = Some 4 ∧
    ∀ mid post, rest = mid ++ post → Forall (λ e, reassigns e = false) mid →
      ∀ p o, Committed p o ∈ mid → 4 ≤ o.
Proof.
  split; [vm_compute; reflexivity|].
  destruct (failed_offset_fetch_skips_records Z.le failing_calls (serving (λ _, True)) "g" "orders" 1 9 "" 0
    consumer_broker has_joined has_synced has_synced [] ([], ∅) (MkJoinResponse "m1" 1 "m1" ["m1"%string] "CompletingRebalance")
    (MkSyncResponse 1 {["orders"%string := [0]]} "Stable") NetworkError (publicMetadata 1000 has_synced))
    as (start & rest & r & w' & Hrun & Hstart & Hrest).
  - intros c o Hle. exact Hle.
  - apply offsets_fail_honest, healthy_broker_honest.
  - destruct consumer_broker_serving as [Hlogs ? ? ?]. split; [|assumption..]. intros k l Hl. split; [exact I|].
    destruct (Hlogs k l Hl) as [_ Hrecs]. exact Hrecs.
  - apply run_start.
  - apply run_result. vm_compute. reflexivity.
  - apply run_result. vm_compute. reflexivity.
  - reflexivity.
  - reflexivity.
  - assert (latest "orders" 0 (publicMetadata 1000 has_synced) = 4) as E by (vm_compute; reflexivity).
    exists start, rest, r, w'. split; [exact Hrun|]. split.
    + rewrite <- E. apply Hstart. apply list_elem_of_here.
    + intros mid post Hsplit Hmid p o Hin. destruct (Hrest mid post Hsplit Hmid) as [_ Hc].
      destruct (Hc p o Hin) as [Hp Ho]. apply list_elem_of_singleton in Hp as ->. rewrite <- E. exact Ho.
Defined.
