(* ===== verification/Bench.v ===== *)
(** The benchmark, [cmd/bench/main.go]: how it divides the work, what it counts as
    produced, and the scan that counts what can be consumed. *)
From S2P Require Import Prelude GoStrings Bytes RecordFmt Disk CommitLog LogRep LogRead LogInterface.
From S2P Require Import GoFlag Store Wire BrokerState Client Consumer Produce CommandLine Commands Consuming.
Open Scope Z_scope.

(** ** Producing *)

(** The share of each worker, in the order of the workers; [None] is the panic of
    the division by zero. *)
Definition shares (n workers : Z) : option (list Z) :=
  if workers =? 0 then None else
  let per := Z.quot n workers in
  Some ((λ w, if w =? workers - 1 then n - per * (workers - 1) else per) <$> seqZ 0 workers).

(** Worker [w]'s [i]-th request. *)
Definition bench_key (keyed : bool) (w i : Z) : string :=
  if keyed then "k-" +:+ Itoa w +:+ "-" +:+ Itoa i else "".

Definition bench_payload (valueBytes : nat) : bytes := replicate valueBytes x78.

Definition bench_request (topic acks : string) (keyed : bool) (valueBytes : nat) (w i : Z) : ProduceRequest :=
  MkProduceRequest topic 0 (Produce.string_bytes (bench_key keyed w i)) (bench_payload valueBytes) acks [].

(** A worker stops at the first request that fails; [ok i]: its [i]-th succeeds. *)
Fixpoint worker_produced (ok : nat → bool) (i count : nat) : Z :=
  match count with
  | O => 0
  | S count => if ok i then 1 + worker_produced ok (S i) count else 0
  end.

(** The counter all workers add to, after the last one is done, however their
    requests interleave; [ok w]: the fate of worker [w]'s requests. *)
Definition bench_produced (ok : nat → nat → bool) (counts : list Z) : Z :=
  foldr Z.add 0 (imap (λ w c, worker_produced (ok w) 0 (Z.to_nat c)) counts).

(** ** The scan *)

Section scan.
Context {W : Type} (cli : calls W) (topic : string).

Definition bench_parts (md : Metadata) : list Z :=
  md_Topics md ≫= λ t, if bool_decide (ti_Name t = topic) then pi_ID <$> ti_Partitions t else [].

(** One round over the partitions: the records counted, the offsets and whether
    any came. *)
Fixpoint scan_round (parts : list Z) (consumed : Z) (offs : gmap Z Z) (progress : bool) : M W (Z * gmap Z Z * bool) :=
  match parts with
  | [] => mret (consumed, offs, progress)
  | p :: parts =>
    fr ← cl_Fetch cli topic p (offset_at offs p) (Z.shiftl 1 20);
    match fr with
    | inr _ => scan_round parts consumed offs progress
    | inl fr =>
      match last (f_Records fr) with
      | None => scan_round parts consumed offs progress
      | Some r => scan_round parts (consumed + Zlength (f_Records fr)) (<[p := i64 (w_Offset r + 1)]> offs) true
      end
    end
  end.

(** [rounds]: how many rounds begin before the deadline. *)
Fixpoint scan (rounds : nat) (parts : list Z) (produced consumed : Z) (offs : gmap Z Z) : M W (Z * gmap Z Z) :=
  match rounds with
  | O => mret (consumed, offs)
  | S rounds =>
    if consumed <? produced then
      r ← scan_round parts consumed offs false;
      scan rounds parts produced r.1.1 r.1.2
    else mret (consumed, offs)
  end.

(** [None]: the metadata could not be fetched, and the program exits. *)
Definition bench_consume (rounds : nat) (produced : Z) : M W (option (Z * gmap Z Z)) :=
  md ← cl_Metadata cli;
  match md with
  | inr _ => mret None
  | inl md => r ← scan rounds (bench_parts md) produced 0 ∅; mret (Some r)
  end.
End scan.

(** ** The program *)

(** What it reports, but for the times. *)
Record bench_report := BenchReport {
  br_topic : string;
  br_acks : string;
  br_keyed : bool;
  br_value_bytes : Z;
  br_workers : Z;
  br_produced : Z;
  br_consumed : Z;
  br_offsets : gmap Z Z  (* where the scan stopped *)
}.

Inductive bench_outcome := BenchExit (code : Z) | Benched (r : bench_report).

Definition bench_flags (getenv : string → string) : FlagSet := {[
  "brokers"%string := VString (CommandLine.env getenv "LOGSHIP_BROKERS" "127.0.0.1:9092"); "topic"%string := VString "bench";
  "n"%string := VInt 20000; "value-bytes"%string := VInt 200; "partitions"%string := VInt 3; "rf"%string := VInt 3;
  "acks"%string := VString "1"; "workers"%string := VInt 4; "keyed"%string := VBool true; "out"%string := VString ""]}.

Section program.
Context {W : Type} (client : list string → cli_calls W).

(** The workers side by side.  [schedule]: whose turn it is to send a request; a
    worker has sent [i] and has [todo] to send; a failure ends it.  [wg.Wait]
    returns when all are done: a schedule that stops before is [Diverged]. *)
Fixpoint bench_workers (send : nat → nat → M W (ProduceResponse + client_error)) (schedule : list nat)
    (ws : list (nat * nat)) (produced : Z) : M W Z :=
  match schedule with
  | [] => if forallb (λ x, x.2 =? 0)%nat ws then mret produced else λ w, (Diverged, w)
  | w :: schedule =>
    match ws !! w with
    | Some (i, S todo) =>
      r ← send w i;
      match r with
      | inl _ => bench_workers send schedule (<[w := (S i, todo)]> ws) (produced + 1)
      | inr _ => bench_workers send schedule (<[w := (i, O)]> ws) produced
      end
    | _ => bench_workers send schedule ws produced
    end
  end.

(** [main]; [rounds]: how many rounds of the scan begin before its deadline.  The
    error of [CreateTopic] is only printed; [strings.Repeat] panics on a negative
    count. *)
Definition bench_main (getenv : string → string) (args : list string) (schedule : list nat) (rounds : nat) :
    M W bench_outcome :=
  match Parse (bench_flags getenv) args with
  | Exits code => mret (BenchExit code)
  | Parsed fs _ =>
    let cli := client (split (string_flag fs "brokers")) in
    let topic := string_flag fs "topic" in
    let acks := string_flag fs "acks" in
    let keyed := bool_flag fs "keyed" in
    let valueBytes := int_flag fs "value-bytes" in
    let workers := int_flag fs "workers" in
    cc_CreateTopic cli topic (int_flag fs "partitions") (int_flag fs "rf");;
    if valueBytes <? 0 then panic else
    match shares (int_flag fs "n") workers with
    | None => panic
    | Some counts =>
      produced ← bench_workers
        (λ w i, cc_Produce cli (bench_request topic acks keyed (Z.to_nat valueBytes) (Z.of_nat w) (Z.of_nat i)))
        schedule ((λ c, (O, Z.to_nat c)) <$> counts) 0;
      r ← bench_consume (cc_calls cli) topic rounds produced;
      mret match r with
           | None => BenchExit 1
           | Some (consumed, offs) =>
             Benched (BenchReport topic acks keyed valueBytes workers produced consumed offs)
           end
    end
  end.
End program.

(** ** Properties *)

Lemma worker_produced_bounds ok i count : 0 ≤ worker_produced ok i count ≤ Z.of_nat count.
Proof. revert i. induction count as [|count IH]; intros i; cbn [worker_produced]; [lia|]. specialize (IH (S i)). case_match; lia. Qed.

Lemma worker_produced_all ok i count :
  (∀ j, (i ≤ j < i + count)%nat → ok j = true) → worker_produced ok i count = Z.of_nat count.
Proof.
  revert i. induction count as [|count IH]; intros i Hok; cbn [worker_produced]; [done|].
  rewrite Hok by lia. rewrite IH; [lia|]. intros j Hj. apply Hok. lia.
Qed.

Lemma sum_produced (f : nat → nat → bool) counts k :
  Forall (Z.le 0) counts →
  0 ≤ foldr Z.add 0 (imap (λ w c, worker_produced (f (k + w)%nat) 0 (Z.to_nat c)) counts) ≤ foldr Z.add 0 counts ∧
  ((∀ w i, f w i = true) →
     foldr Z.add 0 (imap (λ w c, worker_produced (f (k + w)%nat) 0 (Z.to_nat c)) counts) = foldr Z.add 0 counts).
Proof.
  intros Hc. revert k. induction Hc as [|c counts Hc _ IH]; intros k; [done|]. rewrite imap_cons. cbn [foldr].
  rewrite (imap_ext _ (λ w c, worker_produced (f (S k + w)%nat) 0 (Z.to_nat c))) by (intros; cbn; by rewrite Nat.add_succ_r).
  destruct (IH (S k)) as [Hb Hall]. pose proof (worker_produced_bounds (f (k + 0)%nat) 0 (Z.to_nat c)).
  split; [lia|]. intros Hok. rewrite Hall, worker_produced_all by auto. lia.
Qed.

Lemma sum_shares per n k :
  0 ≤ k → foldr Z.add 0 ((λ w, if w =? k then n else per) <$> seqZ 0 k) = per * k.
Proof.
  intros Hk.
  assert (∀ m, 0 ≤ m → ∀ j, j + m ≤ k → foldr Z.add 0 ((λ w, if w =? k then n else per) <$> seqZ j m) = per * m) as H.
  { intros m Hm. pattern m. apply natlike_ind; [intros j _; rewrite seqZ_nil by lia; cbn; lia| |done].
    clear m Hm. intros m Hm IH j Hj. rewrite seqZ_cons by lia. rewrite fmap_cons. cbn [foldr].
    rewrite (proj2 (Z.eqb_neq j k)) by lia. rewrite Z.pred_succ, IH by lia. lia. }
  apply H; lia.
Qed.

(** The workers share the records: with at least one worker the shares are not
    negative and add up to [n]; what is counted as produced is at most [n], and
    [n] when no request fails. Without workers the program panics. *)
Theorem bench_divides_the_work n workers (Hn : 0 ≤ n) (Hw : 0 < workers) :
  ∃ counts, shares n workers = Some counts ∧ Zlength counts = workers ∧ Forall (Z.le 0) counts ∧
    foldr Z.add 0 counts = n ∧
    (∀ ok, 0 ≤ bench_produced ok counts ≤ n) ∧
    (∀ ok, (∀ w i, ok w i = true) → bench_produced ok counts = n) ∧ shares n 0 = None.
Proof.
  unfold shares. rewrite (proj2 (Z.eqb_neq workers 0)) by lia. set (per := Z.quot n workers).
  assert (0 ≤ per ∧ workers * per ≤ n) as [Hper Hle].
  { unfold per. rewrite Z.quot_div_nonneg by lia. split; [apply Z.div_pos; lia|apply Z.mul_div_le; lia]. }
  eexists. split; [done|].
  assert (Forall (Z.le 0) ((λ w, if w =? workers - 1 then n - per * (workers - 1) else per) <$> seqZ 0 workers)) as Hall.
  { apply Forall_fmap, Forall_true. intros w. cbn. case_match; lia. }
  assert (foldr Z.add 0 ((λ w, if w =? workers - 1 then n - per * (workers - 1) else per) <$> seqZ 0 workers) = n) as Hsum.
  { assert (seqZ 0 workers = seqZ 0 (workers - 1) ++ [workers - 1]) as ->.
    { replace workers with ((workers - 1) + 1) at 1 by lia. by rewrite seqZ_app by lia. }
    rewrite fmap_app, foldr_app. cbn [fmap list_fmap foldr]. rewrite Z.eqb_refl, Z.add_0_r.
    assert (∀ a l, foldr Z.add a l = foldr Z.add 0 l + a) as ->.
    { intros a l. induction l as [|x l IH]; cbn; [lia|]. rewrite IH. lia. }
    rewrite sum_shares by lia. lia. }
  split_and!; [unfold Zlength; rewrite length_fmap, length_seqZ; lia|done|done| | |done].
  - intros ok. destruct (sum_produced ok _ 0 Hall) as [Hb _]. rewrite Hsum in Hb. exact Hb.
  - intros ok Hok. destruct (sum_produced ok _ 0 Hall) as [_ Ha]. rewrite Hsum in Ha. by apply Ha.
Qed.

Lemma bench_divides_the_work_witness :
  ∃ counts, shares 10 4 = Some counts ∧ foldr Z.add 0 counts = 10 ∧ counts = [2; 2; 2; 4].
Proof.
  destruct (bench_divides_the_work 10 4) as (counts & E & _ & _ & Hs & _); [lia|lia|].
  exists counts. split; [exact E|]. split; [exact Hs|]. by injection E as <-.
Defined.

(** The sum of the offsets. *)
Definition total (offs : gmap Z Z) : Z := map_fold (λ _ o s, o + s) 0 offs.

Lemma total_insert offs p o : total (<[p := o]> offs) = total offs - offset_at offs p + o.
Proof.
  unfold total, offset_at. destruct (offs !! p) as [o'|] eqn:E; cbn.
  - rewrite <- (insert_delete_id offs p o' E) at 2. rewrite <- insert_delete_eq.
    rewrite !map_fold_insert_L; try (intros; lia); apply lookup_delete_eq.
  - rewrite map_fold_insert_L by (done || intros; lia). lia.
Qed.

Lemma rising_last off (recs : list WireRecord) r :
  rising Z.le off (w_Offset <$> recs) → last recs = Some r →
  off + Zlength recs ≤ w_Offset r + 1 ∧ 0 ≤ w_Offset r < 2 ^ 63 - 1.
Proof.
  revert off. induction recs as [|x recs IH]; intros off; [done|]. intros (Hx & Hle & Hup) Hlast.
  destruct recs as [|y recs].
  - injection Hlast as ->. unfold Zlength. cbn. lia.
  - destruct (IH _ Hup Hlast) as [H1 H2]. unfold Zlength in *. cbn [length] in *. lia.
Qed.

Section counting.
Context {W : Type} (cli : calls W) (I : W → Prop) (Hcli : honest Z.le cli I) (topic : string).

(** What has been counted is below the offsets. *)
Definition counted (consumed : Z) (offs : gmap Z Z) : Prop := 0 ≤ consumed ≤ total offs ∧ ∀ p, 0 ≤ offset_at offs p.

Lemma safe_bind_scan {A B} (m : M W A) (f : A → M W B) P Q :
  safe I m P → (∀ a, P a → safe I (f a) Q) → safe I (m ≫= f) Q.
Proof.
  intros Hm Hf w Hw. specialize (Hm w Hw). unfold mbind, M_bind. destruct (m w) as [[a| | |] w']; try done.
  destruct Hm as [Hw' Ha]. by apply Hf.
Qed.

Lemma counted_round consumed offs p fr r :
  counted consumed offs → rising Z.le (offset_at offs p) (w_Offset <$> f_Records fr) → last (f_Records fr) = Some r →
  counted (consumed + Zlength (f_Records fr)) (<[p := i64 (w_Offset r + 1)]> offs).
Proof.
  intros [Hc Hpos] Hfr Hlast. destruct (rising_last _ _ _ Hfr Hlast) as [Hle Hr].
  rewrite i64_small by (unfold is_i64; lia). split.
  - rewrite total_insert. unfold Zlength in *. lia.
  - intros q. destruct (decide (p = q)) as [->|]; [rewrite offset_at_insert; lia|]. by rewrite offset_at_insert_ne.
Qed.

Lemma scan_round_safe parts consumed offs progress :
  counted consumed offs → safe I (scan_round cli topic parts consumed offs progress) (λ r, counted r.1.1 r.1.2).
Proof using Hcli.
  revert consumed offs progress. induction parts as [|p parts IH]; intros consumed offs progress Hc; cbn [scan_round].
  { intros w Hw. by split. }
  pose proof Hc as [_ Hpos]. eapply safe_bind_scan; [apply (h_Fetch _ _ _ Hcli), Hpos|]. intros [fr|e] Hfr; [|by apply IH].
  destruct (last (f_Records fr)) as [r|] eqn:Hlast; [|by apply IH]. apply IH. by eapply counted_round.
Qed.

Lemma scan_safe rounds parts produced consumed offs :
  counted consumed offs → safe I (scan cli topic rounds parts produced consumed offs) (λ r, counted r.1 r.2).
Proof using Hcli.
  revert consumed offs. induction rounds as [|rounds IH]; intros consumed offs Hc; cbn [scan]; [by intros w Hw|].
  destruct (consumed <? produced); [|by intros w Hw].
  eapply safe_bind_scan; [by apply scan_round_safe|]. intros r Hr. by apply IH.
Qed.

Lemma bench_consume_safe rounds produced :
  safe I (bench_consume cli topic rounds produced)
    (λ r, match r with Some r => counted r.1 r.2 | None => True end).
Proof using Hcli.
  refine (safe_bind_scan _ _ _ _ (h_Metadata _ _ _ Hcli) _).
  intros [md|e] _; [|by intros w Hw]. apply safe_bind_scan with (P := λ r, counted r.1 r.2).
  - by apply scan_safe.
  - intros r Hr w Hw. by split.
Qed.

(** Calls that return make a scan that returns. *)
Definition returns {A} (m : M W A) : Prop := ∀ w, I w → ∃ a w', m w = (Ok a, w').

Lemma returns_ret {A} (a : A) : returns (mret a).
Proof. intros w _. by exists a, w. Qed.

Lemma returns_bind {A B} (m : M W A) (f : A → M W B) P :
  safe I m P → returns m → (∀ a, P a → returns (f a)) → returns (m ≫= f).
Proof.
  intros Hsafe Hm Hf w Hw. destruct (Hm w Hw) as (a & w1 & Ha). rewrite (bind_Ok _ _ _ _ _ Ha).
  specialize (Hsafe w Hw). rewrite Ha in Hsafe. destruct Hsafe as [Hw1 HP]. exact (Hf a HP w1 Hw1).
Qed.

Context (Hfetch : ∀ t p off n, 0 ≤ off → returns (cl_Fetch cli t p off n)).

Lemma scan_round_returns parts consumed offs progress :
  counted consumed offs → returns (scan_round cli topic parts consumed offs progress).
Proof using Hcli Hfetch.
  revert consumed offs progress. induction parts as [|p parts IH]; intros consumed offs progress Hc; cbn [scan_round].
  { apply returns_ret. }
  pose proof Hc as [_ Hpos].
  refine (returns_bind _ _ _ (h_Fetch _ _ _ Hcli topic p _ _ (Hpos p)) (Hfetch topic p _ _ (Hpos p)) _).
  intros [fr|e] Hfr; [|by apply IH].
  destruct (last (f_Records fr)) as [r|] eqn:Hlast; [|by apply IH]. apply IH. by eapply counted_round.
Qed.

Lemma scan_returns rounds parts produced consumed offs :
  counted consumed offs → returns (scan cli topic rounds parts produced consumed offs).
Proof using Hcli Hfetch.
  revert consumed offs. induction rounds as [|rounds IH]; intros consumed offs Hc; cbn [scan]; [apply returns_ret|].
  destruct (consumed <? produced); [|apply returns_ret].
  eapply returns_bind; [by apply scan_round_safe|by apply scan_round_returns|]. intros r Hr. by apply IH.
Qed.
End counting.

(** The benchmark counts no record twice: whatever the brokers answer, as long
    as fetched records come in order, the number of records it has counted as
    consumed is at most the sum of the offsets it has reached in the partitions;
    what it reports is what was there to be read. *)
Theorem bench_counts_each_record_once {W} (cli : calls W) I topic rounds produced w
    (Hcli : honest Z.le cli I) (Hw : I w) :
  match bench_consume cli topic rounds produced w with
  | (Ok (Some (consumed, offs)), w') => I w' ∧ 0 ≤ consumed ≤ total offs ∧ ∀ p, 0 ≤ offset_at offs p
  | (_, w') => I w'
  end.
Proof.
  pose proof (bench_consume_safe cli I Hcli topic rounds produced w Hw) as H.
  destruct (bench_consume _ _ _ _ w) as [[[[consumed offs]|]| | |] w']; try done; by destruct H.
Qed.

(** *** The workers side by side *)

#[local] Abbreviation sum := (foldr Z.add 0).

Lemma sum_imap_update {A} (f g : nat → A → Z) ws w x y :
  ws !! w = Some x → (∀ j z, j ≠ w → f j z = g j z) →
  sum (imap f ws) = sum (imap g (<[w := y]> ws)) + (f w x - g w y).
Proof.
  revert f g w. induction ws as [|z ws IH]; intros f g [|w] Hw Hfg; try done.
  - injection Hw as ->. cbn. assert (imap (f ∘ S) ws = imap (g ∘ S) ws) as ->; [|lia].
    apply imap_ext. intros. by apply Hfg.
  - cbn. rewrite (Hfg 0%nat) by done. assert (∀ j z, j ≠ w → (f ∘ S) j z = (g ∘ S) j z) as Hfg'.
    { intros j z' Hj. apply Hfg. lia. }
    pose proof (IH (f ∘ S) (g ∘ S) w Hw Hfg') as E. cbn in E. rewrite E. apply Z.add_assoc.
Qed.

Lemma worker_produced_ext ok ok' i count :
  (∀ j, (i ≤ j)%nat → ok j = ok' j) → worker_produced ok i count = worker_produced ok' i count.
Proof.
  revert i. induction count as [|count IH]; intros i Hok; [done|]. cbn. rewrite Hok by lia.
  rewrite IH; [done|]. intros j Hj. apply Hok. lia.
Qed.

(** What the workers will have produced. *)
Definition to_come (ok : nat → nat → bool) (w : nat) (x : nat * nat) : Z := worker_produced (ok w) x.1 x.2.

(** The fate of one more request. *)
Definition fate (w i : nat) (v : bool) (ok : nat → nat → bool) (w' i' : nat) : bool :=
  if decide (w' = w ∧ i' = i) then v else ok w' i'.

Lemma to_come_fate ok w i todo v ws :
  ws !! w = Some (i, S todo) →
  sum (imap (to_come (fate w i v ok)) ws) =
    sum (imap (to_come ok) (<[w := if v then (S i, todo) else (i, O)]> ws)) + (if v then 1 else 0).
Proof.
  intros Hw. set (y := if v then (S i, todo) else (i, O)). rewrite (sum_imap_update _ (to_come ok) ws w (i, S todo) y Hw).
  - assert (to_come (fate w i v ok) w (i, S todo) = to_come ok w y + (if v then 1 else 0)) as ->; [|lia].
    unfold to_come. cbn. unfold fate at 1. rewrite decide_True by done. destruct v; [|done]. cbn.
    rewrite (worker_produced_ext _ (ok w)); [lia|]. intros j Hj. unfold fate. by rewrite decide_False by lia.
  - intros j z Hj. apply worker_produced_ext. intros ? _. unfold fate. by rewrite decide_False by tauto.
Qed.

Section side_by_side.
Context {W : Type} (I : W → Prop) (send : nat → nat → M W (ProduceResponse + client_error)).
Context (Hsend : ∀ w i st, I st → ∃ r st', send w i st = (Ok r, st') ∧ I st').

(** Everyone gets as many turns as requests. *)
Definition fair (schedule : list nat) (ws : list (nat * nat)) : Prop :=
  ∀ w i todo, ws !! w = Some (i, todo) → (todo ≤ count_occ Nat.eq_dec schedule w)%nat.

Lemma fair_step w schedule ws i todo x :
  fair (w :: schedule) ws → ws !! w = Some (i, S todo) → (x.2 ≤ todo)%nat → fair schedule (<[w := x]> ws).
Proof.
  intros Hf Hw Hx w' i' todo' [(<- & -> & _)|[Hne Hw']]%list_lookup_insert_Some.
  - specialize (Hf _ _ _ Hw). rewrite count_occ_cons_eq in Hf by done. cbn in Hx. lia.
  - specialize (Hf _ _ _ Hw'). by rewrite count_occ_cons_neq in Hf by done.
Qed.

Lemma fair_skip w schedule ws :
  fair (w :: schedule) ws → (∀ i todo, ws !! w = Some (i, todo) → todo = O) → fair schedule ws.
Proof.
  intros Hf Hw w' i todo Hw'. destruct (decide (w = w')) as [->|Hne].
  - rewrite (Hw _ _ Hw'). lia.
  - specialize (Hf _ _ _ Hw'). by rewrite count_occ_cons_neq in Hf by done.
Qed.

(** However the workers take turns, the counter is what each of them produced by
    itself. *)
Lemma bench_workers_run schedule ws produced st :
  fair schedule ws → I st →
  ∃ ok st', bench_workers send schedule ws produced st = (Ok (produced + sum (imap (to_come ok) ws)), st') ∧ I st' ∧
    ((∀ w i st r st', I st → send w i st = (Ok r, st') → ∃ a, r = inl a) → ∀ w i, ok w i = true).
Proof using Hsend.
  revert ws produced st. induction schedule as [|w schedule IH]; intros ws produced st Hf Hst; cbn [bench_workers].
  - exists (λ _ _, true), st. assert (Forall (λ x : nat * nat, x.2 = O) ws) as Hz.
    { apply Forall_lookup. intros w [i todo] Hw. specialize (Hf _ _ _ Hw). cbn in *. lia. }
    assert (forallb (λ x, x.2 =? 0)%nat ws = true) as ->.
    { apply forallb_forall. intros x Hx%list_elem_of_In. rewrite Forall_forall in Hz. apply Nat.eqb_eq. by apply Hz. }
    assert (∀ k, sum (imap (λ w, to_come (λ _ _, true) (k + w)) ws) = 0) as Hsum.
    { induction Hz as [|[i todo] ws Hx _ IHz]; intros k; [done|]. cbn in Hx. subst todo. rewrite imap_cons. cbn [foldr].
      rewrite (imap_ext _ (λ w, to_come (λ _ _, true) (S k + w))) by (intros; cbn; by rewrite Nat.add_succ_r).
      rewrite IHz; [done|]. intros w i' todo' Hw. by apply (Hf (S w) i' todo'). }
    assert (sum (imap (to_come (λ _ _, true)) ws) = 0) as -> by exact (Hsum O). by rewrite Z.add_0_r.
  - destruct (ws !! w) as [[i [|todo]]|] eqn:Hw.
    2: { destruct (Hsend w i st Hst) as (r & st1 & Hr & Hst1). rewrite (bind_Ok _ _ _ _ _ Hr).
         set (v := match r with inl _ => true | inr _ => false end).
         destruct (IH (<[w := if v then (S i, todo) else (i, O)]> ws) (produced + (if v then 1 else 0)) st1) as
           (ok & st' & Hrun & Hst' & Hok); [by eapply fair_step; [done..|destruct v; cbn; lia]|done|].
         exists (fate w i v ok), st'. split_and!; [|done|].
         - rewrite (to_come_fate ok w i todo v ws Hw).
           rewrite (Z.add_comm (sum _)), Z.add_assoc.
           rewrite <- Hrun. unfold v. destruct r; [done|]. by rewrite Z.add_0_r.
         - intros Hall w' i'. unfold fate. case_decide as E; [|by apply Hok]. unfold v.
           by destruct (Hall w i st r st1 Hst Hr) as [a ->]. }
    all: apply IH; [|done]; apply (fair_skip w); [done|]; intros ? ? E; rewrite Hw in E; by simplify_eq.
Qed.
End side_by_side.

(** *** The program *)

(** The client's calls return, and the brokers are honest, as long as [I] holds. *)
Record answering {W} (c : cli_calls W) (I : W → Prop) : Prop := {
  an_honest : honest Z.le (cc_calls c) I;
  an_CreateTopic t n rf w : I w → ∃ r w', cc_CreateTopic c t n rf w = (Ok r, w') ∧ I w';
  an_Produce req w : I w → ∃ r w', cc_Produce c req w = (Ok r, w') ∧ I w';
  an_Metadata : returns I (cl_Metadata (cc_calls c));
  an_Fetch t p off n : 0 ≤ off → returns I (cl_Fetch (cc_calls c) t p off n)
}.

Lemma counts_fair schedule counts n :
  Forall (Z.le 0) counts → foldr Z.add 0 counts = n →
  (∀ w, (w < length counts)%nat → n ≤ Z.of_nat (count_occ Nat.eq_dec schedule w)) →
  fair schedule ((λ c, (O, Z.to_nat c)) <$> counts).
Proof.
  intros Hpos Hsum Hturns w i todo. rewrite list_lookup_fmap. destruct (counts !! w) as [c|] eqn:Hc; [|done].
  intros [= _ <-]. specialize (Hturns w (lookup_lt_Some _ _ _ Hc)).
  assert (c ≤ foldr Z.add 0 counts) as Hle; [|lia]. clear -Hpos Hc. revert w Hc.
  induction Hpos as [|x counts Hx Hpos IH]; intros [|w] Hc; try done; cbn.
  - injection Hc as ->. assert (0 ≤ foldr Z.add 0 counts); [|lia]. clear -Hpos. induction Hpos; cbn; lia.
  - specialize (IH w Hc). lia.
Qed.

(** C31: the benchmark ends and reports what happened. With any flags that ask for
    workers and sizes that make sense, however the workers' requests interleave,
    and whatever the brokers answer, as long as they answer and fetched records
    come in order: it only gives up when the metadata cannot be fetched; otherwise
    it reports at most [n] records as produced, all [n] when no request was
    refused, and at most as many as consumed as the offsets add up to that it
    reached in the partitions, so that no record is counted twice. *)
Theorem benchmark_reports_what_happened {W} (client : list string → cli_calls W) I getenv ss schedule rounds w
    (Hclient : ∀ bs, answering (client bs) I) (Hw : I w) (Hss : Forall (settable (bench_flags getenv)) ss) :
  let fs := foldl apply_setting (bench_flags getenv) ss in
  let n := int_flag fs "n" in
  let workers := int_flag fs "workers" in
  let cli := client (split (string_flag fs "brokers")) in
  ∀ (Hn : 0 ≤ n) (Hworkers : 0 < workers) (Hsize : 0 ≤ int_flag fs "value-bytes")
    (Hturns : ∀ w, Z.of_nat w < workers → n ≤ Z.of_nat (count_occ Nat.eq_dec schedule w)),
  ∃ out w', bench_main client getenv (concat (render <$> ss)) schedule rounds w = (Ok out, w') ∧ I w' ∧
    ((out = BenchExit 1 ∧ ∃ w1 w2 e, I w1 ∧ cl_Metadata (cc_calls cli) w1 = (Ok (inr e), w2)) ∨
     ∃ r, out = Benched r ∧ br_topic r = string_flag fs "topic" ∧ br_workers r = workers ∧ 0 ≤ br_produced r ≤ n ∧
       ((∀ req w1 a w2, I w1 → cc_Produce cli req w1 = (Ok a, w2) → ∃ resp, a = inl resp) → br_produced r = n) ∧
       0 ≤ br_consumed r ≤ total (br_offsets r)).
Proof.
  intros fs n workers cli Hn Hworkers Hsize Hturns. destruct (Hclient (split (string_flag fs "brokers"))) as [Hh Hct Hpr Hmd Hft].
  unfold bench_main. rewrite <- (app_nil_r (concat _)), Parse_settings by done. cbn [Parse]. fold fs cli n workers.
  destruct (Hct (string_flag fs "topic") (int_flag fs "partitions") (int_flag fs "rf") w Hw) as (r0 & w0 & Hrun0 & Hw0).
  fold cli in Hrun0. rewrite (bind_Ok _ _ _ _ _ Hrun0), (proj2 (Z.ltb_ge _ _)) by done.
  destruct (bench_divides_the_work n workers Hn Hworkers) as (counts & -> & Hlen & Hpos & Hsum & Hb & Hall & _).
  assert (fair schedule ((λ c, (O, Z.to_nat c)) <$> counts)) as Hf.
  { apply (counts_fair _ _ n); [done..|]. intros w' Hw'. apply Hturns. unfold Zlength in Hlen. lia. }
  set (send := λ w' i : nat, cc_Produce cli _).
  destruct (bench_workers_run I send (λ w' i st, Hpr _ st) schedule _ 0 w0 Hf Hw0) as (ok & w1 & Hrun1 & Hw1 & Hok).
  rewrite (bind_Ok _ _ _ _ _ Hrun1), Z.add_0_l. rewrite imap_fmap.
  change (foldr Z.add 0 (imap _ counts)) with (bench_produced ok counts).
  unfold bench_consume. destruct (Hmd w1 Hw1) as (md & w2 & Hrun2). pose proof (h_Metadata _ _ _ Hh w1 Hw1) as Hs.
  rewrite Hrun2 in Hs. destruct Hs as [Hw2 _]. fold cli in Hrun2.
  destruct md as [md|e]; [|exists (BenchExit 1), w2; split; [by rewrite (bind_Ok _ _ _ _ _ (bind_Ok _ _ _ _ _ Hrun2))|];
    split; [done|]; left; split; [done|by exists w1, w2, e]].
  assert (counted 0 ∅) as Hc0 by (split; [done|]; intros q; unfold offset_at; by rewrite lookup_empty).
  destruct (scan_returns _ I Hh (string_flag fs "topic") Hft rounds (bench_parts (string_flag fs "topic") md)
    (bench_produced ok counts) 0 ∅ Hc0 w2 Hw2) as ([consumed offs] & w3 & Hrun3).
  pose proof (scan_safe _ I Hh (string_flag fs "topic") rounds (bench_parts (string_flag fs "topic") md)
    (bench_produced ok counts) 0 ∅ Hc0 w2 Hw2) as Hs. rewrite Hrun3 in Hs. destruct Hs as [Hw3 [Hcount _]].
  fold cli in Hrun3. eexists _, w3. split.
  { erewrite bind_Ok; [reflexivity|]. rewrite (bind_Ok _ _ _ _ _ Hrun2). by rewrite (bind_Ok _ _ _ _ _ Hrun3). }
  split; [done|]. right. eexists. split; [reflexivity|]. cbn. split; [done|]. split; [done|]. split; [apply Hb|].
  split; [|done]. intros Hgood. apply Hall, Hok. intros w' i st r st' Hst Hr. by eapply Hgood.
Qed.

(** A broker with one partition, which only counts its records, and two workers
    that take turns to send three. *)
Definition counting_calls : calls Z := Calls _ (λ _ _, mret (inr NetworkError)) (λ _ _, mret (inr NetworkError))
  (λ _ _, mret (inr NetworkError)) (λ _ _, mret (inr NetworkError)) (λ _ _, mret (inr NetworkError))
  (mret (inl (MkMetadata 1 [] [MkTopicInfo "bench" [MkPartitionInfo 0 1 [1] [1] 0 0]])))
  (λ t p off _ leo, (Ok (inl (MkFetch t p leo leo (if off <? Z.min leo 1000 then [MkWire off 0 [] [x78]] else []))), leo)).
Definition counting_client (_ : list string) : cli_calls Z :=
  CliCalls counting_calls (λ _ _ _, mret (inl tt)) (λ req leo, (Ok (inl (MkProduceResponse (rq_Topic req) [])), leo + 1)).

Lemma counting_client_answering bs : answering (counting_client bs) (λ _, True).
Proof.
  split; try done; try (by intros; intros w _; do 2 eexists); try (by intros; do 2 eexists).
  split; cbn; try done; try (by intros; intros w _); try (by intros; intros w _; split; [|repeat constructor]).
  intros t p off m Hoff leo _. split; [done|]. cbn. destruct (Z.ltb_spec off (Z.min leo 1000)); cbn; [|done]. lia.
Qed.

Lemma benchmark_reports_what_happened_witness :
  ∃ r w', bench_main counting_client (λ _, ""%string) ["--n=3"; "-workers"; "2"]%string [0; 1; 0; 1; 0; 1]%nat 9 0 =
      (Ok (Benched r), w') ∧ br_produced r = 3 ∧ 0 ≤ br_consumed r ≤ total (br_offsets r) ∧ br_consumed r = 3.
Proof.
  destruct (benchmark_reports_what_happened counting_client (λ _, True) (λ _, ""%string)
    [Setting "n" (VInt 3) true true; Setting "workers" (VInt 2) false false] [0; 1; 0; 1; 0; 1]%nat 9 0)
    as (out & w' & Hrun & _ & Hout).
  - exact counting_client_answering.
  - done.
  - repeat (apply Forall_cons_2; [by split; [|eexists|]|]). apply Forall_nil_2.
  - by vm_compute.
  - by vm_compute.
  - by vm_compute.
  - intros [|[|w]] Hw; [by vm_compute..|]. vm_compute in Hw. exfalso. revert Hw. 
    change (¬ (Z.of_nat (S (S w)) < 2)). lia.
  - assert (fst (bench_main counting_client (λ _, ""%string) ["--n=3"; "-workers"; "2"]%string [0; 1; 0; 1; 0; 1]%nat 9 0)
      = Ok (Benched (BenchReport "bench" "1" true 200 2 3 3 {[0 := 3]}))) as E by (vm_compute; reflexivity).
    assert (Ok out = Ok (Benched (BenchReport "bench" "1" true 200 2 3 3 {[0 := 3]}))) as E'.
    { rewrite <- E. exact (f_equal fst (eq_sym Hrun)). }
    injection E' as ->. destruct Hout as [[Hno _]|(r & Hr & _ & _ & _ & _ & Hc)]; [discriminate Hno|].
    injection Hr as <-. eexists _, w'. split; [exact Hrun|]. split; [reflexivity|]. split; [exact Hc|reflexivity].
Defined.

(** The scan of the sample broker of [Consuming], to its high watermark. *)
Lemma bench_counts_each_record_once_witness :
  match bench_consume (broker_calls 1000 "m" consumer_env) "orders" 10 5 consumer_broker with
  | (Ok (Some (consumed, offs)), _) => consumed = 4 ∧ consumed ≤ total offs
  | _ => False
  end.
Proof.
  pose proof (bench_counts_each_record_once (broker_calls 1000 "m" consumer_env) _ "orders" 10 5 consumer_broker
    (healthy_broker_honest 1000 "m" consumer_env)) as H.
  assert (serving (D:=disk) (λ _ : log * disk, True) consumer_broker) as Hb.
  { destruct consumer_broker_serving as [Hl Hled Ht Ho]. split; [|exact Hled|exact Ht|exact Ho].
    intros k l Hk. destruct (Hl k l Hk) as [_ Hh]. split; [exact I|exact Hh]. }
  specialize (H Hb). destruct (bench_consume _ _ _ _ _) as [r w] eqn:E.
  assert (fst <$> (match r with Ok r => r | _ => None end) = Some 4) as Er.
  { change r with (fst (r, w)). rewrite <- E. vm_compute. reflexivity. }
  clear E. destruct r as [[[consumed offs]|]| | |]; [|discriminate Er..].
  destruct H as (_ & [_ Hc] & _). injection Er as ->. split; [reflexivity|exact Hc].
Defined.
