(* ===== verification/ReplicationSafety.v ===== *)
(** Replication of one partition as a step relation: a leader, its followers and
    the messages between them, with the broker's own operations as steps, and
    changes of leader after which no follower has more than the new leader; what
    the high watermark guarantees in every reachable state.  The proofs use the
    log only through [LogLaws]. *)
From S2P Require Import Prelude GoStrings Bytes RecordFmt Disk Index Segment CommitLog LogRep LogRead LogInterface.
From S2P Require Import Partitioner Cluster Store Wire BrokerState Metadata Replica Produce Handlers.
Open Scope Z_scope.

Section system.
Context {L D : Type} `{LogOpener L D} `{LogLaws L}.
Implicit Types b : Broker L D.

(** Partition [p] of topic [t], which has [n] partitions. *)
Context (t : string) (n p : Z) (Hn : 0 < n < 2 ^ 32) (Hp : 0 ≤ p < n).
#[local] Abbreviation k := (store_key t p).

(** ** The system *)

(** [answers]: fetch answers on their way to a follower; [acks]: acks on their
    way to the leader. *)
Record system := Sys {
  leader : Broker L D;
  followers : gmap Z (Broker L D);
  answers : list (Z * FetchResponse);
  acks : list ReplicaAckRequest
}.

Definition set_leader (b : Broker L D) (s : system) : system := Sys b (followers s) (answers s) (acks s).

(** No log of the topic is full. *)
Definition room b : Prop :=
  ∀ q l, 0 ≤ q < n → log_at b (store_key t q) = Some l → op_leo l + 1 < 2 ^ 63.

(** A record with a clock reading and UTF-8 strings, as clients send them. *)
Definition clean (ts : Z) (rec : ProduceRecord) : Prop :=
  fits ts rec ∧ ts ≠ 0 ∧ utf8_record (new_record ts 0 rec).

(** [f1] is the broker [f] once it has learnt that it leads the partition, which
    it has not led before. *)
Record takes_over (f f1 : Broker L D) : Prop := {
  to_cfg : cfg f1 = cfg f;
  to_log : log_at f1 k = log_at f k;
  to_leads : p_Leader <$> partition_meta f1 t p = Some (cfg_ID (cfg f));
  to_notes : replica_states f1 t p = ∅
}.

(** A step under one leader.  A produce request appends its records one by one
    ([steady_append]) and, without acks=all, looks whether the leader is alone
    ([steady_solo]); with acks=all it looks at the high watermark between the
    steps. *)
Inductive steady : system → system → Prop :=
  | steady_append s env req rec a b :
      rq_Topic req = t → clean (ce_ts env) rec → room (leader s) →
      produce_append env req n rec (leader s) = (Ok a, b) →
      steady s (set_leader b s)
  | steady_solo s q b :
      0 ≤ q < n → maybeSoloHW t q (store_key t q) (leader s) = (Ok tt, b) →
      steady s (set_leader b s)
  | steady_serve s id off maxBytes fr b :
      0 ≤ off →
      serveFetch (λ _ _ _ _ _, None) t p off maxBytes true (leader s) = (Ok (Fetched fr), b) →
      steady s (Sys b (followers s) ((id, json_fetch fr) :: answers s) (acks s))
  | steady_deliver s id fr now f ack f' :
      (id, fr) ∈ answers s → followers s !! id = Some f →
      follow_reply now t p fr f = (Ok ack, f') →
      steady s (Sys (leader s) (<[id := f']> (followers s)) (answers s) (ack :: acks s))
  | steady_ack s ack now disk_ok c b :
      ack ∈ acks s → handleReplicaAck now disk_ok ack (leader s) = (Ok c, b) →
      steady s (set_leader b s)
  | steady_recompute s now disk_ok c b :
      recomputeHW now disk_ok t p (leader s) = (Ok c, b) →
      steady s (set_leader b s)
  | steady_membership s c : steady s (set_leader (set_cluster c (leader s)) s).

(** [step_elect]: the leader is gone and follower [id] leads; the followers [fs]
    that stay have no more than it has, and of the answers on their way only those
    arrive that bring nothing the new leader lacks. *)
Inductive step : system → system → Prop :=
  | step_steady s s' : steady s s' → step s s'
  | step_elect s id f f1 lf fs ans :
      followers s !! id = Some f → takes_over f f1 → (∃ C, leading f1 t n C) → log_at f1 k = Some lf →
      fs ⊆ delete id (followers s) →
      (∀ i g lg, fs !! i = Some g → log_at g k = Some lg → op_leo lg ≤ op_leo lf) →
      (∀ x, x ∈ ans → x ∈ answers s ∧ Forall (λ w, w_Offset w < op_leo lf) (f_Records x.2)) →
      step s (Sys f1 fs ans []).

(** Messages stay on their way after they arrive: they may be late and
    repeated; one that is never delivered is lost. *)

Definition holds_at b (recs : list record) : Prop := ∃ l, log_at b k = Some l ∧ log_contents l recs.

(** A leader of the whole topic and followers with empty logs. *)
Record initial (s : system) : Prop := {
  in_leader : leading (leader s) t n (λ _, []);
  in_states : replica_states (leader s) t p = ∅;
  in_followers id f : followers s !! id = Some f → cfg_ID (cfg f) = id ∧ holds_at f [];
  in_answers : answers s = [];
  in_acks : acks s = []
}.

Definition reachable (s : system) : Prop := ∃ s0, initial s0 ∧ rtc step s0 s.

(** ** The invariant *)

(** Broker [id] holds at least [m] records, the leader's. *)
Definition acked (all : list record) (s : system) (id m : Z) : Prop :=
  ∃ f recs, followers s !! id = Some f ∧ holds_at f recs ∧ recs `prefix_of` all ∧ m ≤ Zlength recs.

Record good (s : system) (C : Z → list record) : Prop := {
  gd_leader : leading (leader s) t n C;
  gd_replicable : replicable (C p);
  gd_followers id f : followers s !! id = Some f →
    cfg_ID (cfg f) = id ∧ ∃ recs, holds_at f recs ∧ recs `prefix_of` C p;
  gd_answers id fr : (id, fr) ∈ answers s →
    ∃ out, f_Records fr = json_record <$> toWire out ∧ Forall (.∈ C p) out;
  gd_acks ack : ack ∈ acks s →
    a_Topic ack = t ∧ a_Partition ack = p ∧ acked (C p) s (a_BrokerID ack) (a_LEO ack);
  gd_states id st : replica_states (leader s) t p !! id = Some st →
    id = cfg_ID (cfg (leader s)) ∨ acked (C p) s id (r_leo st)
}.

(** ** Each step keeps the invariant *)

Lemma holds_at_length b r1 r2 : holds_at b r1 → holds_at b r2 → Zlength r1 = Zlength r2.
Proof.
  intros (l1 & Hl1 & Hc1) (l2 & Hl2 & Hc2). simplify_eq.
  by rewrite <- (log_leo _ _ Hc1), <- (log_leo _ _ Hc2).
Qed.

Lemma acked_mono all all' s s' id m :
  all `prefix_of` all' → followers s' = followers s → acked all s id m → acked all' s' id m.
Proof.
  intros Hpre Hf (f & recs & Hid & Hh & Hr & Hm). exists f, recs. rewrite Hf.
  split_and!; try done. by etrans.
Qed.

Lemma leading_part b C q : leading b t n C → 0 ≤ q < n → ∃ l pm, log_at b (store_key t q) = Some l ∧
  log_contents l (C q) ∧ partition_meta b t q = Some pm ∧ p_Leader pm = cfg_ID (cfg b).
Proof.
  intros Hb Hq. destruct (ld_log _ _ _ _ Hb q Hq) as (l & Hl & Hrecs). pose proof (ld_leader _ _ _ _ Hb q Hq) as Hlead.
  destruct (partition_meta b t q) as [pm|] eqn:E; [|done]. injection Hlead as Hlead. by exists l, pm.
Qed.

Lemma recomputeHW_leading now disk_ok q c b b' C :
  leading b t n C → 0 ≤ q < n → recomputeHW now disk_ok t q b = (Ok c, b') →
  leading b' t n C ∧ cfg b' = cfg b ∧ replicaLEO b' = replicaLEO b ∧ partition_frame (store_key t q) b b'.
Proof.
  intros Hb Hq Hrun. destruct (leading_part b C q Hb Hq) as (l & pm & Hl & Hrecs & Hpm & Hlead).
  destruct (recomputeHW_spec now disk_ok t q b pm l (C q) (ld_ok _ _ _ _ Hb) Hpm Hlead Hl Hrecs) as
    (c' & b1 & l' & isr & Hrun' & Hl' & Hrecs' & _ & _ & _ & Hfr & Hleo & Hpart).
  rewrite Hrun in Hrun'. injection Hrun' as <- <-. split; [|by destruct Hfr].
  eapply leading_ext; [|eapply leading_frame; [exact Hn|exact Hb|exact Hq|exact Hfr| |exact Hl'|exact Hrecs']];
    [|rewrite Hpart; apply (ld_rr _ _ _ _ Hb)].
  intros i. unfold upd. by destruct (Z.eqb_spec i q) as [->|].
Qed.

(** The leader's part of a step: its logs may grow and its notes may change. *)
Lemma good_leader_step s C b C' :
  good s C → leading b t n C' → cfg b = cfg (leader s) → C p `prefix_of` C' p → replicable (C' p) →
  (∀ id st, replica_states b t p !! id = Some st →
     id = cfg_ID (cfg b) ∨ acked (C p) s id (r_leo st)) →
  good (set_leader b s) C'.
Proof.
  intros [_ _ Hf Hans Hacks _] Hb Hcfg Hpre Hrep Hst. split; cbn; try done.
  - intros id f (Hid & recs & Hh & Hr)%Hf. split; [done|]. exists recs. split; [done|]. by etrans.
  - intros id fr (out & Hfr & Hout)%Hans. exists out. split; [done|].
    eapply Forall_impl; [exact Hout|]. intros r Hr. destruct Hpre as [rest ->]. apply elem_of_app. by left.
  - intros ack (Ht & Hpp & Ha)%Hacks. split_and!; try done. by eapply acked_mono.
  - intros id st Hid. destruct (Hst id st Hid) as [|Ha]; [by left|right]. by eapply acked_mono.
Qed.

(** The state once a record has been appended, before the high watermark is looked
    at. *)
Lemma good_append s C env req rec a b :
  good s C → rq_Topic req = t → clean (ce_ts env) rec → room (leader s) →
  produce_append env req n rec (leader s) = (Ok a, b) →
  ∃ C' b1 q c, good (set_leader b1 s) C' ∧ C p `prefix_of` C' p ∧ 0 ≤ q < n ∧
    recomputeHW (ce_now env) (ce_disk_ok env) t q b1 = (Ok c, b) ∧
    cfg b1 = cfg (leader s) ∧ op_hw <$> log_at b1 k = op_hw <$> log_at (leader s) k.
Proof.
  intros Hgood Ht (Hfits & Hts & Hutf) Hroom Hrun. pose proof (gd_leader _ _ Hgood) as Hb.
  rewrite <- Ht in Hb.
  destruct (produce_append_leading env req n rec (leader s) C Hn Hfits) as
    (q & b1 & Hq & _ & Hrun' & Hb1 & Hcfg & _ & Hhw & Hst); [|exact Hb|].
  { intros q Hq. destruct (ld_log _ _ _ _ Hb q Hq) as (l & Hl & Hrecs). rewrite <- (log_leo _ _ Hrecs).
    apply (Hroom q); [done|]. by rewrite <- Ht. }
  rewrite Hrun in Hrun'. symmetry in Hrun'. apply bind_inv in Hrun' as (c & b2 & Hrec & [= _ <-]).
  rewrite Ht in Hb1, Hst, Hrec, Hhw.
  assert (C p `prefix_of` upd C q (C q ++ [new_record (ce_ts env) (Zlength (C q)) rec]) p) as Hpre.
  { unfold upd. destruct (Z.eqb_spec p q) as [->|]; [by apply prefix_app_r|done]. }
  eexists _, b1, q, c. split; [|by split_and!; [exact Hpre|lia|lia|done|done|apply Hhw]].
  eapply good_leader_step; [exact Hgood|exact Hb1|exact Hcfg|exact Hpre| |].
  - unfold upd. destruct (Z.eqb_spec p q) as [<-|]; [|apply (gd_replicable _ _ Hgood)].
    destruct (ld_log _ _ _ _ Hb1 p Hp) as (l & Hl & Hrecs). unfold upd in Hrecs. rewrite Z.eqb_refl in Hrecs.
    destruct (log_records _ _ Hrecs) as [Hc Hwf]. destruct (gd_replicable _ _ Hgood) as [_ _ Hs Hu Hm].
    destruct (leading_part _ _ p (gd_leader _ _ Hgood) Hp) as (l0 & _ & Hl0 & Hrecs0 & _).
    pose proof (Hroom p l0 Hp Hl0) as Hlt. rewrite (log_leo _ _ Hrecs0) in Hlt.
    split; [done|done|by apply Forall_app; split; [|constructor]..|].
    unfold Zlength in *. rewrite length_app. cbn. lia.
  - intros id st Hid. rewrite Hcfg. destruct (decide (id = cfg_ID (cfg (leader s)))) as [|Hne]; [by left|].
    rewrite Hst in Hid by done. by apply (gd_states _ _ Hgood).
Qed.

(** The leader's metadata, logs and notes are as good as before. *)
Lemma good_same_notes s C b :
  good s C → leading b t n C → cfg b = cfg (leader s) → replicaLEO b = replicaLEO (leader s) → good (set_leader b s) C.
Proof.
  intros Hgood Hb Hcfg Hleo. eapply good_leader_step; [exact Hgood|exact Hb|done|done|apply (gd_replicable _ _ Hgood)|].
  intros id st Hid. rewrite Hcfg. apply (gd_states _ _ Hgood id st). unfold replica_states in *. by rewrite <- Hleo.
Qed.

Lemma replicable_prefix recs all : replicable all → recs `prefix_of` all → replicable recs.
Proof.
  intros [Hc Hwf Hts Hutf Hmax] Hpre. pose proof (prefix_length _ _ Hpre) as Hlen. destruct Hpre as [rest ->].
  rewrite !Forall_app in Hwf, Hts, Hutf. split; [|tauto..|unfold Zlength in *; lia].
  intros i r Hi. apply Hc. by apply lookup_app_l_Some.
Qed.

Lemma prefix_below (recs all : list record) r :
  contiguous 0 all → recs `prefix_of` all → r ∈ all → Offset r < Zlength recs → r ∈ recs.
Proof.
  intros Hc [rest ->] [i Hi]%list_elem_of_lookup Hlt. pose proof (Hc _ _ Hi) as Ho.
  apply list_elem_of_lookup. exists i. rewrite lookup_app_l in Hi by (unfold Zlength in *; lia). done.
Qed.

(** A follower takes over from which no other follower is ahead. *)
Lemma good_elect s C id f f1 lf fs ans :
  good s C → followers s !! id = Some f → takes_over f f1 → (∃ C, leading f1 t n C) → log_at f1 k = Some lf →
  fs ⊆ delete id (followers s) →
  (∀ i g lg, fs !! i = Some g → log_at g k = Some lg → op_leo lg ≤ op_leo lf) →
  (∀ x, x ∈ ans → x ∈ answers s ∧ Forall (λ w, w_Offset w < op_leo lf) (f_Records x.2)) →
  ∃ C', good (Sys f1 fs ans []) C' ∧ C' p `prefix_of` C p ∧ holds_at f (C' p).
Proof.
  intros [Hb Hrep Hf Hans Hacks Hst] Hid [Hcfg Hlog Hlead Hnotes] [C1 Hb1] Hlf Hfs Hlen Hin.
  destruct (Hf id f Hid) as (_ & recs & (l & Hl & Hrecs) & Hpre). rewrite Hlog, Hl in Hlf. injection Hlf as ->.
  pose proof (log_leo _ _ Hrecs) as Hleo. exists (upd C1 p recs).
  assert (upd C1 p recs p = recs) as E by (unfold upd; by rewrite Z.eqb_refl).
  split; [|split; [by rewrite E|rewrite E; by exists lf]]. rewrite Hleo in *. split; cbn; rewrite ?E.
  - destruct Hb1 as [Hok1 Hcount1 Hlead1 Hlog1 Hrr1]. split; try done. intros q Hq. unfold upd.
    destruct (Z.eqb_spec q p) as [->|]; [|by apply Hlog1]. exists lf. split; [by rewrite Hlog|done].
  - by eapply replicable_prefix.
  - intros i g Hg. destruct (Hf i g) as (Hi & rg & (lg & Hlg & Hrg) & Hpg).
    { pose proof (lookup_weaken _ _ _ _ Hg Hfs) as Hg'. by apply lookup_delete_Some in Hg' as [_ ?]. }
    split; [done|]. exists rg. split; [by exists lg|].
    specialize (Hlen i g lg Hg Hlg). rewrite (log_leo _ _ Hrg) in Hlen.
    destruct (prefix_weak_total rg recs (C p) Hpg Hpre) as [|Hle]; [done|].
    assert (recs = rg) as ->; [|done]. apply (prefix_length_eq _ _ Hle). unfold Zlength in *. lia.
  - intros i fr Hx. destruct (Hin _ Hx) as [(out & Hfr & Hout)%Hans Hlow]. cbn [snd] in Hlow. exists out. split; [done|].
    rewrite Hfr in Hlow. unfold toWire in Hlow. rewrite !Forall_fmap in Hlow.
    rewrite Forall_forall in Hout, Hlow. apply Forall_forall. intros r Hr. specialize (Hlow r Hr).
    apply (prefix_below recs (C p)); [apply (rp_contiguous _ Hrep)|done|by apply Hout|exact Hlow].
  - by intros ? ?%elem_of_nil.
  - intros i st. by rewrite Hnotes, lookup_empty.
Qed.

Lemma good_serve s C id off maxBytes fr b :
  good s C → 0 ≤ off →
  serveFetch (λ _ _ _ _ _, None) t p off maxBytes true (leader s) = (Ok (Fetched fr), b) →
  good (Sys b (followers s) ((id, json_fetch fr) :: answers s) (acks s)) C.
Proof.
  intros Hgood Hoff Hrun. destruct (leading_part _ _ p (gd_leader _ _ Hgood) Hp) as (l & pm & Hl & Hrecs & Hpm & Hlead).
  destruct (serveFetch_spec (λ _ _ _ _ _, None) t p off maxBytes true _ pm l (C p) Hpm Hlead Hl Hrecs Hoff) as
    (out & Hrun' & Hsub & _). rewrite Hrun in Hrun'. injection Hrun' as -> ->.
  destruct Hgood as [Hb Hrep Hf Hans Hacks Hst]. split; cbn; try done.
  intros i f [[= -> ->]|Hi]%elem_of_cons; [|by eapply Hans]. exists out. split; [done|].
  apply Forall_forall. intros r Hr. by eapply elem_of_sublist.
Qed.

Lemma good_deliver s C id fr now f ack f' :
  good s C → (id, fr) ∈ answers s → followers s !! id = Some f → follow_reply now t p fr f = (Ok ack, f') →
  good (Sys (leader s) (<[id := f']> (followers s)) (answers s) (ack :: acks s)) C.
Proof.
  intros [Hb Hrep Hf Hans Hacks Hst] Hin Hid Hrun. destruct (Hans _ _ Hin) as (out & Hfr & Hout).
  destruct (Hf _ _ Hid) as (Hcfg & recs & (l & Hl & Hrecs) & Hpre).
  destruct (follow_reply_spec now t p (C p) out fr f l recs Hrep Hout Hfr Hl Hrecs Hpre) as
    (f1 & l' & recs' & Hrun' & Hl' & Hrecs' & Hp1 & Hp2 & Hcfg').
  rewrite Hrun in Hrun'. injection Hrun' as -> <-.
  assert (holds_at f' recs') as Hh' by (by exists l').
  set (s' := Sys _ _ _ _).
  assert (∀ i m, acked (C p) s i m → acked (C p) s' i m) as Hmono.
  { intros i m (f0 & recs0 & Hi & Hh & Hr & Hm). destruct (decide (id = i)) as [<-|Hne].
    - exists f', recs'. cbn. rewrite lookup_insert_eq. split_and!; try done. simplify_eq.
      rewrite (holds_at_length f recs0 recs) in Hm; [|done|by exists l]. apply prefix_length in Hp1. unfold Zlength in *. lia.
    - exists f0, recs0. cbn. by rewrite lookup_insert_ne. }
  split; cbn; try done.
  - intros i g. rewrite lookup_insert_Some. intros [[<- <-]|[_ Hg]]; [|by apply Hf].
    split; [by rewrite Hcfg'|]. by exists recs'.
  - intros a [->|Ha]%elem_of_cons.
    + cbn. split_and!; try done. exists f', recs'. cbn. rewrite Hcfg, lookup_insert_eq. by split_and!.
    + destruct (Hacks a Ha) as (? & ? & ?). split_and!; try done. by apply Hmono.
  - intros i st Hi. destruct (Hst i st Hi); [by left|right]. by apply Hmono.
Qed.

Lemma good_recompute s C b0 now disk_ok q c b :
  good (set_leader b0 s) C → 0 ≤ q < n → recomputeHW now disk_ok t q b0 = (Ok c, b) → good (set_leader b s) C.
Proof.
  intros Hgood Hq Hrun. destruct (recomputeHW_leading _ _ _ _ _ _ _ (gd_leader _ _ Hgood) Hq Hrun) as (Hb & Hcfg & Hleo & _).
  by apply (good_same_notes (set_leader b0 s) C b Hgood).
Qed.

Lemma good_note s C ack now :
  good s C → ack ∈ acks s →
  good (set_leader (noteReplica now (a_Topic ack) (a_Partition ack) (a_BrokerID ack) (a_LEO ack) (leader s)) s) C.
Proof.
  intros Hgood Hack. destruct (gd_acks _ _ Hgood _ Hack) as (-> & -> & Ha).
  eapply good_leader_step; [exact Hgood| |done|done|apply (gd_replicable _ _ Hgood)|].
  - destruct (gd_leader _ _ Hgood) as [Hok Hcount Hlead Hlog Hrr]. split; try done. by apply (metadata_ok_same (leader s)).
  - intros id st. destruct (decide (id = a_BrokerID ack)) as [->|Hne].
    + rewrite replica_states_note_eq. intros [= <-]. by right.
    + rewrite replica_states_note by done. apply (gd_states _ _ Hgood).
Qed.

(** What a recomputation in a good state commits. *)
Lemma recompute_commits s C now disk_ok c b' :
  good s C → recomputeHW now disk_ok t p (leader s) = (Ok c, b') →
  ∃ l l' pm, log_at (leader s) k = Some l ∧ log_at b' k = Some l' ∧
    log_contents l (C p) ∧ log_contents l' (C p) ∧ partition_meta b' t p = Some pm ∧
    op_hw l ≤ op_hw l' ∧
    (op_hw l < op_hw l' → ∀ id, id ∈ p_ISR pm → id ≠ cfg_ID (cfg (leader s)) →
       ∃ f recs, followers s !! id = Some f ∧ holds_at f recs ∧ recs `prefix_of` C p ∧ op_hw l' ≤ Zlength recs).
Proof.
  intros Hgood Hrun. pose proof (gd_leader _ _ Hgood) as Hb.
  destruct (leading_part _ _ p Hb Hp) as (l & pm & Hl & Hrecs & Hpm & Hlead).
  destruct (recomputeHW_spec now disk_ok t p _ pm l (C p) (ld_ok _ _ _ _ Hb) Hpm Hlead Hl Hrecs) as
    (c' & b1 & l' & isr & Hrun' & Hl' & Hrecs' & Hhw & Hpm' & Hperm & _).
  rewrite Hrun in Hrun'. injection Hrun' as <- <-.
  eexists l, l', _. split_and!; try done; [lia|].
  set (self := cfg_ID (cfg (leader s))) in *. set (states := replica_states (leader s) t p) in *.
  destruct (isr_hw_spec self states (current_isr now (leader s) states (p_Replicas pm)) (Zlength (C p))) as (_ & Hmin & _).
  cbn. intros Hlt id Hid Hne. rewrite Hperm in Hid. pose proof Hid as Hin.
  apply elem_of_current_isr in Hid as [|(_ & _ & Hsync)]; [done|]. unfold in_sync in Hsync.
  destruct (states !! id) as [st|] eqn:Hst; [|by rewrite andb_false_r in Hsync].
  specialize (Hmin id st Hin Hne Hst).
  destruct (gd_states _ _ Hgood id st Hst) as [|(f & recs & Hf & Hh & Hpre & Hm)]; [done|].
  exists f, recs. split_and!; try done. lia.
Qed.

(** ** Progress under one leader *)

(** The leader's log grows from [C p] to [C' p], and the high watermark rises
    only to what every member of the ISR has. *)
Record progress (s : system) (C : Z → list record) (s' : system) (C' : Z → list record) : Prop := {
  pr_good : good s' C';
  pr_grows : C p `prefix_of` C' p;
  pr_cfg : cfg (leader s') = cfg (leader s);
  pr_hw : ∃ l l' pm, log_at (leader s) k = Some l ∧ log_at (leader s') k = Some l' ∧ log_contents l' (C' p) ∧
    partition_meta (leader s') t p = Some pm ∧ op_hw l ≤ op_hw l' ∧
    (op_hw l < op_hw l' → ∀ id, id ∈ p_ISR pm → id ≠ cfg_ID (cfg (leader s)) →
       ∃ f recs, followers s' !! id = Some f ∧ holds_at f recs ∧ recs `prefix_of` C' p ∧ op_hw l' ≤ Zlength recs)
}.

Lemma progress_same s C s' C' :
  good s C → good s' C' → C p `prefix_of` C' p → cfg (leader s') = cfg (leader s) →
  op_hw <$> log_at (leader s') k = op_hw <$> log_at (leader s) k → progress s C s' C'.
Proof.
  intros Hgood Hgood' Hpre Hcfg Hhw. split; try done.
  destruct (leading_part _ _ p (gd_leader _ _ Hgood) Hp) as (l & _ & Hl & _).
  destruct (leading_part _ _ p (gd_leader _ _ Hgood') Hp) as (l' & pm & Hl' & Hrecs' & Hpm & _).
  rewrite Hl, Hl' in Hhw. injection Hhw as Hhw. exists l, l', pm. split_and!; try done; lia.
Qed.

Lemma progress_from s C b1 C1 s' C' :
  C p `prefix_of` C1 p → cfg b1 = cfg (leader s) → op_hw <$> log_at b1 k = op_hw <$> log_at (leader s) k →
  is_Some (log_at (leader s) k) → progress (set_leader b1 s) C1 s' C' → progress s C s' C'.
Proof.
  intros Hpre Hcfg Hhw [l Hl] [Hg Hgrows Hcfg' (l1 & l' & pm & Hl1 & Hl' & Hrecs & Hpm & Hle & Hisr)].
  split; [done|by etrans|by rewrite Hcfg'|]. cbn in *. rewrite Hl1, Hl in Hhw. injection Hhw as Hhw.
  exists l, l', pm. rewrite Hhw, Hcfg in *. by split_and!.
Qed.

Lemma progress_recompute s C now disk_ok q c b :
  good s C → 0 ≤ q < n → recomputeHW now disk_ok t q (leader s) = (Ok c, b) → progress s C (set_leader b s) C.
Proof.
  intros Hgood Hq Hrun. destruct (recomputeHW_leading _ _ _ _ _ _ _ (gd_leader _ _ Hgood) Hq Hrun) as (Hb & Hcfg & Hleo & Hfr).
  assert (good (set_leader b s) C) as Hgood' by (by apply good_same_notes).
  destruct (decide (q = p)) as [->|Hne].
  - split; [done|done|done|].
    destruct (recompute_commits s C now disk_ok c b Hgood Hrun) as (l & l' & pm & ? & ? & _ & ? & ? & ? & ?).
    by exists l, l', pm.
  - apply progress_same; try done. cbn. rewrite (fr_logs _ _ _ Hfr); [done|]. intros E. apply (f_equal ParseKey) in E.
    rewrite !ParseKey_store_key in E by lia. congruence.
Qed.

Lemma progress_solo s C q b :
  good s C → 0 ≤ q < n → maybeSoloHW t q (store_key t q) (leader s) = (Ok tt, b) → progress s C (set_leader b s) C.
Proof.
  intros Hgood Hq Hrun. pose proof (gd_leader _ _ Hgood) as Hb.
  destruct (maybeSoloHW_leading t n q _ C Hn Hq Hb) as (b1 & Hrun1 & Hb1 & Hcfg & Hleo).
  rewrite Hrun in Hrun1. injection Hrun1 as <-.
  assert (good (set_leader b s) C) as Hgood' by (by apply good_same_notes).
  destruct (leading_part _ _ q Hb Hq) as (l & pm & Hl & Hrecs & Hpm & _).
  destruct (maybeSoloHW_spec t q (store_key t q) (leader s) l (C q) Hl Hrecs) as (l' & Hrun' & Hrecs' & Hle & Hisr).
  rewrite Hrun in Hrun'. injection Hrun' as ->. destruct (decide (q = p)) as [->|Hne].
  - split; [done|done|done|]. exists l, l', pm. split_and!; try done; [apply log_at_set_log|].
    intros Hlt id Hid Hne. specialize (Hisr Hlt). rewrite Hpm in Hisr. injection Hisr as Hisr.
    rewrite Hisr in Hid. by apply list_elem_of_singleton in Hid.
  - apply progress_same; try done. cbn. rewrite log_at_set_log_ne; [done|]. intros E. apply (f_equal ParseKey) in E.
    rewrite !ParseKey_store_key in E by lia. congruence.
Qed.

Lemma steady_progress s s' C : good s C → steady s s' → ∃ C', progress s C s' C'.
Proof.
  intros Hgood Hstep. pose proof (gd_leader _ _ Hgood) as Hb.
  destruct (leading_part _ _ p Hb Hp) as (l & pm & Hl & Hrecs & Hpm & Hlead).
  destruct Hstep as [s env req rec a b Ht Hclean Hroom Hrun|s q b Hq Hrun|s id off maxBytes fr b Hoff Hrun
    |s id fr now f ack f' Hin Hf Hrun|s ack now disk_ok c b Hack Hrun|s now disk_ok c b Hrun|s c].
  - destruct (good_append s C env req rec a b Hgood Ht Hclean Hroom Hrun) as
      (C' & b1 & q & c & Hgood' & Hpre & Hq & Hrec & Hcfg & Hhw).
    exists C'. apply (progress_from s C b1 C'); [done|done|done|by exists l|].
    exact (progress_recompute (set_leader b1 s) C' _ _ q c b Hgood' Hq Hrec).
  - exists C. by eapply progress_solo.
  - exists C. destruct (serveFetch_spec (λ _ _ _ _ _, None) t p off maxBytes true _ pm l (C p) Hpm Hlead Hl Hrecs Hoff) as
      (out & Hrun' & _). rewrite Hrun in Hrun'. injection Hrun' as -> ->.
    apply progress_same; try done. by eapply (good_serve s C id off maxBytes).
  - exists C. apply progress_same; try done. by eapply good_deliver.
  - exists C. pose proof (good_note _ _ _ now Hgood Hack) as Hn'. pose proof (gd_acks _ _ Hgood _ Hack) as (Et & Ep & _).
    unfold handleReplicaAck in Hrun. rewrite Et, Ep in *. erewrite bind_Ok in Hrun by reflexivity.
    apply (progress_from s C _ C _ _) with (5 := progress_recompute _ C now disk_ok p c b Hn' Hp Hrun); by try exists l.
  - exists C. by eapply (progress_recompute s C now disk_ok p c b).
  - exists C. apply progress_same; try done. apply good_same_notes; try done.
    destruct Hb as [Hok Hcount Hl0 Hlog Hrr]. split; try done. by apply (metadata_ok_same (leader s)).
Qed.

Lemma good_step s s' C : good s C → step s s' → ∃ C', good s' C'.
Proof.
  intros Hgood Hs. destruct Hs as [s0 s1 Hstep|s0 id f f1 lf fs ans Hid Ht Hlead Hlf Hfs Hlen Hin].
  - destruct (steady_progress s0 s1 C Hgood Hstep) as [C' Hp']. exists C'. apply (pr_good _ _ _ _ Hp').
  - destruct (good_elect s0 C id f f1 lf fs ans) as (C' & Hg & _); [done..|]. by exists C'.
Qed.

Lemma good_steps s s' C : rtc step s s' → good s C → ∃ C', good s' C'.
Proof.
  intros Hsteps. revert C. induction Hsteps as [s|s0 s1 s2 Hstep _ IH]; intros C Hgood; [by exists C|].
  destruct (good_step _ _ _ Hgood Hstep) as [C' Hgood']. by eapply IH.
Qed.

Lemma reachable_good s : reachable s → ∃ C, good s C.
Proof.
  intros (s0 & [Hl Hst Hf Hans Hacks] & Hsteps). apply (good_steps s0 s (λ _, []) Hsteps).
  split; [done|by split| | | |].
  - intros id f (Hid & Hh)%Hf. split; [done|]. exists []. split; [done|apply prefix_nil].
  - intros id fr. rewrite Hans. by intros ?%elem_of_nil.
  - intros ack. rewrite Hacks. by intros ?%elem_of_nil.
  - intros id st. by rewrite Hst, lookup_empty.
Qed.

(** A produce request without acks=all is two steps. *)
Lemma produce_steps s C env acks req rec r b :
  good s C → rq_Topic req = t → is_acks_all acks = false → clean (ce_ts env) rec → room (leader s) →
  produce_record env acks req n rec (leader s) = (Ok r, b) → rtc step s (set_leader b s).
Proof.
  intros Hgood Ht Hacks Hclean Hroom Hrun. pose proof (gd_leader _ _ Hgood) as Hb. rewrite <- Ht in Hb.
  destruct (produce_append_spec env req n rec (leader s) C Hn (proj1 Hclean)) as (pid & b1 & Hrun1 & (Hpid & _) & _);
    [|exact Hb|].
  { intros q Hq. destruct (ld_log _ _ _ _ Hb q Hq) as (l & Hl & Hrecs). rewrite <- (log_leo _ _ Hrecs).
    apply (Hroom q); [done|]. by rewrite <- Ht. }
  unfold produce_record, answer_record in Hrun. rewrite (bind_Ok _ _ _ _ _ Hrun1), Hacks in Hrun.
  apply bind_inv in Hrun as ([] & b2 & Hsolo & [= <- <-]). rewrite Ht in Hrun1, Hsolo.
  eapply rtc_l; [by eapply step_steady, (steady_append s env req rec)|]. apply rtc_once, step_steady.
  exact (steady_solo (set_leader b1 s) pid b2 Hpid Hsolo).
Qed.

Lemma reachable_rtc s s' : reachable s → rtc step s s' → reachable s'.
Proof. intros (s0 & Hs0 & Hsteps) Hmore. exists s0. split; [done|by etrans]. Qed.

Lemma reachable_steady s s' : reachable s → rtc steady s s' → reachable s'.
Proof.
  intros Hs Hsteps. apply (reachable_rtc s); [done|]. clear Hs. induction Hsteps; [done|]. eapply rtc_l; [by apply step_steady|done].
Qed.

Lemma reachable_produce s env acks req rec r b :
  reachable s → rq_Topic req = t → is_acks_all acks = false → clean (ce_ts env) rec → room (leader s) →
  produce_record env acks req n rec (leader s) = (Ok r, b) → reachable (set_leader b s).
Proof.
  intros Hs Ht Hacks Hclean Hroom Hrun. destruct (reachable_good s Hs) as [C Hgood].
  eapply reachable_rtc; [exact Hs|]. by eapply produce_steps.
Qed.

(** ** Properties *)

(** C7: in every reachable state every follower's log is a prefix of the
    leader's, however fetches, acks and produce requests interleave and whatever
    messages are late, repeated or lost; and what the leader has noted of a
    follower is at most what that follower's log holds. *)
Theorem follower_logs_are_prefixes s (Hs : reachable s) :
  ∃ all, holds_at (leader s) all ∧
    (∀ id f, followers s !! id = Some f → ∃ recs, holds_at f recs ∧ recs `prefix_of` all) ∧
    (∀ id st, replica_states (leader s) t p !! id = Some st → id ≠ cfg_ID (cfg (leader s)) →
       ∃ f recs, followers s !! id = Some f ∧ holds_at f recs ∧ r_leo st ≤ Zlength recs).
Proof.
  destruct (reachable_good s Hs) as [C Hgood].
  destruct (leading_part _ _ p (gd_leader _ _ Hgood) Hp) as (l & _ & Hl & Hrecs & _).
  exists (C p). split; [by exists l|]. split.
  - intros id f (_ & recs & ? & ?)%(gd_followers _ _ Hgood). by exists recs.
  - intros id st Hid Hne. destruct (gd_states _ _ Hgood id st Hid) as [|(f & recs & ? & ? & _ & ?)]; [done|].
    by exists f, recs.
Qed.

(** C5: a record below the high watermark is on every in-sync replica: when a
    step from a reachable state raises the high watermark, be it a produce
    request, an ack or another look at it, each member of the ISR of then holds,
    in its own log, the leader's records up to there. *)
Theorem committed_records_are_on_every_isr_member s s' (Hs : reachable s) (Hstep : steady s s') :
  ∃ all l l' pm, log_at (leader s) k = Some l ∧ log_at (leader s') k = Some l' ∧
    log_contents l' all ∧ partition_meta (leader s') t p = Some pm ∧ op_hw l ≤ op_hw l' ∧
    (op_hw l < op_hw l' → ∀ id, id ∈ p_ISR pm → id ≠ cfg_ID (cfg (leader s)) →
       ∃ f recs, followers s' !! id = Some f ∧ holds_at f recs ∧
         take (Z.to_nat (op_hw l')) all `prefix_of` recs).
Proof.
  destruct (reachable_good s Hs) as [C Hgood].
  destruct (steady_progress s s' C Hgood Hstep) as [C' [_ _ _ (l & l' & pm & ? & ? & ? & ? & ? & Hisr)]].
  exists (C' p), l, l', pm. split_and!; try done. intros Hlt id Hid Hne.
  destruct (Hisr Hlt id Hid Hne) as (f & recs & Hf & Hh & [rest E] & Hm). exists f, recs. split_and!; [done|done|].
  rewrite E, take_app_le by (unfold Zlength in *; lia). apply prefix_take.
Qed.

End system.

Arguments Sys {L D}.

(** ** A sample run *)

(** Brokers 1 (the leader) and 2 with a one-partition topic and empty logs. *)
Definition pair_broker (id : Z) : Broker (log * disk) disk :=
  set_log "orders/0" (start_state small_cfg)
    (set_topics {["orders"%string := MkTopic "orders" [MkPart 0 1 [1; 2] [1]]]} (sample_broker id)).

Definition pair_start : system := Sys (pair_broker 1) {[2 := pair_broker 2]} [] [].

Lemma pair_start_initial : initial "orders" 1 0 pair_start.
Proof.
  assert (∀ id, metadata_ok (pair_broker id)) as Hok.
  { intros id. apply (metadata_ok_one _ (MkTopic "orders" [MkPart 0 1 [1; 2] [1]])); [done|].
    apply topic_ok_alone; apply (bool_decide_unpack _); exact I. }
  split; [|done| |done|done].
  - split; [apply Hok|done| | |by cbn]; intros pid Hpid; assert (pid = 0) as -> by lia; [done|].
    exists (start_state small_cfg). split; [reflexivity|apply start_holds].
  - intros id f. cbn. rewrite lookup_singleton_Some. intros [<- <-]. split; [done|].
    exists (start_state small_cfg). split; [reflexivity|apply start_holds].
Qed.

(** The leader after one record. *)
Definition pair_env : call_env (Broker (log * disk) disk) := CallEnv 1000 1000 true [].
Definition pair_leader : Broker (log * disk) disk :=
  snd (produce_record pair_env "1" sample_request 1 (MkProduceRecord [x61] [x01] 0) (pair_broker 1)).

Lemma pair_reachable : reachable "orders" 1 0 (set_leader pair_leader pair_start).
Proof.
  apply (reachable_produce "orders" 1 0 ltac:(lia) ltac:(lia) pair_start pair_env "1" sample_request
    (MkProduceRecord [x61] [x01] 0) (MkProduceResult 0 0)); [|done|done| | |].
  - exists pair_start. split; [apply pair_start_initial|done].
  - split; [apply (bool_decide_unpack _); vm_compute; exact I|]. split; [done|]. by vm_compute.
  - intros q l Hq Hl. assert (q = 0) as -> by lia. change (store_key "orders" 0) with "orders/0"%string in Hl.
    unfold pair_start, pair_broker in Hl. cbn [leader] in Hl. rewrite log_at_set_log in Hl. injection Hl as <-.
    vm_compute. reflexivity.
  - unfold pair_leader. destruct (produce_record _ _ _ _ _ _) as [r b] eqn:E. cbn. f_equal.
    change r with (fst (r, b)). rewrite <- E. vm_compute. reflexivity.
Qed.

Lemma follower_logs_are_prefixes_witness :
  ∃ all, holds_at "orders" 0 pair_leader all ∧
    ∀ id f, followers pair_start !! id = Some f → ∃ recs, holds_at "orders" 0 f recs ∧ recs `prefix_of` all.
Proof.
  destruct (follower_logs_are_prefixes "orders" 1 0 ltac:(lia) ltac:(lia) _ pair_reachable) as (all & H1 & H2 & _).
  exists all. split; [exact H1|exact H2].
Defined.

Lemma committed_records_are_on_every_isr_member_witness :
  ∃ b' all l', recomputeHW 1000 true "orders" 0 pair_leader = (Ok false, b') ∧
    log_at b' "orders/0" = Some l' ∧ log_contents l' all.
Proof.
  destruct (recomputeHW 1000 true "orders" 0 pair_leader) as [r b'] eqn:E.
  assert (r = Ok false) as -> by (apply (f_equal fst) in E; cbn [fst] in E; rewrite <- E; vm_compute; reflexivity).
  destruct (committed_records_are_on_every_isr_member "orders" 1 0 ltac:(lia) ltac:(lia) _ (set_leader b' pair_start)
    pair_reachable) as (all & l & l' & pm & _ & Hl' & Hrecs & _).
  { exact (steady_recompute "orders" 1 0 (set_leader pair_leader pair_start) 1000 true false b' E). }
  exists b', all, l'. split; [reflexivity|]. split; [exact Hl'|exact Hrecs].
Defined.
