(* ===== verification/Survival.v ===== *)
(** What was committed survives the leader: a member of the in-sync replicas that
    takes over serves every record below the high watermark, from its first
    recomputation on. *)
From S2P Require Import Prelude GoStrings Bytes RecordFmt Disk Index Segment CommitLog LogRep LogRead LogInterface.
From S2P Require Import Partitioner Cluster Store Wire BrokerState Metadata Replica Produce Handlers ReplicationSafety.
Open Scope Z_scope.

Section survival.
Context {L D : Type} `{LogOpener L D} `{LogLaws L}.
Implicit Types b f : Broker L D.
Context (t : string) (n p : Z) (Hn : 0 < n < 2 ^ 32) (Hp : 0 ≤ p < n).
#[local] Abbreviation k := (store_key t p).

(** A push that names it as the leader does that to a follower. *)
Lemma pushed_takes_over now now' disk_ok (a : Broker L D) f :
  metadata_ok a → p_Leader <$> partition_meta a t p = Some (cfg_ID (cfg f)) →
  IsController now' (cluster f) = false → replica_states f t p = ∅ →
  takes_over t p f (snd (handleMetadataPush now' disk_ok (metadataPush now a) f)).
Proof.
  intros Hok Hlead Hc Hnotes. unfold handleMetadataPush. rewrite pushed_topics_push.
  assert (is_Some (topics a !! t)) as [tm Htm].
  { unfold partition_meta in Hlead. destruct (topics a !! t); [by eexists|done]. }
  destruct (apply_snapshot_leaders now' disk_ok a f t tm Hok Hc Htm) as [_ Hl].
  split; try (by destruct disk_ok). rewrite <- Hlead. apply Hl.
Qed.

(** A leader with no notes of others counts alone. *)
Lemma alone_recompute now disk_ok f1 l recs :
  p_Leader <$> partition_meta f1 t p = Some (cfg_ID (cfg f1)) → replica_states f1 t p = ∅ →
  log_at f1 k = Some l → log_contents l recs →
  ∃ c f2 l' pm, recomputeHW now disk_ok t p f1 = (Ok c, f2) ∧ log_at f2 k = Some l' ∧ log_contents l' recs ∧
    op_hw l' = Zlength recs ∧ partition_meta f2 t p = Some pm ∧ p_Leader pm = cfg_ID (cfg f2).
Proof.
  intros Hlead Hnotes Hl Hrecs. destruct (partition_meta f1 t p) as [pm|] eqn:Hpm; [|done]. injection Hlead as Hlead.
  unfold recomputeHW. rewrite (bind_Ok _ _ _ _ _ (eq_refl : gets _ f1 = (Ok _, f1))), Hpm.
  rewrite (bind_Ok _ _ _ _ _ (eq_refl : gets _ f1 = (Ok _, f1))).
  rewrite (proj2 (Z.eqb_eq _ _) Hlead). cbn [negb].
  rewrite (bind_Ok _ _ _ _ _ (attempt_Ok _ _ _ _ (on_store_open _ _ _ _ Hl))).
  rewrite (bind_Ok _ _ _ _ _ (eq_refl : gets id f1 = (Ok f1, f1))). cbn zeta. rewrite Hnotes.
  rewrite (bind_Ok _ _ _ _ _ (on_log_gets _ _ _ _ Hl)), (log_leo _ _ Hrecs).
  set (isr := current_isr _ _ _ _).
  assert (isr_hw (cfg_ID (cfg f1)) ∅ isr (Zlength recs) = Zlength recs) as ->.
  { pose proof (isr_hw_spec (cfg_ID (cfg f1)) ∅ isr (Zlength recs)) as (Hle & _ & Hge).
    specialize (Hge (Zlength recs) ltac:(lia)). apply Z.le_antisymm; [done|]. apply Hge.
    intros id st _ _. by rewrite lookup_empty. }
  destruct (log_set_hw (Zlength recs) l recs Hrecs) as [Hrecs' Hhw]. pose proof (log_hw _ _ Hrecs) as Hr.
  set (changed := negb _).
  assert (∃ f1' pm', (if changed then modify (λ b, persistTopics disk_ok (set_topics (alter (set_isr p isr) t (topics b)) b))
      else mret tt) f1 = (Ok tt, f1') ∧ log_at f1' k = Some l ∧ cfg f1' = cfg f1 ∧
      partition_meta f1' t p = Some pm' ∧ p_Leader pm' = p_Leader pm) as (f1' & pm' & Hrun & Hl1 & Hcfg & Hpm' & Hlead').
  { destruct changed; [|by exists f1, pm]. eexists _, (MkPart (p_ID pm) (p_Leader pm) (p_Replicas pm) isr).
    split; [reflexivity|]. split; [by destruct disk_ok|]. split; [by destruct disk_ok|]. split; [|done].
    unfold partition_meta in *. rewrite persistTopics_topics. cbn. rewrite lookup_alter_eq.
    destruct (topics f1 !! t) as [tm|]; [|done]. cbn [fmap option_fmap option_map].
    by rewrite find_partition_set_isr, Hpm. }
  rewrite (bind_Ok _ _ _ _ _ Hrun), (bind_Ok _ _ _ _ _ (on_log_modify _ _ _ _ Hl1)).
  exists changed, (set_log k (op_set_hw (Zlength recs) l) f1'), (op_set_hw (Zlength recs) l), pm'.
  split_and!; [done|apply log_at_set_log|done|lia|done|]. cbn. congruence.
Qed.

(** C4: committed records survive the leader. Suppose that a step from a reachable
    state raises the high watermark, so that acks=all requests below it are
    answered. Then any member of the ISR other than the leader can take over: once
    it has learnt that it leads and has recomputed its high watermark, a consumer
    that asks it for an offset below the old high watermark is given the record
    the old leader had there. *)
Theorem committed_records_survive_the_leader s s'
    (Hs : reachable t n p s) (Hstep : steady t n p s s') :
  ∃ all l l' pm, log_at (leader s) k = Some l ∧ log_at (leader s') k = Some l' ∧ log_contents l' all ∧
    partition_meta (leader s') t p = Some pm ∧ op_hw l ≤ op_hw l' ≤ Zlength all ∧
    (op_hw l < op_hw l' → ∀ id, id ∈ p_ISR pm → id ≠ cfg_ID (cfg (leader s)) →
       ∃ f, followers s' !! id = Some f ∧
       ∀ f1 now disk_ok proxy maxBytes off, takes_over t p f f1 → 0 ≤ off < op_hw l' →
       ∃ c f2 r fr, recomputeHW now disk_ok t p f1 = (Ok c, f2) ∧ all !! Z.to_nat off = Some r ∧
         serveFetch proxy t p off maxBytes false f2 = (Ok (Fetched fr), f2) ∧
         head (f_Records fr) = head (toWire [r])).
Proof.
  destruct (reachable_good t n p Hn Hp s Hs) as [C Hgood].
  destruct (steady_progress t n p Hn Hp s s' C Hgood Hstep) as [C' [_ _ _ (l & l' & pm & Hl & Hl' & Hrecs' & Hpm & Hhw & Hisr)]].
  pose proof (log_hw _ _ Hrecs') as Hmax.
  exists (C' p), l, l', pm. split_and!; try done; [lia|]. intros Hlt id Hid Hne.
  destruct (Hisr Hlt id Hid Hne) as (f & recs & Hf & (lf & Hlf & Hc) & Hpre & Hm). exists f. split; [done|].
  intros f1 now disk_ok proxy maxBytes off [Hcfg Hlog Hleads Hnotes] Hoff.
  destruct (alone_recompute now disk_ok f1 lf recs) as (c & f2 & l2 & pm2 & Hrun & Hl2 & Hc2 & Hhw2 & Hpm2 & Hlead2);
    [by rewrite Hcfg|done|by rewrite Hlog|done|].
  destruct (serveFetch_spec proxy t p off maxBytes false f2 pm2 l2 recs Hpm2 Hlead2 Hl2 Hc2) as (out & Hserve & _ & _ & Hhead & _);
    [lia|].
  assert (Z.to_nat off < length recs)%nat as Hlen by (unfold Zlength in *; lia).
  destruct (lookup_lt_is_Some_2 recs _ Hlen) as [r Hr].
  exists c, f2, r, (MkFetch t p (op_hw l2) (Zlength recs) (toWire out)). split_and!; [done| |done|].
  - by eapply prefix_lookup_Some.
  - specialize (Hhead ltac:(unfold fetch_limit; lia)). rewrite Hr in Hhead. destruct out as [|r' out]; [done|].
    by injection Hhead as ->.
Qed.
End survival.

(** ** A sample run *)

(** Broker 1 leads and has heard from broker 2, which fetches and acks the empty
    log and is in sync then.  Broker 1 appends a record, broker 2 fetches it, and
    its ack is on its way. *)
Definition no_proxy : string → string → Z → Z → Z → option FetchResponse := λ _ _ _ _ _, None.
Definition heard : system := set_leader (set_cluster (MarkSeen 1000 2 (cluster (pair_broker 1))) (pair_broker 1)) pair_start.

(** Broker 2 fetches from [off], gets [fr], and acks [leo]. *)
Definition served (off : Z) (fr : FetchResponse) (s : system) : system :=
  Sys (snd (serveFetch no_proxy "orders" 0 off 0 true (leader s))) (followers s) ((2, json_fetch fr) :: answers s) (acks s).
Definition fetched (off : Z) (fr : FetchResponse) (leo : Z) (f : Broker (log * disk) disk) (s : system) : system :=
  Sys (leader (served off fr s)) (<[2 := snd (follow_reply 1000 "orders" 0 (json_fetch fr) f)]> (followers (served off fr s)))
    (answers (served off fr s)) (MkAck 2 "orders" 0 leo :: acks (served off fr s)).

Lemma fetched_steps off fr leo f (s : system (D:=disk)) :
  0 ≤ off → followers s !! 2 = Some f →
  fst (serveFetch no_proxy "orders" 0 off 0 true (leader s)) = Ok (Fetched fr) →
  fst (follow_reply 1000 "orders" 0 (json_fetch fr) f) = Ok (MkAck 2 "orders" 0 leo) →
  rtc (steady "orders" 1 0) s (fetched off fr leo f s).
Proof.
  intros Hoff Hf Hserve Hreply. eapply rtc_l; [|apply rtc_once].
  - eapply (steady_serve _ _ _ s 2 off 0 fr); [done|]. by apply run_result.
  - eapply (steady_deliver _ _ _ (served off fr s) 2 (json_fetch fr) 1000 f); [by left|exact Hf|]. by apply run_result.
Qed.

Definition empty_fetch : FetchResponse := MkFetch "orders" 0 0 0 [].
Definition in_sync_soon : system := fetched 0 empty_fetch 0 (pair_broker 2) heard.
Definition in_sync_now : system :=
  set_leader (snd (handleReplicaAck 1000 true (MkAck 2 "orders" 0 0) (leader in_sync_soon))) in_sync_soon.
Definition one_record : system :=
  set_leader (snd (produce_record pair_env "1" sample_request 1 (MkProduceRecord [x61] [x01] 0) (leader in_sync_now))) in_sync_now.
Definition sample_fetch : FetchResponse := MkFetch "orders" 0 0 1 (toWire [Rec 0 1000 [x61] [x01]]).
Definition empty_copy : Broker (log * disk) disk := snd (follow_reply 1000 "orders" 0 (json_fetch empty_fetch) (pair_broker 2)).
Definition caught_up : Broker (log * disk) disk := snd (follow_reply 1000 "orders" 0 (json_fetch sample_fetch) empty_copy).
Definition acked_soon : system := fetched 0 sample_fetch 1 empty_copy one_record.
Definition sample_ack : ReplicaAckRequest := MkAck 2 "orders" 0 1.

Lemma in_sync_reachable : reachable "orders" 1 0 in_sync_now.
Proof.
  apply (reachable_steady "orders" 1 0 pair_start); [exists pair_start; split; [apply pair_start_initial|done]|].
  eapply rtc_l; [exact (steady_membership _ _ _ pair_start (MarkSeen 1000 2 (cluster (pair_broker 1))))|]. fold heard.
  etrans; [apply (fetched_steps 0 empty_fetch 0 (pair_broker 2) heard); [done|done|vm_compute; reflexivity..]|].
  apply rtc_once, (steady_ack _ _ _ in_sync_soon (MkAck 2 "orders" 0 0) 1000 true true); [by left|].
  apply run_result. vm_compute. reflexivity.
Qed.

Lemma in_sync_room : room "orders" 1 (leader in_sync_now).
Proof.
  intros q l Hq Hl. assert (q = 0) as -> by lia.
  assert (op_leo <$> log_at (leader in_sync_now) (store_key "orders" 0) = Some 0) as E by (vm_compute; reflexivity).
  rewrite Hl in E. injection E as E. change (op_leo l = 0) in E. by rewrite E.
Qed.

Lemma one_record_reachable : reachable "orders" 1 0 one_record.
Proof.
  unfold one_record. eapply (reachable_produce "orders" 1 0 ltac:(lia) ltac:(lia) in_sync_now pair_env "1" sample_request
    (MkProduceRecord [x61] [x01] 0) (MkProduceResult 0 0)); [exact in_sync_reachable|done|done| | |].
  - split; [apply (bool_decide_unpack _); vm_compute; exact I|]. split; [done|]. by vm_compute.
  - exact in_sync_room.
  - apply run_result. vm_compute. reflexivity.
Qed.

Lemma acked_soon_reachable : reachable "orders" 1 0 acked_soon.
Proof.
  apply (reachable_steady _ _ _ one_record); [exact one_record_reachable|].
  apply (fetched_steps 0 sample_fetch 1 empty_copy one_record); [done|reflexivity|vm_compute; reflexivity..].
Qed.

(** Broker 2 once it has been made the leader. *)
Definition promoted : Broker (log * disk) disk :=
  set_topics {["orders"%string := MkTopic "orders" [MkPart 0 2 [1; 2] [2]]]} caught_up.

(** The relation goes on under the new leader: broker 2 leads alone. *)
Definition elected : system (L:=log * disk) (D:=disk) := Sys promoted ∅ [] [].

Lemma promoted_leads (f : Broker (log * disk) disk) l recs :
  cfg_ID (cfg f) = 2 → 0 ≤ rr (partitioner f) < 2 ^ 64 → log_at f (store_key "orders" 0) = Some l → log_contents l recs →
  leading (set_topics {["orders"%string := MkTopic "orders" [MkPart 0 2 [1; 2] [2]]]} f) "orders" 1 (λ _, recs).
Proof.
  intros Hid Hrr Hl Hrecs. split; [|done| | |done].
  - apply (metadata_ok_one _ (MkTopic "orders" [MkPart 0 2 [1; 2] [2]])); [done|].
    apply topic_ok_alone; apply (bool_decide_unpack _); exact I.
  - intros pid Hpid. assert (pid = 0) as -> by lia. cbn. by rewrite Hid.
  - intros pid Hpid. assert (pid = 0) as -> by lia. by exists l.
Qed.

Lemma elected_reachable : reachable "orders" 1 0 elected.
Proof.
  eapply reachable_rtc; [exact acked_soon_reachable|]. apply rtc_once.
  destruct (reachable_good "orders" 1 0 ltac:(lia) ltac:(lia) _ acked_soon_reachable) as [C Hgood].
  assert (followers acked_soon !! 2 = Some caught_up) as Ef by apply lookup_insert_eq.
  destruct (gd_followers _ _ _ _ _ Hgood 2 caught_up Ef) as (_ & recs & (l & Hl & Hrecs) & _).
  assert (cfg_ID (cfg caught_up) = 2) as Ec by (vm_compute; reflexivity).
  assert (rr (partitioner caught_up) = 0) as Er by (vm_compute; reflexivity).
  assert (takes_over "orders" 0 caught_up promoted) as Ht by (split; vm_compute; reflexivity).
  apply (step_elect "orders" 1 0 acked_soon 2 caught_up promoted l ∅ []);
    [exact Ef|exact Ht| |rewrite (to_log _ _ _ _ Ht); exact Hl|apply map_empty_subseteq| |].
  - exists (λ _, recs). apply promoted_leads with l; [exact Ec|rewrite Er; lia|exact Hl|exact Hrecs].
  - intros i g lg Hg. exfalso. exact (lookup_empty_Some i g Hg).
  - intros x Hx. exfalso. by apply elem_of_nil in Hx.
Qed.

Definition ack_handled : Broker (log * disk) disk := snd (handleReplicaAck 1000 true sample_ack (leader acked_soon)).

Lemma leader_set_leader {L D} (b : Broker L D) s : leader (set_leader b s) = b.
Proof. done. Qed.
Lemma followers_set_leader {L D} (b : Broker L D) s : followers (set_leader b s) = followers s.
Proof. done. Qed.

Definition committed : system (L:=log * disk) (D:=disk) := set_leader ack_handled acked_soon.

Lemma ack_commits : steady "orders" 1 0 acked_soon committed.
Proof.
  unfold committed, ack_handled. eapply (steady_ack _ _ _ acked_soon sample_ack 1000 true); [exact (list_elem_of_here sample_ack _)|].
  eapply (run_result (handleReplicaAck 1000 true sample_ack) (leader acked_soon)). vm_compute. reflexivity.
Qed.

Lemma committed_records_survive_the_leader_witness :
  ∃ c f2 fr r, recomputeHW 2000 true "orders" 0 promoted = (Ok c, f2) ∧
    serveFetch (λ _ _ _ _ _, None) "orders" 0 0 0 false f2 = (Ok (Fetched fr), f2) ∧ head (f_Records fr) = head (toWire [r]).
Proof.
  destruct (committed_records_survive_the_leader "orders" 1 0 ltac:(lia) ltac:(lia) acked_soon committed
    acked_soon_reachable ack_commits) as (all & l & l' & pm & Hl & Hl' & _ & Hpm & _ & Hsurvive).
  assert (leader committed = ack_handled) as El by (unfold committed; apply leader_set_leader). rewrite El in Hl', Hpm.
  assert (op_hw <$> log_at (leader acked_soon) (store_key "orders" 0) = Some 0) as E1 by (vm_compute; reflexivity).
  assert (op_hw <$> log_at ack_handled (store_key "orders" 0) = Some 1) as E2 by (vm_compute; reflexivity).
  assert (p_ISR <$> partition_meta ack_handled "orders" 0 = Some [1; 2]) as E3 by (vm_compute; reflexivity).
  rewrite Hl in E1. rewrite Hl' in E2. rewrite Hpm in E3. injection E1 as E1. injection E2 as E2. injection E3 as E3.
  change (op_hw l = 0) in E1. change (op_hw l' = 1) in E2.
  destruct (Hsurvive ltac:(lia) 2) as (f & Hf & Hserve).
  { rewrite E3. exact (list_elem_of_further _ _ _ (list_elem_of_here _ _)). }
  { assert (cfg_ID (cfg (leader acked_soon)) = 1) as Eid by (vm_compute; reflexivity). rewrite Eid. exact (Z.neq_sym 1 2 (ltac:(lia))). }
  assert (followers committed !! 2 = Some caught_up) as Ef.
  { unfold committed. rewrite followers_set_leader. apply lookup_insert_eq. }
  rewrite Ef in Hf. injection Hf as Hf. subst f.
  destruct (Hserve promoted 2000 true (λ _ _ _ _ _, None) 0 0) as (c & f2 & r & fr & Hrun & _ & Hfetch & Hhead);
    [|rewrite E2; exact (conj (Z.le_refl 0) eq_refl)|].
  - split; vm_compute; reflexivity.
  - exists c, f2, fr, r. exact (conj Hrun (conj Hfetch Hhead)).
Defined.
