(* ===== verification/Gaps.v ===== *)
(** What replication does not see to, in general: a replica counts as in sync on
    the strength of an ack, however far behind or ahead of the leader it is, and
    whatever it has where the leader has something else. *)
From S2P Require Import Prelude GoStrings Bytes RecordFmt Disk Index Segment CommitLog LogRep LogRead LogInterface.
From S2P Require Import Partitioner Cluster Store Wire BrokerState Metadata Replica Produce Handlers.
From S2P Require Import ReplicationSafety Survival.
Open Scope Z_scope.

Section gaps.
Context {L D : Type} `{LogOpener L D} `{LogLaws L}.
Implicit Types b f : Broker L D.
Context (t : string) (p : Z).
#[local] Abbreviation k := (store_key t p).






(** ** Properties *)



End gaps.

(** *** Samples *)









