(* ===== verification/BrokerSafety.v ===== *)
(** The brokers over their whole lives: what every request, message, tick and
    restart leaves true of a broker's topics, its membership and its groups,
    whatever its logs and its disk do, as long as its peers run the same code. *)
From S2P Require Import Prelude GoStrings Bytes Disk CommitLog LogInterface Assignor Coordinator GroupSafety.
From S2P Require Import Partitioner Cluster Store Wire BrokerState Metadata Replica Produce Handlers.
Open Scope Z_scope.

(** ** The invariant *)

(** Partitions are distinct and have replicas. *)
Record layout_ok (t : topicMeta) : Prop := {
  lo_ids : NoDup (p_ID <$> t_Partitions t);
  lo_replicas : Forall (λ p, p_Replicas p ≠ []) (t_Partitions t)
}.

Record broker_ok {L D} (b : Broker L D) : Prop := {
  bo_names name t : topics b !! name = Some t → t_Name t = name;
  bo_layout name t : topics b !! name = Some t → layout_ok t;
  bo_file : Forall layout_ok (topics_json b);
  bo_cluster : cluster_wf (cluster b);
  bo_groups : reachable (coordinator b)
}.

(** ** Runs *)

Section handled.
Context {L D : Type} `{LogOpener L D} `{LogOps L}.
Implicit Types b : Broker L D.

(** One request, message, follower round or tick, with what it may be given;
    while a produce request waits for the high watermark others are handled.
    Only requests about topics in [writes] append records; commits append to the
    offsets topic.  Nothing is asked of what a request or message holds, but that
    the metadata pushes received are in [told].  The steps at the end are parts
    of others, after which a broker may push its metadata: a record appended, an
    ISR computed anew, what the controller does in a tick. *)
Context (writes : string → Prop) (told : MetadataPush → Prop).

Inductive handled : Broker L D → Broker L D → Prop :=
  | handled_idle b : handled b b
  | handled_create now disk_ok forward req b : handled b (snd (handleCreateTopic now disk_ok forward req b))
  | handled_produce proxy env req b :
      writes (rq_Topic req) → (∀ i x, x ∈ ce_wait (env i) → ∀ b, handled b (snd x b)) →
      handled b (snd (handleProduce proxy env req b))
  | handled_fetch proxy t p off n replica b : writes t ∨ 0 ≤ off → handled b (snd (serveFetch proxy t p off n replica b))
  | handled_peer_heartbeat now req b : handled b (snd (handlePeerHeartbeat now req b))
  | handled_push now disk_ok push b :
      told push → handled b (snd (handleMetadataPush now disk_ok push b))
  | handled_ack now disk_ok ack b : handled b (snd (handleReplicaAck now disk_ok ack b))
  | handled_join now fresh g req b : handled b (snd (handleJoin now fresh g req b))
  | handled_sync now g req b : handled b (snd (handleSync now g req b))
  | handled_heartbeat now g req b : handled b (snd (handleHeartbeat now g req b))
  | handled_leave now g req b : handled b (snd (handleLeave now g req b))
  | handled_commit now disk_ok env g req b :
      writes offsetsTopic → (∀ i j x, x ∈ ce_wait (env i j) → ∀ b, handled b (snd x b)) →
      handled b (snd (handleCommitOffsets now disk_ok env g req b))
  | handled_fetch_offsets now g t b : handled b (snd (handleFetchOffsets now g t b))
  | handled_open t p b : handled b (snd (on_store (store_Open t p) b))
  | handled_follow_request t p b : handled b (snd (follow_request t p b))
  | handled_follow_reply now t p fr b : writes t → handled b (snd (follow_reply now t p fr b))
  | handled_tick now disk_ok b : handled b (snd (tick now disk_ok b))
  | handled_append env req n rec b : writes (rq_Topic req) → handled b (snd (produce_append env req n rec b))
  | handled_recompute now disk_ok t p b : handled b (snd (recomputeHW now disk_ok t p b))
  | handled_controller_tick now disk_ok b : handled b (snd (flagged (controllerTick now disk_ok) b))
  | handled_offsets_topic disk_ok b : handled b (snd (flagged (ensureOffsetsTopic disk_ok) b)).
End handled.

(** ** Preservation *)

(** [m] keeps [P], however it ends. *)
Definition keeps {S A} (P : S → Prop) (m : M S A) : Prop := ∀ s, P s → P (snd (m s)).

Section keeps.
Context {S : Type} (P : S → Prop).

Lemma keeps_ret {A} (a : A) : keeps P (mret a).
Proof. by intros s Hs. Qed.

Lemma keeps_throw {A} e : keeps P (throw e : M S A).
Proof. by intros s Hs. Qed.

Lemma keeps_gets {A} (f : S → A) : keeps P (gets f).
Proof. by intros s Hs. Qed.

Lemma keeps_modify (f : S → S) : (∀ s, P s → P (f s)) → keeps P (modify f).
Proof. intros Hf s Hs. by apply Hf. Qed.

Lemma keeps_bind {A B} (m : M S A) (f : A → M S B) : keeps P m → (∀ a, keeps P (f a)) → keeps P (m ≫= f).
Proof.
  intros Hm Hf s Hs. specialize (Hm s Hs). unfold mbind, M_bind. destruct (m s) as [[a| | |] s']; try done.
  by apply Hf.
Qed.

(** The continuation may use what the state was like. *)
Lemma keeps_gets_bind {A B} (f : S → A) (k : A → M S B) :
  (∀ s, P s → P (snd (k (f s) s))) → keeps P (gets f ≫= k).
Proof. intros Hk s Hs. by apply Hk. Qed.

Lemma keeps_attempt {A} (m : M S A) : keeps P m → keeps P (attempt m).
Proof. intros Hm s Hs. specialize (Hm s Hs). unfold attempt. by destruct (m s) as [[] s']. Qed.
End keeps.

Create HintDb keeps.
#[export] Hint Resolve keeps_ret keeps_throw keeps_gets keeps_modify keeps_attempt : keeps.

(** [P] is kept by all that a broker does, where only topics in [writes] get new
    records and only pushes in [told] arrive. *)
Record kept {L D : Type} `{LogOpener L D} `{LogOps L} (writes : string → Prop) (told : MetadataPush → Prop)
    (P : Broker L D → Prop) : Prop := {
  kp_gets A k (f : L → A) : keeps P (on_log k (gets f));
  kp_set_hw k h : keeps P (on_log k (modify (op_set_hw h)));
  kp_read t p off n h : writes t ∨ 0 ≤ off → keeps P (on_log (store_key t p) (op_read off n h));
  kp_write A t p (m : M L A) : writes t → keeps P (on_log (store_key t p) m);
  kp_open t p : keeps P (on_store (store_Open t p));
  kp_aside b b' : cfg b' = cfg b → topics b' = topics b → store b' = store b → cluster b' = cluster b →
    coordinator b' = coordinator b → topics_json b' = topics_json b → P b → P b';
  kp_seen now id b : P b → P (set_cluster (MarkSeen now id (cluster b)) b);
  kp_isr disk_ok t p isr b : P b → P (persistTopics disk_ok (set_topics (alter (set_isr p isr) t (topics b)) b));
  kp_create disk_ok name npart rf b c b' : P b → createTopic disk_ok name npart rf b = Some (c, b') → P b';
  kp_controller now disk_ok b c b' : P b → controllerTick now disk_ok b = Some (c, b') → P b';
  kp_apply now disk_ok push b : told push → P b → P (applyTopics now disk_ok (pushed_topics push) b);
  kp_groups A (f : Coordinator → A * Coordinator) :
    (∀ c, snd (f c) = c ∨ ∃ r, no_env r = true ∧ snd (f c) = handle r c) → keeps P (on_groups f)
}.

Section principle.
Context {L D : Type} `{LogOpener L D} `{LogOps L}.
Context (writes : string → Prop) (told : MetadataPush → Prop) (P : Broker L D → Prop) (Hkept : kept writes told P).
Implicit Types b : Broker L D.

#[local] Abbreviation keeps_P := (keeps P).

Lemma keeps_open_bind {B} t p (f : string → M (Broker L D) B) :
  keeps_P (f (store_key t p)) → keeps_P (on_store (store_Open t p) ≫= f).
Proof.
  intros Hf b Hb. pose proof (kp_open _ _ _ Hkept t p b Hb) as Ho. unfold mbind, M_bind.
  destruct (on_store _ b) as [[k| | |] b1] eqn:E; try done. rewrite (on_store_open_key _ _ _ _ _ E). by apply Hf.
Qed.

Lemma keeps_attempt_open_bind {B} t p (f : string + goerr → M (Broker L D) B) :
  keeps_P (f (inl (store_key t p))) → (∀ e, keeps_P (f (inr e))) → keeps_P (attempt (on_store (store_Open t p)) ≫= f).
Proof.
  intros Hf He b Hb. pose proof (kp_open _ _ _ Hkept t p b Hb) as Ho. unfold mbind, M_bind, attempt.
  destruct (on_store _ b) as [[k|e| |] b1] eqn:E; try done; [|by apply He].
  rewrite (on_store_open_key _ _ _ _ _ E). by apply Hf.
Qed.

Lemma keeps_on_partitioner {A} (m : M Partitioner A) : keeps_P (on_partitioner m).
Proof. intros b Hb. unfold on_partitioner, zoom. destruct (m _) as [r p]. by apply (kp_aside _ _ _ Hkept b). Qed.

Lemma keeps_note now t p i leo : keeps_P (modify (noteReplica now t p i leo)).
Proof. apply keeps_modify. intros b. by apply (kp_aside _ _ _ Hkept). Qed.

Lemma keeps_flagged (f : Broker L D → option (bool * Broker L D)) :
  (∀ b c b', P b → f b = Some (c, b') → P b') → keeps_P (flagged f).
Proof. intros Hf b Hb. unfold flagged, act. destruct (f b) as [[c b']|] eqn:E; [|done]. by eapply Hf. Qed.

Lemma keeps_recomputeHW now disk_ok t p : keeps_P (recomputeHW now disk_ok t p).
Proof.
  unfold recomputeHW. apply keeps_bind; [apply keeps_gets|]. intros [pm|]; (apply keeps_bind; [apply keeps_gets|]);
    intros self; [|apply keeps_ret]. destruct (negb _); [apply keeps_ret|].
  apply keeps_attempt_open_bind; [|intros; apply keeps_ret].
  apply keeps_bind; [apply keeps_gets|]. intros b. apply keeps_bind; [apply (kp_gets _ _ _ Hkept)|]. intros leo. cbv zeta.
  apply keeps_bind; [destruct (negb _); [apply keeps_modify, (kp_isr _ _ _ Hkept)|apply keeps_ret]|]. intros _.
  apply keeps_bind; [apply (kp_set_hw _ _ _ Hkept)|]. intros _. apply keeps_ret.
Qed.

Lemma keeps_recomputeAllHW now disk_ok : keeps_P (recomputeAllHW now disk_ok).
Proof.
  unfold recomputeAllHW. apply keeps_bind; [apply keeps_gets|]. intros ts.
  induction (all_partitions ts) as [|[t p] ps IH]; [apply keeps_ret|]. cbn [recompute_each].
  apply keeps_bind; [apply keeps_gets|]. intros self.
  apply keeps_bind; [destruct (_ =? _); [apply keeps_recomputeHW|apply keeps_ret]|]. intros c.
  apply keeps_bind; [exact IH|]. intros cs. apply keeps_ret.
Qed.

Lemma keeps_ensureOffsetsTopic disk_ok b c b' : P b → ensureOffsetsTopic disk_ok b = Some (c, b') → P b'.
Proof.
  intros Hb. unfold ensureOffsetsTopic. destruct (topic b offsetsTopic); [by intros [= _ <-]|].
  by apply (kp_create _ _ _ Hkept).
Qed.

Lemma keeps_forwardGroup {A} now (m : M (Broker L D) A) : keeps_P m → keeps_P (forwardGroup now m).
Proof.
  intros Hm. unfold forwardGroup. apply keeps_bind; [apply keeps_gets|]. intros b.
  destruct (IsController _ _); [apply keeps_bind; [done|intros; apply keeps_ret]|].
  cbv zeta. case_bool_decide; apply keeps_ret.
Qed.

(** *** Producing *)

Lemma keeps_pick_partition req rec n : keeps_P (pick_partition req rec n).
Proof.
  unfold pick_partition. cbv zeta. apply keeps_bind; [|intros pid]; destruct (_ || _) || destruct (_ && _);
    apply keeps_on_partitioner || apply keeps_ret.
Qed.

Lemma keeps_produce_append env req n rec : writes (rq_Topic req) → keeps_P (produce_append env req n rec).
Proof.
  intros Hw. unfold produce_append, my_id. apply keeps_bind; [apply keeps_pick_partition|]. intros pid.
  apply keeps_bind; [apply keeps_gets|]. intros [pm|]; (apply keeps_bind; [apply keeps_gets|]); intros self;
    [|apply keeps_throw]. destruct (negb _); [apply keeps_throw|].
  apply keeps_open_bind. apply keeps_bind; [by apply (kp_write _ _ _ Hkept)|]. intros off.
  apply keeps_bind; [apply (kp_gets _ _ _ Hkept)|]. intros leo.
  apply keeps_bind; [apply keeps_modify; intros b; by apply (kp_aside _ _ _ Hkept)|]. intros _.
  apply keeps_bind; [apply keeps_recomputeHW|]. intros _. apply keeps_ret.
Qed.

Lemma keeps_maybeSoloHW t p k : keeps_P (maybeSoloHW t p k).
Proof.
  unfold maybeSoloHW, my_id. apply keeps_bind; [apply keeps_gets|]. intros [pm|];
    (apply keeps_bind; [apply keeps_gets|]); intros self; [|apply keeps_ret].
  case_bool_decide; [|apply keeps_ret]. apply keeps_bind; [apply (kp_gets _ _ _ Hkept)|].
  intros ?. apply (kp_set_hw _ _ _ Hkept).
Qed.

(** What others do during a wait. *)
Definition calm (env : call_env (Broker L D)) : Prop := ∀ x, x ∈ ce_wait env → ∀ b, P b → P (snd x b).

Lemma keeps_interfere k ws : (∀ x, x ∈ ws → ∀ b, P b → P (snd x b)) → keeps_P (interfere k ws).
Proof.
  induction ws as [|[t f] ws IH]; intros Hws; [apply keeps_ret|]. cbn [interfere].
  apply keeps_bind; [apply keeps_modify; intros b; apply (Hws (t, f)); by left|]. intros _.
  apply keeps_bind; [apply (kp_gets _ _ _ Hkept)|]. intros h.
  apply keeps_bind; [apply IH; intros x Hx; apply Hws; by right|]. intros ?. apply keeps_ret.
Qed.

Lemma keeps_produce_record env acks req n rec :
  writes (rq_Topic req) → calm env → keeps_P (produce_record env acks req n rec).
Proof.
  intros Hw Henv. unfold produce_record. apply keeps_bind; [by apply keeps_produce_append|]. intros [[pid k] off].
  unfold answer_record. apply keeps_bind; [|intros; apply keeps_ret].
  destruct (is_acks_all acks); [|apply keeps_maybeSoloHW].
  unfold wait_hw. apply keeps_bind; [apply keeps_gets|]. intros timeout.
  apply keeps_bind; [apply (kp_gets _ _ _ Hkept)|]. intros h. apply keeps_bind; [by apply keeps_interfere|]. intros ws.
  intros b Hb. by repeat case_match.
Qed.

Lemma keeps_produceLocal env req : writes (rq_Topic req) → (∀ i, calm (env i)) → keeps_P (produceLocal env req).
Proof.
  intros Hw Henv. unfold produceLocal. apply keeps_bind; [apply keeps_gets|]. intros [t|]; [|apply keeps_throw]. cbv zeta.
  apply keeps_bind; [|intros; apply keeps_ret]. generalize 0%nat as i.
  induction (match rq_Records req with [] => _ | recs => recs end) as [|rec recs IH]; intros i; [apply keeps_ret|].
  cbn [produce_records]. apply keeps_bind; [by apply keeps_produce_record|]. intros r.
  apply keeps_bind; [apply IH|]. intros rs. apply keeps_ret.
Qed.

Lemma keeps_handleProduce proxy env req :
  writes (rq_Topic req) → (∀ i, calm (env i)) → keeps_P (handleProduce proxy env req).
Proof.
  intros Hw Henv. unfold handleProduce, produce_or_proxy. apply keeps_bind; [|intros; apply keeps_ret].
  apply keeps_bind; [by apply keeps_attempt, keeps_produceLocal|].
  intros [resp|[]]; try apply keeps_ret. apply keeps_bind; [apply keeps_gets|]. intros b. apply keeps_ret.
Qed.

Lemma keeps_serveFetch proxy t p off n replica : writes t ∨ 0 ≤ off → keeps_P (serveFetch proxy t p off n replica).
Proof.
  intros Hoff. unfold serveFetch. cbv zeta. apply keeps_bind; [apply keeps_gets|]. intros b.
  destruct (partition_meta b t p) as [pm|]; [|apply keeps_ret]. destruct (negb _); [apply keeps_ret|].
  apply keeps_attempt_open_bind; [|intros; apply keeps_ret].
  apply keeps_bind; [apply (kp_gets _ _ _ Hkept)|]. intros maxOff.
  apply keeps_bind; [by apply keeps_attempt, (kp_read _ _ _ Hkept)|]. intros [recs|e]; [|apply keeps_ret].
  apply keeps_bind; [apply (kp_gets _ _ _ Hkept)|]. intros hw. apply keeps_bind; [apply (kp_gets _ _ _ Hkept)|]. intros leo.
  apply keeps_ret.
Qed.

Lemma keeps_run_hooks env i hs : writes offsetsTopic → (∀ i j, calm (env i j)) → keeps_P (run_hooks env i hs).
Proof.
  intros Hw Henv. revert i. induction hs as [|h hs IH]; intros i; [apply keeps_ret|]. cbn [run_hooks].
  apply keeps_bind; [|intros; apply IH]. unfold replicateOffset. case_bool_decide; [apply keeps_ret|]. cbv zeta.
  apply keeps_bind; [by apply keeps_attempt, keeps_produceLocal|]. intros. apply keeps_ret.
Qed.

(** *** Following and the tick *)

Lemma keeps_follow_reply now t p fr : writes t → keeps_P (follow_reply now t p fr).
Proof.
  intros Hw. unfold follow_reply. cbv zeta. apply keeps_bind; [|intros _].
  - induction (f_Records fr) as [|w ws IH]; [apply keeps_ret|]. cbn [follow_records].
    apply keeps_bind; [apply (kp_gets _ _ _ Hkept)|]. intros leo. cbv zeta. destruct (_ <? _); [done|].
    destruct (_ <? _); [apply keeps_ret|]. apply keeps_bind; [by apply keeps_attempt, (kp_write _ _ _ Hkept)|].
    intros [|]; [done|apply keeps_ret].
  - apply keeps_bind; [apply (kp_set_hw _ _ _ Hkept)|]. intros _. apply keeps_bind; [apply (kp_gets _ _ _ Hkept)|]. intros leo.
    apply keeps_bind; [apply keeps_gets|]. intros self. apply keeps_ret.
Qed.

Lemma keeps_tick now disk_ok : keeps_P (tick now disk_ok).
Proof.
  unfold tick, tick_with. cbv zeta.
  assert (∀ changed : bool, keeps_P (if changed then mret tt else mret tt : M (Broker L D) unit)) as Hpush.
  { intros []; apply keeps_ret. }
  apply keeps_bind; [|intros _; apply keeps_bind; [apply keeps_ret|intros _]].
  { intros b Hb. by apply (kp_seen _ _ _ Hkept now (cfg_ID (cfg b)) b). }
  apply keeps_bind; [apply (kp_groups _ _ _ Hkept); intros c; right; by exists (ReqExpire now)|]. intros _.
  apply keeps_bind; [apply keeps_gets|]. intros b. apply keeps_bind; [|intros _].
  - destruct (IsController _ _); [|apply keeps_ret]. apply keeps_bind; [|intros changed].
    + apply keeps_flagged, (kp_controller _ _ _ Hkept).
    + apply keeps_bind; [apply Hpush|intros _]. apply keeps_bind; [|done].
      apply keeps_flagged, keeps_ensureOffsetsTopic.
  - apply keeps_bind; [apply keeps_recomputeAllHW|]. intros changed. apply keeps_bind; [|intros _ b1 Hb1].
    + induction changed as [|n IH]; [apply keeps_ret|]. cbn [times]. apply keeps_bind; [apply keeps_ret|by intros _].
    + by apply (kp_aside _ _ _ Hkept b1).
Qed.

(** *** Everything a broker handles *)

Lemma kept_handled b b' : handled writes told b b' → P b → P b'.
Proof.
  induction 1 as [b|now disk_ok forward req b|proxy env req b Hw _ IH|proxy t p off n replica b Hoff|now req b
    |now disk_ok ts b Hts|now disk_ok ack b|now fresh g req b|now g req b|now g req b|now g req b
    |now disk_ok env g req b Hw _ IH|now g t b|t p b|t p b|now t p fr b Hw|now disk_ok b|env req n rec b Hw
    |now disk_ok t p b|now disk_ok b|disk_ok b]; [done|..].
  - revert b. unfold handleCreateTopic. cbv zeta. case_bool_decide; [apply keeps_ret|].
    apply keeps_bind; [apply keeps_gets|]. intros b. destruct (negb _); [case_match; apply keeps_ret|].
    destruct (topic b _); [apply keeps_ret|]. apply keeps_bind; [|intros; apply keeps_ret].
    apply keeps_flagged. intros b1 c b'. apply (kp_create _ _ _ Hkept).
  - apply keeps_handleProduce; [done|]. intros i x Hx b1. by apply (IH i x Hx b1).
  - by apply keeps_serveFetch.
  - revert b. unfold handlePeerHeartbeat. apply keeps_bind; [|intros; apply keeps_gets].
    intros b Hb. cbn. destruct (negb _); [by apply (kp_seen _ _ _ Hkept)|done].
  - intros Hb. unfold handleMetadataPush, syncFollowers. cbn.
    apply (kp_aside _ _ _ Hkept (applyTopics now disk_ok (pushed_topics ts) b)); [done..|]. by apply (kp_apply _ _ _ Hkept).
  - revert b. unfold handleReplicaAck. apply keeps_bind; [apply keeps_note|intros; apply keeps_recomputeHW].
  - revert b. apply keeps_forwardGroup, keeps_bind; [|intros; apply keeps_ret]. apply (kp_groups _ _ _ Hkept). intros c.
    right. by exists (ReqJoin now fresh g (jq_MemberID req) (jq_Topics req)).
  - revert b. apply keeps_forwardGroup, keeps_bind; [|intros [[] ?]; apply keeps_ret]. apply (kp_groups _ _ _ Hkept). intros c.
    right. by exists (ReqSync now g (sq_MemberID req) (sq_Generation req)).
  - revert b. apply keeps_forwardGroup, keeps_bind; [|intros []; apply keeps_ret]. apply (kp_groups _ _ _ Hkept). intros c.
    right. by exists (ReqHeartbeat now g (hq_MemberID req) (hq_Generation req)).
  - revert b. apply keeps_forwardGroup, (kp_groups _ _ _ Hkept). intros c. right. by exists (ReqLeave now g (lv_MemberID req)).
  - revert b. apply keeps_forwardGroup, keeps_bind.
    + apply (kp_groups _ _ _ Hkept). intros c. right. by eexists (ReqCommit disk_ok g _).
    + intros r. apply keeps_bind; [apply keeps_run_hooks; [done|]|intros; apply keeps_ret]. intros i j x Hx b1.
      by apply (IH i j x Hx b1).
  - revert b. apply keeps_forwardGroup, keeps_bind; [|intros; apply keeps_ret]. apply (kp_groups _ _ _ Hkept). by left.
  - apply (kp_open _ _ _ Hkept).
  - revert b. unfold follow_request. apply keeps_bind; [apply keeps_gets|]. intros b.
    destruct (partition_meta b t p) as [pm|]; [|apply keeps_ret]. destruct (_ || _); [apply keeps_ret|]. cbv zeta.
    case_bool_decide; [apply keeps_ret|]. apply keeps_bind; [apply (kp_gets _ _ _ Hkept)|]. intros leo. apply keeps_ret.
  - by apply keeps_follow_reply.
  - apply keeps_tick.
  - by apply keeps_produce_append.
  - apply keeps_recomputeHW.
  - apply keeps_flagged, (kp_controller _ _ _ Hkept).
  - apply keeps_flagged, keeps_ensureOffsetsTopic.
Qed.
End principle.

(** ** What is kept: a well-formed broker *)

Section preservation.
Context {L D : Type} `{LogOpener L D} `{LogOps L}.
Implicit Types b : Broker L D.

#[local] Abbreviation keeps_ok := (keeps (broker_ok (L:=L) (D:=D))).

Lemma broker_ok_same b b' :
  topics b' = topics b → cluster b' = cluster b → coordinator b' = coordinator b → topics_json b' = topics_json b →
  broker_ok b → broker_ok b'.
Proof. intros Et Ec Eg Ej [H1 H2 H3 H4 H5]. split; by rewrite ?Et, ?Ec, ?Eg, ?Ej. Qed.

(** Only the topics change. *)
Lemma broker_ok_topics b b' :
  (∀ name t, topics b' !! name = Some t → t_Name t = name ∧ layout_ok t) →
  cluster b' = cluster b → coordinator b' = coordinator b → topics_json b' = topics_json b → broker_ok b → broker_ok b'.
Proof.
  intros Ht Ec Eg Ej [_ _ H3 H4 H5]. split; rewrite ?Ec, ?Eg, ?Ej; try done; intros name t E; by destruct (Ht name t E).
Qed.

Lemma keeps_on_log {A} k (m : M L A) : keeps_ok (on_log k m).
Proof.
  intros b Hb. unfold on_log, act. destruct (_ !! k) as [l|]; [|done]. destruct (m l) as [r l'].
  by apply (broker_ok_same b).
Qed.

Lemma keeps_on_store {A} (m : M (Store L D) A) : keeps_ok (on_store m).
Proof. intros b Hb. unfold on_store, zoom. destruct (m _) as [r st]. by apply (broker_ok_same b). Qed.

Lemma persistTopics_ok disk_ok b : broker_ok b → broker_ok (persistTopics disk_ok b).
Proof.
  intros Hb. destruct disk_ok; [|done]. destruct Hb as [H1 H2 H3 H4 H5]. split; try done. cbn.
  rewrite merge_sort_Permutation. apply Forall_fmap, Forall_forall. intros [name t] Ht%elem_of_map_to_list. by eapply H2.
Qed.

Lemma layout_same t t' :
  p_ID <$> t_Partitions t' = p_ID <$> t_Partitions t →
  p_Replicas <$> t_Partitions t' = p_Replicas <$> t_Partitions t → layout_ok t → layout_ok t'.
Proof.
  intros Ei Er [Hi Hr]. split; [by rewrite Ei|].
  apply (Forall_fmap p_Replicas (λ reps, reps ≠ [])). rewrite Er. by apply Forall_fmap.
Qed.

Lemma set_isr_layout p isr t : layout_ok t → layout_ok (set_isr p isr t).
Proof.
  apply layout_same; unfold set_isr; cbn; rewrite <- list_fmap_compose; apply list_fmap_ext; intros ? q _; cbn;
    by case_match.
Qed.

Lemma set_isr_ok disk_ok t p isr b :
  broker_ok b → broker_ok (persistTopics disk_ok (set_topics (alter (set_isr p isr) t (topics b)) b)).
Proof.
  intros Hb. apply persistTopics_ok. apply (broker_ok_topics b); [|done..]. cbn. intros name tm.
  rewrite lookup_alter_Some. intros [(-> & tm' & Htm & ->)|[_ Htm]].
  - split; [exact (bo_names _ Hb _ _ Htm)|]. eapply set_isr_layout, bo_layout; done.
  - split; [by apply (bo_names _ Hb)|by eapply bo_layout].
Qed.

(** *** Topics *)

Lemma placed_layout ids rf n ps name : Forall2 (well_placed ids rf) (seqZ 0 n) ps → layout_ok (MkTopic name ps).
Proof.
  intros Hps. split; cbn.
  - assert (p_ID <$> ps = seqZ 0 n) as ->; [|apply NoDup_seqZ].
    symmetry. apply list_eq_Forall2, Forall2_fmap_r. eapply Forall2_impl; [exact Hps|]. by intros ?? [].
  - eapply Forall2_Forall_r; [exact Hps|]. apply Forall_true. intros i p Hp E. pose proof (wp_pref _ _ _ _ Hp) as Hh.
    by rewrite E in Hh.
Qed.

Lemma createTopic_broker_ok disk_ok name npart rf b c b' :
  broker_ok b → createTopic disk_ok name npart rf b = Some (c, b') → broker_ok b'.
Proof.
  intros Hb E. destruct (topics b !! name) as [t|] eqn:Hn.
  { unfold createTopic in E. rewrite Hn in E. by injection E as _ <-. }
  destruct (createTopic_new disk_ok name npart rf b (bo_cluster _ Hb) Hn) as (ps & b1 & E1 & Ht & Hps).
  rewrite E in E1. injection E1 as -> <-.
  assert (∃ ts, b' = persistTopics disk_ok (set_topics ts b)) as [ts ->].
  { unfold createTopic in E. rewrite Hn in E. destruct (assignReplicas _ _ _ _); [|done]. injection E as <-. by eexists. }
  assert (topics (set_topics ts b) = <[name := MkTopic name ps]> (topics b)) as Hts by (rewrite <- Ht; by destruct disk_ok).
  apply persistTopics_ok, (broker_ok_topics b); [|done..]. rewrite Hts. intros n t.
  intros [[<- <-]|[_ Ht']]%lookup_insert_Some; [split; [done|by eapply placed_layout]|].
  split; [by apply (bo_names _ Hb)|by eapply bo_layout].
Qed.

Lemma tick_partition_layout (alive : Z → bool) p :
  p_Replicas p ≠ [] →
  ∃ p' ch, tick_partition alive p = Some (p', ch) ∧ p_ID p' = p_ID p ∧ p_Replicas p' = p_Replicas p.
Proof.
  intros Hr. unfold tick_partition, firstAlive. destruct (p_Replicas p) as [|pref reps]; [done|]. cbn [head].
  destruct (alive (p_Leader p)); cbn [negb mbind option_bind].
  - destruct (negb _ && _ && _); case_match; by do 2 eexists.
  - destruct (filter (λ id, alive id) (pref :: reps)); cbn [mbind option_bind]; destruct (negb _ && _ && _);
      case_match; by do 2 eexists.
Qed.

Lemma tick_topic_layout (alive : Z → bool) t :
  layout_ok t → ∃ t' ch, tick_topic alive t = Some (t', ch) ∧ t_Name t' = t_Name t ∧ layout_ok t'.
Proof.
  intros Ht. assert (∃ rs, mapM (tick_partition alive) (t_Partitions t) = Some rs ∧
    p_ID <$> rs.*1 = p_ID <$> t_Partitions t ∧ p_Replicas <$> rs.*1 = p_Replicas <$> t_Partitions t) as (rs & E & Ei & Er).
  { induction (lo_replicas _ Ht) as [|p ps Hp _ (rs & E & Ei & Er)]; [by exists []|].
    destruct (tick_partition_layout alive p Hp) as (p' & ch & E' & Hi & Hr). exists ((p', ch) :: rs). cbn.
    rewrite E', E. cbn. by rewrite Hi, Hr, Ei, Er. }
  unfold tick_topic. rewrite E. cbn. do 2 eexists. split; [done|]. split; [done|]. by apply (layout_same t).
Qed.

(** A controller tick never panics. *)
Lemma controllerTick_total now disk_ok b :
  broker_ok b → ∃ c b', controllerTick now disk_ok b = Some (c, b') ∧ broker_ok b'.
Proof.
  intros Hb. unfold controllerTick. rewrite decide_True.
  2: { intros name r. rewrite lookup_fmap, fmap_Some. intros (t & Ht & ->).
       destruct (tick_topic_layout (alive_at now b) t (bo_layout _ Hb _ _ Ht)) as (t' & ch & -> & _). by eexists. }
  do 2 eexists. split; [done|].
  set (b1 := set_topics _ b). enough (broker_ok b1) as Hb1 by (case_match; [by apply persistTopics_ok|done]).
  apply (broker_ok_topics b); [|done..]. cbn. intros name t'. rewrite lookup_omap, lookup_fmap.
  destruct (topics b !! name) as [t|] eqn:Ht; [|done]. cbn.
  destruct (tick_topic_layout (alive_at now b) t (bo_layout _ Hb _ _ Ht)) as (t1 & ch & -> & Hn & Hl).
  intros [= <-]. cbn. by rewrite Hn, (bo_names _ Hb _ _ Ht).
Qed.

Lemma applyTopics_ok now disk_ok ts b : Forall layout_ok ts → broker_ok b → broker_ok (applyTopics now disk_ok ts b).
Proof.
  intros Hts Hb. unfold applyTopics. apply persistTopics_ok. apply (broker_ok_topics b); [|done..]. cbn.
  assert (∀ name t, topics b !! name = Some t → t_Name t = name ∧ layout_ok t) as Hm.
  { intros name t Ht. split; [by apply (bo_names _ Hb)|by eapply bo_layout]. }
  revert Hm. generalize (topics b) as m. induction Hts as [|t ts Ht _ IH]; intros m Hm; [exact Hm|]. cbn. apply IH.
  unfold merge_topic. intros name t' [[<- <-]|[_ ?]]%lookup_insert_Some; [|by apply Hm]. split; [done|].
  eapply layout_same; [..|exact Ht]; cbn; rewrite <- list_fmap_compose; apply list_fmap_ext; intros ? p _; cbn.
  - apply (mg_id now b _ p _ (merge_partition_spec now b _ p)).
  - apply (mg_replicas now b _ p _ (merge_partition_spec now b _ p)).
Qed.

(** *** Groups *)

Lemma topicPartitions_NoDup b t : broker_ok b → NoDup (topicPartitions b t).
Proof.
  intros Hb. unfold topicPartitions, topic. destruct (topics b !! t) as [tm|] eqn:Ht; [|apply NoDup_nil_2].
  exact (lo_ids _ (bo_layout _ Hb _ _ Ht)).
Qed.

Lemma reachable_handle r c : reachable c → no_env r = true → reachable (handle r c).
Proof.
  intros Hc Hr. eapply reach_step; [done|]. constructor. intros f t Hf. rewrite handle_partitionsOf in Hf by done.
  by apply (reachable_ok c Hc).
Qed.

(** A call on the coordinator is one of its requests, with the partitions of the
    broker's topics. *)
Lemma on_groups_ok {A} (f : Coordinator → A * Coordinator) :
  (∀ c, snd (f c) = c ∨ ∃ r, no_env r = true ∧ snd (f c) = handle r c) → keeps_ok (on_groups f).
Proof.
  intros Hf b Hb. unfold on_groups, act. cbv zeta.
  change (Build_Coordinator _ _ _ _ _ _ _) with (handle (EnvPartitions (topicPartitions b)) (coordinator b)).
  set (c := handle (EnvPartitions (topicPartitions b)) (coordinator b)).
  assert (reachable c) as Hc.
  { eapply reach_step; [apply (bo_groups _ Hb)|]. constructor. intros g t [= <-]. by apply topicPartitions_NoDup. }
  specialize (Hf c). destruct (f c) as [a c']. cbn in *. destruct Hb as [Hn Hl Hf' Hcl _]. split; try done. cbn.
  destruct Hf as [-> |(r & Hr & ->)]; [done|by apply reachable_handle].
Qed.

(** A broker stays well formed, whatever is written and however its logs behave. *)
Lemma broker_ok_kept writes :
  kept writes (λ push, Forall layout_ok (pushed_topics push)) (broker_ok (L:=L) (D:=D)).
Proof.
  split; intros; try apply keeps_on_log.
  - apply keeps_on_store.
  - by eapply broker_ok_same.
  - match goal with Hb : broker_ok _ |- _ => destruct Hb end. split; try done. by apply MarkSeen_wf.
  - by apply set_isr_ok.
  - by eapply createTopic_broker_ok.
  - match goal with Hb : broker_ok ?b, E : controllerTick ?n ?d _ = _ |- _ =>
      destruct (controllerTick_total n d b Hb) as (c1 & b2 & E1 & Hb2); rewrite E in E1; by injection E1 as <- <- end.
  - by apply applyTopics_ok.
  - by apply on_groups_ok.
Qed.
End preservation.

Section lifetime.
Context {L D : Type} `{LogOpener L D} `{LogOps L}.
Implicit Types b : Broker L D.

Lemma broker_New_ok now c dirs ents offs stored b :
  match stored with inl ts => Forall layout_ok ts | inr _ => True end →
  broker_New now c dirs ents offs stored = Ok b → broker_ok b.
Proof.
  unfold broker_New. cbv zeta. intros Hts. destruct (LoadExisting _ _) as [[] st]; try done.
  destruct stored as [ts|]; [|done]. intros [= <-].
  assert (∀ name t, foldl (λ m t, <[t_Name t := t]> m) (∅ : gmap string topicMeta) ts !! name = Some t →
    t_Name t = name ∧ layout_ok t) as Hm.
  { assert (∀ name t, (∅ : gmap string topicMeta) !! name = Some t → t_Name t = name ∧ layout_ok t) as He.
    { intros name t. by rewrite lookup_empty. }
    revert He. generalize (∅ : gmap string topicMeta) as m. induction Hts as [|t ts Ht _ IH]; intros m Hm; [done|].
    cbn. apply IH. intros name t' [[<- <-]|[_ ?]]%lookup_insert_Some; [done|by apply Hm]. }
  split.
  - intros name t E. by destruct (Hm name t E).
  - intros name t E. by destruct (Hm name t E).
  - exact Hts.
  - apply New_wf.
  - cbn. apply (reach_step (Coordinator.New offs (GroupSession (with_defaults c)) (RebalanceWait (with_defaults c))
      (Some (λ _, [])))).
    + constructor. intros t. apply NoDup_nil_2.
    + apply (step_request _ ReqSetHook). intros f t [= <-]. apply NoDup_nil_2.
Qed.

(** ** The life of the brokers *)

(** The states in which a broker that runs this code can be, whatever it is
    configured to and asked, and however its logs, its clock and its disk behave.
    It is started without a topics file, or again with the file it, or a broker
    before it, left; in between it handles anything; and the metadata pushes it
    receives are those that brokers of this code make, at any time, lost, late,
    again and out of order. *)
Inductive lives : Broker L D → Prop :=
  | lives_started now c dirs ents offs b : broker_New now c dirs ents offs (inl []) = Ok b → lives b
  | lives_again b0 now c dirs ents offs b :
      lives b0 → broker_New now c dirs ents offs (inl (topics_json b0)) = Ok b → lives b
  | lives_on b b' : lives b → handled (λ _, True) made b b' → lives b'
with made : MetadataPush → Prop :=
  | made_by now b : lives b → made (metadataPush now b).

Lemma handled_told (told1 told2 : MetadataPush → Prop) writes b b' :
  (∀ push, told1 push → told2 push) → handled writes told1 b b' → handled writes told2 b b'.
Proof. intros Htold. induction 1; econstructor; eauto. Defined.

(** What a well-formed broker pushes is well formed. *)
Lemma pushed_layout now b : broker_ok b → Forall layout_ok (pushed_topics (metadataPush now b)).
Proof.
  intros Hb. rewrite pushed_topics_push. apply (bo_file (persistTopics true b)), persistTopics_ok, Hb.
Qed.

Lemma lives_ok : ∀ b, lives b → broker_ok b.
Proof.
  fix IH 2. intros b [now c dirs ents offs b1 Hstart|b0 now c dirs ents offs b1 Hlives Hstart|b0 b1 Hlives Hstep].
  - eapply broker_New_ok, Hstart. apply Forall_nil_2.
  - eapply broker_New_ok, Hstart. exact (bo_file b0 (IH b0 Hlives)).
  - refine (kept_handled _ _ _ (broker_ok_kept (λ _, True)) b0 b1 _ (IH b0 Hlives)).
    refine (handled_told _ _ _ b0 b1 _ Hstep). intros push [now a Ha]. exact (pushed_layout now a (IH a Ha)).
Qed.

(** Nothing else keeps it so: a push is applied as it comes, and after one that
    names a partition without replicas and a leader that is not alive the
    controller's tick panics. *)
Lemma pushed_partition_panics_tick now now' disk_ok disk_ok' c name pid leader isr hw leo (b : Broker L D) :
  topics b !! name = None → alive_at now' b leader = false →
  controllerTick now' disk_ok'
    (snd (handleMetadataPush now disk_ok (MkPush c [MkSnapshot name [MkPartitionInfo pid leader [] isr hw leo]]) b)) = None.
Proof.
  intros Hn Ha. set (b' := snd _). unfold controllerTick. rewrite decide_False; [done|]. intros Hall.
  assert (topics b' !! name = Some (MkTopic name [MkPart pid leader [] (nonempty_isr leader
    (filterAlive isr (λ id, (id =? cfg_ID (cfg b)) || alive_at now b id)))])) as Ht.
  { assert (topics b' = topics (applyTopics now disk_ok (pushed_topics (MkPush c
      [MkSnapshot name [MkPartitionInfo pid leader [] isr hw leo]])) b)) as -> by done.
    unfold applyTopics. destruct disk_ok; cbn; unfold merge_topic; cbn; by rewrite Hn, lookup_insert_eq. }
  assert (alive_at now' b' leader = false) as Ha'.
  { rewrite <- Ha. unfold alive_at, b'. by destruct disk_ok. }
  assert (∃ r, (tick_topic (alive_at now' b') <$> topics b') !! name = Some r ∧ ¬ is_Some r) as (r & Hr & Hnone); [|by apply Hnone, (Hall name)].
  rewrite lookup_fmap, Ht. eexists. split; [done|]. intros [r Hr]. revert Hr. unfold tick_topic, tick_partition. cbn [t_Partitions mapM p_Leader p_Replicas]. by rewrite Ha'.
Qed.

(** ** Properties *)

(** C8: in every state of every broker, from its first start-up on, over restarts,
    and whatever it is asked, told by the other brokers or made to wait for, and
    whatever its logs, its clock and its disk do, its topics have distinct
    partitions with replicas under their own names, it stays in its own
    membership, in every group that has assigned its partitions no partition
    belongs to two members, the controller's tick does not panic, and the metadata
    it pushes is as well formed.  The brokers talk to brokers that run the same
    code: a push is not checked ([pushed_partition_panics_tick]). *)
Theorem broker_stays_well_formed (b : Broker L D) (Hb : lives b) :
  (∀ name t, topics b !! name = Some t → t_Name t = name ∧ layout_ok t) ∧
  cluster_wf (cluster b) ∧
  (∀ gid g id1 id2 t p, groups (coordinator b) !! gid = Some g → active g →
     owns g id1 t p → owns g id2 t p → id1 = id2) ∧
  (∀ now disk_ok, ∃ changed b', controllerTick now disk_ok b = Some (changed, b')) ∧
  (∀ now, Forall layout_ok (pushed_topics (metadataPush now b))).
Proof.
  apply lives_ok in Hb. split_and!.
  - intros name t Ht. split; [by apply (bo_names _ Hb)|by eapply bo_layout].
  - apply (bo_cluster _ Hb).
  - intros gid g id1 id2 t p Hg Ha. apply active_exclusive; [|done].
    destruct (reachable_ok _ (bo_groups _ Hb)) as [_ Hall]. by apply (Hall gid).
  - intros now' disk_ok. destruct (controllerTick_total now' disk_ok b Hb) as (ch & b' & E & _). eauto.
  - intros now. by apply pushed_layout.
Qed.
End lifetime.

(** *** Sample lives *)

(** Broker 1 starts and creates a topic; broker 2 starts, receives its metadata
    and is started again from the file it then has; a member joins a group and
    broker 2 ticks. *)
Definition start (id : Z) (ts : list topicMeta) : Broker (log * disk) disk :=
  match broker_New 0 (sample_config id) ∅ [] ∅ (inl ts) with Ok b => b | _ => sample_broker id end.

Definition creates : Broker (log * disk) disk :=
  snd (handleCreateTopic 100 true (λ _ _, false) (MkCreate "orders" 2 2) (start 1 [])).
Definition learns : Broker (log * disk) disk := snd (handleMetadataPush 200 true (metadataPush 150 creates) (start 2 [])).
Definition ticked_once : Broker (log * disk) disk :=
  snd (tick 1000 true (snd (handleJoin 500 "m" "g" (MkJoinRequest "" ["orders"%string]) (start 2 (topics_json learns))))).

Lemma broker_stays_well_formed_witness :
  is_Some (topics ticked_once !! "orders"%string) ∧
  (∀ name t, topics ticked_once !! name = Some t → t_Name t = name ∧ layout_ok t) ∧
  (∀ gid g id1 id2 t p, groups (coordinator ticked_once) !! gid = Some g → active g →
     owns g id1 t p → owns g id2 t p → id1 = id2) ∧
  (∀ now disk_ok, ∃ changed b', controllerTick now disk_ok ticked_once = Some (changed, b')).
Proof.
  destruct (broker_stays_well_formed ticked_once) as (H1 & _ & H2 & H3 & _).
  - unfold ticked_once. eapply lives_on; [eapply lives_on|apply handled_tick]; [|apply handled_join].
    apply (lives_again learns 0 (sample_config 2) ∅ [] ∅); [|reflexivity]. unfold learns.
    eapply lives_on; [apply (lives_started 0 (sample_config 2) ∅ [] ∅); reflexivity|]. apply handled_push.
    apply made_by. unfold creates.
    eapply lives_on; [apply (lives_started 0 (sample_config 1) ∅ [] ∅); reflexivity|]. apply handled_create.
  - split; [vm_compute; by eexists|]. split; [exact H1|]. split; [exact H2|exact H3].
Defined.
