(* ===== verification/Elections.v ===== *)
(** Replication of one partition whose leader changes at any time: brokers
    append, fetch, follow and handle everything else in any order, two of them may
    take themselves for the leader, logs may diverge, and answers of former
    leaders arrive late.  Records that were committed stay where they are as long
    as only brokers that had them come to lead; the code does not see to that
    beyond one change of leader. *)
From S2P Require Import Prelude GoStrings Bytes RecordFmt Disk Index Segment CommitLog LogRep LogRead LogInterface.
From S2P Require Import Coordinator GroupSafety Partitioner Cluster Store Wire BrokerState Metadata Replica Produce.
From S2P Require Import Handlers ReplicationSafety Survival BrokerSafety.
Open Scope Z_scope.

(** Keys name their topic. *)
Lemma store_key_topic t t' p p' : store_key t p = store_key t' p' → t = t' ∧ Itoa p = Itoa p'.
Proof.
  intros E. apply (f_equal (split_last "/"%char ∘ to_chars)) in E. revert E. unfold compose, store_key.
  rewrite !to_chars_app. change (to_chars "/") with ["/"%char]. cbn [app].
  rewrite !split_last_app by apply Itoa_no_slash. intros [= Et Ep]. split; by apply to_chars_inj.
Qed.

Section elections.
Context {L D : Type} `{LogOpener L D} `{LogLaws L}.
Implicit Types b : Broker L D.
Context (t : string) (p : Z) (Hp : 0 ≤ p < 2 ^ 32).
#[local] Abbreviation k := (store_key t p).

(** ** The system *)

(** The brokers by id, and the answers to fetches of the partition on their way. *)
Record replicas := Replicas {
  brokers : gmap Z (Broker L D);
  flying : list FetchResponse
}.

(** The broker takes itself for the leader. *)
Definition leads b : Prop := p_Leader <$> partition_meta b t p = Some (cfg_ID (cfg b)).

(** What a broker does, and the answers it sends.  A produce request appends its
    records one by one; with acks=all it then only looks at the high watermark
    from time to time.  An answer may arrive at any broker, late or again.  A
    broker that stops and starts again is another one with its configuration and
    a log that holds what it held.  All else is a request, message or tick that
    appends nothing to the topic. *)
Inductive acts (fl : list FetchResponse) : Broker L D → Broker L D → list FetchResponse → Prop :=
  | acts_append env req n rec b :
      rq_Topic req = t → 0 < n < 2 ^ 32 → clean (ce_ts env) rec → room t n b →
      acts fl b (snd (produce_append env req n rec b)) []
  | acts_solo q b : acts fl b (snd (maybeSoloHW t q (store_key t q) b)) []
  | acts_serve off maxBytes fr b b' :
      0 ≤ off → serveFetch (λ _ _ _ _ _, None) t p off maxBytes true b = (Ok (Fetched fr), b') →
      acts fl b b' [json_fetch fr]
  | acts_deliver now fr b : fr ∈ fl → acts fl b (snd (follow_reply now t p fr b)) []
  | acts_restart b b' :
      cfg b' = cfg b → (∀ recs, holds_at t p b recs → holds_at t p b' recs) → acts fl b b' []
  | acts_other b b' : handled (λ t', t' ≠ t) (λ _, True) b b' → acts fl b b' [].

(** Only brokers in [heirs] come to lead. *)
Inductive moves (heirs : list Z) : replicas → replicas → Prop :=
  | moves_at s id b b' out :
      brokers s !! id = Some b → acts (flying s) b b' out → (leads b' → leads b ∨ id ∈ heirs) →
      moves heirs s (Replicas (<[id := b']> (brokers s)) (out ++ flying s)).

(** ** What does not append *)

(** The broker is still the one it was, and its log holds [recs]. *)
Definition still (c : BrokerState.Config) (recs : list record) b : Prop := cfg b = c ∧ holds_at t p b recs.

Lemma still_same c recs b b' :
  cfg b' = cfg b → store b' = store b → still c recs b → still c recs b'.
Proof. intros Ec Es [<- (l & Hl & Hrecs)]. split; [done|]. exists l. unfold log_at. by rewrite Es. Qed.

Lemma keeps_on_log_still c recs {A} k' (m : M L A) :
  (k' = k → ∀ l, log_contents l recs → log_contents (snd (m l)) recs) → keeps (still c recs) (on_log k' m).
Proof.
  intros Hm b [Hc (l & Hl & Hrecs)]. unfold on_log, act. destruct (logs (store b) !! k') as [l'|] eqn:Hl'.
  2: { split; [done|by exists l]. }
  destruct (m l') as [r l''] eqn:Em. split; [done|]. unfold holds_at. destruct (decide (k' = k)) as [->|Hne].
  - exists l''. split; [apply log_at_set_log|]. unfold log_at in Hl. rewrite Hl in Hl'. injection Hl' as <-.
    specialize (Hm eq_refl l Hrecs). by rewrite Em in Hm.
  - exists l. split; [|done]. rewrite <- Hl. by apply (log_at_set_log_ne k' k l'' b).
Qed.

Lemma keeps_open_still c recs t' p' : keeps (still c recs) (on_store (store_Open t' p')).
Proof.
  intros b [Hc (l & Hl & Hrecs)]. unfold on_store, zoom, store_Open, act.
  destruct (logs (store b) !! store_key t' p') as [l'|] eqn:Hl'; [by apply (still_same c recs b); [|by destruct (store b)|split; [|exists l]]|].
  destruct (open_dir _ _) as [[l1| | |] d]; cbn; (split; [done|]); exists l; (split; [|done]); unfold log_at in *; cbn.
  all: try done. rewrite lookup_insert_ne; [done|]. intros E. by rewrite E, Hl in Hl'.
Qed.

Lemma still_kept c recs : kept (λ t', t' ≠ t) (λ _, True) (still c recs).
Proof.
  split.
  - intros A k' f. by apply keeps_on_log_still.
  - intros k' h. apply keeps_on_log_still. intros _ l Hrecs. by apply log_set_hw.
  - intros t' p' off m h Hor. apply keeps_on_log_still. intros [-> _]%store_key_topic l Hrecs.
    destruct Hor as [|Hoff]; [done|]. by destruct (log_read off m h l recs Hrecs Hoff) as (out & -> & _).
  - intros A t' p' m Hne. apply keeps_on_log_still. by intros [-> _]%store_key_topic.
  - apply keeps_open_still.
  - intros b b' Hc _ Hs _ _ _. by apply still_same.
  - intros now id b. by apply still_same.
  - intros disk_ok t' p' isr b. apply still_same; by destruct disk_ok.
  - intros disk_ok name npart rf b c' b' Hb. unfold createTopic. destruct (topics b !! name); [by intros [= _ <-]|].
    destruct (assignReplicas _ _ _ _); [|done]. intros [= _ <-]. revert Hb. apply still_same; by destruct disk_ok.
  - intros now disk_ok b c' b' Hb. unfold controllerTick. case_decide; [|done]. intros [= _ <-]. revert Hb.
    case_match; apply still_same; by destruct disk_ok.
  - intros now disk_ok ts b _. apply still_same; by destruct disk_ok.
  - intros A f _ b. unfold on_groups, act. cbv zeta. destruct (f _) as [a c']. by apply still_same.
Qed.

(** ** What appends *)

(** [P]: the committed records. A record at one of their offsets is that one. *)
Context (P : list record).

Definition sound (r : record) : Prop :=
  wf_record r ∧ Offset r + 1 < 2 ^ 63 ∧ Timestamp r ≠ 0 ∧ utf8_record r ∧
  ∀ x, P !! Z.to_nat (Offset r) = Some x → r = x.

Lemma sound_prefix recs :
  contiguous 0 recs → Forall sound recs → Zlength P ≤ Zlength recs → P `prefix_of` recs.
Proof.
  intros Hc Hs Hlen. rewrite <- (take_drop (length P) recs). apply prefix_app_r.
  assert (take (length P) recs = P) as ->; [|done]. apply list_eq_same_length with (length P); [done| |].
  { rewrite length_take. unfold Zlength in *. lia. }
  intros i x y Hi Hx Hy. rewrite lookup_take in Hx by done. rewrite decide_True in Hx by done.
  rewrite Forall_lookup in Hs. destruct (Hs i x Hx) as (_ & _ & _ & _ & Heq). apply Heq.
  by rewrite (Hc _ _ Hx), Z.add_0_l, Nat2Z.id.
Qed.

(** A log with sound records, which holds the committed ones if the broker
    leads. *)
Record carrier b (recs : list record) : Prop := {
  ca_holds : holds_at t p b recs;
  ca_sound : Forall sound recs;
  ca_leads : leads b → Zlength P ≤ Zlength recs
}.

Definition carries (fr : FetchResponse) : Prop :=
  ∃ out, f_Records fr = json_record <$> toWire out ∧ Forall sound out.

(** A produce request appends to the log only on a leader. *)
Lemma append_sound env req n rec b recs :
  rq_Topic req = t → 0 < n < 2 ^ 32 → clean (ce_ts env) rec → room t n b → carrier b recs →
  ∃ ext, still (cfg b) (recs ++ ext) (snd (produce_append env req n rec b)) ∧ Forall sound ext.
Proof.
  intros Ht Hn ([Hts Hsize] & Hts0 & Hutf) Hroom [(l & Hl & Hrecs) Hs Hlead].
  destruct (pick_partition_range req rec n b Hn) as (pid & q & Hpick & Hpid). set (b1 := set_partitioner q b) in *.
  assert (still (cfg b) recs b1) as Hb1 by (split; [done|by exists l]).
  unfold produce_append, my_id. rewrite (bind_Ok _ _ _ _ _ Hpick), Ht.
  rewrite (bind_Ok _ _ _ _ _ (eq_refl : gets (λ b, partition_meta b t pid) b1 = (Ok (partition_meta b t pid), b1))).
  rewrite (bind_Ok _ _ _ _ _ (eq_refl : gets (λ b, cfg_ID (cfg b)) b1 = (Ok (cfg_ID (cfg b)), b1))).
  destruct (partition_meta b t pid) as [pm|] eqn:Hpm; [|exists []; by rewrite app_nil_r].
  destruct (Z.eqb_spec (p_Leader pm) (cfg_ID (cfg b))) as [Heq|]; [|exists []; by rewrite app_nil_r]. cbn [negb].
  assert (∀ (off : Z) recs', keeps (still (cfg b) recs') (leo ← on_log (store_key t pid) (gets op_leo);
    modify (noteSelfLEO (ce_now env) t pid leo);; recomputeHW (ce_now env) (ce_disk_ok env) t pid;;
    mret (pid, store_key t pid, off))) as Hrest.
  { intros off recs'. pose proof (still_kept (cfg b) recs') as Hk.
    apply keeps_bind; [apply (kp_gets _ _ _ Hk)|]. intros leo. apply keeps_bind; [apply keeps_modify; intros b'; by apply still_same|]. intros _.
    apply keeps_bind; [by apply (keeps_recomputeHW _ _ _ Hk)|]. intros _. apply keeps_ret. }
  destruct (decide (pid = p)) as [->|Hne].
  - rewrite (bind_Ok _ _ _ _ _ (on_store_open t p b1 l Hl)).
    pose proof (Hroom p l Hpid Hl) as Hmax. rewrite (log_leo _ _ Hrecs) in Hmax.
    set (r := new_record (ce_ts env) (Zlength recs) rec).
    pose proof (log_append (ce_ts env) (pr_Key rec) (pr_Value rec) l recs) as Happ. cbn zeta in Happ.
    rewrite stamp_id in Happ by done.
    assert (wf_record r) as Hwf by (split; [cbn; unfold is_i64, Zlength in *; lia|by split]).
    destruct Happ as (l' & Hrun & Hrecs' & _); [done|exact Hwf|done|].
    assert (on_log k (op_append (ce_ts env) (pr_Key rec) (pr_Value rec)) b1 = (Ok (Zlength recs), set_log k l' b1)) as Ha.
    { by rewrite (on_log_run _ _ b1 l Hl), Hrun. }
    rewrite (bind_Ok _ _ _ _ _ Ha). exists [r]. split.
    + apply Hrest. split; [done|]. exists l'. split; [apply log_at_set_log|done].
    + apply Forall_singleton. split_and!; try done. intros x Hx%lookup_lt_Some.
      assert (leads b) as Hb by (unfold leads; rewrite Hpm; cbn; by rewrite Heq).
      specialize (Hlead Hb). cbn in Hx. unfold Zlength in *. lia.
  - exists []. rewrite app_nil_r. split; [|done]. pose proof (still_kept (cfg b) recs) as Hk. clearbody b1. revert b1 Hpick Hb1.
    cut (keeps (still (cfg b) recs) (i ← on_store (store_Open t pid);
      off ← on_log i (op_append (ce_ts env) (pr_Key rec) (pr_Value rec)); leo ← on_log i (gets op_leo);
      modify (noteSelfLEO (ce_now env) t pid leo);; recomputeHW (ce_now env) (ce_disk_ok env) t pid;; mret (pid, i, off))).
    { intros Hall b1 _ Hb1. exact (Hall b1 Hb1). }
    apply (keeps_open_bind _ _ _ Hk). apply keeps_bind; [|intros off; exact (Hrest off recs)].
    apply keeps_on_log_still. intros [_ E]%store_key_topic. apply Itoa_inj in E; lia.
Qed.

(** Neither does an answer bring anything else. *)
Lemma follow_records_sound now out :
  Forall sound out → ∀ b l recs, log_at b k = Some l → log_contents l recs →
  ∃ l' ext, follow_records now k (json_record <$> toWire out) b = (Ok tt, set_log k l' b) ∧
    log_contents l' (recs ++ ext) ∧ Forall sound ext.
Proof.
  induction 1 as [|r out Hr _ IH]; intros b l recs Hl Hrecs.
  { exists l, []. cbn. by rewrite set_log_id, app_nil_r. }
  pose proof Hr as (Hwf & Hmax & Hts & Hutf & _). unfold toWire. cbn [fmap list_fmap].
  rewrite json_record_utf8 by done. cbn [follow_records].
  rewrite (bind_Ok _ _ _ _ _ (on_log_gets _ _ _ _ Hl)), (log_leo _ _ Hrecs).
  unfold from_wire. cbn. destruct (Z.ltb_spec (Offset r) (Zlength recs)); [by eapply IH|].
  destruct (Z.ltb_spec (Zlength recs) (Offset r)).
  { exists l, []. by rewrite set_log_id, app_nil_r. }
  assert (Offset r = Zlength recs) as Ho by lia.
  pose proof (log_append_at now r l recs Hrecs) as Happ. rewrite stamp_id in Happ by done.
  rewrite Ho, Z.eqb_refl in Happ. destruct Happ as (l1 & Hrun1 & Hrecs1 & _); [done|lia|].
  destruct (IH (set_log k l1 b) l1 (recs ++ [r]) (log_at_set_log _ _ _) Hrecs1) as (l' & ext & Hrun & Hrecs' & Hext).
  exists l', (r :: ext). split_and!; [|by rewrite <- app_assoc in Hrecs'|by constructor].
  erewrite bind_Ok; cycle 1.
  { apply attempt_Ok. rewrite (on_log_run _ _ _ _ Hl). destruct r; cbn in *. by rewrite Hrun1. }
  rewrite <- (set_log_set_log k l1 l' b). exact Hrun.
Qed.

Lemma reply_sound now fr b recs :
  carries fr → carrier b recs →
  ∃ ext, still (cfg b) (recs ++ ext) (snd (follow_reply now t p fr b)) ∧ Forall sound ext.
Proof.
  intros (out & Hfr & Hout) [(l & Hl & Hrecs) _ _].
  destruct (follow_records_sound now out Hout b l recs Hl Hrecs) as (l' & ext & Hrun & Hrecs' & Hext).
  exists ext. split; [|done]. unfold follow_reply. cbv zeta. rewrite Hfr, (bind_Ok _ _ _ _ _ Hrun).
  rewrite (bind_Ok _ _ _ _ _ (on_log_modify k (op_set_hw (f_HighWatermark fr)) _ _ (log_at_set_log k l' b))).
  rewrite set_log_set_log. set (l2 := op_set_hw _ l').
  rewrite (bind_Ok _ _ _ _ _ (on_log_gets k op_leo _ _ (log_at_set_log k l2 b))).
  split; [done|]. exists l2. split; [apply (log_at_set_log k l2 b)|by apply log_set_hw].
Qed.

(** A leader answers with records of its log. *)
Lemma serve_sound off maxBytes b recs fr b' :
  carrier b recs → 0 ≤ off → serveFetch (λ _ _ _ _ _, None) t p off maxBytes true b = (Ok (Fetched fr), b') →
  b' = b ∧ carries (json_fetch fr).
Proof.
  intros [(l & Hl & Hrecs) Hs _] Hoff Hrun. destruct (partition_meta b t p) as [pm|] eqn:Hpm.
  2: { unfold serveFetch in Hrun. cbv zeta in Hrun.
       rewrite (bind_Ok _ _ _ _ _ (eq_refl : gets id b = (Ok b, b))), Hpm in Hrun. done. }
  destruct (Z.eqb_spec (p_Leader pm) (cfg_ID (cfg b))) as [Heq|Hne].
  2: { unfold serveFetch in Hrun. cbv zeta in Hrun.
       rewrite (bind_Ok _ _ _ _ _ (eq_refl : gets id b = (Ok b, b))), Hpm, (proj2 (Z.eqb_neq _ _) Hne) in Hrun.
       cbn [negb] in Hrun. by rewrite andb_false_r in Hrun. }
  destruct (serveFetch_spec (λ _ _ _ _ _, None) t p off maxBytes true b pm l recs Hpm Heq Hl Hrecs Hoff)
    as (out & Hrun' & Hsub & _). rewrite Hrun in Hrun'. injection Hrun' as -> ->. split; [done|].
  exists out. split; [done|]. rewrite Forall_forall in *. intros r Hr. apply Hs. by eapply elem_of_sublist.
Qed.

(** Whatever a broker does, its log grows by sound records, and so are those of
    the answers it sends. *)
Lemma acts_sound fl b b' out recs :
  acts fl b b' out → (∀ fr, fr ∈ fl → carries fr) → carrier b recs →
  cfg b' = cfg b ∧ (∃ ext, holds_at t p b' (recs ++ ext) ∧ Forall sound ext) ∧ ∀ fr, fr ∈ out → carries fr.
Proof.
  intros Hacts Hfl Hb.
  assert (∀ b', (∃ ext, still (cfg b) (recs ++ ext) b' ∧ Forall sound ext) →
    cfg b' = cfg b ∧ (∃ ext, holds_at t p b' (recs ++ ext) ∧ Forall sound ext) ∧ ∀ fr, fr ∈ [] → carries fr) as Hone.
  { intros b1 (ext & [Hc Hh] & Hext). split; [done|]. split; [by exists ext|]. by intros fr ?%elem_of_nil. }
  assert (still (cfg b) recs b) as Hstill by (by split; [|apply (ca_holds _ _ Hb)]).
  destruct Hacts as [env req n rec b Ht Hn Hclean Hroom|q b|off maxBytes fr b b' Hoff Hrun|now fr b Hfr|b b' Hc Hh|b b' Hh].
  - apply Hone. by apply append_sound.
  - apply Hone. exists []. rewrite app_nil_r. split; [|done]. by apply (keeps_maybeSoloHW _ _ _ (still_kept (cfg b) recs)).
  - destruct (serve_sound off maxBytes b recs fr b' Hb Hoff Hrun) as [-> Hfr]. split; [done|].
    split; [exists []; rewrite app_nil_r; by split; [apply (ca_holds _ _ Hb)|]|].
    by intros fr' ->%list_elem_of_singleton.
  - apply Hone. apply reply_sound; [by apply Hfl|done].
  - apply Hone. exists []. rewrite app_nil_r. split; [|done]. split; [done|]. apply Hh, (ca_holds _ _ Hb).
  - apply Hone. exists []. rewrite app_nil_r. split; [|done].
    by apply (kept_handled _ _ _ (still_kept (cfg b) recs) b b' Hh).
Qed.

(** ** The invariant *)

(** Every log has the committed records or a part of them; the brokers that
    lead, and those that may come to lead, have them all. *)
Record agreed (heirs : list Z) (s : replicas) : Prop := {
  ag_logs id b : brokers s !! id = Some b → cfg_ID (cfg b) = id ∧
    ∃ recs, carrier b recs ∧ (id ∈ heirs → Zlength P ≤ Zlength recs);
  ag_flying fr : fr ∈ flying s → carries fr
}.

Lemma agreed_step heirs s s' : agreed heirs s → moves heirs s s' → agreed heirs s'.
Proof.
  intros Ha Hstep. destruct Hstep as [s id b b' out Hid Hacts Hlead]. destruct Ha as [Hlogs Hfly]. destruct (Hlogs id b Hid) as (Hcfg & recs & Hb & HI).
  destruct (acts_sound _ b b' out recs Hacts Hfly Hb) as (Hcfg' & (ext & Hh & Hext) & Hout).
  split; cbn.
  - intros i b1 [[<- <-]|[_ Hi]]%lookup_insert_Some; [|by apply Hlogs]. split; [by rewrite Hcfg'|].
    exists (recs ++ ext). assert (Zlength recs ≤ Zlength (recs ++ ext)) as Hle.
    { unfold Zlength. rewrite length_app. lia. }
    split; [split|]; [done| | |intros Hin; specialize (HI Hin); lia].
    + apply Forall_app. split; [apply (ca_sound _ _ Hb)|done].
    + intros [Hl|Hin]%Hlead; [pose proof (ca_leads _ _ Hb Hl)|specialize (HI Hin)]; lia.
  - intros fr [?|?]%elem_of_app; [by apply Hout|by apply Hfly].
Qed.

Lemma agreed_steps heirs s s' : rtc (moves heirs) s s' → agreed heirs s → agreed heirs s'.
Proof. induction 1 as [|s1 s2 s3 Hstep _ IH]; [done|]. intros Hs. by eapply IH, agreed_step. Qed.

Lemma agreed_prefix heirs s id b :
  agreed heirs s → brokers s !! id = Some b → leads b ∨ id ∈ heirs →
  ∃ recs, holds_at t p b recs ∧ P `prefix_of` recs.
Proof.
  intros [Hlogs _] Hid Hor. destruct (Hlogs id b Hid) as (_ & recs & [Hh Hs Hlead] & Hin). exists recs. split; [done|].
  destruct Hh as (l & Hl & Hrecs). apply sound_prefix; [by apply (log_records l)|done|].
  destruct Hor; auto.
Qed.
End elections.

Arguments Replicas {L D}.

Section survival.
Context {L D : Type} `{LogOpener L D} `{LogLaws L}.
Implicit Types b : Broker L D.
Context (t : string) (n p : Z) (Hn : 0 < n < 2 ^ 32) (Hp : 0 ≤ p < n).
#[local] Abbreviation k := (store_key t p).

(** The brokers of a system and its messages. *)
Definition all_brokers (s : system (L:=L) (D:=D)) : replicas :=
  Replicas (<[cfg_ID (cfg (leader s)) := leader s]> (followers s)) (answers s).*2.

(** A record of the leader's log is sound with respect to its first ones. *)
Lemma sound_here all h r : replicable all → r ∈ all → sound (take h all) r.
Proof.
  intros [Hc Hwf Hts Hutf Hmax] Hr. rewrite Forall_forall in Hwf, Hts, Hutf.
  pose proof Hr as [i Hi]%list_elem_of_lookup. pose proof (Hc _ _ Hi) as Ho. pose proof (lookup_lt_Some _ _ _ Hi) as Hlt.
  split_and!; auto; [unfold Zlength in *; lia|]. intros x. rewrite Ho, Z.add_0_l, Nat2Z.id.
  rewrite lookup_take_Some. intros [Hx _]. congruence.
Qed.

Lemma good_agreed s C h heirs :
  good t n p s C → 0 ≤ h ≤ Zlength (C p) →
  (∀ id f, followers s !! id = Some f → leads t p f → id ∈ heirs) →
  (∀ id f recs, id ≠ cfg_ID (cfg (leader s)) → followers s !! id = Some f → holds_at t p f recs → id ∈ heirs →
     h ≤ Zlength recs) →
  agreed t p (take (Z.to_nat h) (C p)) heirs (all_brokers s).
Proof.
  intros Hgood Hh Hlead Hin. destruct (leading_part t n _ C p (gd_leader _ _ _ _ _ Hgood) Hp) as (l & _ & Hl & Hrecs & _).
  destruct Hgood as [_ Hrep Hf Hans _ _].
  assert (Zlength (take (Z.to_nat h) (C p)) = h) as Hlen by (unfold Zlength in *; rewrite length_take; lia).
  assert (∀ recs, recs `prefix_of` C p → Forall (sound (take (Z.to_nat h) (C p))) recs) as Hsound.
  { intros recs [rest E]. apply Forall_forall. intros r Hr. apply sound_here; [done|]. rewrite E. apply elem_of_app. by left. }
  split; cbn.
  - intros id b [[<- <-]|[Hne Hid]]%lookup_insert_Some.
    + split; [done|]. exists (C p). split; [split|]; [by exists l|by apply Hsound|rewrite Hlen; lia..].
    + destruct (Hf id b Hid) as (Hi & recs & Hh' & Hpre). split; [done|]. exists recs.
      split; [split|]; [done|by apply Hsound| |]; intros ?; rewrite Hlen; apply (Hin id b); try done. by apply (Hlead id b).
  - intros fr ([i fr'] & -> & Hx)%list_elem_of_fmap. destruct (Hans i fr' Hx) as (out & Hfr & Hout).
    exists out. split; [done|]. eapply Forall_impl; [exact Hout|]. intros r. by apply sound_here.
Qed.

(** What was committed in a step stays at the start of the logs of the ISR and of
    all leaders. *)
Lemma progress_survives s C s' C' :
  progress t n p s C s' C' →
  ∃ l l' pm, log_at (leader s) k = Some l ∧ log_at (leader s') k = Some l' ∧ log_contents l' (C' p) ∧
    partition_meta (leader s') t p = Some pm ∧ op_hw l ≤ op_hw l' ≤ Zlength (C' p) ∧
    (op_hw l < op_hw l' → (∀ id f, followers s' !! id = Some f → leads t p f → id ∈ p_ISR pm) →
     ∀ s2, rtc (moves t p (p_ISR pm)) (all_brokers s') s2 →
     ∀ id b, brokers s2 !! id = Some b → leads t p b ∨ id ∈ p_ISR pm →
     ∃ recs, holds_at t p b recs ∧ take (Z.to_nat (op_hw l')) (C' p) `prefix_of` recs).
Proof.
  intros [Hgood _ Hcfg (l & l' & pm & Hl & Hl' & Hrecs' & Hpm & Hhw & Hisr)]. pose proof (log_hw _ _ Hrecs') as Hmax.
  exists l, l', pm. split_and!; try done; [lia|]. intros Hlt Hnone s2 Hsteps id b Hid Hor.
  apply (agreed_prefix t p (take (Z.to_nat (op_hw l')) (C' p)) (p_ISR pm) s2 id b); [|done|done].
  eapply agreed_steps; [lia|exact Hsteps|]. apply good_agreed; [done|lia|done|].
  intros i f recs Hne Hf Hh Hin. rewrite Hcfg in Hne.
  destruct (Hisr Hlt i Hin Hne) as (f' & recs' & Hf' & Hh' & _ & Hm). simplify_eq.
  by rewrite (holds_at_length t p f recs recs').
Qed.

(** Asked for an offset of [P], a leader answers with the record there. *)
Lemma serves_prefix P b recs proxy off maxBytes replica r :
  leads t p b → holds_at t p b recs → P `prefix_of` recs → 0 ≤ off → P !! Z.to_nat off = Some r →
  ∃ lb fr, log_at b k = Some lb ∧ serveFetch proxy t p off maxBytes replica b = (Ok (Fetched fr), b) ∧
    (replica = true ∨ off < op_hw lb → head (f_Records fr) = head (toWire [r])).
Proof.
  intros Hlead (lb & Hlb & Hrecs) Hpre Hoff Hr. unfold leads in Hlead.
  destruct (partition_meta b t p) as [pm|] eqn:Hpm; [|done]. injection Hlead as Hlead.
  destruct (serveFetch_spec proxy t p off maxBytes replica b pm lb recs Hpm Hlead Hlb Hrecs Hoff) as
    (out & Hserve & _ & _ & Hhead & _).
  do 2 eexists. split; [done|]. split; [exact Hserve|]. intros Hlim.
  pose proof (prefix_lookup_Some _ _ _ _ Hr Hpre) as Hr'. pose proof (lookup_lt_Some _ _ _ Hr') as Hlt.
  rewrite Hr' in Hhead. destruct out as [|r' out]; [|injection Hhead as ->; [done|]].
  - discriminate Hhead. unfold fetch_limit. destruct replica; [unfold Zlength in *; lia|]. destruct Hlim; [done|lia].
  - unfold fetch_limit. destruct replica; [unfold Zlength in *; lia|]. destruct Hlim; [done|lia].
Qed.

(** C3: committed records survive every change of leader among those that had
    them. Suppose that a step from a reachable state raises the high watermark,
    and that from then on only members of the ISR of that moment come to lead.
    Then whatever happens, each of them, and every broker that takes itself for
    the leader, keeps the committed records at the start of its log, and answers a
    fetch of a committed offset with the record that was committed: leaders may
    change any number of times, two brokers may lead at once, logs may diverge
    behind the committed records, brokers may start again, and answers of former
    leaders may arrive late. *)
Theorem committed_records_survive_changes_of_leader s s'
    (Hs : reachable t n p s) (Hstep : steady t n p s s') :
  ∃ all l l' pm, log_at (leader s) k = Some l ∧ log_at (leader s') k = Some l' ∧ log_contents l' all ∧
    partition_meta (leader s') t p = Some pm ∧ op_hw l ≤ op_hw l' ≤ Zlength all ∧
    (op_hw l < op_hw l' → (∀ id f, followers s' !! id = Some f → leads t p f → id ∈ p_ISR pm) →
     ∀ s2, rtc (moves t p (p_ISR pm)) (all_brokers s') s2 →
     ∀ id b, brokers s2 !! id = Some b → leads t p b ∨ id ∈ p_ISR pm →
       (∃ recs, holds_at t p b recs ∧ take (Z.to_nat (op_hw l')) all `prefix_of` recs) ∧
       (leads t p b → ∀ off, 0 ≤ off < op_hw l' → ∃ r lb, all !! Z.to_nat off = Some r ∧ log_at b k = Some lb ∧
          ∀ proxy maxBytes replica, replica = true ∨ off < op_hw lb →
          ∃ fr, serveFetch proxy t p off maxBytes replica b = (Ok (Fetched fr), b) ∧
            head (f_Records fr) = head (toWire [r]))).
Proof.
  destruct (reachable_good t n p Hn Hp s Hs) as [C Hgood].
  destruct (steady_progress t n p Hn Hp s s' C Hgood Hstep) as [C' Hprog].
  destruct (progress_survives s C s' C' Hprog) as (l & l' & pm & Hl & Hl' & Hrecs' & Hpm & Hhw & Hall).
  pose proof (log_hw _ _ Hrecs') as Hmax.
  exists (C' p), l, l', pm. do 5 (split; [done|]). intros Hlt Hnone s2 Hsteps id b Hid Hor.
  destruct (Hall Hlt Hnone s2 Hsteps id b Hid Hor) as (recs & Hh & Hpre). split; [by exists recs|].
  intros Hlead off Hoff. destruct (lookup_lt_is_Some_2 (C' p) (Z.to_nat off)) as [r Hr]; [unfold Zlength in *; lia|].
  assert (take (Z.to_nat (op_hw l')) (C' p) !! Z.to_nat off = Some r) as Hr'.
  { rewrite lookup_take_Some. split; [done|lia]. }
  destruct Hh as (lb & Hlb & Hrecsb). exists r, lb. split; [done|]. split; [done|]. intros proxy maxBytes replica Hlim.
  destruct (serves_prefix (take (Z.to_nat (op_hw l')) (C' p)) b recs proxy off maxBytes replica r Hlead) as (lb' & fr & Hlb' & Hserve & Hhead);
    [by exists lb|done|lia|done|]. exists fr. split; [exact Hserve|]. apply Hhead. by simplify_eq.
Qed.

(** *** acks=all *)

(** The first step of a run in which the high watermark passes [off]. *)
Lemma passes s C s2 off :
  good t n p s C → rtc (steady t n p) s s2 →
  (∃ l, log_at (leader s) k = Some l ∧ op_hw l ≤ off) → (∃ l, log_at (leader s2) k = Some l ∧ off < op_hw l) →
  ∃ sa Ca sb Cb, rtc (steady t n p) s sa ∧ steady t n p sa sb ∧ rtc (steady t n p) sb s2 ∧
    progress t n p sa Ca sb Cb ∧ C p `prefix_of` Ca p ∧
    (∃ la, log_at (leader sa) k = Some la ∧ op_hw la ≤ off) ∧ (∃ lb, log_at (leader sb) k = Some lb ∧ off < op_hw lb).
Proof.
  intros Hgood Hsteps. revert C Hgood. induction Hsteps as [s|s s1 s2 Hstep Hsteps IH]; intros C Hgood (l & Hl & Hle) Hend.
  { destruct Hend as (l' & Hl' & Hlt). rewrite Hl in Hl'. injection Hl' as <-. lia. }
  destruct (steady_progress t n p Hn Hp s s1 C Hgood Hstep) as [C1 Hprog].
  pose proof (pr_hw _ _ _ _ _ _ _ Hprog) as (l0 & l1 & pm & Hl0 & Hl1 & _). rewrite Hl in Hl0. injection Hl0 as <-.
  destruct (Z.le_gt_cases (op_hw l1) off) as [Hle1|Hgt1].
  - destruct (IH C1 (pr_good _ _ _ _ _ _ _ Hprog)) as (sa & Ca & sb & Cb & H1' & H2 & H3 & H4 & H5 & H6); [by exists l1|done|].
    exists sa, Ca, sb, Cb. split; [by eapply rtc_l|]. split; [done|]. split; [done|]. split; [done|]. split; [|done].
    etrans; [apply (pr_grows _ _ _ _ _ _ _ Hprog)|done].
  - exists s, C, s1, C1. split; [done|]. split; [done|]. split; [done|]. split; [done|]. split; [done|].
    split; [by exists l|exists l1; split; [done|lia]].
Qed.

(** A produced record is in the log from its step on. *)
Lemma appended_at s C env req rec off b C1 :
  good t n p s C → rq_Topic req = t → fits (ce_ts env) rec → room t n (leader s) →
  produce_append env req n rec (leader s) = (Ok (p, k, off), b) → progress t n p s C (set_leader b s) C1 →
  off = Zlength (C p) ∧ C1 p = C p ++ [new_record (ce_ts env) off rec].
Proof.
  intros Hgood Ht Hfits Hroom Hrun Hprog. pose proof (gd_leader _ _ _ _ _ Hgood) as Hb. rewrite <- Ht in Hb.
  destruct (produce_append_spec env req n rec (leader s) C Hn Hfits) as (pid & b' & Hrun' & _ & Hb' & _); [|exact Hb|].
  { intros q Hq. destruct (ld_log _ _ _ _ Hb q Hq) as (l & Hl & Hrecs). rewrite <- (log_leo _ _ Hrecs).
    apply (Hroom q); [done|]. by rewrite <- Ht. }
  rewrite Hrun in Hrun'. injection Hrun' as <- _ -> <-. split; [done|].
  destruct (ld_log _ _ _ _ Hb' p Hp) as (l & Hl & Hrecs). rewrite Ht in Hl. unfold upd in Hrecs. rewrite Z.eqb_refl in Hrecs.
  pose proof (pr_hw _ _ _ _ _ _ _ Hprog) as (_ & l1 & _ & _ & Hl1 & Hrecs1 & _). cbn in Hl1.
  rewrite Hl in Hl1. injection Hl1 as <-. by eapply log_contents_unique.
Qed.

(** C2: a record acknowledged with acks=all survives. A record is appended for a
    produce request to the leader, fetches, acks and other requests come and go,
    and the high watermark the request waits for passes the record's offset. Then
    there was a step in between such that, while only members of the ISR of that
    step come to lead, each of them, and every broker that takes itself for the
    leader, has the record at the offset the request is answered with, whatever
    happens. *)
Theorem acknowledged_records_survive s env req rec off b s2
    (Hs : reachable t n p s) (Ht : rq_Topic req = t) (Hclean : clean (ce_ts env) rec) (Hroom : room t n (leader s))
    (Hrun : produce_append env req n rec (leader s) = (Ok (p, k, off), b))
    (Hwait : rtc (steady t n p) (set_leader b s) s2) (Hseen : ∃ l, log_at (leader s2) k = Some l ∧ off < op_hw l) :
  ∃ s1 pm, rtc (steady t n p) (set_leader b s) s1 ∧ rtc (steady t n p) s1 s2 ∧
    partition_meta (leader s1) t p = Some pm ∧
    ((∀ id f, followers s1 !! id = Some f → leads t p f → id ∈ p_ISR pm) →
     ∀ s', rtc (moves t p (p_ISR pm)) (all_brokers s1) s' →
     ∀ id b', brokers s' !! id = Some b' → leads t p b' ∨ id ∈ p_ISR pm →
     ∃ recs, holds_at t p b' recs ∧ recs !! Z.to_nat off = Some (new_record (ce_ts env) off rec)).
Proof.
  destruct (reachable_good t n p Hn Hp s Hs) as [C Hgood].
  assert (steady t n p s (set_leader b s)) as Hstep by (by eapply steady_append).
  destruct (steady_progress t n p Hn Hp s _ C Hgood Hstep) as [C1 Hprog].
  destruct (appended_at s C env req rec off b C1) as [Hoff HC1]; [done..|apply Hclean|done|done|done|].
  set (r := new_record (ce_ts env) off rec) in *.
  assert (∀ sa Ca sb Cb la, progress t n p sa Ca sb Cb → C1 p `prefix_of` Cb p → rtc (steady t n p) (set_leader b s) sb →
    rtc (steady t n p) sb s2 → log_at (leader sa) k = Some la → op_hw la ≤ off →
    (∃ lb, log_at (leader sb) k = Some lb ∧ off < op_hw lb) → ∃ s1 pm, rtc (steady t n p) (set_leader b s) s1 ∧
    rtc (steady t n p) s1 s2 ∧ partition_meta (leader s1) t p = Some pm ∧
    ((∀ id f, followers s1 !! id = Some f → leads t p f → id ∈ p_ISR pm) →
     ∀ s', rtc (moves t p (p_ISR pm)) (all_brokers s1) s' →
     ∀ id b', brokers s' !! id = Some b' → leads t p b' ∨ id ∈ p_ISR pm →
     ∃ recs, holds_at t p b' recs ∧ recs !! Z.to_nat off = Some r)) as Hmain.
  { intros sa Ca sb Cb la Hpr Hpre H1' H2' Hla Hle (lb & Hlb & Hlt).
    destruct (progress_survives sa Ca sb Cb Hpr) as (l & l' & pm & Hl & Hl' & _ & Hpm & _ & Hall). simplify_eq.
    exists sb, pm. do 3 (split; [done|]). intros Hnone s' Hsteps id b' Hid Hor.
    destruct (Hall ltac:(lia) Hnone s' Hsteps id b' Hid Hor) as (recs & Hh & Hp'). exists recs. split; [done|].
    eapply prefix_lookup_Some; [|exact Hp']. rewrite lookup_take_Some. split; [|unfold Zlength in *; lia].
    eapply prefix_lookup_Some; [|exact Hpre]. rewrite HC1. unfold Zlength. rewrite Nat2Z.id. apply list_lookup_middle. done. }
  pose proof (pr_hw _ _ _ _ _ _ _ Hprog) as (l & l1 & pm & Hl & Hl1 & Hrecs1 & _).
  destruct (leading_part t n _ C p (gd_leader _ _ _ _ _ Hgood) Hp) as (l0 & _ & Hl0 & Hrecs0 & _).
  assert (op_hw l ≤ off) as Hle.
  { rewrite Hl in Hl0. injection Hl0 as <-. pose proof (log_hw _ _ Hrecs0). lia. }
  destruct (Z.le_gt_cases (op_hw l1) off) as [Hle1|Hgt1].
  - destruct (passes _ C1 s2 off (pr_good _ _ _ _ _ _ _ Hprog) Hwait) as
      (sa & Ca & sb & Cb & Ha & Hab & Hb2 & Hpr & Hpre & (la & Hla & Hlea) & Hlb); [by exists l1|done|].
    apply (Hmain sa Ca sb Cb la); try done; [|by eapply rtc_r]. etrans; [exact Hpre|apply (pr_grows _ _ _ _ _ _ _ Hpr)].
  - apply (Hmain s C (set_leader b s) C1 l); try done. exists l1. split; [done|lia].
Qed.
End survival.

(** ** Sample runs *)

(** After the record is committed on brokers 1 and 2, broker 2 is told to lead. *)
Definition new_leader_push : MetadataPush := MkPush 2 [MkSnapshot "orders" [MkPartitionInfo 0 2 [1; 2] [2] 0 0]].
Definition told : Broker (log * disk) disk := snd (handleMetadataPush 2000 true new_leader_push caught_up).
Definition told_net : replicas :=
  Replicas (<[2 := told]> (brokers (all_brokers committed))) (flying (all_brokers committed)).

Lemma told_moves : rtc (moves "orders" 0 [1; 2]) (all_brokers committed) told_net.
Proof.
  apply rtc_once. apply (moves_at "orders" 0 [1; 2] (all_brokers committed) 2 caught_up told []).
  - assert (cfg_ID (cfg (leader committed)) = 1) as E by (vm_compute; reflexivity).
    unfold all_brokers. cbn [brokers]. rewrite E, lookup_insert_ne by (exact (Z.neq_sym 2 1 ltac:(lia))).
    unfold committed. rewrite followers_set_leader. apply lookup_insert_eq.
  - apply acts_other. unfold told. apply handled_push. exact Logic.I.
  - intros _. right. exact (list_elem_of_further _ _ _ (list_elem_of_here _ _)).
Qed.

Lemma committed_records_survive_changes_of_leader_witness :
  ∃ r fr, serveFetch (λ _ _ _ _ _, None) "orders" 0 0 0 true told = (Ok (Fetched fr), told) ∧
    head (f_Records fr) = head (toWire [r]).
Proof.
  destruct (committed_records_survive_changes_of_leader "orders" 1 0 ltac:(lia) ltac:(lia) acked_soon committed
    acked_soon_reachable ack_commits) as (all & l & l' & pm & Hl & Hl' & _ & Hpm & _ & Hsurvive).
  assert (op_hw <$> log_at (leader acked_soon) (store_key "orders" 0) = Some 0) as E1 by (vm_compute; reflexivity).
  assert (op_hw <$> log_at (leader committed) (store_key "orders" 0) = Some 1) as E2 by (vm_compute; reflexivity).
  assert (p_ISR <$> partition_meta (leader committed) "orders" 0 = Some [1; 2]) as E3 by (vm_compute; reflexivity).
  rewrite Hl in E1. rewrite Hl' in E2. rewrite Hpm in E3. injection E1 as E1. injection E2 as E2. injection E3 as E3.
  change (op_hw l = 0) in E1. change (op_hw l' = 1) in E2. rewrite E3 in Hsurvive.
  destruct (Hsurvive ltac:(lia)) with (s2 := told_net) (id := 2) (b := told) as [_ Hserve].
  - intros id f Hf Hlead. assert (followers committed = {[2 := caught_up]}) as Ef by (vm_compute; reflexivity).
    rewrite Ef in Hf. apply lookup_singleton_Some in Hf as [<- _].
    exact (list_elem_of_further _ _ _ (list_elem_of_here _ _)).
  - exact told_moves.
  - apply lookup_insert_eq.
  - left. vm_compute. reflexivity.
  - destruct (Hserve ltac:(vm_compute; reflexivity) 0) as (r & lb & _ & _ & Hfetch).
    { rewrite E2. exact (conj (Z.le_refl 0) eq_refl). }
    destruct (Hfetch (λ _ _ _ _ _, None) 0 true (or_introl eq_refl)) as (fr & Hrun & Hhead).
    exists r, fr. exact (conj Hrun Hhead).
Defined.

(** Broker 1 appends a record for an acks=all request, broker 2 fetches it and
    acks it. *)
Definition appended : Broker (log * disk) disk :=
  snd (produce_append pair_env sample_request 1 (MkProduceRecord [x61] [x01] 0) (leader in_sync_now)).
Definition waiting : system (L:=log * disk) (D:=disk) := set_leader appended in_sync_now.
Definition acked_later : system := fetched 0 sample_fetch 1 empty_copy waiting.
Definition seen : Broker (log * disk) disk := snd (handleReplicaAck 1000 true sample_ack (leader acked_later)).

Lemma waiting_steps : rtc (steady "orders" 1 0) waiting (set_leader seen acked_later).
Proof.
  etrans; [apply (fetched_steps 0 sample_fetch 1 empty_copy waiting); [done|reflexivity|vm_compute; reflexivity..]|].
  apply rtc_once. fold acked_later. unfold seen.
  eapply (steady_ack _ _ _ acked_later sample_ack 1000 true); [exact (list_elem_of_here sample_ack _)|].
  eapply (run_result (handleReplicaAck 1000 true sample_ack) (leader acked_later)). vm_compute. reflexivity.
Qed.

Lemma acknowledged_records_survive_witness :
  ∃ s1 pm, rtc (steady "orders" 1 0) waiting s1 ∧ partition_meta (leader s1) "orders" 0 = Some pm ∧
    ((∀ id f, followers s1 !! id = Some f → leads "orders" 0 f → id ∈ p_ISR pm) →
     ∀ s', rtc (moves "orders" 0 (p_ISR pm)) (all_brokers s1) s' →
     ∀ id b, brokers s' !! id = Some b → leads "orders" 0 b ∨ id ∈ p_ISR pm →
     ∃ recs, holds_at "orders" 0 b recs ∧ recs !! 0%nat = Some (Rec 0 1000 [x61] [x01])).
Proof.
  destruct (acknowledged_records_survive "orders" 1 0 ltac:(lia) ltac:(lia) in_sync_now pair_env sample_request
    (MkProduceRecord [x61] [x01] 0) 0 appended (set_leader seen acked_later)) as (s1 & pm & H1 & _ & Hpm & Hall).
  - exact in_sync_reachable.
  - reflexivity.
  - split; [apply (bool_decide_unpack _); vm_compute; exact Logic.I|]. split; [done|]. by vm_compute.
  - exact in_sync_room.
  - unfold appended. apply run_result. vm_compute. reflexivity.
  - exact waiting_steps.
  - rewrite leader_set_leader. assert (op_hw <$> log_at seen (store_key "orders" 0) = Some 1) as E by (vm_compute; reflexivity).
    destruct (log_at seen (store_key "orders" 0)) as [l|] eqn:El; [|discriminate E]. injection E as E. change (op_hw l = 1) in E.
    exists l. split; [reflexivity|]. rewrite E. reflexivity.
  - exists s1, pm. split; [exact H1|]. split; [exact Hpm|exact Hall].
Defined.
